(* ===== verification/_CoqProject ===== *)
-Q . S2P
Prelude.v
Coding.v
Crc32c.v
LogWriter.v
LogReader.v
LogRoundtrip.v
LogTotal.v
Comparator.v
DbFormat.v
Bloom.v
BlockBuilder.v
VersionEdit.v
EditTypes.v
WriteBatch.v
BatchRefine.v
WalReplay.v
VersionStorage.v
FileIndexer.v
NvmAlloc.v
SstableMeta.v
VersionBuilder.v
FilePicker.v
Manifest.v
GroupCommit.v
Recovery.v
Snapshot.v
VersionSet.v
KeysMerge.v
L0Table.v
Iterator.v
Block.v
BlockScan.v
BlockRoundtrip.v
BlockGet.v
Heap.v
MergingIter.v
NvmCf.v
ColumnPick.v
NvmIter.v
NvmCfState.v
FlushJob.v
NvmModule.v
NvmScan.v
ColumnCompaction.v
