(* ===== verification/Prelude.v ===== *)
(** * Verification of MatrixKV

    MatrixKV is RocksDB with its level 0 moved to non-volatile memory.  Writes go to a log
    and a memtable; a full memtable is flushed to a table in an NVM slot; column compactions
    move the smallest keys of all NVM tables to the files of level 1; the files of every
    level are described by versions, and the manifest, a log of version edits, is what the
    database recovers from.  This library models the NVM level, what keeps track of its
    tables, and the formats and iterators these rest on.  File names below are under src/.

    ** Conventions

    Bytes are [list byte], machine integers are [Z] with [wrap w] where the source's width
    matters, pointers are offsets or locations in an explicit store.  A result [None] is a
    failed assertion, an access out of range or exhausted fuel, so a theorem that gives
    [Some] excludes all of them.  Comparators, PMDK and iterators are interfaces: the class
    of a record of operations with the laws its documentation states ([ComparatorLaws],
    [PmemLaws], [ScanLaws], [SeekLaw], [ReverseLaws], [SeekForPrevLaw]), against which
    clients are proved and which each implementation discharges.

    ** Files

    Foundations.
    - [Prelude]: integers, byte strings, lists, checked memory, the option monad.
    - [Coding] (util/coding), [Crc32c] (util/crc32c), [Comparator] (util/comparator),
      [DbFormat] (db/dbformat): encodings, checksums, key orders, internal keys.
    - [Bloom] (util/hash, util/bloom): the hash function and both kinds of filters.
    - [Heap] (util/heap.h), [Iterator] (table/internal_iterator.h), [MergingIter]
      (table/merging_iterator.cc): the merging iterator over any lawful children.

    Blocks of SST files.
    - [BlockBuilder] (table/block_builder, data_block_hash_index, data_block_footer) and
      [Block] (table/block): the operations of the builder and of [DataBlockIter].
    - [BlockScan]: the layout of a block and the iterator's laws on it.  [BlockRoundtrip]:
      the builder writes that layout; the iterator is a cursor over the added records; the
      error under a global sequence number.  [BlockGet]: lookups by the hash index.

    Logs.
    - [LogWriter], [LogReader] (db/log_writer, db/log_reader): both sides of the format.
      [LogRoundtrip]: what is written is read back, whole or cut anywhere, whichever file
      calls fail.  [LogTotal]: the reader on arbitrary bytes.
    - [WriteBatch] (db/write_batch): what a record of the write-ahead log holds.
      [BatchRefine]: a batch is a list of records, and iterating over any bytes ends.
      [WalReplay] (db/db_impl_open.cc): batches written to a log and replayed from it.

    Versions.
    - [VersionEdit], [EditTypes] (db/version_edit): edits, their encoding, and the types of
      what is decoded.  [VersionBuilder] (db/version_builder): edits applied to a version.
    - [VersionStorage], [FileIndexer], [FilePicker] (db/version_set.cc, db/file_indexer):
      overlap queries and the choice of the files of a lookup.
    - [VersionSet] (db/version_set.cc, db/db_impl_files.cc): installation, references,
      obsolete files, as interleaved steps.
    - [Manifest], [GroupCommit], [Recovery], [Snapshot] (db/version_set.cc): writing the
      manifest, grouping edits, recovering versions, starting a new manifest.

    The NVM level (utilities/nvm_mod).
    - [NvmAlloc] (bitmap, persistent_sstable): slots.  [SstableMeta] (sstable_meta): the
      tables and the hints that lead a lookup from one to the next.  [L0Table]
      (l0_table_builder): the layout of a table.  [NvmIter] (column_compaction_iterator).
    - [NvmCf], [NvmCfState], [NvmModule] (nvm_cf_mod): lookups, every operation that changes
      the module's state, and its whole life.  [NvmScan]: scans of level 0.
    - [FlushJob] (nvm_flush_job): a flush and its version edit.
    - [KeysMerge] (keys_merge_iterator), [ColumnPick] (PickColumnCompaction),
      [ColumnCompaction] (db/compaction_picker.cc, db/compaction.cc): column compactions.

    ** What is shown

    - Lookups, scans and recovery of the NVM level agree with the list of its tables in
      every state that flushes and deletions reach, for tables of fewer than 2^30 keys; a
      flush adds exactly its records.
    - A column compaction splits what level 0 shows into what moves and what stays, its
      input is the merge of both levels, and rounds of it empty level 0.
    - No table of a live version is deleted, every dropped one is while deletions are
      enabled; versions built from edits, from a snapshot or from a cut manifest have the
      files the edits describe, a manifest without the numbers it needs is refused, and
      atomic groups are applied whole or not at all.
    - Logs, edits, tables and blocks are read back as written; damage is detected, decoded
      values are in range, and the reader of logs terminates.
    - A write batch behaves as the list of its records, and recovery from a log that was cut
      anywhere applies the records of a prefix of the writes, each write whole, and fails only
      in the mode of absolute consistency.
    - Blocks and filters answer as the records and keys that were added say.
    - Where the code does not do what it means to, a theorem shows the behaviour: deleted
      keys are returned from NVM, a slot deleted twice leaks, the flags of a batch of a
      prepared transaction are lost.  Computed examples show three more: a pick splits the
      versions of a key, a lookup misses a file, a block key is misread under a global
      sequence number.

    ** Fuel

    A loop that is not structural has fuel computed from its input by its caller, and the
    theorems prove it enough: bytes of input or file for decoding and log reading (each
    round consumes some, or moves to the next block), entries or files for scans and
    searches (for a binary search the length of its range), bits of the value for
    varints, restart points for the searches of a block.  The one loop of the source that
    may not end, the log reader that skips damaged records, is excluded from the theorem of
    termination and has a lemma that shows it diverge.

    ** Not modelled

    - Threads and locks.  Operations under a mutex are atomic; [VersionSet] interleaves
      those that release it.  [DBImpl], the write path and column family reference counts
      are mostly scheduling around the modelled parts.
    - Scans of the directory for obsolete files, and the files there that are not tables.
    - Memtables (lock-free structures over raw memory): a flush takes what its iterator
      yields, and a replay hands the records to a handler that is an argument.
    - The rest of the table formats (index blocks, the table files around data blocks, plain
      and cuckoo tables), [DBIter], ordinary compaction jobs and pickers: RocksDB code that
      the NVM level leaves unchanged and reaches through iterators.
    - Two assertions of debug builds, on the range of file numbers and the order of the
      sequence numbers of an added file, which are left to the callers.
    - Floating point (filter probes, hash buckets, compaction scores): arguments with the
      range the code gives them.
    - Caches, statistics, options, environments, tools and utilities on top: they do not
      decide what the database holds. *)

From stdpp Require Export base tactics list numbers option gmap strings sorting.
From Stdlib Require Export ZArith Lia.
From coqutil Require Export Byte Word.LittleEndianList.

#[global] Open Scope Z_scope.

(** ** Notations of the development *)

Declare Scope mkv_scope.
Delimit Scope mkv_scope with mkv.
#[global] Open Scope mkv_scope.

(** A C++ [std::string], a [Slice] or a raw buffer: its bytes. *)
Abbreviation bytes := (list Byte.byte).

(** [size()] of a string, slice or vector, as the [size_t] the code computes with. *)
Definition zlen {A} (l : list A) : Z := Z.of_nat (length l).

Abbreviation len := zlen.

(** ** Machine integers *)

(** Conversion to an unsigned integer of [w] bits. *)
Definition wrap (w z : Z) : Z := z mod 2 ^ w.
Abbreviation wrap32 := (wrap 32).
Abbreviation wrap64 := (wrap 64).

(** Conversion to the signed 32-bit type [int]. *)
Definition i32 (z : Z) : Z := (z + 2 ^ 31) mod 2 ^ 32 - 2 ^ 31.

(** The value of a (signed) [char]. *)
Definition byte_signed (b : Byte.byte) : Z :=
  if byte.unsigned b <? 128 then byte.unsigned b else byte.unsigned b - 256.

Definition u32 (z : Z) : Prop := 0 <= z < 2 ^ 32.
Definition u64 (z : Z) : Prop := 0 <= z < 2 ^ 64.

(** ** Indexing with machine integers

    [v[i]] for an [int] or [size_t] index; [None] is the out-of-range access the
    source would make. *)
Definition zget {A} (l : list A) (i : Z) : option A :=
  if 0 <=? i then l !! Z.to_nat i else None.

Notation "l !z i" := (zget l i) (at level 20) : mkv_scope.

(** [v[i] = x], with the same convention. *)
Definition zset {A} (l : list A) (i : Z) (x : A) : option (list A) :=
  if (0 <=? i) && (i <? len l) then Some (<[Z.to_nat i := x]> l) else None.

(** The [n] bytes at [m + off]; [None] when the range leaves the buffer. *)
Definition mem_read (m : bytes) (off n : Z) : option bytes :=
  if (0 <=? off) && (0 <=? n) && (off + n <=? len m)
  then Some (take (Z.to_nat n) (drop (Z.to_nat off) m)) else None.

(** [memcpy(m + off, src, size)]; [None] when the range leaves the buffer. *)
Definition mem_write (m : bytes) (off : Z) (src : bytes) : option bytes :=
  if (0 <=? off) && (off + len src <=? len m)
  then Some (take (Z.to_nat off) m ++ src ++ drop (Z.to_nat off + length src) m)
  else None.

(** A loop over a container whose body may fail. *)
Fixpoint fold_opt {A S} (f : S -> A -> option S) (s : S) (l : list A) : option S :=
  match l with [] => Some s | x :: l => s ← f s x; fold_opt f s l end.

(** [for (i = 0; i < n; i++)]. *)
Definition upto (n : Z) : list Z := Z.of_nat <$> seq 0 (Z.to_nat n).

(** ** Automation *)

Create HintDb mkv.
Create Rewrite HintDb mkv.

(** Linear arithmetic over lengths, word ranges and boolean comparisons. *)
Ltac zlia := unfold u32, u64, zlen in *; lia.

(** Turns the boolean guards of the code into propositions. *)
Ltac bool_to_prop :=
  repeat match goal with
  | H : _ && _ = true |- _ => apply andb_true_iff in H as [? ?]
  | H : _ || _ = false |- _ => apply orb_false_iff in H as [? ?]
  | H : negb _ = true |- _ => apply negb_true_iff in H
  | H : negb _ = false |- _ => apply negb_false_iff in H
  | H : (_ <=? _) = true |- _ => apply Z.leb_le in H
  | H : (_ <=? _) = false |- _ => apply Z.leb_gt in H
  | H : (_ <? _) = true |- _ => apply Z.ltb_lt in H
  | H : (_ <? _) = false |- _ => apply Z.ltb_ge in H
  | H : (_ =? _) = true |- _ => apply Z.eqb_eq in H
  | H : (_ =? _) = false |- _ => apply Z.eqb_neq in H
  end.

(** Case analysis on the guard of the first conditional of the goal or of [H]. *)
Ltac guard_cases :=
  match goal with
  | |- context [if ?b then _ else _] => let E := fresh "E" in destruct b eqn:E
  end; bool_to_prop.

Ltac guard_cases_in H :=
  match type of H with
  | context [if ?b then _ else _] => let E := fresh "E" in destruct b eqn:E
  end; bool_to_prop.

(** Splits [x ← e; k] in a hypothesis that says the computation succeeds. *)
Ltac inv_bind H :=
  match type of H with
  | mbind _ ?e = Some _ =>
      let x := fresh "x" in let E := fresh "E" in
      destruct e as [x|] eqn:E; simpl in H; [| discriminate H]
  end.

(** ** Lengths *)

Section Lengths.
Context {A : Type}.
Implicit Types (l : list A).

Lemma zlen_nil : len (@nil A) = 0.
Proof. done. Qed.

Lemma zlen_cons (x : A) l : len (x :: l) = 1 + len l.
Proof. unfold zlen. simpl. lia. Qed.

Lemma zlen_app l1 l2 : len (l1 ++ l2) = len l1 + len l2.
Proof. unfold zlen. rewrite length_app. lia. Qed.

Lemma zlen_nonneg l : 0 <= len l.
Proof. unfold zlen. lia. Qed.

Lemma zlen_to_nat l : Z.to_nat (len l) = length l.
Proof. unfold zlen. lia. Qed.

Lemma zlen_zero l : len l = 0 <-> l = [].
Proof. unfold zlen. destruct l; simpl; split; intros; (done || lia). Qed.
End Lengths.

#[export] Hint Rewrite @zlen_nil @zlen_cons @zlen_app @zlen_to_nat : mkv.

Lemma zlen_le_split n z : len (le_split n z) = Z.of_nat n.
Proof. unfold zlen. by rewrite length_le_split. Qed.

#[export] Hint Rewrite zlen_le_split : mkv.
#[export] Hint Resolve zlen_nonneg : mkv.

Lemma i32_id z : - 2 ^ 31 <= z < 2 ^ 31 -> i32 z = z.
Proof. intros. unfold i32. rewrite Z.mod_small by lia. lia. Qed.

Lemma wrap_add_l w a b : wrap w (wrap w a + b) = wrap w (a + b).
Proof. unfold wrap. apply Zplus_mod_idemp_l. Qed.

Lemma wrap_add_r w a b : wrap w (a + wrap w b) = wrap w (a + b).
Proof. unfold wrap. apply Zplus_mod_idemp_r. Qed.

Lemma wrap_id w z : 0 <= z < 2 ^ w -> wrap w z = z.
Proof. intros. unfold wrap. by rewrite Z.mod_small. Qed.

Lemma byte_signed_testbit b n :
  0 <= n < 8 -> Z.testbit (byte_signed b) n = Z.testbit (byte.unsigned b) n.
Proof.
  intros. rewrite <- (Z.mod_pow2_bits_low (byte_signed b) 8) by lia. f_equal.
  unfold byte_signed. pose proof (byte.unsigned_range b).
  destruct (Z.ltb_spec (byte.unsigned b) 128); [apply Z.mod_small; lia|].
  replace (byte.unsigned b - 256) with (byte.unsigned b + (-1) * 2 ^ 8) by lia.
  rewrite Z.mod_add by lia. apply Z.mod_small. lia.
Qed.

(** ** Indexing lemmas *)

Section Indexing.
Context {A : Type}.
Implicit Types (l : list A) (x : A).

Lemma zget_Some l i x : l !z i = Some x <-> 0 <= i /\ l !! Z.to_nat i = Some x.
Proof.
  unfold zget. destruct (Z.leb_spec 0 i); split; intros; destruct_and?; try done; lia.
Qed.

Lemma zget_nat l (n : nat) : l !z Z.of_nat n = l !! n.
Proof. unfold zget. rewrite Nat2Z.id. by destruct (Z.leb_spec 0 (Z.of_nat n)); [|lia]. Qed.

Lemma zget_range l i x : l !z i = Some x -> 0 <= i < len l.
Proof.
  intros [? H]%zget_Some. apply lookup_lt_Some in H. unfold zlen. lia.
Qed.

Lemma zget_cons x l i : 0 <= i -> (x :: l) !z i = if i =? 0 then Some x else l !z (i - 1).
Proof.
  intros Hi. unfold zget. destruct (Z.leb_spec 0 i); [|lia]. destruct (Z.eqb_spec i 0) as [->|]; [done|].
  destruct (Z.leb_spec 0 (i - 1)); [|lia]. by replace (Z.to_nat i) with (S (Z.to_nat (i - 1))) by lia.
Qed.

Lemma zget_is_Some l i : 0 <= i < len l -> exists x, l !z i = Some x.
Proof.
  intros H. destruct (lookup_lt_is_Some_2 l (Z.to_nat i)) as [x Hx]; [unfold zlen in H; lia|].
  exists x. apply zget_Some. split; [lia|done].
Qed.

Lemma zget_None l i : l !z i = None <-> ~ (0 <= i < len l).
Proof.
  split.
  - intros H Hr. destruct (zget_is_Some l i Hr) as [x Hx]. congruence.
  - intros H. destruct (l !z i) eqn:E; [|done]. by apply zget_range in E.
Qed.

Lemma zset_Some l i x l' :
  zset l i x = Some l' -> 0 <= i < len l /\ l' = <[Z.to_nat i := x]> l.
Proof.
  unfold zset. destruct ((0 <=? i) && (i <? len l)) eqn:E; [|done].
  intros [= <-]. bool_to_prop. split; [lia|done].
Qed.

Lemma zset_in_range l i x :
  0 <= i < len l -> zset l i x = Some (<[Z.to_nat i := x]> l).
Proof.
  intros H. unfold zset. destruct (Z.leb_spec 0 i); [|lia].
  by destruct (Z.ltb_spec i (len l)); [|lia].
Qed.

Lemma zget_insert l i j x :
  0 <= i < len l -> 0 <= j ->
  (<[Z.to_nat i := x]> l) !z j = if i =? j then Some x else l !z j.
Proof.
  intros Hi Hj. unfold zget. destruct (Z.leb_spec 0 j); [|lia].
  destruct (Z.eqb_spec i j) as [->|Hne].
  - apply list_lookup_insert_eq. unfold zlen in Hi. lia.
  - apply list_lookup_insert_ne. lia.
Qed.

Lemma zlen_insert l i x : len (<[i := x]> l) = len l.
Proof. unfold zlen. by rewrite length_insert. Qed.
End Indexing.

(** ** Buffers *)

Section Buffers.
Implicit Types (m src : bytes).

Lemma mem_read_in_range m off n :
  0 <= off -> 0 <= n -> off + n <= len m ->
  mem_read m off n = Some (take (Z.to_nat n) (drop (Z.to_nat off) m)).
Proof.
  intros. unfold mem_read.
  destruct (Z.leb_spec 0 off), (Z.leb_spec 0 n), (Z.leb_spec (off + n) (len m)); try lia.
  done.
Qed.

Lemma mem_read_Some m off n bs :
  mem_read m off n = Some bs ->
  0 <= off /\ 0 <= n /\ off + n <= len m /\
  bs = take (Z.to_nat n) (drop (Z.to_nat off) m).
Proof.
  unfold mem_read. intros H. guard_cases_in H; [|done].
  injection H as <-. done.
Qed.

Lemma mem_read_len m off n bs : mem_read m off n = Some bs -> len bs = n.
Proof.
  intros (? & ? & ? & ->)%mem_read_Some.
  unfold zlen in *. rewrite length_take, length_drop. lia.
Qed.

Lemma mem_write_Some m off src m' :
  mem_write m off src = Some m' ->
  0 <= off /\ off + len src <= len m /\
  m' = take (Z.to_nat off) m ++ src ++ drop (Z.to_nat off + length src) m.
Proof.
  unfold mem_write. intros H. guard_cases_in H; [|done].
  injection H as <-. done.
Qed.

Lemma mem_write_in_range m off src :
  0 <= off -> off + len src <= len m -> is_Some (mem_write m off src).
Proof.
  intros. unfold mem_write.
  destruct (Z.leb_spec 0 off), (Z.leb_spec (off + len src) (len m)); try lia. by eexists.
Qed.

Lemma mem_write_len m off src m' : mem_write m off src = Some m' -> len m' = len m.
Proof.
  intros (? & ? & ->)%mem_write_Some.
  unfold zlen in *. rewrite !length_app, length_take, length_drop. lia.
Qed.

Lemma mem_read_write_same m off src m' :
  mem_write m off src = Some m' -> mem_read m' off (len src) = Some src.
Proof.
  intros H. pose proof (mem_write_len _ _ _ _ H) as Hl.
  apply mem_write_Some in H as (? & ? & ->).
  rewrite mem_read_in_range by (unfold zlen in *; lia).
  rewrite zlen_to_nat. f_equal.
  rewrite drop_app_length' by (rewrite length_take; unfold zlen in *; lia).
  by rewrite take_app_length.
Qed.

(** A write leaves every range it does not overlap as it was. *)
Lemma mem_read_write_disjoint m off src m' o n :
  mem_write m off src = Some m' ->
  o + n <= off \/ off + len src <= o ->
  mem_read m' o n = mem_read m o n.
Proof.
  intros H Hd. pose proof (mem_write_len _ _ _ _ H) as Hl.
  unfold mem_read. rewrite Hl.
  destruct ((0 <=? o) && (0 <=? n) && (o + n <=? len m)) eqn:E; [|done].
  bool_to_prop. f_equal. apply mem_write_Some in H as (? & ? & ->).
  apply list_eq. intros i. destruct (decide (i < Z.to_nat n)%nat) as [Hi|Hi];
    [|by rewrite !lookup_take_ge by lia].
  rewrite !lookup_take_lt, !lookup_drop by done.
  destruct Hd.
  - rewrite lookup_app_l by (rewrite length_take; unfold zlen in *; lia).
    apply lookup_take_lt. lia.
  - rewrite lookup_app_r by (rewrite length_take; unfold zlen in *; lia).
    rewrite lookup_app_r by (rewrite length_take; unfold zlen in *; lia).
    rewrite lookup_drop. f_equal. rewrite length_take. unfold zlen in *. lia.
Qed.

(** Reading part of a range that was read as a whole. *)
Lemma mem_read_sub m off n bs o k :
  mem_read m off n = Some bs -> 0 <= o -> 0 <= k -> o + k <= n ->
  mem_read m (off + o) k = mem_read bs o k.
Proof.
  intros H ???. pose proof (mem_read_len _ _ _ _ H) as Hl.
  apply mem_read_Some in H as (? & ? & ? & ->).
  rewrite !mem_read_in_range by lia. f_equal.
  apply list_eq. intros i. destruct (decide (i < Z.to_nat k)%nat) as [Hi|Hi];
    [|by rewrite !lookup_take_ge by lia].
  rewrite !lookup_take_lt, !lookup_drop, lookup_take_lt, lookup_drop by lia.
  f_equal. lia.
Qed.

Lemma mem_read_app_l m1 m2 o k :
  0 <= o -> 0 <= k -> o + k <= len m1 -> mem_read (m1 ++ m2) o k = mem_read m1 o k.
Proof.
  intros. rewrite !mem_read_in_range by (rewrite ?zlen_app; pose proof (zlen_nonneg m2); lia).
  f_equal. rewrite drop_app_le by (unfold zlen in *; lia).
  rewrite take_app_le; [done|]. rewrite length_drop. unfold zlen in *. lia.
Qed.

Lemma mem_read_app_r m1 m2 o k :
  0 <= o -> mem_read (m1 ++ m2) (len m1 + o) k = mem_read m2 o k.
Proof.
  intros. unfold mem_read. rewrite zlen_app.
  replace (0 <=? len m1 + o) with (0 <=? o) by (pose proof (zlen_nonneg m1); lia).
  replace (len m1 + o + k <=? len m1 + len m2) with (o + k <=? len m2) by lia.
  guard_cases; [|done]. do 2 f_equal.
  rewrite drop_app_ge by (unfold zlen; lia). f_equal. unfold zlen. lia.
Qed.

Lemma mem_read_all m : mem_read m 0 (len m) = Some m.
Proof.
  rewrite mem_read_in_range by (pose proof (zlen_nonneg m); lia).
  rewrite zlen_to_nat. by rewrite drop_0, firstn_all.
Qed.
End Buffers.

(** ** Sorted lists *)

Section Sorted.
Context {A : Type} (R : relation A).

Lemma StronglySorted_take l n : StronglySorted R l -> StronglySorted R (take n l).
Proof.
  intros H. revert n. induction H as [|x l _ IH Hx]; intros [|n]; simpl; constructor; [done|]. by apply Forall_take.
Qed.

Lemma StronglySorted_drop l n : StronglySorted R l -> StronglySorted R (drop n l).
Proof.
  intros H. revert n. induction H as [|x l Hs IH Hx]; intros [|n]; simpl; [constructor|constructor|by constructor|apply IH].
Qed.

Lemma StronglySorted_lookup_lt l i j x y :
  StronglySorted R l -> (i < j)%nat -> l !! i = Some x -> l !! j = Some y -> R x y.
Proof.
  intros Hs. revert i j. induction Hs as [|z l Hs IH Hz]; intros i j Hij Hx Hy; [done|].
  destruct j as [|j]; [lia|]. destruct i as [|i]; simpl in *.
  - injection Hx as ->. rewrite Forall_forall in Hz. apply Hz. by eapply list_elem_of_lookup_2.
  - by apply (IH i j); [lia|..].
Qed.

Lemma StronglySorted_lookup_intro l :
  (forall i j x y, (i < j)%nat -> l !! i = Some x -> l !! j = Some y -> R x y) -> StronglySorted R l.
Proof.
  induction l as [|x l IH]; intros H; constructor.
  - apply IH. intros i j a b Hij Ha Hb. by apply (H (S i) (S j)); [lia|..].
  - apply Forall_forall. intros y [j Hj]%list_elem_of_lookup. by apply (H 0%nat (S j)); [lia|..].
Qed.
End Sorted.

(** ** Filters *)

Lemma filter_none {A} (P : A -> Prop) `{!forall x, Decision (P x)} (l : list A) :
  (forall x, x ∈ l -> ~ P x) -> filter P l = [].
Proof.
  induction l as [|x l IH]; intros Hl; [done|]. rewrite filter_cons, decide_False by (apply Hl; left).
  apply IH. intros y Hy. apply Hl. by right.
Qed.

Lemma filter_id {A} (P : A -> Prop) `{!forall x, Decision (P x)} (l : list A) :
  (forall x, x ∈ l -> P x) -> filter P l = l.
Proof.
  induction l as [|x l IH]; intros Hl; [done|]. rewrite filter_cons, decide_True by (apply Hl; left).
  f_equal. apply IH. intros y Hy. apply Hl. by right.
Qed.

(** Elements of a list told apart by [f]. *)
Lemma NoDup_fmap_eq {A B} (f : A -> B) (l : list A) x y :
  NoDup (f <$> l) -> x ∈ l -> y ∈ l -> f x = f y -> x = y.
Proof.
  intros Hnd [i Hi]%list_elem_of_lookup [j Hj]%list_elem_of_lookup Hf.
  assert (i = j) as ->; [|congruence].
  apply (NoDup_lookup (f <$> l) i j (f x) Hnd); rewrite list_lookup_fmap.
  - by rewrite Hi.
  - rewrite Hj. simpl. by rewrite Hf.
Qed.

(** Filtering two related lists by conditions that agree. *)
Lemma Forall2_filter {A B} (R : A -> B -> Prop) (P : A -> Prop) (Q : B -> Prop)
    `{!forall x, Decision (P x)} `{!forall y, Decision (Q y)} l k :
  (forall x y, R x y -> P x <-> Q y) -> Forall2 R l k -> Forall2 R (filter P l) (filter Q k).
Proof.
  intros Hiff. induction 1 as [|x y l k Hxy _ IH]; [constructor|]. rewrite !filter_cons.
  destruct (decide (P x)) as [Hp|Hp].
  - rewrite decide_True by (by apply (Hiff x y)). by constructor.
  - rewrite decide_False; [done|]. intros Hq. apply Hp. by apply (Hiff x y).
Qed.

Lemma Forall_filter {A} (Q P : A -> Prop) `{!forall x, Decision (P x)} (l : list A) :
  Forall Q l -> Forall Q (filter P l).
Proof. rewrite !Forall_forall. intros Hl x [_ Hx]%list_elem_of_filter. by apply Hl. Qed.

Lemma NoDup_fmap_filter {A B} (f : A -> B) (P : A -> Prop) `{!forall x, Decision (P x)} (l : list A) :
  NoDup (f <$> l) -> NoDup (f <$> filter P l).
Proof. intros Hl. eapply sublist_NoDup; [exact Hl|]. apply fmap_sublist, sublist_filter. Qed.

Lemma filter_fmap {A B} (f : A -> B) (P : B -> Prop) `{!forall x, Decision (P x)} (l : list A) :
  filter P (f <$> l) = f <$> filter (fun x => P (f x)) l.
Proof.
  induction l as [|x l IH]; [done|]. rewrite fmap_cons, !filter_cons.
  destruct (decide (P (f x))); simpl; by rewrite IH.
Qed.

(** Replacing one element changes its part of the bind. *)
Lemma bind_split {A B} (f : A -> list B) (l : list A) i x :
  l !! i = Some x ->
  exists rest, (l ≫= f) ≡ₚ f x ++ rest /\ forall y, (<[i := y]> l ≫= f) ≡ₚ f y ++ rest.
Proof.
  intros Hi. exists ((take i l ++ drop (S i) l) ≫= f). split.
  - rewrite <- (take_drop_middle l i x Hi) at 1. rewrite !bind_app. simpl. apply Permutation_app_swap_app.
  - intros y. rewrite insert_take_drop by (by eapply lookup_lt_Some).
    rewrite !bind_app. simpl. apply Permutation_app_swap_app.
Qed.

(** ** Loops *)

Section Loops.
Context {A S : Type}.
Implicit Types (f : S -> A -> option S) (l : list A).

Lemma fold_opt_app f s l1 l2 : fold_opt f s (l1 ++ l2) = s ← fold_opt f s l1; fold_opt f s l2.
Proof. revert s. induction l1 as [|x l1 IH]; intros s; [done|]. simpl. destruct (f s x); simpl; [apply IH|done]. Qed.

(** A loop whose body keeps an invariant indexed by what it has passed. *)
Lemma fold_opt_ok f (I : list A -> S -> Prop) s l :
  I [] s ->
  (forall pre x s, pre ++ [x] `prefix_of` l -> I pre s -> exists s', f s x = Some s' /\ I (pre ++ [x]) s') ->
  exists s', fold_opt f s l = Some s' /\ I l s'.
Proof.
  intros H0. induction l as [|x l IH] using rev_ind; intros Hs; [by eexists|].
  destruct IH as (s1 & H1 & I1).
  { intros pre y s2 Hp. apply Hs. by apply prefix_app_r. }
  rewrite fold_opt_app, H1. simpl. destruct (Hs l x s1) as (s2 & -> & I2); [done|done|]. by eexists.
Qed.
End Loops.

Lemma fold_opt_and {A} (f : bool -> A -> option bool) (p : A -> bool) b l :
  (forall b x, x ∈ l -> f b x = Some (b && p x)) -> fold_opt f b l = Some (b && forallb p l).
Proof.
  revert b. induction l as [|x l IH]; intros b H; simpl; [by rewrite andb_true_r|].
  rewrite H by left. simpl. rewrite IH by (intros; apply H; by right). f_equal. by rewrite andb_assoc.
Qed.

Lemma fold_opt_or {A} (f : bool -> A -> option bool) (p : A -> bool) b l :
  (forall b x, x ∈ l -> f b x = Some (b || p x)) -> fold_opt f b l = Some (b || existsb p l).
Proof.
  revert b. induction l as [|x l IH]; intros b H; simpl; [by rewrite orb_false_r|].
  rewrite H by left. simpl. rewrite IH by (intros; apply H; by right). f_equal. by rewrite orb_assoc.
Qed.

Lemma elem_of_upto n i : i ∈ upto n <-> 0 <= i < n.
Proof.
  unfold upto. rewrite list_elem_of_fmap. split.
  - intros (k & -> & Hk%elem_of_seq). lia.
  - intros Hi. exists (Z.to_nat i). split; [lia|]. apply elem_of_seq. lia.
Qed.

Lemma NoDup_upto n : NoDup (upto n).
Proof. apply NoDup_fmap_2; [intros ???; lia|]. apply NoDup_seq. Qed.

Lemma filter_ext_in {A} (P Q : A -> Prop) `{!forall x, Decision (P x), !forall x, Decision (Q x)} (l : list A) :
  (forall x, x ∈ l -> P x <-> Q x) -> filter P l = filter Q l.
Proof.
  induction l as [|x l IH]; intros Hx; [done|]. rewrite !filter_cons, IH by (intros; apply Hx; by right).
  assert (P x <-> Q x) by (apply Hx; left). repeat case_decide; tauto.
Qed.

Lemma StronglySorted_filter {A} (R : A -> A -> Prop) (P : A -> Prop) `{!forall x, Decision (P x)} (l : list A) :
  StronglySorted R l -> StronglySorted R (filter P l).
Proof.
  induction 1 as [|x l Hl IH Hx]; [constructor|]. rewrite filter_cons. case_decide; [|done].
  constructor; [done|]. by apply Forall_filter.
Qed.

Lemma StronglySorted_fmap_inv {A B} (R : B -> B -> Prop) (f : A -> B) (l : list A) :
  StronglySorted R (f <$> l) -> StronglySorted (fun x y => R (f x) (f y)) l.
Proof.
  induction l as [|x l IH]; [constructor|]. intros [Hl Hx]%StronglySorted_inv. constructor; [by apply IH|].
  apply (proj1 (Forall_fmap f (R (f x)) l)) in Hx. exact Hx.
Qed.

Lemma fmap_bind {A B C} (f : A -> list B) (g : B -> C) (l : list A) :
  g <$> (l ≫= f) = l ≫= (fun x => g <$> f x).
Proof.
  induction l as [|x l IH]; [done|].
  change ((x :: l) ≫= f) with (f x ++ (l ≫= f)). by rewrite fmap_app, IH.
Qed.

Lemma elem_of_delete_sub {A} (l : list A) i x : x ∈ delete i l -> x ∈ l.
Proof. intros Hx. eapply elem_of_submseteq; [exact Hx|]. apply sublist_submseteq, sublist_delete. Qed.

Lemma StronglySorted_delete {A} (R : A -> A -> Prop) (l : list A) i :
  StronglySorted R l -> StronglySorted R (delete i l).
Proof.
  intros Hl. revert i. induction Hl as [|x l Hl IH Hx]; intros [|i]; simpl; [constructor|constructor|done|].
  constructor; [apply IH|]. apply Forall_forall. intros y Hy. rewrite Forall_forall in Hx. apply Hx.
  by eapply elem_of_delete_sub.
Qed.

Lemma StronglySorted_sublist {A} (R : A -> A -> Prop) (l k : list A) :
  sublist l k -> StronglySorted R k -> StronglySorted R l.
Proof.
  induction 1 as [|x l k Hs IH|x l k Hs IH]; intros Hk; [constructor| |];
    apply StronglySorted_inv in Hk as [Hk Hx]; [|by apply IH].
  constructor; [by apply IH|]. rewrite Forall_forall in Hx |- *. intros y Hy. apply Hx.
  by eapply sublist_subseteq.
Qed.
