(* ===== verification/Coding.v ===== *)
(** * Integer and string encodings (util/coding.h, util/coding.cc)

    Fixed-width little-endian integers, varints, zigzag integers and
    length-prefixed strings.  A [Put...] routine appends to the string it is
    given; a [Get...] routine returns the value and the rest of the slice, or
    [None] where the source returns [false] or a null pointer.  The host is
    little-endian ([port::kLittleEndian]), so a [memcpy] of an integer writes
    [le_split]. *)

From S2P Require Import Prelude.

Definition kMaxVarint64Length : nat := 10.

(** ** Fixed-width integers *)

Definition EncodeFixed16 (value : Z) : bytes := le_split 2 value.
Definition EncodeFixed32 (value : Z) : bytes := le_split 4 value.
Definition EncodeFixed64 (value : Z) : bytes := le_split 8 value.

(** The source reads without a bounds check: callers supply enough bytes. *)
Definition DecodeFixed16 (ptr : bytes) : Z := le_combine (take 2 ptr).
Definition DecodeFixed32 (ptr : bytes) : Z := le_combine (take 4 ptr).
Definition DecodeFixed64 (ptr : bytes) : Z := le_combine (take 8 ptr).

Definition PutFixed16 (dst : bytes) (value : Z) : bytes := dst ++ EncodeFixed16 value.
Definition PutFixed32 (dst : bytes) (value : Z) : bytes := dst ++ EncodeFixed32 value.
Definition PutFixed64 (dst : bytes) (value : Z) : bytes := dst ++ EncodeFixed64 value.

Definition GetFixed64 (input : bytes) : option (Z * bytes) :=
  if len input <? 8 then None else Some (DecodeFixed64 input, drop 8 input).
Definition GetFixed32 (input : bytes) : option (Z * bytes) :=
  if len input <? 4 then None else Some (DecodeFixed32 input, drop 4 input).
Definition GetFixed16 (input : bytes) : option (Z * bytes) :=
  if len input <? 2 then None else Some (DecodeFixed16 input, drop 2 input).

(** ** Varints *)

(** The unrolled 32-bit encoder; each store truncates to an unsigned char. *)
Definition EncodeVarint32 (v : Z) : bytes :=
  let B := 128 in
  let put := byte.of_Z in
  if v <? 2 ^ 7 then [put v]
  else if v <? 2 ^ 14 then [put (Z.lor v B); put (Z.shiftr v 7)]
  else if v <? 2 ^ 21 then
    [put (Z.lor v B); put (Z.lor (Z.shiftr v 7) B); put (Z.shiftr v 14)]
  else if v <? 2 ^ 28 then
    [put (Z.lor v B); put (Z.lor (Z.shiftr v 7) B);
     put (Z.lor (Z.shiftr v 14) B); put (Z.shiftr v 21)]
  else
    [put (Z.lor v B); put (Z.lor (Z.shiftr v 7) B);
     put (Z.lor (Z.shiftr v 14) B); put (Z.lor (Z.shiftr v 21) B);
     put (Z.shiftr v 28)].

(** The 64-bit encoder's loop; [fuel] bounds its iterations. *)
Fixpoint EncodeVarint64_loop (fuel : nat) (v : Z) : bytes :=
  match fuel with
  | S fuel =>
      if 128 <=? v
      then byte.of_Z (Z.lor (Z.land v 127) 128) :: EncodeVarint64_loop fuel (Z.shiftr v 7)
      else [byte.of_Z v]
  | O => [byte.of_Z v]
  end.

Definition EncodeVarint64 (v : Z) : bytes := EncodeVarint64_loop kMaxVarint64Length v.

Definition PutVarint32 (dst : bytes) (v : Z) : bytes := dst ++ EncodeVarint32 v.
Definition PutVarint64 (dst : bytes) (v : Z) : bytes := dst ++ EncodeVarint64 v.

Definition PutVarint32Varint32 (dst : bytes) (v1 v2 : Z) : bytes :=
  dst ++ (EncodeVarint32 v1 ++ EncodeVarint32 v2).
Definition PutVarint32Varint32Varint32 (dst : bytes) (v1 v2 v3 : Z) : bytes :=
  dst ++ (EncodeVarint32 v1 ++ EncodeVarint32 v2 ++ EncodeVarint32 v3).
Definition PutVarint64Varint64 (dst : bytes) (v1 v2 : Z) : bytes :=
  dst ++ (EncodeVarint64 v1 ++ EncodeVarint64 v2).
Definition PutVarint32Varint64 (dst : bytes) (v1 v2 : Z) : bytes :=
  dst ++ (EncodeVarint32 v1 ++ EncodeVarint64 v2).
Definition PutVarint32Varint32Varint64 (dst : bytes) (v1 v2 v3 : Z) : bytes :=
  dst ++ (EncodeVarint32 v1 ++ EncodeVarint32 v2 ++ EncodeVarint64 v3).

(** The loop of [VarintLength]. *)
Fixpoint VarintLength_loop (fuel : nat) (v n : Z) : Z :=
  match fuel with
  | S fuel => if 128 <=? v then VarintLength_loop fuel (Z.shiftr v 7) (n + 1) else n
  | O => n
  end.

Definition VarintLength (v : Z) : Z := VarintLength_loop kMaxVarint64Length v 1.

(** The loop both decoders run, [for (shift = 0; shift <= last && p < limit; shift += 7)]
    with a result of [w] bits: the bytes left are those of [p..limit-1]. *)
Fixpoint GetVarintPtr_loop (last w : Z) (p : bytes) (shift result : Z) : option (Z * bytes) :=
  match p with
  | [] => None
  | b :: p =>
      if shift <=? last then
        let byte := byte.unsigned b in
        if negb (Z.land byte 128 =? 0)
        then GetVarintPtr_loop last w p (shift + 7)
               (Z.lor result (wrap w (Z.shiftl (Z.land byte 127) shift)))
        else Some (Z.lor result (wrap w (Z.shiftl byte shift)), p)
      else None
  end.

Definition GetVarint32PtrFallback (p : bytes) : option (Z * bytes) :=
  GetVarintPtr_loop 28 32 p 0 0.

Definition GetVarint32Ptr (p : bytes) : option (Z * bytes) :=
  match p with
  | b :: rest =>
      let result := byte.unsigned b in
      if Z.land result 128 =? 0 then Some (result, rest) else GetVarint32PtrFallback p
  | [] => GetVarint32PtrFallback p
  end.

Definition GetVarint64Ptr (p : bytes) : option (Z * bytes) := GetVarintPtr_loop 63 64 p 0 0.

Definition GetVarint32 (input : bytes) : option (Z * bytes) := GetVarint32Ptr input.
Definition GetVarint64 (input : bytes) : option (Z * bytes) := GetVarint64Ptr input.

(** ** Zigzag integers: [l] is an [int64_t], the result a [uint64_t]. *)

Definition i64ToZigzag (l : Z) : Z :=
  Z.lxor (wrap64 (Z.shiftl (wrap64 l) 1)) (wrap64 (Z.shiftr l 63)).

Definition i64 (z : Z) : Z := (z + 2 ^ 63) mod 2 ^ 64 - 2 ^ 63.

Definition zigzagToI64 (n : Z) : Z :=
  i64 (Z.lxor (Z.shiftr n 1) (wrap64 (- Z.land n 1))).

Definition PutVarsignedint64 (dst : bytes) (v : Z) : bytes :=
  dst ++ EncodeVarint64 (i64ToZigzag v).

Definition GetVarsignedint64Ptr (p : bytes) : option (Z * bytes) :=
  '(u, rest) ← GetVarint64Ptr p; Some (zigzagToI64 u, rest).

(** ** Length-prefixed strings *)

Definition PutLengthPrefixedSlice (dst value : bytes) : bytes :=
  PutVarint32 dst (wrap32 (len value)) ++ value.

Definition PutLengthPrefixedSliceParts (dst : bytes) (parts : list bytes) : bytes :=
  let total_bytes := foldr (fun p acc => len p + acc) 0 parts in
  foldl (fun d p => d ++ p) (PutVarint32 dst (wrap32 total_bytes)) parts.

(** The value and the rest of the input. *)
Definition GetLengthPrefixedSlice (input : bytes) : option (bytes * bytes) :=
  '(n, rest) ← GetVarint32 input;
  if n <=? len rest
  then Some (take (Z.to_nat n) rest, drop (Z.to_nat n) rest)
  else None.

(** ** Fixed-width lemmas *)

Lemma DecodeFixed32_Encode v rest : u32 v -> DecodeFixed32 (EncodeFixed32 v ++ rest) = v.
Proof.
  intros Hv. unfold DecodeFixed32, EncodeFixed32.
  rewrite take_app_length' by (by rewrite length_le_split).
  rewrite le_combine_split. apply Z.mod_small. zlia.
Qed.

Lemma DecodeFixed64_Encode v rest : u64 v -> DecodeFixed64 (EncodeFixed64 v ++ rest) = v.
Proof.
  intros Hv. unfold DecodeFixed64, EncodeFixed64.
  rewrite take_app_length' by (by rewrite length_le_split).
  rewrite le_combine_split. apply Z.mod_small. zlia.
Qed.

Lemma DecodeFixed64_range p : u64 (DecodeFixed64 p).
Proof.
  unfold DecodeFixed64, u64. pose proof (le_combine_bound (take 8 p)) as H.
  assert (2 ^ (8 * Z.of_nat (length (take 8 p))) <= 2 ^ 64); [|lia].
  apply Z.pow_le_mono_r; [lia|]. rewrite length_take. lia.
Qed.

Lemma GetFixed32_Put v rest : u32 v -> GetFixed32 (EncodeFixed32 v ++ rest) = Some (v, rest).
Proof.
  intros Hv. unfold GetFixed32. rewrite DecodeFixed32_Encode by done.
  rewrite zlen_app. unfold EncodeFixed32. rewrite zlen_le_split.
  destruct (Z.ltb_spec (Z.of_nat 4 + len rest) 4); [zlia|].
  by rewrite drop_app_length' by (by rewrite length_le_split).
Qed.

Lemma GetFixed64_Put v rest : u64 v -> GetFixed64 (EncodeFixed64 v ++ rest) = Some (v, rest).
Proof.
  intros Hv. unfold GetFixed64. rewrite DecodeFixed64_Encode by done.
  rewrite zlen_app. unfold EncodeFixed64. rewrite zlen_le_split.
  destruct (Z.ltb_spec (Z.of_nat 8 + len rest) 8); [zlia|].
  by rewrite drop_app_length' by (by rewrite length_le_split).
Qed.

(** ** Varint lemmas *)

(** What the decoders see of a continuation byte and of a final byte. *)
Lemma varint_more_byte v :
  let u := byte.unsigned (byte.of_Z (Z.lor (Z.land v 127) 128)) in
  Z.land u 128 = 128 /\ Z.land u 127 = Z.land v 127.
Proof.
  simpl. rewrite byte.unsigned_of_Z. unfold byte.wrap.
  change (2 ^ 8) with (2 ^ 8). rewrite <-(Z.land_ones _ 8) by lia.
  change 127 with (Z.ones 7). change 128 with (2 ^ 7).
  split; apply Z.bits_inj'; intros n Hn;
    rewrite !Z.land_spec, Z.lor_spec, ?Z.land_spec, ?Z.pow2_bits_eqb, ?Z.testbit_ones_nonneg by lia.
  - destruct (Z.eqb_spec 7 n); subst; simpl; [by rewrite !orb_true_r|].
    by rewrite andb_false_r.
  - destruct (Z.testbit v n), (Z.ltb_spec n 7), (Z.ltb_spec n 8), (Z.eqb_spec 7 n); simpl; lia || done.
Qed.

Lemma varint_last_byte v :
  0 <= v < 128 ->
  let u := byte.unsigned (byte.of_Z v) in u = v /\ Z.land u 128 = 0.
Proof.
  intros Hv. simpl. rewrite byte.unsigned_of_Z. unfold byte.wrap.
  rewrite Z.mod_small by lia. split; [done|].
  change 128 with (2 ^ 7). apply Z.bits_inj'. intros n Hn.
  rewrite Z.land_spec, Z.pow2_bits_eqb, Z.bits_0 by lia.
  destruct (Z.eqb_spec 7 n) as [<-|]; [|by rewrite andb_false_r].
  rewrite andb_true_r. apply Z.testbit_false; [lia|]. by rewrite Z.div_small by lia.
Qed.

(** Adding the next seven bits to what was decoded so far. *)
Lemma varint_accumulate v shift result :
  0 <= shift ->
  Z.lor (Z.lor result (Z.shiftl (Z.land v 127) shift)) (Z.shiftl (Z.shiftr v 7) (shift + 7)) =
  Z.lor result (Z.shiftl v shift).
Proof.
  intros Hs. change 127 with (Z.ones 7). apply Z.bits_inj'. intros n Hn.
  rewrite !Z.lor_spec, <-orb_assoc. f_equal.
  rewrite !Z.shiftl_spec by lia.
  destruct (Z.ltb_spec n shift).
  - rewrite !Z.testbit_neg_r by lia. done.
  - rewrite Z.land_spec, Z.testbit_ones_nonneg by lia.
    destruct (Z.ltb_spec (n - shift) 7).
    + rewrite (Z.testbit_neg_r _ (n - (shift + 7))) by lia.
      by rewrite andb_true_r, orb_false_r.
    + rewrite andb_false_r, Z.shiftr_spec by lia. simpl. f_equal. lia.
Qed.

Lemma shiftl_small v shift w :
  0 <= v -> 0 <= shift -> v * 2 ^ shift < 2 ^ w -> wrap w (Z.shiftl v shift) = Z.shiftl v shift.
Proof. intros. unfold wrap. rewrite Z.shiftl_mul_pow2 by lia. apply Z.mod_small. nia. Qed.

Lemma land127 v : 0 <= v -> 0 <= Z.land v 127 <= v /\ Z.land v 127 < 128.
Proof.
  intros Hv. change 127 with (Z.ones 7). rewrite Z.land_ones by lia.
  pose proof (Z.mod_pos_bound v (2 ^ 7)). pose proof (Z.mod_le v (2 ^ 7)). lia.
Qed.

(** The loop lemma of both decoders, stated on the encoder's loop: the [w]-bit
    result has room for [v << shift], and a shift that leaves room for a
    continuation byte is not the last one. *)
Lemma GetVarintPtr_loop_Encode last w fuel v shift result rest :
  0 <= v < 2 ^ (7 * Z.of_nat (S fuel)) -> 0 <= shift <= last -> last = w - w mod 7 ->
  0 < w mod 7 -> v * 2 ^ shift < 2 ^ w -> (last - shift) mod 7 = 0 ->
  GetVarintPtr_loop last w (EncodeVarint64_loop fuel v ++ rest) shift result =
  Some (Z.lor result (Z.shiftl v shift), rest).
Proof.
  intros Hv Hs Hlast Hw7. revert v shift result Hv Hs.
  induction fuel as [|fuel IH]; intros v shift result Hv Hs Hw Hm; simpl.
  - destruct (varint_last_byte v) as [-> ->]; [zlia|].
    destruct (Z.leb_spec shift last); [|lia]. simpl. by rewrite shiftl_small by lia.
  - destruct (Z.leb_spec 128 v); simpl.
    + destruct (varint_more_byte v) as [-> ->].
      pose proof (land127 v). pose proof (Z.pow_pos_nonneg 2 shift).
      destruct (Z.leb_spec shift last); [|lia]. simpl.
      rewrite shiftl_small by nia.
      assert (Hsplit : 2 ^ (7 * Z.of_nat (S (S fuel))) = 2 ^ 7 * 2 ^ (7 * Z.of_nat (S fuel)))
        by (rewrite <-Z.pow_add_r by lia; f_equal; lia).
      pose proof (Z.div_mod v 128). pose proof (Z.mod_pos_bound v 128).
      assert (Hsh : Z.shiftr v 7 = v / 128) by (by rewrite Z.shiftr_div_pow2).
      assert (shift + 7 <= last).
      { destruct (Z.leb_spec (shift + 7) last); [done|].
        assert (shift = last) by (pose proof (Z.div_mod (last - shift) 7); lia).
        assert (2 ^ w <= 2 ^ 7 * 2 ^ shift); [|nia].
        rewrite <-Z.pow_add_r by lia. apply Z.pow_le_mono_r; [lia|].
        pose proof (Z.mod_pos_bound w 7). lia. }
      rewrite IH.
      * by rewrite varint_accumulate by lia.
      * rewrite Hsh. split; [apply Z.div_pos; lia|]. apply Z.div_lt_upper_bound; lia.
      * lia.
      * rewrite Hsh, Z.pow_add_r by lia. nia.
      * replace (last - (shift + 7)) with (last - shift + (-1) * 7) by lia.
        by rewrite Z.mod_add by lia.
    + destruct (varint_last_byte v) as [-> ->]; [lia|].
      destruct (Z.leb_spec shift last); [|lia]. simpl. by rewrite shiftl_small by lia.
Qed.

Lemma GetVarint64_Encode v rest : u64 v -> GetVarint64 (EncodeVarint64 v ++ rest) = Some (v, rest).
Proof.
  intros Hv. unfold GetVarint64, GetVarint64Ptr, EncodeVarint64.
  rewrite GetVarintPtr_loop_Encode; try done.
  - unfold kMaxVarint64Length, u64 in *. simpl Z.of_nat. lia.
  - zlia.
Qed.

(** A store to an unsigned char keeps the low seven bits of [z | 128]. *)
Lemma varint_put z : byte.of_Z (Z.lor z 128) = byte.of_Z (Z.lor (Z.land z 127) 128).
Proof.
  apply byte.unsigned_inj. rewrite !byte.unsigned_of_Z. unfold byte.wrap.
  rewrite <-!(Z.land_ones _ 8) by lia. change 127 with (Z.ones 7). change 128 with (2 ^ 7).
  apply Z.bits_inj'. intros n Hn.
  rewrite !Z.land_spec, !Z.lor_spec, Z.land_spec, Z.pow2_bits_eqb, !Z.testbit_ones_nonneg by lia.
  destruct (Z.testbit z n), (Z.ltb_spec n 7), (Z.ltb_spec n 8), (Z.eqb_spec 7 n); simpl; lia || done.
Qed.

(** One step of the 64-bit loop at the [k]-th group of seven bits. *)
Lemma EncodeVarint64_step fuel v k k' :
  0 <= v -> 0 <= k -> k' = k + 7 ->
  EncodeVarint64_loop (S fuel) (Z.shiftr v k) =
  if v <? 2 ^ k' then [byte.of_Z (Z.shiftr v k)]
  else byte.of_Z (Z.lor (Z.shiftr v k) 128) :: EncodeVarint64_loop fuel (Z.shiftr v k').
Proof.
  intros Hv Hk ->. cbn [EncodeVarint64_loop].
  rewrite <-varint_put, Z.shiftr_shiftr by lia.
  replace (128 <=? Z.shiftr v k) with (negb (v <? 2 ^ (k + 7))); [by destruct (v <? _)|].
  rewrite Z.shiftr_div_pow2, Z.pow_add_r by lia. pose proof (Z.pow_pos_nonneg 2 k).
  destruct (Z.ltb_spec v (2 ^ k * 2 ^ 7)); simpl.
  - symmetry. apply Z.leb_gt. apply Z.div_lt_upper_bound; lia.
  - symmetry. apply Z.leb_le. apply Z.div_le_lower_bound; lia.
Qed.

(** The unrolled encoder writes the bytes the loop would write. *)
Lemma EncodeVarint32_loop v : u32 v -> EncodeVarint32 v = EncodeVarint64 v.
Proof.
  intros Hv. unfold EncodeVarint64, kMaxVarint64Length.
  rewrite <-(Z.shiftr_0_r v) at 2. unfold EncodeVarint32. cbv zeta.
  rewrite (EncodeVarint64_step _ v 0 7), (EncodeVarint64_step _ v 7 14),
    (EncodeVarint64_step _ v 14 21), (EncodeVarint64_step _ v 21 28),
    (EncodeVarint64_step _ v 28 35) by zlia.
  rewrite Z.shiftr_0_r.
  replace (v <? 2 ^ 35) with true by (symmetry; apply Z.ltb_lt; zlia).
  by destruct (v <? 2 ^ 7), (v <? 2 ^ 14), (v <? 2 ^ 21), (v <? 2 ^ 28).
Qed.

Lemma GetVarint32Ptr_fast p :
  GetVarint32Ptr p = GetVarint32PtrFallback p.
Proof.
  destruct p as [|b p]; [done|]. unfold GetVarint32Ptr, GetVarint32PtrFallback. simpl.
  destruct (Z.land (byte.unsigned b) 128 =? 0); [|done]. simpl.
  pose proof (byte.unsigned_range b). by rewrite shiftl_small by lia.
Qed.

Lemma GetVarint32_Encode v rest : u32 v -> GetVarint32 (EncodeVarint32 v ++ rest) = Some (v, rest).
Proof.
  intros Hv. unfold GetVarint32. rewrite GetVarint32Ptr_fast, EncodeVarint32_loop by done.
  unfold GetVarint32PtrFallback, EncodeVarint64.
  rewrite GetVarintPtr_loop_Encode; try done.
  - unfold kMaxVarint64Length, u32 in *. simpl Z.of_nat. lia.
  - zlia.
Qed.

(** ** Lengths of the encodings *)

Lemma VarintLength_loop_length fuel v n :
  VarintLength_loop fuel v n = n - 1 + len (EncodeVarint64_loop fuel v).
Proof.
  revert v n. induction fuel as [|fuel IH]; intros v n; simpl.
  - rewrite zlen_cons, zlen_nil. lia.
  - destruct (128 <=? v); rewrite ?IH, zlen_cons, ?zlen_nil; lia.
Qed.

Lemma EncodeVarint64_loop_length fuel v :
  (1 <= length (EncodeVarint64_loop fuel v) <= S fuel)%nat.
Proof.
  revert v. induction fuel as [|fuel IH]; intros v; simpl; [lia|].
  destruct (128 <=? v); simpl; [|lia]. specialize (IH (Z.shiftr v 7)). lia.
Qed.

(** Seven bits per byte: a value below [2 ^ (7 * n)] takes at most [n] bytes. *)
Lemma EncodeVarint64_loop_bits fuel n v :
  0 <= v < 2 ^ (7 * Z.of_nat (S n)) -> (length (EncodeVarint64_loop fuel v) <= S n)%nat.
Proof.
  revert n v. induction fuel as [|fuel IH]; intros n v Hv; simpl; [lia|].
  destruct (Z.leb_spec 128 v); simpl; [|lia]. destruct n as [|n]; [zlia|].
  apply le_n_S, IH. rewrite Z.shiftr_div_pow2 by lia.
  split; [apply Z.div_pos; lia|]. apply Z.div_lt_upper_bound; [lia|].
  rewrite <-Z.pow_add_r by lia. replace (7 + 7 * Z.of_nat (S n)) with (7 * Z.of_nat (S (S n))) by lia.
  lia.
Qed.

Lemma EncodeVarint64_len v : u64 v -> 1 <= len (EncodeVarint64 v) <= 10.
Proof.
  intros Hv. unfold zlen, EncodeVarint64. pose proof (EncodeVarint64_loop_length 10 v).
  assert (length (EncodeVarint64_loop 10 v) <= 10)%nat
    by (apply EncodeVarint64_loop_bits; unfold u64 in Hv; simpl Z.of_nat; lia).
  unfold kMaxVarint64Length. lia.
Qed.

Lemma EncodeVarint32_len v : u32 v -> 1 <= len (EncodeVarint32 v) <= 5.
Proof.
  intros Hv. rewrite EncodeVarint32_loop by done.
  unfold zlen, EncodeVarint64. pose proof (EncodeVarint64_loop_length 10 v).
  assert (length (EncodeVarint64_loop 10 v) <= 5)%nat
    by (apply EncodeVarint64_loop_bits; unfold u32 in Hv; simpl Z.of_nat; lia).
  unfold kMaxVarint64Length. lia.
Qed.

(** ** Length-prefixed strings *)

Lemma GetLengthPrefixedSlice_Put value rest :
  len value < 2 ^ 32 ->
  GetLengthPrefixedSlice (PutLengthPrefixedSlice [] value ++ rest) = Some (value, rest).
Proof.
  intros Hl. pose proof (zlen_nonneg value).
  unfold GetLengthPrefixedSlice, PutLengthPrefixedSlice, PutVarint32. simpl.
  unfold wrap. rewrite Z.mod_small by lia. rewrite <-app_assoc.
  rewrite GetVarint32_Encode by zlia. simpl.
  rewrite zlen_app. destruct (Z.leb_spec (len value) (len value + len rest));
    [|pose proof (zlen_nonneg rest); lia].
  by rewrite zlen_to_nat, take_app_length, drop_app_length.
Qed.

(** ** Zigzag lemmas *)

(** Flipping all 64 bits. *)
Lemma lxor_ones64 a : u64 a -> Z.lxor a (Z.ones 64) = Z.ones 64 - a.
Proof.
  intros Ha.
  assert (Hb : forall n, 64 <= n -> Z.testbit a n = false).
  { intros n Hn. apply Z.testbit_false; [lia|]. rewrite Z.div_small; [done|].
    assert (2 ^ 64 <= 2 ^ n) by (apply Z.pow_le_mono_r; lia). zlia. }
  assert (a + Z.lxor a (Z.ones 64) = Z.ones 64); [|lia].
  rewrite Z.add_nocarry_lxor, <-Z.lxor_assoc, Z.lxor_nilpotent, Z.lxor_0_l; [done|].
  apply Z.bits_inj'. intros n Hn.
  rewrite Z.land_spec, Z.lxor_spec, Z.bits_0, Z.testbit_ones_nonneg by lia.
  destruct (Z.ltb_spec n 64); [by destruct (Z.testbit a n)|by rewrite Hb].
Qed.

Lemma i64ToZigzag_eq l :
  - 2 ^ 63 <= l < 2 ^ 63 -> i64ToZigzag l = if 0 <=? l then 2 * l else - 2 * l - 1.
Proof.
  intros Hl. unfold i64ToZigzag, wrap. rewrite Z.shiftl_mul_pow2 by lia.
  rewrite Zmult_mod_idemp_l, Z.shiftr_div_pow2 by lia.
  destruct (Z.leb_spec 0 l).
  - rewrite (Z.div_small l), Z.mod_0_l, Z.lxor_0_r by lia. rewrite Z.mod_small by lia. lia.
  - replace (l / 2 ^ 63) with (-1) by (apply Z.div_unique with (l + 2 ^ 63); lia).
    replace (-1 mod 2 ^ 64) with (Z.ones 64) by done.
    replace ((l * 2 ^ 1) mod 2 ^ 64) with (2 * l + 2 ^ 64)
      by (apply Z.mod_unique with (-1); lia).
    rewrite lxor_ones64 by zlia. rewrite Z.ones_equiv. lia.
Qed.

Lemma land1 n : Z.land n 1 = n mod 2.
Proof. apply (Z.land_ones n 1). lia. Qed.

Lemma zigzag_roundtrip l :
  - 2 ^ 63 <= l < 2 ^ 63 -> u64 (i64ToZigzag l) /\ zigzagToI64 (i64ToZigzag l) = l.
Proof.
  intros Hl. rewrite i64ToZigzag_eq by done.
  destruct (Z.leb_spec 0 l); (split; [zlia|]); unfold zigzagToI64.
  - replace (Z.land (2 * l) 1) with 0
      by (rewrite land1; symmetry; rewrite Z.mul_comm; by apply Z.mod_mul).
    replace (Z.shiftr (2 * l) 1) with l by (rewrite Z.shiftr_div_pow2 by lia;
      symmetry; rewrite Z.mul_comm; by apply Z.div_mul).
    unfold wrap, i64. rewrite Z.mod_0_l, Z.lxor_0_r by lia. rewrite Z.mod_small by lia. lia.
  - replace (Z.land (-2 * l - 1) 1) with 1.
    2:{ rewrite land1. apply Z.mod_unique with (- l - 1); lia. }
    replace (Z.shiftr (-2 * l - 1) 1) with (- l - 1).
    2:{ rewrite Z.shiftr_div_pow2 by lia. apply Z.div_unique with 1; lia. }
    change (wrap64 (- (1))) with (Z.ones 64). rewrite lxor_ones64 by zlia.
    rewrite Z.ones_equiv. unfold i64.
    replace ((Z.pred (2 ^ 64) - (- l - 1) + 2 ^ 63) mod 2 ^ 64) with (l + 2 ^ 63); [lia|].
    apply Z.mod_unique with 1; lia.
Qed.

(** ** The properties of the component *)

(** Every encoder is undone by its decoder, whatever follows the encoding in
    the buffer: 32- and 64-bit varints, zigzag signed varints, and
    length-prefixed strings. *)
Theorem coding_roundtrip (rest : bytes) :
  (forall v, u32 v -> GetVarint32 (PutVarint32 [] v ++ rest) = Some (v, rest)) /\
  (forall v, u64 v -> GetVarint64 (PutVarint64 [] v ++ rest) = Some (v, rest)) /\
  (forall v, - 2 ^ 63 <= v < 2 ^ 63 ->
     GetVarsignedint64Ptr (PutVarsignedint64 [] v ++ rest) = Some (v, rest)) /\
  (forall s, len s < 2 ^ 32 ->
     GetLengthPrefixedSlice (PutLengthPrefixedSlice [] s ++ rest) = Some (s, rest)) /\
  (forall parts, len (concat parts) < 2 ^ 32 ->
     GetLengthPrefixedSlice (PutLengthPrefixedSliceParts [] parts ++ rest) =
     Some (concat parts, rest)).
Proof.
  split_and!.
  - intros v Hv. exact (GetVarint32_Encode v rest Hv).
  - intros v Hv. exact (GetVarint64_Encode v rest Hv).
  - intros v Hv. destruct (zigzag_roundtrip v Hv) as [Hu Hz].
    unfold GetVarsignedint64Ptr, PutVarsignedint64. change GetVarint64Ptr with GetVarint64.
    simpl. rewrite (GetVarint64_Encode _ rest Hu). simpl. by rewrite Hz.
  - intros s. apply GetLengthPrefixedSlice_Put.
  - intros parts Hl. rewrite <-GetLengthPrefixedSlice_Put by done. do 2 f_equal.
    unfold PutLengthPrefixedSliceParts, PutLengthPrefixedSlice.
    assert (Hsum : foldr (fun p acc => len p + acc) 0 parts = len (concat parts)).
    { clear. induction parts as [|p parts IH]; [done|]. simpl. rewrite IH, zlen_app. done. }
    rewrite Hsum. generalize (PutVarint32 [] (wrap32 (len (concat parts)))). clear.
    induction parts as [|p parts IH]; intros d; simpl; [by rewrite app_nil_r|].
    by rewrite IH, <-app_assoc.
Qed.

(** The stack buffers of the multi-value writers are never overrun: each
    writer appends at most as many bytes as the buffer it declares
    ([char buf[10]], [buf[15]], [buf[20]]), and [VarintLength] is the exact
    length of the encoding. *)
Theorem varint_buffers_fit (a b : Z) (c d : Z) :
  u32 a -> u32 b -> u64 c -> u64 d ->
  len (PutVarint32 [] a) <= 5 /\
  len (PutVarint64 [] c) <= Z.of_nat kMaxVarint64Length /\
  len (PutVarint32Varint32 [] a b) <= 10 /\
  len (PutVarint32Varint32Varint32 [] a b a) <= 15 /\
  len (PutVarint64Varint64 [] c d) <= 20 /\
  len (PutVarint32Varint64 [] a c) <= 15 /\
  len (PutVarint32Varint32Varint64 [] a b c) <= 20 /\
  VarintLength c = len (EncodeVarint64 c) /\
  VarintLength a = len (EncodeVarint32 a).
Proof.
  intros Ha Hb Hc Hd.
  pose proof (EncodeVarint32_len a Ha). pose proof (EncodeVarint32_len b Hb).
  pose proof (EncodeVarint64_len c Hc). pose proof (EncodeVarint64_len d Hd).
  unfold PutVarint32, PutVarint64, PutVarint32Varint32, PutVarint32Varint32Varint32,
    PutVarint64Varint64, PutVarint32Varint64, PutVarint32Varint32Varint64, kMaxVarint64Length.
  simpl app. rewrite !zlen_app, (EncodeVarint32_loop a) in * by done.
  unfold VarintLength. rewrite !VarintLength_loop_length.
  unfold EncodeVarint64 in *. simpl Z.of_nat. lia.
Qed.

Lemma varint_buffers_fit_witness :
  u32 300 /\ len (PutVarint32Varint64 [] 300 (2 ^ 64 - 1)) <= 15.
Proof.
  split; [unfold u32; lia|].
  apply (varint_buffers_fit 300 300 (2 ^ 64 - 1) 0); unfold u32, u64; lia.
Defined.
