(* ===== verification/LogWriter.v ===== *)
(** * Writing logs (db/log_format.h, db/log_writer.h, db/log_writer.cc)

    A log, of writes or of version edits, is a sequence of blocks of 32768 bytes.  A
    record is cut into fragments that do not cross a block; a fragment has a header with
    the masked checksum, the length, the place of the fragment in its record and, in a log
    whose file may be reused, the number of the log.  The file is the bytes it holds and a
    schedule of the calls that fail. *)

From S2P Require Import Prelude Coding Crc32c.

(** ** The format *)

Definition kZeroType : Z := 0.
Definition kFullType : Z := 1.
Definition kFirstType : Z := 2.
Definition kMiddleType : Z := 3.
Definition kLastType : Z := 4.
Definition kRecyclableFullType : Z := 5.
Definition kRecyclableFirstType : Z := 6.
Definition kRecyclableMiddleType : Z := 7.
Definition kRecyclableLastType : Z := 8.
Definition kMaxRecordType : Z := kRecyclableLastType.

Definition kBlockSize : Z := 32768.
Definition kHeaderSize : Z := 4 + 2 + 1.
Definition kRecyclableHeaderSize : Z := 4 + 2 + 1 + 4.

(** ** The file *)

(** [lf_faults] says of each call to come whether it succeeds ([None]) or fails after some
    of its bytes reached the file; calls beyond the schedule succeed. *)
Record LogFile := mkLogFile { lf_data : bytes; lf_faults : list (option nat) }.

Definition Append (data : bytes) (f : LogFile) : bool * LogFile :=
  match lf_faults f with
  | Some n :: faults => (false, mkLogFile (lf_data f ++ take n data) faults)
  | faults => (true, mkLogFile (lf_data f ++ data) (tail faults))
  end.

Definition Flush (f : LogFile) : bool * LogFile :=
  match lf_faults f with
  | Some _ :: faults => (false, mkLogFile (lf_data f) faults)
  | faults => (true, mkLogFile (lf_data f) (tail faults))
  end.

(** ** The writer *)

Record Writer := mkWriter {
  dest_ : LogFile;
  block_offset_ : Z;
  log_number_ : Z;
  recycle_log_files_ : bool;
  type_crc_ : list Z;
  manual_flush_ : bool
}.

Definition w_set (dest : LogFile) (off : Z) (w : Writer) : Writer :=
  mkWriter dest off (log_number_ w) (recycle_log_files_ w) (type_crc_ w) (manual_flush_ w).

(** [crc32c::Extend] and [crc32c::Value] on a buffer at a 16-byte boundary; the address has
    no effect on the result. *)
Definition Extend (crc : Z) (data : bytes) : option Z := ExtendImpl 0 crc data.
Definition crc_Value (data : bytes) : option Z := Extend 0 data.

Definition Writer_make (dest : LogFile) (log_number : Z) (recycle_log_files manual_flush : bool) : option Writer :=
  type_crc ← mapM (fun i => crc_Value [byte.of_Z i]) (upto (kMaxRecordType + 1));
  Some (mkWriter dest 0 log_number recycle_log_files type_crc manual_flush).

Definition WriteBuffer (w : Writer) : bool * Writer :=
  let '(s, dest) := Flush (dest_ w) in (s, w_set dest (block_offset_ w) w).

(** [None] is a failed assertion. *)
Definition EmitPhysicalRecord (w : Writer) (t : Z) (ptr : bytes) : option (bool * Writer) :=
  let n := len ptr in
  if negb (n <=? 0xffff) then None else
  let mid := [byte.of_Z (Z.land n 0xff); byte.of_Z (Z.shiftr n 8); byte.of_Z t] in
  crc ← type_crc_ w !z t;
  '(header_size, crc, num) ←
    (if t <? kRecyclableFullType then
       if block_offset_ w + kHeaderSize + n <=? kBlockSize then Some (kHeaderSize, crc, []) else None
     else
       if block_offset_ w + kRecyclableHeaderSize + n <=? kBlockSize then
         let num := EncodeFixed32 (wrap32 (log_number_ w)) in
         crc ← Extend crc num;
         Some (kRecyclableHeaderSize, crc, num)
       else None);
  crc ← Extend crc ptr;
  let buf := EncodeFixed32 (Mask crc) ++ mid ++ num in
  let '(s, dest) := Append buf (dest_ w) in
  let '(s, dest) := if s then Append ptr dest else (s, dest) in
  let '(s, dest) := if s && negb (manual_flush_ w) then Flush dest else (s, dest) in
  Some (s, w_set dest (block_offset_ w + header_size + n) w).

Definition header_size_of (recycle : bool) : Z := if recycle then kRecyclableHeaderSize else kHeaderSize.

(** The type of a fragment that begins or ends its record. *)
Definition fragment_type (recycle begin end_ : bool) : Z :=
  if begin && end_ then (if recycle then kRecyclableFullType else kFullType)
  else if begin then (if recycle then kRecyclableFirstType else kFirstType)
  else if end_ then (if recycle then kRecyclableLastType else kLastType)
  else (if recycle then kRecyclableMiddleType else kMiddleType).

(** The switch to a new block at the head of the loop of [AddRecord]. *)
Definition switch_block (w : Writer) : option (bool * Writer) :=
  let leftover := kBlockSize - block_offset_ w in
  if negb (0 <=? leftover) then None else
  if leftover <? header_size_of (recycle_log_files_ w) then
    let '(s, dest) :=
      if 0 <? leftover then Append (repeat Byte.x00 (Z.to_nat leftover)) (dest_ w) else (true, dest_ w) in
    Some (s, if s then w_set dest 0 w else w_set dest (block_offset_ w) w)
  else Some (true, w).

(** One round of the loop; the bytes that are left are returned with the status. *)
Definition AddRecord_round (w : Writer) (begin : bool) (ptr : bytes) : option (bool * bytes * Writer) :=
  '(s, w) ← switch_block w;
  if negb s then Some (false, ptr, w) else
  let avail := kBlockSize - block_offset_ w - header_size_of (recycle_log_files_ w) in
  if negb (0 <=? avail) then None else
  let fragment_length := if len ptr <? avail then len ptr else avail in
  let end_ := len ptr =? fragment_length in
  let type := fragment_type (recycle_log_files_ w) begin end_ in
  '(s, w) ← EmitPhysicalRecord w type (take (Z.to_nat fragment_length) ptr);
  Some (s, drop (Z.to_nat fragment_length) ptr, w).

Fixpoint AddRecord_loop (fuel : nat) (w : Writer) (begin : bool) (ptr : bytes) : option (bool * Writer) :=
  match fuel with
  | O => None
  | S fuel =>
      '(s, ptr, w) ← AddRecord_round w begin ptr;
      if s && (0 <? len ptr) then AddRecord_loop fuel w false ptr else Some (s, w)
  end.

(** A round that writes nothing of the record only opens a block, so the number of rounds is at
    most the length of the record and two. *)
Definition AddRecord (w : Writer) (slice : bytes) : option (bool * Writer) :=
  AddRecord_loop (length slice + 2) w true slice.

(** Records one after the other, up to the first that fails. *)
Fixpoint AddRecords (w : Writer) (records : list bytes) : option (bool * Writer) :=
  match records with
  | [] => Some (true, w)
  | slice :: records =>
      '(s, w) ← AddRecord w slice;
      if s : bool then AddRecords w records else Some (false, w)
  end.

(** ** Layout

    What the writer is meant to leave in the file. *)

(** A fragment with the zeros before it. *)
Record chunk := mkChunk { c_pad : Z; c_type : Z; c_data : bytes }.

Definition physical (recycle : bool) (number t : Z) (p : bytes) : bytes :=
  let num := if recycle then EncodeFixed32 (wrap32 number) else [] in
  EncodeFixed32 (Mask (crc32c_spec 0 (byte.of_Z t :: num ++ p))) ++
  [byte.of_Z (Z.land (len p) 0xff); byte.of_Z (Z.shiftr (len p) 8); byte.of_Z t] ++ num ++ p.

Definition chunk_bytes (recycle : bool) (number : Z) (c : chunk) : bytes :=
  repeat Byte.x00 (Z.to_nat (c_pad c)) ++ physical recycle number (c_type c) (c_data c).

Definition chunks_bytes (recycle : bool) (number : Z) (cs : list chunk) : bytes :=
  cs ≫= chunk_bytes recycle number.

(** The zeros before a fragment and its offset in the block. *)
Definition block_start (recycle : bool) (off : Z) : Z * Z :=
  if kBlockSize - off <? header_size_of recycle then (kBlockSize - off, 0) else (0, off).

(** The fragments of a record, from offset [off] of a block to an offset of the last one. *)
Inductive fragments (recycle : bool) : Z -> bool -> bytes -> list chunk -> Z -> Prop :=
| frag_end off begin p pad off1 :
    block_start recycle off = (pad, off1) -> off1 + header_size_of recycle + len p <= kBlockSize ->
    fragments recycle off begin p [mkChunk pad (fragment_type recycle begin true) p] (off1 + header_size_of recycle + len p)
| frag_cut off begin p q pad off1 cs off' :
    block_start recycle off = (pad, off1) -> off1 + header_size_of recycle + len p = kBlockSize -> q <> [] ->
    fragments recycle kBlockSize false q cs off' ->
    fragments recycle off begin (p ++ q) (mkChunk pad (fragment_type recycle begin false) p :: cs) off'.

(** Records with their fragments. *)
Inductive layout (recycle : bool) : Z -> list bytes -> list (list chunk) -> Z -> Prop :=
| layout_nil off : layout recycle off [] [] off
| layout_cons off slice cs off1 records css off2 :
    fragments recycle off true slice cs off1 -> layout recycle off1 records css off2 ->
    layout recycle off (slice :: records) (cs :: css) off2.

(** ** Appending *)

(** A successful call appends its bytes, a failing one some of them. *)
Definition writes (s : bool) (x : bytes) (f f' : LogFile) : Prop :=
  (exists k, lf_data f' = lf_data f ++ take k x /\ (s = true -> take k x = x)) /\
  (lf_faults f = [] -> s = true /\ lf_faults f' = []).

Lemma writes_true x f f' : writes true x f f' -> lf_data f' = lf_data f ++ x.
Proof. intros [(k & -> & Hk) _]. by rewrite Hk. Qed.

Lemma writes_app s x y f f1 f2 : writes true x f f1 -> writes s y f1 f2 -> writes s (x ++ y) f f2.
Proof.
  intros Hx [(k & Hk & Hs) Hf]. destruct Hx as [(j & Hj & Hx) Hf1]. split.
  - exists (length x + k)%nat. rewrite Hk, Hj, Hx by done. rewrite take_app_add.
    split; [by rewrite <- app_assoc|]. intros E. by rewrite Hs.
  - intros E. destruct (Hf1 E) as [_ E1]. by apply Hf.
Qed.

Lemma writes_stop x y f f1 : writes false x f f1 -> writes false (x ++ y) f f1.
Proof.
  intros [(k & Hk & _) Hf]. split; [|intros E; by destruct (Hf E)].
  exists (k `min` length x)%nat. rewrite Hk, take_app_le by lia. split; [|done]. f_equal. by rewrite <- take_take, firstn_all.
Qed.

Lemma Append_writes data f s f' : Append data f = (s, f') -> writes s data f f'.
Proof.
  unfold Append, writes. destruct (lf_faults f) as [|[n|] faults]; intros [= <- <-]; simpl; (split; [|done]).
  2: by exists n. all: exists (length data); by rewrite firstn_all.
Qed.

Lemma Flush_writes f s f' : Flush f = (s, f') -> writes s [] f f'.
Proof.
  unfold Flush, writes. destruct (lf_faults f) as [|[n|] faults]; intros [= <- <-]; simpl; (split; [|done]).
  all: exists 0%nat; by rewrite app_nil_r.
Qed.

(** ** The writer produces the layout *)

Record writer_ok (w : Writer) : Prop := {
  wo_crc : type_crc_ w = (fun i => crc32c_spec 0 [byte.of_Z i]) <$> upto (kMaxRecordType + 1);
  wo_off : 0 <= block_offset_ w <= kBlockSize
}.

Lemma u32_0 : u32 0.
Proof. unfold u32. lia. Qed.

Lemma Extend_ok crc data : u32 crc -> Extend crc data = Some (crc32c_spec crc data).
Proof. apply ExtendImpl_ok. Qed.

Lemma crc_Value_ok data : crc_Value data = Some (crc32c_spec 0 data).
Proof. apply Extend_ok, u32_0. Qed.

Lemma Writer_make_ok dest number recycle manual :
  exists w, Writer_make dest number recycle manual = Some w /\ writer_ok w /\ dest_ w = dest /\ block_offset_ w = 0 /\
    log_number_ w = number /\ recycle_log_files_ w = recycle.
Proof.
  unfold Writer_make. replace (mapM _ _) with (Some ((fun i => crc32c_spec 0 [byte.of_Z i]) <$> upto (kMaxRecordType + 1))).
  2: { symmetry. apply mapM_Some, Forall2_fmap_r, Forall_Forall2_diag, Forall_forall. intros i _. apply crc_Value_ok. }
  cbn [mbind option_bind]. eexists. split; [done|]. by split_and!.
Qed.

Lemma upto_lookup n i : 0 <= i < n -> upto n !z i = Some i.
Proof.
  intros Hi. apply zget_Some. split; [lia|]. unfold upto. rewrite list_lookup_fmap, lookup_seq_lt by lia. simpl. f_equal. lia.
Qed.

Lemma zget_fmap {A B} (f : A -> B) l i : (f <$> l) !z i = f <$> l !z i.
Proof. unfold zget. destruct (0 <=? i); [apply list_lookup_fmap|done]. Qed.

Lemma header_size_range recycle : 7 <= header_size_of recycle <= 11.
Proof. destruct recycle; vm_compute; split; discriminate. Qed.

Lemma EmitPhysicalRecord_ok w t p :
  writer_ok w -> 0 <= t <= kMaxRecordType -> (t <? kRecyclableFullType) = negb (recycle_log_files_ w) ->
  block_offset_ w + header_size_of (recycle_log_files_ w) + len p <= kBlockSize ->
  exists s w', EmitPhysicalRecord w t p = Some (s, w') /\
    writes s (physical (recycle_log_files_ w) (log_number_ w) t p) (dest_ w) (dest_ w') /\
    w' = w_set (dest_ w') (block_offset_ w + header_size_of (recycle_log_files_ w) + len p) w.
Proof.
  intros [Hcrc Hoff] Ht Hrec Hfit. pose proof (header_size_range (recycle_log_files_ w)). unfold EmitPhysicalRecord.
  unfold kBlockSize, kMaxRecordType, kRecyclableLastType in *.
  rewrite (proj2 (Z.leb_le (len p) 65535)) by lia. cbn [negb]. rewrite Hcrc, zget_fmap, upto_lookup by lia. rewrite Hrec.
  match goal with |- context [mbind ?k (?f <$> Some ?x)] => change (mbind k (f <$> Some x)) with (k (f x)); cbv beta end.
  assert (H1 : u32 (crc32c_spec 0 [byte.of_Z t])) by apply crc32c_spec_range, u32_0.
  set (body := if recycle_log_files_ w then EncodeFixed32 (wrap32 (log_number_ w)) else []).
  match goal with |- context [mbind _ (if negb _ then ?a else ?b)] =>
    replace (if negb (recycle_log_files_ w) then a else b) with
      (Some (header_size_of (recycle_log_files_ w), crc32c_spec 0 (byte.of_Z t :: body), body)) end.
  2: { unfold body, header_size_of in *. destruct (recycle_log_files_ w); cbn [negb]; rewrite (proj2 (Z.leb_le _ _)) by lia; [|done].
       rewrite Extend_ok, crc32c_spec_app by done. done. }
  cbn [mbind option_bind]. rewrite Extend_ok, crc32c_spec_app by apply crc32c_spec_range, u32_0.
  cbn [mbind option_bind]. unfold physical. fold body. cbn [app]. set (buf := EncodeFixed32 _ ++ _ :: _ :: _ :: body).
  destruct (Append buf (dest_ w)) as [s1 d1] eqn:E1. apply Append_writes in E1.
  replace (EncodeFixed32 _ ++ _ :: _ :: _ :: body ++ p) with (buf ++ p) by (unfold buf; by rewrite <- app_assoc).
  destruct s1; [|by eexists _, _; split_and!; [done|by apply writes_stop|]].
  destruct (Append p d1) as [s2 d2] eqn:E2. apply Append_writes in E2. pose proof (writes_app _ _ _ _ _ _ E1 E2) as E12.
  destruct s2; [|by eexists _, _; split_and!; [done| |]]. cbn [andb].
  destruct (negb (manual_flush_ w)); [|by eexists _, _; split_and!; [done| |]].
  destruct (Flush d2) as [s3 d3] eqn:E3. apply Flush_writes in E3. eexists _, _. split_and!; [done| |done].
  rewrite <- (app_nil_r (buf ++ p)). by eapply writes_app.
Qed.

Section Layout.
Context (recycle : bool).

Lemma block_start_range off pad off1 :
  0 <= off <= kBlockSize -> block_start recycle off = (pad, off1) ->
  0 <= pad < header_size_of recycle /\ 0 <= off1 /\ off1 + header_size_of recycle <= kBlockSize /\
  (pad = 0 /\ off1 = off \/ off1 = 0 /\ off + pad = kBlockSize).
Proof.
  intros Hoff. pose proof (header_size_range recycle). unfold block_start, kBlockSize in *.
  destruct (Z.ltb_spec (32768 - off) (header_size_of recycle)); intros [= <- <-]; lia.
Qed.

Lemma fragments_total_block p : exists cs off', fragments recycle kBlockSize false p cs off'.
Proof.
  pose proof (header_size_range recycle) as Hh. remember (length p) as n eqn:Hn. revert p Hn.
  induction (lt_wf n) as [n _ IH]. intros p ->. set (avail := kBlockSize - header_size_of recycle).
  destruct (block_start recycle kBlockSize) as [pad off1] eqn:E.
  assert (off1 = 0) as -> by (apply block_start_range in E; unfold kBlockSize in *; lia).
  destruct (Z.le_gt_cases (len p) avail) as [Hle|Hgt].
  - do 2 eexists. eapply frag_end; [done|]. unfold avail in Hle. lia.
  - assert (Hlt : (length (drop (Z.to_nat avail) p) < length p)%nat).
    { rewrite length_drop. unfold avail, kBlockSize, zlen in *. lia. }
    destruct (IH _ Hlt _ eq_refl) as (cs & off' & Hf). rewrite <- (take_drop (Z.to_nat avail) p).
    do 2 eexists. eapply frag_cut; [done| | |done].
    + unfold zlen. rewrite length_take. unfold avail, kBlockSize, zlen in *. lia.
    + intros H%(f_equal length). rewrite length_drop in H. simpl in H. unfold avail, kBlockSize, zlen in *. lia.
Qed.

Lemma fragments_total off begin p : 0 <= off <= kBlockSize -> exists cs off', fragments recycle off begin p cs off'.
Proof.
  intros Hoff. destruct (block_start recycle off) as [pad off1] eqn:E. apply block_start_range in E as HE; [|done].
  set (avail := kBlockSize - off1 - header_size_of recycle). destruct (Z.le_gt_cases (len p) avail) as [Hle|Hgt].
  - do 2 eexists. eapply frag_end; [done|]. unfold avail in Hle. lia.
  - destruct (fragments_total_block (drop (Z.to_nat avail) p)) as (cs & off' & Hf). rewrite <- (take_drop (Z.to_nat avail) p).
    do 2 eexists. eapply frag_cut; [done| | |done].
    + unfold zlen. rewrite length_take. unfold avail, zlen in *. lia.
    + intros H%(f_equal length). rewrite length_drop in H. simpl in H. unfold avail, zlen in *. lia.
Qed.

Lemma fragments_range off begin p cs off' : 0 <= off <= kBlockSize -> fragments recycle off begin p cs off' -> 0 <= off' <= kBlockSize.
Proof.
  intros Hoff H. induction H as [off begin p pad off1 E Hfit|]; [|apply IHfragments; unfold kBlockSize; lia].
  apply block_start_range in E; [|done]. pose proof (header_size_range recycle). pose proof (zlen_nonneg p). lia.
Qed.
End Layout.

Lemma fragment_type_range recycle begin end_ :
  1 <= fragment_type recycle begin end_ <= kMaxRecordType /\
  (fragment_type recycle begin end_ <? kRecyclableFullType) = negb recycle.
Proof. destruct recycle, begin, end_; vm_compute; repeat split; discriminate. Qed.

(** The head of the loop and the fragment it writes. *)
Lemma switch_block_ok w pad off1 :
  writer_ok w -> block_start (recycle_log_files_ w) (block_offset_ w) = (pad, off1) ->
  exists s w', switch_block w = Some (s, w') /\ writes s (repeat Byte.x00 (Z.to_nat pad)) (dest_ w) (dest_ w') /\
    (s = true -> w' = w_set (dest_ w') off1 w).
Proof.
  intros [Hcrc Hoff] E. unfold switch_block, block_start in *. set (left := kBlockSize - block_offset_ w) in *.
  assert (Hno : forall f, writes true [] f f) by (intros f; split; [exists 0%nat; by rewrite app_nil_r|done]).
  rewrite (proj2 (Z.leb_le 0 left)) by lia. cbn [negb]. destruct (left <? header_size_of _); injection E as <- <-.
  - destruct (Z.ltb_spec 0 left).
    + destruct (Append _ (dest_ w)) as [s d] eqn:EA. apply Append_writes in EA. eexists _, _. split; [done|]. by destruct s.
    + eexists _, _. split; [done|]. simpl. replace (Z.to_nat left) with 0%nat by lia. done.
  - eexists _, _. split; [done|]. split; [done|]. intros _. by destruct w.
Qed.

Lemma AddRecord_round_ok w begin p q pad off1 :
  writer_ok w -> block_start (recycle_log_files_ w) (block_offset_ w) = (pad, off1) ->
  off1 + header_size_of (recycle_log_files_ w) + len p <= kBlockSize ->
  (q <> [] -> off1 + header_size_of (recycle_log_files_ w) + len p = kBlockSize) ->
  exists s rest w', AddRecord_round w begin (p ++ q) = Some (s, rest, w') /\
    writes s (chunk_bytes (recycle_log_files_ w) (log_number_ w)
                (mkChunk pad (fragment_type (recycle_log_files_ w) begin (bool_decide (q = []))) p)) (dest_ w) (dest_ w') /\
    (s = true -> rest = q /\ w' = w_set (dest_ w') (off1 + header_size_of (recycle_log_files_ w) + len p) w).
Proof.
  intros Hw E Hfit Hq. destruct (switch_block_ok w pad off1 Hw E) as (s1 & w1 & Esw & W1 & Hw1).
  apply block_start_range in E; [|apply Hw]. pose proof (zlen_nonneg q) as Hqn. unfold AddRecord_round, chunk_bytes. cbn [c_pad c_type c_data].
  rewrite Esw. cbn [mbind option_bind]. destruct s1; [|by eexists _, _, _; split_and!; [done|apply writes_stop|]].
  specialize (Hw1 eq_refl). cbn [negb]. assert (Hok1 : writer_ok w1) by (rewrite Hw1; split; [apply Hw|simpl; pose proof (header_size_range (recycle_log_files_ w)); lia]).
  assert (Hf1 : block_offset_ w1 = off1 /\ recycle_log_files_ w1 = recycle_log_files_ w /\ log_number_ w1 = log_number_ w) by (by rewrite Hw1).
  destruct Hf1 as (Hoff1 & Hrec1 & Hnum1). rewrite Hoff1, Hrec1. set (hs := header_size_of (recycle_log_files_ w)) in *.
  rewrite (proj2 (Z.leb_le 0 _)) by lia. cbn [negb]. rewrite zlen_app.
  assert (Hlen : (if len p + len q <? kBlockSize - off1 - hs then len p + len q else kBlockSize - off1 - hs) = len p).
  { destruct (decide (q = [])) as [Hc|Hne]; [apply zlen_zero in Hc|specialize (Hq Hne)];
      destruct (Z.ltb_spec (len p + len q) (kBlockSize - off1 - hs)); lia. }
  assert (Hend : (len p + len q =? len p) = bool_decide (q = [])).
  { case_bool_decide as Hc; [subst; rewrite zlen_nil; lia|]. rewrite <- zlen_zero in Hc. lia. }
  rewrite Hlen, Hend, zlen_to_nat, take_app_length, drop_app_length.
  set (t := fragment_type _ _ _). pose proof (fragment_type_range (recycle_log_files_ w) begin (bool_decide (q = []))) as [Ht1 Ht2].
  destruct (EmitPhysicalRecord_ok w1 t p) as (s2 & w2 & -> & W2 & Hw2);
    [done|unfold t; lia|by rewrite Hrec1|rewrite Hrec1, Hoff1; fold hs; lia|].
  cbn [mbind option_bind]. rewrite Hrec1, Hnum1 in W2. eexists _, _, _. split; [done|]. split; [by eapply writes_app|].
  intros ->. split; [done|]. rewrite Hw2, Hrec1, Hoff1, Hw1. done.
Qed.

Lemma AddRecord_loop_ok recycle off begin p cs off' :
  fragments recycle off begin p cs off' -> begin = true \/ off = kBlockSize ->
  forall fuel w, writer_ok w -> recycle_log_files_ w = recycle -> block_offset_ w = off ->
  (length p + (if begin then 2 else 1) <= fuel)%nat ->
  exists s w', AddRecord_loop fuel w begin p = Some (s, w') /\
    writes s (chunks_bytes recycle (log_number_ w) cs) (dest_ w) (dest_ w') /\ (s = true -> w' = w_set (dest_ w') off' w).
Proof.
  intros H. pose proof (header_size_range recycle) as Hh.
  induction H as [off begin p pad off1 E Hfit|off begin p q pad off1 cs off' E Hfit Hq Hf IH]; intros Hb fuel w Hw <- <- Hfuel;
    (destruct fuel as [|fuel]; [destruct begin; lia|]); cbn [AddRecord_loop]; unfold chunks_bytes; cbn [list_bind mbind].
  - destruct (AddRecord_round_ok w begin p [] pad off1) as (s & rest & w' & Er & W & Hs); [done..|].
    rewrite app_nil_r in Er. rewrite Er, app_nil_r. cbn [mbind option_bind]. eexists s, w'.
    destruct s; [|done]. destruct (Hs eq_refl) as [-> Hw']. split_and!; done.
  - destruct (AddRecord_round_ok w begin p q pad off1) as (s & rest & w1 & Er & W & Hs); [done|done|lia|done|].
    rewrite bool_decide_false in W by done. rewrite Er. cbn [mbind option_bind].
    destruct s; [|by eexists _, _; split_and!; [done|apply writes_stop|]]. destruct (Hs eq_refl) as [-> Hw1].
    assert (Hqlen : 0 < len q) by (destruct q; [done|rewrite zlen_cons; pose proof (zlen_nonneg q); lia]).
    rewrite (proj2 (Z.ltb_lt 0 (len q))) by done. cbn [andb]. rewrite Hfit in Hw1.
    destruct (IH (or_intror eq_refl) fuel w1) as (s2 & w2 & -> & W2 & Hw2).
    { rewrite Hw1. split; [apply Hw|simpl; unfold kBlockSize; lia]. }
    { by rewrite Hw1. } { by rewrite Hw1. }
    { rewrite length_app in Hfuel. destruct begin; [lia|]. destruct Hb as [|Hb]; [done|].
      apply block_start_range in E; [|apply Hw]. assert (0 < len p); [|zlia]. unfold kBlockSize in *. lia. }
    replace (log_number_ w1) with (log_number_ w) in W2 by (by rewrite Hw1).
    eexists _, _. split; [done|]. split; [by eapply writes_app|]. intros Hs2. by rewrite (Hw2 Hs2), Hw1.
Qed.

Definition log_bytes (recycle : bool) (number : Z) (css : list (list chunk)) : bytes :=
  css ≫= chunks_bytes recycle number.

Lemma layout_total recycle off records : 0 <= off <= kBlockSize -> exists css off', layout recycle off records css off'.
Proof.
  revert off. induction records as [|slice records IH]; intros off Hoff; [do 2 eexists; constructor|].
  destruct (fragments_total recycle off true slice Hoff) as (cs & off1 & Hf).
  destruct (IH off1) as (css & off2 & Hl); [by eapply fragments_range|]. do 2 eexists. by econstructor.
Qed.

(** Without a fault every record is written; in any case a part of the intended log is. *)
Lemma AddRecords_ok recycle off records css off' :
  layout recycle off records css off' ->
  forall w, writer_ok w -> recycle_log_files_ w = recycle -> block_offset_ w = off ->
  exists s w', AddRecords w records = Some (s, w') /\
    writes s (log_bytes recycle (log_number_ w) css) (dest_ w) (dest_ w') /\ (s = true -> w' = w_set (dest_ w') off' w).
Proof.
  induction 1 as [off|off slice cs off1 records css off2 Hf Hl IH]; intros w Hw Hrec Hoff; cbn [AddRecords].
  - exists true, w. split; [done|]. split; [|intros _; rewrite <- Hoff; by destruct w].
    split; [exists 0%nat; by rewrite app_nil_r|done].
  - destruct (AddRecord_loop_ok _ _ _ _ _ _ Hf (or_introl eq_refl) (length slice + 2)%nat w Hw Hrec Hoff) as (s & w1 & E & W & Hw1);
      [lia|]. unfold AddRecord. rewrite E. cbn [mbind option_bind]. unfold log_bytes. cbn [list_bind mbind].
    destruct s; [|by eexists _, _; split_and!; [done|apply writes_stop|]]. specialize (Hw1 eq_refl).
    destruct (IH w1) as (s2 & w2 & -> & W2 & Hw2).
    { rewrite Hw1. split; [apply Hw|]. simpl. eapply fragments_range, Hf. rewrite <- Hoff. apply Hw. }
    { by rewrite Hw1. } { by rewrite Hw1. }
    replace (log_number_ w1) with (log_number_ w) in W2 by (by rewrite Hw1).
    eexists _, _. split; [done|]. split; [by eapply writes_app|]. intros Hs. by rewrite (Hw2 Hs), Hw1.
Qed.
