(* ===== verification/LogReader.v ===== *)
(** * Reading logs (db/log_reader.h, db/log_reader.cc)

    The reader takes the file a block at a time and hands out the records whose fragments
    it finds, skipping what the checksums and the lengths show to be damaged; what happens
    at damage and at the end of the file depends on the recovery mode. *)

From S2P Require Import Prelude Coding Crc32c LogWriter.

(** ** The file *)

(** [sf_faults] says of each call to come whether it succeeds ([None]) or fails with some of
    the bytes read; calls beyond the schedule succeed. *)
Record SequentialFile := mkSeqFile { sf_data : bytes; sf_pos : Z; sf_faults : list (option nat) }.

Definition Read (n : Z) (f : SequentialFile) : bool * bytes * SequentialFile :=
  let want := take (Z.to_nat n) (drop (Z.to_nat (sf_pos f)) (sf_data f)) in
  match sf_faults f with
  | Some k :: faults =>
      let got := take k want in (false, got, mkSeqFile (sf_data f) (sf_pos f + len got) faults)
  | faults => (true, want, mkSeqFile (sf_data f) (sf_pos f + len want) (tail faults))
  end.

(** ** The reader *)

Inductive WALRecoveryMode :=
| kTolerateCorruptedTailRecords | kAbsoluteConsistency | kPointInTimeRecovery | kSkipAnyCorruptedRecords.

#[export] Instance WALRecoveryMode_eq_dec : EqDecision WALRecoveryMode.
Proof. solve_decision. Defined.

Definition kEof : Z := kMaxRecordType + 1.
Definition kBadRecord : Z := kMaxRecordType + 2.
Definition kBadHeader : Z := kMaxRecordType + 3.
Definition kOldRecord : Z := kMaxRecordType + 4.
Definition kBadRecordLen : Z := kMaxRecordType + 5.
Definition kBadRecordChecksum : Z := kMaxRecordType + 6.

(** [reporter_] is what the reporter was told, [None] when there is none. *)
Record Reader := mkReader {
  file_ : SequentialFile;
  reporter_ : option (list (Z * string));
  checksum_ : bool;
  buffer_ : bytes;
  eof_ : bool;
  read_error_ : bool;
  eof_offset_ : Z;
  last_record_offset_ : Z;
  end_of_buffer_offset_ : Z;
  reader_log_number_ : Z;
  recycled_ : bool;
  retry_after_eof_ : bool
}.

Definition Reader_make (file : SequentialFile) (reporter : option (list (Z * string))) (checksum : bool) (log_num : Z)
    (retry_after_eof : bool) : Reader :=
  mkReader file reporter checksum [] false false 0 0 0 log_num false retry_after_eof.

Definition r_buffer (b : bytes) '(mkReader f rp ck _ eo er eoff lo eb n rc rt) := mkReader f rp ck b eo er eoff lo eb n rc rt.
Definition r_eof (x : bool) (off : Z) '(mkReader f rp ck b _ er _ lo eb n rc rt) := mkReader f rp ck b x er off lo eb n rc rt.
Definition r_read_error '(mkReader f rp ck b eo _ eoff lo eb n rc rt) := mkReader f rp ck b eo true eoff lo eb n rc rt.
Definition r_read (f : SequentialFile) (added : Z) '(mkReader _ rp ck b eo er eoff lo eb n rc rt) :=
  mkReader f rp ck b eo er eoff lo (eb + added) n rc rt.
Definition r_last (lo : Z) '(mkReader f rp ck b eo er eoff _ eb n rc rt) := mkReader f rp ck b eo er eoff lo eb n rc rt.
Definition r_recycled '(mkReader f rp ck b eo er eoff lo eb n _ rt) := mkReader f rp ck b eo er eoff lo eb n true rt.

Definition ReportDrop (bytes : Z) (reason : string) '(mkReader f rp ck b eo er eoff lo eb n rc rt) :=
  mkReader f ((fun l => l ++ [(bytes, reason)]) <$> rp) ck b eo er eoff lo eb n rc rt.

Definition ReportCorruption (bytes : Z) (reason : string) (r : Reader) : Reader := ReportDrop bytes reason r.

Definition LastRecordOffset (r : Reader) : Z := last_record_offset_ r.

Definition IsEOF (r : Reader) : bool := eof_ r.

(** [None] when the copies would leave the backing store. *)
Definition UnmarkEOF (r : Reader) : option Reader :=
  if read_error_ r then Some r else
  let r := r_eof false (eof_offset_ r) r in
  if negb (retry_after_eof_ r) && (eof_offset_ r =? 0) then Some r else
  let consumed_bytes := eof_offset_ r - len (buffer_ r) in
  let remaining := kBlockSize - eof_offset_ r in
  if negb ((0 <=? consumed_bytes) && (0 <=? remaining)) then None else
  let '(status, read_buffer, file) := Read remaining (file_ r) in
  let added := len read_buffer in
  let r := r_read file added r in
  if negb status then
    let r := if 0 <? added then ReportDrop added "read error" r else r in
    Some (r_read_error r)
  else
    let r := r_buffer (buffer_ r ++ read_buffer) r in
    Some (if added <? remaining then r_eof true (eof_offset_ r + added) r else r_eof (eof_ r) 0 r).

(** [inl (error, drop_size)] is the result false; the old [drop_size] is kept where the code does not set it. *)
Definition ReadMore (drop_size : Z) (r : Reader) : option ((Z * Z + unit) * Reader) :=
  if negb (eof_ r) && negb (read_error_ r) then
    let '(status, buffer, file) := Read kBlockSize (file_ r) in
    let r := r_read file (len buffer) (r_buffer buffer r) in
    if negb status then Some (inl (kEof, drop_size), r_read_error (ReportDrop kBlockSize "read error" (r_buffer [] r)))
    else Some (inr tt, if len buffer <? kBlockSize then r_eof true (len buffer) r else r)
  else if retry_after_eof_ r && negb (read_error_ r) then
    r ← UnmarkEOF r;
    Some (if read_error_ r then inl (kEof, drop_size) else inr tt, r)
  else if 0 <? len (buffer_ r) then Some (inl (kBadHeader, len (buffer_ r)), r_buffer [] r)
  else Some (inl (kEof, drop_size), r_buffer [] r).

(** What a physical read gives: the type or the special value, the fragment where there is one, and [drop_size]. *)
Record phys := mkPhys { ph_type : Z; ph_result : bytes; ph_drop : Z }.

(** The body of [ReadPhysicalRecord] once the type and the length are known; [more] reads on and starts again. *)
Definition parse_record (more : Reader -> option (phys * Reader)) (drop_size type length_ : Z) (r : Reader) :
    option (phys * Reader) :=
  let header := buffer_ r in
  let recyclable := (kRecyclableFullType <=? type) && (type <=? kRecyclableLastType) in
  let header_size := if recyclable then kRecyclableHeaderSize else kHeaderSize in
  let r := if recyclable && (end_of_buffer_offset_ r - len (buffer_ r) =? 0) then r_recycled r else r in
  if recyclable && (len header <? kRecyclableHeaderSize) then more r else
  if recyclable && negb (DecodeFixed32 (drop 7 header) =? reader_log_number_ r)
  then Some (mkPhys kOldRecord [] drop_size, r) else
  if len header <? header_size + length_ then
    if retry_after_eof_ r then more r else
    Some (mkPhys (if negb (eof_ r) then kBadRecordLen else if 0 <? len header then kBadHeader else kEof) [] (len header),
          r_buffer [] r)
  else if (type =? kZeroType) && (length_ =? 0) then Some (mkPhys kBadRecord [] drop_size, r_buffer [] r) else
  let expected_crc := Unmask (DecodeFixed32 header) in
  actual_crc ← (if checksum_ r then crc_Value (take (Z.to_nat (length_ + header_size - 6)) (drop 6 header))
                else Some expected_crc);
  if negb (actual_crc =? expected_crc)
  then Some (mkPhys kBadRecordChecksum [] (len header), r_buffer [] r) else
  Some (mkPhys type (take (Z.to_nat length_) (drop (Z.to_nat header_size) header)) drop_size,
        r_buffer (drop (Z.to_nat (header_size + length_)) header) r).

(** [ReadMore] and, when there is more, the next round. *)
Definition read_on (again : Z -> Reader -> option (phys * Reader)) (drop_size : Z) (r : Reader) : option (phys * Reader) :=
  '(res, r) ← ReadMore drop_size r;
  match res with
  | inl (error, drop_size) => Some (mkPhys error [] drop_size, r)
  | inr _ => again drop_size r
  end.

Fixpoint ReadPhysicalRecord_loop (fuel : nat) (drop_size : Z) (r : Reader) : option (phys * Reader) :=
  match fuel with
  | O => None
  | S fuel =>
      let more := read_on (ReadPhysicalRecord_loop fuel) drop_size in
      if len (buffer_ r) <? kHeaderSize then more r else
      a ← byte.unsigned <$> buffer_ r !z 4;
      b ← byte.unsigned <$> buffer_ r !z 5;
      type ← (fun c => wrap32 (byte_signed c)) <$> buffer_ r !z 6;
      parse_record more drop_size type (Z.lor a (Z.shiftl b 8)) r
  end.

(** The bytes the reader has not handed out. *)
Definition remaining_bytes (r : Reader) : nat := length (buffer_ r) + (length (sf_data (file_ r)) - Z.to_nat (sf_pos (file_ r))).

(** A round that reads a block takes a byte at least or sees the end of the file.  With [retry_after_eof_]
    the code waits there for the file to grow; [None] is that wait. *)
Definition ReadPhysicalRecord (r : Reader) : option (phys * Reader) :=
  ReadPhysicalRecord_loop (remaining_bytes r + 4) 0 r.

(** The variables of the loop of [ReadRecord]. *)
Record rr_state := mkRR { rr_fragmented : bool; rr_scratch : bytes; rr_offset : Z }.

Definition rr_empty : rr_state := mkRR false [] 0.

(** "Error in middle of record": the fragments read so far are given up. *)
Definition rr_give_up (st : rr_state) (r : Reader) : rr_state * Reader :=
  if rr_fragmented st
  then (mkRR false [] (rr_offset st), ReportCorruption (len (rr_scratch st)) "error in middle of record" r)
  else (st, r).

(** The end of the log, with a record whose end is missing perhaps. *)
Definition rr_stop (mode : WALRecoveryMode) (st : rr_state) (r : Reader) : Reader :=
  if rr_fragmented st && bool_decide (mode = kAbsoluteConsistency)
  then ReportCorruption (len (rr_scratch st)) "error reading trailing data" r else r.

Definition rr_new (reason : string) (st : rr_state) (r : Reader) : Reader :=
  if rr_fragmented st && negb (len (rr_scratch st) =? 0)
  then ReportCorruption (len (rr_scratch st)) reason r else r.

(** One round of the loop: [inl] is the result of [ReadRecord], the record or the end. *)
Definition ReadRecord_round (mode : WALRecoveryMode) (st : rr_state) (r : Reader) :
    option ((option bytes + rr_state) * Reader) :=
  let physical_record_offset := end_of_buffer_offset_ r - len (buffer_ r) in
  '(ph, r) ← ReadPhysicalRecord r;
  let t := ph_type ph in
  let fragment := ph_result ph in
  if (t =? kFullType) || (t =? kRecyclableFullType) then
    let r := rr_new "partial record without end(1)" st r in
    Some (inl (Some fragment), r_last physical_record_offset r)
  else if (t =? kFirstType) || (t =? kRecyclableFirstType) then
    let r := rr_new "partial record without end(2)" st r in
    Some (inr (mkRR true fragment physical_record_offset), r)
  else if (t =? kMiddleType) || (t =? kRecyclableMiddleType) then
    if negb (rr_fragmented st)
    then Some (inr st, ReportCorruption (len fragment) "missing start of fragmented record(1)" r)
    else Some (inr (mkRR true (rr_scratch st ++ fragment) (rr_offset st)), r)
  else if (t =? kLastType) || (t =? kRecyclableLastType) then
    if negb (rr_fragmented st)
    then Some (inr st, ReportCorruption (len fragment) "missing start of fragmented record(2)" r)
    else Some (inl (Some (rr_scratch st ++ fragment)), r_last (rr_offset st) r)
  else if (t =? kBadHeader) || (t =? kEof) then
    let r := if (t =? kBadHeader) && bool_decide (mode = kAbsoluteConsistency)
             then ReportCorruption (ph_drop ph) "truncated header" r else r in
    Some (inl None, rr_stop mode st r)
  else if (t =? kOldRecord) && negb (bool_decide (mode = kSkipAnyCorruptedRecords)) then
    Some (inl None, rr_stop mode st r)
  else if (t =? kOldRecord) || (t =? kBadRecord) then
    let '(st, r) := rr_give_up st r in Some (inr st, r)
  else if (t =? kBadRecordLen) || (t =? kBadRecordChecksum) then
    if recycled_ r && bool_decide (mode = kTolerateCorruptedTailRecords) then Some (inl None, r) else
    let r := ReportCorruption (ph_drop ph) (if t =? kBadRecordLen then "bad record length" else "checksum mismatch") r in
    let '(st, r) := rr_give_up st r in Some (inr st, r)
  else
    Some (inr (mkRR false [] (rr_offset st)),
          ReportCorruption (len fragment + (if rr_fragmented st then len (rr_scratch st) else 0)) "unknown record type" r).

Fixpoint ReadRecord_loop (fuel : nat) (mode : WALRecoveryMode) (st : rr_state) (r : Reader) : option (option bytes * Reader) :=
  match fuel with
  | O => None
  | S fuel =>
      '(res, r) ← ReadRecord_round mode st r;
      match res with
      | inl record => Some (record, r)
      | inr st => ReadRecord_loop fuel mode st r
      end
  end.

(** A record, or [None] at the end of the log.  A round that goes on has taken a header at least, but for
    a record of an earlier log that is skipped. *)
Definition ReadRecord (mode : WALRecoveryMode) (r : Reader) : option (option bytes * Reader) :=
  ReadRecord_loop (remaining_bytes r + 1) mode rr_empty r.

(** The loop of a client: the records up to the end of the log. *)
Fixpoint read_all (fuel : nat) (mode : WALRecoveryMode) (r : Reader) : option (list bytes * Reader) :=
  match fuel with
  | O => None
  | S fuel =>
      '(record, r) ← ReadRecord mode r;
      match record with
      | None => Some ([], r)
      | Some record => '(records, r) ← read_all fuel mode r; Some (record :: records, r)
      end
  end.

Definition read_log (mode : WALRecoveryMode) (r : Reader) : option (list bytes * Reader) :=
  read_all (remaining_bytes r + 1) mode r.

(** ** Positions

    A reader stands at offset [a] of the file [D]: its buffer is what lies between there and the end of the
    block, or of the file. *)

#[local] Ltac Zify.zify_post_hook ::= Z.to_euclidean_division_equations.

Record reader_at (D : bytes) (rep : option (list (Z * string))) (num a : Z) (r : Reader) : Prop := {
  ra_file : file_ r = mkSeqFile D (end_of_buffer_offset_ r) [];
  ra_range : 0 <= a <= end_of_buffer_offset_ r /\ end_of_buffer_offset_ r <= len D;
  ra_buf : buffer_ r = take (Z.to_nat (end_of_buffer_offset_ r - a)) (drop (Z.to_nat a) D);
  ra_state : read_error_ r = false /\ retry_after_eof_ r = false;
  ra_const : reporter_ r = rep /\ reader_log_number_ r = num;
  ra_eof : if eof_ r
    then end_of_buffer_offset_ r = len D /\ eof_offset_ r = len D mod kBlockSize /\ len D - len D mod kBlockSize <= a
    else end_of_buffer_offset_ r mod kBlockSize = 0 /\ end_of_buffer_offset_ r - kBlockSize <= a /\ eof_offset_ r = 0
}.

Lemma take_own_length {A} n (l : list A) : take n l = take (length (take n l)) l.
Proof. by rewrite length_take, <- take_take, firstn_all. Qed.

Section Positions.
Context (D : bytes) (rep : option (list (Z * string))) (num : Z).
Implicit Types (r : Reader) (a : Z).

Lemma Reader_make_at checksum : reader_at D rep num 0 (Reader_make (mkSeqFile D 0 []) rep checksum num false).
Proof. pose proof (zlen_nonneg D). split; simpl; try done; lia. Qed.

Lemma ra_len a r : reader_at D rep num a r -> len (buffer_ r) = end_of_buffer_offset_ r - a.
Proof. intros H. destruct (ra_range _ _ _ _ _ H). rewrite (ra_buf _ _ _ _ _ H). unfold zlen in *. rewrite length_take, length_drop. lia. Qed.

(** The buffer is emptied: the reader stands at its end. *)
Lemma ra_clear a r : reader_at D rep num a r -> reader_at D rep num (end_of_buffer_offset_ r) (r_buffer [] r).
Proof.
  intros [Hf Hr Hb Hs Hc He]. destruct r as [f rp ck b eo er eoff lo eb n rc rt]; simpl in *.
  split; simpl; try done; unfold kBlockSize in *; [lia|by rewrite Z.sub_diag|destruct eo; lia].
Qed.

(** Some of the buffer is consumed. *)
Lemma ra_advance a r n :
  reader_at D rep num a r -> 0 <= n <= len (buffer_ r) -> reader_at D rep num (a + n) (r_buffer (drop (Z.to_nat n) (buffer_ r)) r).
Proof.
  intros H Hn. rewrite (ra_len _ _ H) in Hn. destruct H as [Hf Hr Hb Hs Hc He].
  destruct r as [f rp ck b eo er eoff lo eb nm rc rt]; simpl in *. split; simpl; try done; unfold kBlockSize in *; [lia| |destruct eo; lia].
  rewrite Hb, skipn_firstn_comm, drop_drop. f_equal; [lia|]. f_equal. lia.
Qed.

Lemma ra_recycled a r : reader_at D rep num a r -> reader_at D rep num a (r_recycled r).
Proof. intros [Hf Hr Hb Hs Hc He]. by destruct r. Qed.

(** The next block. *)
Lemma ReadMore_block d a r :
  reader_at D rep num a r -> eof_ r = false ->
  exists r', ReadMore d r = Some (inr tt, r') /\ reader_at D rep num (end_of_buffer_offset_ r) r' /\
    len (buffer_ r') = kBlockSize `min` (len D - end_of_buffer_offset_ r) /\
    eof_ r' = (len D - end_of_buffer_offset_ r <? kBlockSize).
Proof.
  intros [Hf Hr Hb Hs Hc He] Heof. destruct r as [f rp ck b eo er eoff lo eb n rc rt]; simpl in *. subst eo f.
  destruct Hs as [-> ->]. unfold ReadMore. simpl. set (blk := take _ (drop (Z.to_nat eb) D)).
  assert (Hl : len blk = kBlockSize `min` (len D - eb)).
  { unfold blk, zlen, kBlockSize. rewrite length_take, length_drop. unfold zlen, kBlockSize in *. lia. }
  eexists. split; [reflexivity|]. destruct (Z.ltb_spec (len blk) kBlockSize) as [Hs|Hs]; cbn [r_read r_buffer r_eof].
  - split; [|split; [done|]]; [|simpl; lia]. split; simpl; try done; [lia| |]; unfold kBlockSize in *; [|lia].
    replace (eb + len blk - eb) with (len blk) by lia. rewrite zlen_to_nat. apply take_own_length.
  - split; [|split; [done|simpl; lia]]. split; simpl; try done; [lia| |]; unfold kBlockSize in *; [|lia].
    replace (eb + len blk - eb) with (len blk) by lia. rewrite zlen_to_nat. apply take_own_length.
Qed.

Lemma ReadMore_end d a r :
  reader_at D rep num a r -> eof_ r = true ->
  exists t d', ReadMore d r = Some (inl (t, d'), r_buffer [] r) /\ (t = kEof \/ t = kBadHeader /\ a < len D).
Proof.
  intros H Heof. pose proof (ra_len _ _ H) as Hl. destruct H as [Hf Hr Hb Hs Hc He]. unfold ReadMore. rewrite Heof. destruct Hs as [-> ->]. simpl.
  destruct (Z.ltb_spec 0 (len (buffer_ r))); do 2 eexists; (split; [done|]); [right; split; [done|lia]|by left].
Qed.
End Positions.

(** ** Headers *)

Definition header7 (c n t : Z) : bytes :=
  EncodeFixed32 c ++ [byte.of_Z (Z.land n 0xff); byte.of_Z (Z.shiftr n 8); byte.of_Z t].

Lemma EncodeFixed32_four c : exists b0 b1 b2 b3, EncodeFixed32 c = [b0; b1; b2; b3].
Proof. unfold EncodeFixed32. simpl. by repeat eexists. Qed.

Lemma header7_length c n t : length (header7 c n t) = 7%nat.
Proof. destruct (EncodeFixed32_four c) as (b0 & b1 & b2 & b3 & Hc). unfold header7. by rewrite Hc. Qed.

Lemma unsigned_of_Z z : 0 <= z < 256 -> byte.unsigned (byte.of_Z z) = z.
Proof. intros Hz. rewrite byte.unsigned_of_Z. unfold byte.wrap. apply Z.mod_small. lia. Qed.

Lemma length_bytes n : 0 <= n < 2 ^ 16 ->
  Z.lor (byte.unsigned (byte.of_Z (Z.land n 0xff))) (Z.shiftl (byte.unsigned (byte.of_Z (Z.shiftr n 8))) 8) = n.
Proof.
  intros Hn. change 0xff with (Z.ones 8). rewrite Z.land_ones, Z.shiftr_div_pow2 by lia.
  assert (Hlo : 0 <= n mod 2 ^ 8 < 256) by (apply Z.mod_pos_bound; lia).
  assert (Hhi : 0 <= n / 2 ^ 8 < 256) by (split; [apply Z.div_pos; lia|apply Z.div_lt_upper_bound; lia]).
  rewrite !unsigned_of_Z by done. rewrite <- Z.land_ones, <- Z.shiftr_div_pow2 by lia. apply Z.bits_inj'. intros i Hi.
  rewrite Z.lor_spec, Z.land_spec, Z.testbit_ones_nonneg by lia. destruct (Z.ltb_spec i 8).
  - rewrite Z.shiftl_spec_low by lia. by rewrite andb_true_r, orb_false_r.
  - rewrite Z.shiftl_spec, Z.shiftr_spec by lia. rewrite andb_false_r. simpl. f_equal. lia.
Qed.

Lemma type_byte t : 0 <= t <= kMaxRecordType -> wrap32 (byte_signed (byte.of_Z t)) = t.
Proof.
  intros Ht. unfold kMaxRecordType, kRecyclableLastType in Ht. unfold byte_signed. rewrite unsigned_of_Z by lia.
  destruct (Z.ltb_spec t 128); [|lia]. apply wrap_id. lia.
Qed.

Lemma loop_header fuel d r c n t tl :
  buffer_ r = header7 c n t ++ tl -> 0 <= n < 2 ^ 16 -> 0 <= t <= kMaxRecordType ->
  ReadPhysicalRecord_loop (S fuel) d r = parse_record (read_on (ReadPhysicalRecord_loop fuel) d) d t n r.
Proof.
  intros Hb Hn Ht. destruct (EncodeFixed32_four c) as (b0 & b1 & b2 & b3 & Hc). cbn [ReadPhysicalRecord_loop].
  assert (Hlen : (len (buffer_ r) <? kHeaderSize) = false).
  { rewrite Hb. unfold kHeaderSize, zlen. rewrite length_app, header7_length. apply Z.ltb_ge. lia. }
  rewrite Hlen. assert (Hg : buffer_ r !z 4 = Some (byte.of_Z (Z.land n 0xff)) /\ buffer_ r !z 5 = Some (byte.of_Z (Z.shiftr n 8)) /\
    buffer_ r !z 6 = Some (byte.of_Z t)) by (rewrite Hb; unfold header7; by rewrite Hc).
  destruct Hg as (-> & -> & ->). cbn [fmap option_fmap option_map mbind option_bind].
  by rewrite length_bytes, type_byte.
Qed.

(** ** Fragments *)

Section Fragments.
Context (recycle : bool) (num : Z).

(** The bytes after the type. *)
Definition number_bytes : bytes := if recycle then EncodeFixed32 (wrap32 num) else [].

Definition frag_crc (t : Z) (p : bytes) : Z := crc32c_spec 0 (byte.of_Z t :: number_bytes ++ p).

Lemma physical_header t p : physical recycle num t p = header7 (Mask (frag_crc t p)) (len p) t ++ number_bytes ++ p.
Proof. unfold physical, header7. by rewrite <- app_assoc. Qed.

Lemma number_bytes_len : len number_bytes = header_size_of recycle - 7.
Proof. unfold number_bytes. by destruct recycle. Qed.

Lemma physical_len t p : len (physical recycle num t p) = header_size_of recycle + len p.
Proof. rewrite physical_header, !zlen_app, number_bytes_len. unfold zlen at 1. rewrite header7_length. lia. Qed.

Lemma physical_parts t p rest n :
  n = header_size_of recycle ->
  take (Z.to_nat (len p)) (drop (Z.to_nat n) (physical recycle num t p ++ rest)) = p /\
  drop (Z.to_nat (n + len p)) (physical recycle num t p ++ rest) = rest.
Proof.
  intros ->. pose proof (physical_len t p) as Hl. split; [|apply drop_app_length'; zlia].
  rewrite physical_header, <- !app_assoc, (app_assoc (header7 _ _ _)), drop_app_length'.
  - rewrite zlen_to_nat. apply take_app_length.
  - pose proof number_bytes_len. unfold zlen in *. rewrite length_app, header7_length. lia.
Qed.

Definition type_ok (t : Z) : Prop := 1 <= t <= kMaxRecordType /\ (t <? kRecyclableFullType) = negb recycle.

Lemma type_recyclable t : type_ok t -> (kRecyclableFullType <=? t) && (t <=? kRecyclableLastType) = recycle.
Proof.
  intros [Ht Hr]. unfold kMaxRecordType in Ht. rewrite (proj2 (Z.leb_le t kRecyclableLastType)), andb_true_r by lia.
  rewrite Z.ltb_antisym in Hr. destruct (kRecyclableFullType <=? t), recycle; simpl in Hr; congruence.
Qed.

(** The header the code would read with the checks of [parse_record] but the last ones passed. *)
Lemma parse_record_header more d t n c r tl :
  buffer_ r = header7 c n t ++ number_bytes ++ tl -> type_ok t -> reader_log_number_ r = num ->
  (recycle = true -> u32 num) ->
  exists r1, (r1 = r \/ r1 = r_recycled r) /\ parse_record more d t n r =
    if len (buffer_ r) <? header_size_of recycle + n then
      if retry_after_eof_ r then more r1 else
      Some (mkPhys (if negb (eof_ r) then kBadRecordLen else if 0 <? len (buffer_ r) then kBadHeader else kEof) [] (len (buffer_ r)),
            r_buffer [] r1)
    else
      actual_crc ← (if checksum_ r then crc_Value (take (Z.to_nat (n + header_size_of recycle - 6)) (drop 6 (buffer_ r)))
                    else Some (Unmask (DecodeFixed32 (buffer_ r))));
      if negb (actual_crc =? Unmask (DecodeFixed32 (buffer_ r)))
      then Some (mkPhys kBadRecordChecksum [] (len (buffer_ r)), r_buffer [] r1) else
      Some (mkPhys t (take (Z.to_nat n) (drop (Z.to_nat (header_size_of recycle)) (buffer_ r))) d,
            r_buffer (drop (Z.to_nat (header_size_of recycle + n)) (buffer_ r)) r1).
Proof.
  intros Hb Ht Hn Hnum. pose proof (type_recyclable t Ht) as Hrec. destruct Ht as [Ht _]. unfold parse_record. rewrite Hrec.
  set (r1 := if recycle && (end_of_buffer_offset_ r - len (buffer_ r) =? 0) then r_recycled r else r).
  exists r1. split; [unfold r1; destruct (recycle && _); auto|].
  assert (Hr1 : retry_after_eof_ r1 = retry_after_eof_ r /\ eof_ r1 = eof_ r /\ checksum_ r1 = checksum_ r /\
    reader_log_number_ r1 = reader_log_number_ r) by (unfold r1; destruct (recycle && _); by destruct r).
  destruct Hr1 as (-> & -> & -> & ->).
  replace (recycle && (len (buffer_ r) <? kRecyclableHeaderSize)) with false.
  2: { symmetry. apply not_true_is_false. intros [E L%Z.ltb_lt]%andb_true_iff.
       rewrite Hb, !zlen_app, number_bytes_len, E in L. unfold zlen at 1 in L. rewrite header7_length in L.
       pose proof (zlen_nonneg tl). unfold header_size_of, kRecyclableHeaderSize in L. lia. }
  replace (recycle && negb (DecodeFixed32 (drop 7 (buffer_ r)) =? reader_log_number_ r)) with false.
  2: { symmetry. apply not_true_is_false. intros [E N%negb_true_iff%Z.eqb_neq]%andb_true_iff. apply N. rewrite Hb, Hn.
       rewrite drop_app_length' by (by rewrite header7_length). unfold number_bytes. rewrite E.
       rewrite wrap_id by (by apply Hnum). by apply DecodeFixed32_Encode, Hnum. }
  unfold kZeroType. rewrite (proj2 (Z.eqb_neq t 0)) by lia. done.
Qed.

Lemma parse_whole fuel d r t p rest :
  buffer_ r = physical recycle num t p ++ rest -> type_ok t -> len p < 2 ^ 16 -> reader_log_number_ r = num ->
  (recycle = true -> u32 num) ->
  exists r1, (r1 = r \/ r1 = r_recycled r) /\ ReadPhysicalRecord_loop (S fuel) d r = Some (mkPhys t p d, r_buffer rest r1).
Proof.
  intros Hb Ht Hp Hn Hnum. pose proof (zlen_nonneg p) as Hp0. pose proof (zlen_nonneg rest) as Hr0. pose proof (header_size_range recycle) as Hhs.
  assert (Hl : len (buffer_ r) = header_size_of recycle + len p + len rest) by (by rewrite Hb, zlen_app, physical_len).
  assert (Hdec : Unmask (DecodeFixed32 (buffer_ r)) = frag_crc t p).
  { rewrite Hb, physical_header. unfold header7. rewrite <- !app_assoc. rewrite DecodeFixed32_Encode by apply Mask_range.
    apply Unmask_Mask, crc32c_spec_range, u32_0. }
  pose proof (physical_header t p) as Hph. rewrite Hph, <- !app_assoc in Hb.
  rewrite (loop_header fuel d r _ _ t _ Hb) by (destruct Ht; lia).
  destruct (parse_record_header (read_on (ReadPhysicalRecord_loop fuel) d) d t (len p) _ r _ Hb Ht Hn Hnum) as (r1 & Hr1 & ->).
  exists r1. split; [done|]. rewrite (proj2 (Z.ltb_ge _ _)), Hdec by lia.
  assert (Hbody : crc_Value (take (Z.to_nat (len p + header_size_of recycle - 6)) (drop 6 (buffer_ r))) = Some (frag_crc t p)).
  { rewrite crc_Value_ok. unfold frag_crc. do 2 f_equal. rewrite Hb. destruct (EncodeFixed32_four (Mask (frag_crc t p))) as (b0 & b1 & b2 & b3 & Hc).
    unfold header7. rewrite Hc. cbn [app drop]. rewrite (app_assoc _ p rest), app_comm_cons. apply take_app_length'.
    pose proof number_bytes_len as Hnb. unfold zlen in *. simpl. rewrite length_app. lia. }
  rewrite Hbody. destruct (checksum_ r); cbn [mbind option_bind]; rewrite Z.eqb_refl; cbn [negb];
    destruct (physical_parts t p rest _ eq_refl) as [H1 H2]; rewrite Hph, <- !app_assoc in H1, H2; by rewrite Hb, H1, H2.
Qed.

Lemma app_prefix {A} (h x y z : list A) : h ++ z = x ++ y -> (length h <= length x)%nat -> exists x', x = h ++ x' /\ z = x' ++ y.
Proof.
  intros E Hl. apply app_eq_inv in E as [(k & -> & ->)|(k & -> & ->)]; [|by exists k].
  rewrite length_app in Hl. destruct k; [|simpl in Hl; lia]. exists []. by rewrite !app_nil_r.
Qed.

(** A fragment whose end is missing is taken for the end of the log. *)
Lemma parse_cut fuel d r t p y :
  physical recycle num t p = buffer_ r ++ y -> y <> [] -> 7 <= len (buffer_ r) -> type_ok t -> len p < 2 ^ 16 ->
  reader_log_number_ r = num -> (recycle = true -> u32 num) ->
  eof_ r = true -> retry_after_eof_ r = false ->
  exists d' r1, (r1 = r \/ r1 = r_recycled r) /\
    ReadPhysicalRecord_loop (S fuel) d r = Some (mkPhys kBadHeader [] d', r_buffer [] r1).
Proof.
  intros Hph Hy H7 Ht Hp Hn Hnum Heof Hretry. pose proof (zlen_nonneg p). pose proof (physical_len t p) as Hl.
  rewrite Hph, zlen_app in Hl. assert (0 < len y) by (pose proof (zlen_nonneg y); rewrite <- zlen_zero in Hy; lia).
  rewrite physical_header in Hph. apply app_prefix in Hph as (x1 & Hb & Hx1); [|rewrite header7_length; zlia].
  rewrite (loop_header fuel d r _ _ t _ Hb) by (destruct Ht; lia).
  destruct (Z.le_gt_cases (header_size_of recycle) (len (buffer_ r))) as [Hh|Hh].
  - apply app_prefix in Hx1 as (x2 & -> & Hx2).
    2: { pose proof number_bytes_len as Hnb. rewrite Hb, zlen_app in Hh. unfold zlen in *. rewrite header7_length in Hh. lia. }
    destruct (parse_record_header (read_on (ReadPhysicalRecord_loop fuel) d) d t (len p) _ r _ Hb Ht Hn Hnum) as (r1 & Hr1 & ->).
    exists (len (buffer_ r)), r1. split; [done|]. rewrite (proj2 (Z.ltb_lt _ _)), Hretry, Heof by lia.
    by rewrite (proj2 (Z.ltb_lt 0 _)) by lia.
  - assert (Hrec : recycle = true) by (destruct recycle; [done|unfold header_size_of, kHeaderSize in Hh; lia]).
    pose proof (type_recyclable t Ht) as Hr. unfold parse_record. rewrite Hr, Hrec. cbn [andb].
    set (r1 := if _ =? 0 then r_recycled r else r). exists (len (buffer_ r)), r1. split; [unfold r1; destruct (_ =? 0); auto|].
    rewrite Hrec in Hh. cbn [header_size_of] in Hh. rewrite (proj2 (Z.ltb_lt _ _)) by done.
    assert (Hr1 : retry_after_eof_ r1 = false /\ eof_ r1 = true /\ buffer_ r1 = buffer_ r)
      by (unfold r1; destruct (_ =? 0); by destruct r).
    destruct Hr1 as (E1 & E2 & E3). unfold read_on, ReadMore. rewrite E1, E2, E3. cbn [negb andb].
    by rewrite (proj2 (Z.ltb_lt 0 _)) by lia.
Qed.
End Fragments.

(** ** Reading at a position *)

Section Reading.
Context (D : bytes) (rep : option (list (Z * string))) (num : Z) (recycle : bool).
Context (Hnum : recycle = true -> u32 num).
Implicit Types (r : Reader) (a k s : Z).

Abbreviation at_pos := (reader_at D rep num).

Lemma ra_r1 a r r1 : at_pos a r -> r1 = r \/ r1 = r_recycled r -> at_pos a r1 /\ buffer_ r1 = buffer_ r /\ end_of_buffer_offset_ r1 = end_of_buffer_offset_ r.
Proof. intros H [->| ->]; [done|]. split; [by apply ra_recycled|]. by destruct r. Qed.

(** The buffer at a position, when what lies there is known. *)
Lemma ra_prefix a r pre x post :
  at_pos a r -> D = pre ++ x ++ post -> len pre = a -> len x <= len (buffer_ r) -> exists rest, buffer_ r = x ++ rest.
Proof.
  intros H HD Hpre Hx. rewrite (ra_len _ _ _ _ _ H) in Hx. rewrite (ra_buf _ _ _ _ _ H), HD.
  rewrite drop_app_length' by zlia. rewrite take_app_ge by zlia. by eexists.
Qed.

(** All that is left of the file is in the buffer. *)
Lemma ra_tail a r pre x : at_pos a r -> D = pre ++ x -> len pre = a -> eof_ r = true -> buffer_ r = x.
Proof.
  intros H HD Hpre He. pose proof (ra_eof _ _ _ _ _ H) as Hend. rewrite He in Hend. destruct Hend as [Hend _].
  rewrite (ra_buf _ _ _ _ _ H), Hend, HD. rewrite drop_app_length' by zlia. rewrite zlen_app. apply take_ge. zlia.
Qed.

(** The block of the next fragment is brought in when the rest of the present one is a trailer. *)
Lemma bring_in fuel d a k s r :
  at_pos a r -> s = a + k -> s <= len D -> k = 0 \/ 0 < k < 7 /\ s mod kBlockSize = 0 -> s mod kBlockSize + 7 <= kBlockSize ->
  exists f1 r1, ReadPhysicalRecord_loop (S (S fuel)) d r = ReadPhysicalRecord_loop (S f1) d r1 /\
    at_pos s r1 /\ (eof_ r1 = true \/ s < end_of_buffer_offset_ r1).
Proof.
  intros H -> Hs Hk Hfit. pose proof (ra_len _ _ _ _ _ H) as Hl. pose proof (ra_eof _ _ _ _ _ H) as He.
  destruct (ra_range _ _ _ _ _ H) as [Hr1 Hr2]. unfold kBlockSize in *.
  destruct (Z.lt_ge_cases (len (buffer_ r)) 7) as [H7|H7]; [destruct (eof_ r) eqn:Eeof|].
  - exists (S fuel), r. assert (k = 0) as -> by lia. rewrite Z.add_0_r. auto.
  - destruct (ReadMore_block D rep num d a r H Eeof) as (r1 & Em & Hat & Hl1 & He1). exists fuel, r1.
    assert (end_of_buffer_offset_ r = a + k) as E by lia. rewrite E in *. split_and!; [|done|].
    + cbn [ReadPhysicalRecord_loop]. rewrite (proj2 (Z.ltb_lt (len (buffer_ r)) _)) by (unfold kHeaderSize; lia).
      unfold read_on. by rewrite Em.
    + pose proof (ra_len _ _ _ _ _ Hat) as Hl2. unfold kBlockSize in *. destruct (Z.ltb_spec (len D - (a + k)) 32768); [by left|right; lia].
  - exists (S fuel), r. assert (k = 0) as -> by (destruct (eof_ r); lia). rewrite Z.add_0_r. split_and!; [done|done|].
    destruct (eof_ r); [by left|right; lia].
Qed.

(** A fragment that is there is read. *)
Lemma read_fragment fuel d a k s r t p pre post :
  at_pos a r -> s = a + k -> k = 0 \/ 0 < k < 7 /\ s mod kBlockSize = 0 ->
  D = pre ++ physical recycle num t p ++ post -> len pre = s -> type_ok recycle t ->
  s mod kBlockSize + header_size_of recycle + len p <= kBlockSize ->
  exists r', ReadPhysicalRecord_loop (S (S fuel)) d r = Some (mkPhys t p d, r') /\ at_pos (s + header_size_of recycle + len p) r'.
Proof using Hnum.
  intros H Hs Hk HD Hpre Ht Hfit. pose proof (header_size_range recycle) as Hh. pose proof (zlen_nonneg p) as Hp.
  pose proof (physical_len recycle num t p) as Hpl. pose proof (f_equal len HD) as HlD. rewrite !zlen_app in HlD. pose proof (zlen_nonneg post).
  destruct (bring_in fuel d a k s r H Hs) as (f1 & r1 & -> & H1 & Hin); [lia|done|lia|].
  pose proof (ra_len _ _ _ _ _ H1) as Hl. pose proof (ra_eof _ _ _ _ _ H1) as He.
  assert (Hcov : header_size_of recycle + len p <= len (buffer_ r1)).
  { unfold kBlockSize in *. destruct (eof_ r1); [lia|]. destruct Hin as [|Hin]; [done|]. lia. }
  destruct (ra_prefix s r1 pre _ post H1 HD Hpre) as [rest Hb]; [lia|].
  destruct (parse_whole recycle num f1 d r1 t p rest Hb Ht) as (r2 & Hr2 & ->); [unfold kBlockSize in *; lia|apply H1|done|].
  eexists. split; [done|]. destruct (ra_r1 s r1 r2 H1 Hr2) as (H2 & Hb2 & _). rewrite <- Z.add_assoc.
  replace rest with (drop (Z.to_nat (header_size_of recycle + len p)) (buffer_ r2)); [apply ra_advance; [done|rewrite Hb2; lia]|].
  rewrite Hb2, Hb. apply drop_app_length'. zlia.
Qed.

(** The end of the file within the trailer or the header, or at the end of a record. *)
Definition log_end a (o : option (phys * Reader)) : Prop :=
  exists t d r, o = Some (mkPhys t [] d, r) /\ (t = kEof \/ t = kBadHeader /\ a < len D) /\ at_pos (len D) r.

Lemma read_end_short fuel d a r : at_pos a r -> eof_ r = true -> len (buffer_ r) < 7 -> log_end a (ReadPhysicalRecord_loop (S fuel) d r).
Proof.
  intros H E L. cbn [ReadPhysicalRecord_loop]. rewrite (proj2 (Z.ltb_lt (len (buffer_ r)) _)) by (unfold kHeaderSize; lia).
  destruct (ReadMore_end D rep num d a r H E) as (t & d' & Em & Ht). unfold read_on. rewrite Em. cbn [mbind option_bind].
  eexists t, d', _. split; [done|]. split; [done|]. pose proof (ra_eof _ _ _ _ _ H) as He. rewrite E in He. destruct He as [<- _].
  by eapply ra_clear.
Qed.

Lemma read_end fuel d a r : at_pos a r -> len D - a < 7 -> log_end a (ReadPhysicalRecord_loop (S (S fuel)) d r).
Proof.
  intros H Ha. pose proof (ra_len _ _ _ _ _ H) as Hl. destruct (ra_range _ _ _ _ _ H) as [Hr1 Hr2].
  destruct (eof_ r) eqn:E; [eapply read_end_short; [done|done|lia]|].
  destruct (ReadMore_block D rep num d a r H E) as (r1 & Em & H1 & Hl1 & He1). unfold kBlockSize in *.
  assert (Hstep : ReadPhysicalRecord_loop (S (S fuel)) d r = ReadPhysicalRecord_loop (S fuel) d r1).
  { cbn [ReadPhysicalRecord_loop]. rewrite (proj2 (Z.ltb_lt (len (buffer_ r)) _)) by (unfold kHeaderSize; lia). unfold read_on. by rewrite Em. }
  rewrite Hstep. destruct (read_end_short fuel d _ r1 H1) as (t & d' & r' & E' & Ht & H'); [rewrite He1; apply Z.ltb_lt; lia|lia|].
  exists t, d', r'. split; [done|]. split; [|done]. destruct Ht as [|[? ?]]; [by left|right; split; [done|lia]].
Qed.

(** A fragment whose end is missing ends the log. *)
Lemma read_cut fuel d a k s r t p pre x y :
  at_pos a r -> s = a + k -> k = 0 \/ 0 < k < 7 /\ s mod kBlockSize = 0 ->
  D = pre ++ x -> physical recycle num t p = x ++ y -> y <> [] -> len pre = s -> type_ok recycle t ->
  s mod kBlockSize + header_size_of recycle + len p <= kBlockSize ->
  log_end a (ReadPhysicalRecord_loop (S (S fuel)) d r).
Proof using Hnum.
  intros H Hs Hk HD Hph Hy Hpre Ht Hfit. pose proof (header_size_range recycle) as Hh. pose proof (zlen_nonneg p) as Hp.
  pose proof (f_equal len HD) as HlD. pose proof (f_equal len Hph) as Hlp. rewrite physical_len in Hlp. rewrite zlen_app in HlD, Hlp.
  assert (Hy0 : 0 < len y) by (pose proof (zlen_nonneg y); rewrite <- zlen_zero in Hy; lia). pose proof (zlen_nonneg x) as Hx0.
  destruct (Z.lt_ge_cases (len D - a) 7) as [H7|H7]; [by eapply read_end|].
  destruct (bring_in fuel d a k s r H Hs) as (f1 & r1 & -> & H1 & Hin); [lia|done|lia|].
  pose proof (ra_len _ _ _ _ _ H1) as Hl. pose proof (ra_eof _ _ _ _ _ H1) as He. destruct (ra_range _ _ _ _ _ H1) as [Hra Hrb].
  assert (Heof : eof_ r1 = true).
  { destruct (eof_ r1) eqn:E1; [done|]. destruct Hin as [|Hin]; [done|]. unfold kBlockSize in *. lia. }
  pose proof (ra_tail s r1 pre x H1 HD Hpre Heof) as Hb.
  destruct (Z.lt_ge_cases (len (buffer_ r1)) 7) as [H71|H71]; [destruct (read_end_short f1 d s r1 H1 Heof H71) as (t' & d' & r' & E' & Ht' & H'); exists t', d', r'; split_and!; [done|naive_solver lia|done]|].
  rewrite <- Hb in Hph.
  destruct (parse_cut recycle num f1 d r1 t p y Hph Hy H71 Ht) as (d' & r2 & Hr2 & ->);
    [unfold kBlockSize in *; lia|apply H1|done|done|apply H1|].
  destruct (ra_r1 s r1 r2 H1 Hr2) as (H2 & _ & He2). eexists _, d', _. split; [done|]. split; [right; split; [done|lia]|].
  rewrite Heof in He. destruct He as [<- _]. rewrite <- He2. by eapply ra_clear.
Qed.

(** Seven zeros and more before a block: they read as an empty record of no type. *)
Lemma read_zeros fuel d a s n r pre post :
  at_pos a r -> D = pre ++ repeat Byte.x00 n ++ post -> len pre = a -> (7 <= n)%nat -> s mod kBlockSize = 0 -> a + Z.of_nat n <= s <= a + 10 ->
  exists r', ReadPhysicalRecord_loop (S fuel) d r = Some (mkPhys kBadRecord [] d, r') /\
    at_pos (s `min` len D) r' /\ a + 7 <= s `min` len D.
Proof.
  intros H HD Hpre Hn Hs Ha. pose proof (ra_len _ _ _ _ _ H) as Hl. pose proof (ra_eof _ _ _ _ _ H) as He.
  destruct (ra_range _ _ _ _ _ H) as [Hr1 Hr2]. pose proof (f_equal len HD) as HlD. rewrite !zlen_app in HlD.
  assert (Hzn : len (repeat Byte.x00 n) = Z.of_nat n) by (unfold zlen; by rewrite repeat_length). pose proof (zlen_nonneg post).
  assert (Hend : end_of_buffer_offset_ r = s `min` len D /\ 7 <= len (buffer_ r)).
  { unfold kBlockSize in *. destruct (eof_ r); lia. }
  destruct Hend as [Hend H7]. replace n with (7 + (n - 7))%nat in HD by lia. rewrite repeat_app, <- app_assoc in HD.
  destruct (ra_prefix a r pre (repeat Byte.x00 7) _ H HD Hpre) as [rest Hb]; [exact H7|].
  exists (r_buffer [] r). split_and!; [|rewrite <- Hend; by eapply ra_clear|lia].
  change (repeat Byte.x00 7) with (header7 0 0 0) in Hb.
  rewrite (loop_header fuel d r _ _ 0 _ Hb) by (unfold kMaxRecordType, kRecyclableLastType; lia).
  unfold parse_record. cbn [andb Z.leb Z.compare kRecyclableFullType]. change (kHeaderSize + 0) with 7.
  rewrite (proj2 (Z.ltb_ge (len (buffer_ r)) 7)) by done. done.
Qed.
End Reading.
