(* ===== verification/LogRoundtrip.v ===== *)
(** * A log read back (db/log_writer.cc, db/log_reader.cc)

    The reader on what the writer left in the file, whole or cut anywhere, and the
    reader on arbitrary bytes. *)

From S2P Require Import Prelude Coding Crc32c LogWriter LogReader.

(** ** Rounds *)

(** At most [n] rounds of [ReadRecord] give this result. *)
Definition reads (n : nat) (mode : WALRecoveryMode) (st : rr_state) (r : Reader) (res : option bytes * Reader) : Prop :=
  forall m, (n <= m)%nat -> ReadRecord_loop m mode st r = Some res.

Lemma reads_mono n n' mode st r res : reads n mode st r res -> (n <= n')%nat -> reads n' mode st r res.
Proof. intros H Hn m Hm. apply H. lia. Qed.

Lemma reads_done mode st r rec r' : ReadRecord_round mode st r = Some (inl rec, r') -> reads 1 mode st r (rec, r').
Proof. intros E [|m] Hm; [lia|]. cbn [ReadRecord_loop]. by rewrite E. Qed.

Lemma reads_step n mode st r st' r' res :
  ReadRecord_round mode st r = Some (inr st', r') -> reads n mode st' r' res -> reads (S n) mode st r res.
Proof. intros E H [|m] Hm; [lia|]. cbn [ReadRecord_loop]. rewrite E. apply H. lia. Qed.

Lemma ReadPhysicalRecord_fuel r : exists n, ReadPhysicalRecord r = ReadPhysicalRecord_loop (S (S n)) 0 r.
Proof. exists (remaining_bytes r + 2)%nat. unfold ReadPhysicalRecord. f_equal. lia. Qed.

(** Where a fragment starts in the file. *)
Lemma chunk_place a off pad off1 n :
  0 <= off <= kBlockSize -> a mod kBlockSize = off mod kBlockSize ->
  pad = 0 /\ off1 = off \/ off1 = 0 /\ off + pad = kBlockSize -> 0 <= off1 -> 0 < n -> off1 + n <= kBlockSize ->
  (pad = 0 \/ (a + pad) mod kBlockSize = 0) /\ (a + pad) mod kBlockSize + n <= kBlockSize /\
  (a + pad + n) mod kBlockSize = (off1 + n) mod kBlockSize.
Proof.
  intros Hoff Ha Hpad H1 Hn Hfit. assert (Hq : exists q, a + pad = off1 + q * kBlockSize).
  { pose proof (Z.div_mod a kBlockSize ltac:(done)). pose proof (Z.div_mod off kBlockSize ltac:(done)). rewrite Ha in *.
    destruct Hpad as [[-> ->]|[-> Hp]].
    - exists (a / kBlockSize - off / kBlockSize). lia.
    - exists (a / kBlockSize - off / kBlockSize + 1). lia. }
  destruct Hq as [q Hq]. replace (a + pad + n) with (off1 + n + q * kBlockSize) by lia. rewrite Hq, !Z_mod_plus_full.
  rewrite (Z.mod_small off1) by lia. split_and!; [|lia|done]. destruct Hpad as [[-> _]|[-> _]]; auto.
Qed.

Section Records.
Context (D : bytes) (rep : option (list (Z * string))) (num : Z) (recycle : bool) (mode : WALRecoveryMode).
Context (Hnum : recycle = true -> u32 num).
Implicit Types (r : Reader) (st : rr_state) (a : Z).

Abbreviation at_pos := (reader_at D rep num).

Lemma ra_last a r o : at_pos a r -> at_pos a (r_last o r).
Proof. intros [Hf Hr Hb Hs Hc He]. by destruct r. Qed.

Lemma ra_remaining a r : at_pos a r -> Z.of_nat (remaining_bytes r) = len D - a.
Proof.
  intros H. pose proof (ra_len _ _ _ _ _ H) as Hl. destruct (ra_range _ _ _ _ _ H). unfold remaining_bytes.
  rewrite (ra_file _ _ _ _ _ H). simpl. unfold zlen in *. lia.
Qed.

(** What the fragments read so far and this one make. *)
Definition joined (begin : bool) st (p : bytes) : bytes := (if begin then [] else rr_scratch st) ++ p.

Lemma round_fragment st r begin end_ p d r' a :
  ReadPhysicalRecord r = Some (mkPhys (fragment_type recycle begin end_) p d, r') -> rr_fragmented st = negb begin ->
  at_pos a r' ->
  exists o r'', ReadRecord_round mode st r =
    Some (if end_ then inl (Some (joined begin st p)) else inr (mkRR true (joined begin st p) o), r'') /\ at_pos a r''.
Proof.
  intros E Hst H. unfold ReadRecord_round. rewrite E. cbn [mbind option_bind ph_type ph_result ph_drop]. unfold rr_new. rewrite Hst.
  exists (if begin then end_of_buffer_offset_ r - len (buffer_ r) else rr_offset st).
  destruct recycle, begin, end_; cbn; eexists _; (split; [reflexivity|]); (done || by apply ra_last).
Qed.

(** The end of the log. *)
Lemma round_end st r a :
  log_end D rep num a (ReadPhysicalRecord r) ->
  exists r', reads 1 mode st r (None, r') /\
    (mode <> kAbsoluteConsistency \/ a = len D /\ rr_fragmented st = false -> reporter_ r' = rep).
Proof.
  intros (t & d & r1 & E & Ht & H1). pose proof (proj1 (ra_const _ _ _ _ _ H1)) as Hrep.
  assert (Hround : ReadRecord_round mode st r = Some (inl None, rr_stop mode st
    (if (t =? kBadHeader) && bool_decide (mode = kAbsoluteConsistency) then ReportCorruption d "truncated header" r1 else r1))).
  { unfold ReadRecord_round. rewrite E. cbn [mbind option_bind ph_type ph_drop]. destruct Ht as [->|[-> _]]; reflexivity. }
  eexists. split; [by apply reads_done|]. unfold rr_stop. intros [Hm|[Ha Hf]].
  - rewrite bool_decide_false, !andb_false_r by done. done.
  - rewrite Hf. destruct Ht as [->|[_ Ht]]; [done|lia].
Qed.

(** The zeros before a fragment, then the fragment. *)
Lemma read_chunk off st r a pad off1 t p pre post :
  block_start recycle off = (pad, off1) -> 0 <= off <= kBlockSize -> a mod kBlockSize = off mod kBlockSize ->
  off1 + header_size_of recycle + len p <= kBlockSize -> type_ok recycle t ->
  at_pos a r -> D = pre ++ chunk_bytes recycle num (mkChunk pad t p) ++ post -> len pre = a ->
  rr_fragmented st = false \/ off = kBlockSize ->
  exists r0 r', (r0 = r \/ ReadRecord_round mode st r = Some (inr st, r0) /\ 7 <= pad) /\
    ReadPhysicalRecord r0 = Some (mkPhys t p 0, r') /\ at_pos (a + pad + header_size_of recycle + len p) r' /\
    (a + pad + header_size_of recycle + len p) mod kBlockSize = (off1 + header_size_of recycle + len p) mod kBlockSize.
Proof using Hnum.
  intros E Hoff Ha Hfit Ht H HD Hpre Hst. pose proof (header_size_range recycle) as Hh. pose proof (zlen_nonneg p) as Hp.
  apply block_start_range in E; [|done]. unfold chunk_bytes in HD. cbn [c_pad c_type c_data] in HD. rewrite <- app_assoc in HD.
  destruct (chunk_place a off pad off1 (header_size_of recycle + len p)) as (Hs & Hmod & Hend); [done|done|apply E|lia..|].
  rewrite (Z.add_assoc off1), !Z.add_assoc in Hend. rewrite Z.add_assoc in Hmod. set (s := a + pad) in *.
  assert (Hpre' : len (pre ++ repeat Byte.x00 (Z.to_nat pad)) = s).
  { unfold s. rewrite zlen_app, Hpre. unfold zlen. rewrite repeat_length. destruct E. lia. }
  assert (HD' : D = (pre ++ repeat Byte.x00 (Z.to_nat pad)) ++ physical recycle num t p ++ post) by (by rewrite <- app_assoc).
  assert (Hread : forall r0 k a0, at_pos a0 r0 -> s = a0 + k -> k = 0 \/ 0 < k < 7 /\ s mod kBlockSize = 0 ->
    exists r', ReadPhysicalRecord r0 = Some (mkPhys t p 0, r') /\ at_pos (s + header_size_of recycle + len p) r').
  { intros r0 k a0 H0 Hk1 Hk2. destruct (ReadPhysicalRecord_fuel r0) as [n ->].
    by eapply (read_fragment D rep num recycle Hnum n 0 a0 k s r0 t p _ _ H0 Hk1 Hk2 HD' Hpre' Ht). }
  destruct (Z.lt_ge_cases pad 7) as [H7|H7].
  - destruct (Hread r pad a) as (r' & Er & Hr'); [done|done|lia|]. exists r, r'. split_and!; [by left|done|done|done].
  - destruct (read_zeros D rep num (remaining_bytes r + 3) 0 a s (Z.to_nat pad) r pre _ H HD Hpre) as (r1 & Ez & H1 & _); [lia|lia|lia|].
    destruct (Hread r1 0 s) as (r' & Er & Hr'); [|lia|by left|].
    { pose proof (f_equal len HD') as Hl. rewrite zlen_app, Hpre', zlen_app in Hl. pose proof (zlen_nonneg post).
      pose proof (zlen_nonneg (physical recycle num t p)). by rewrite Z.min_l in H1 by lia. }
    exists r1, r'. split_and!; [right|done|done|done]. split; [|done]. unfold ReadRecord_round, ReadPhysicalRecord.
    replace (remaining_bytes r + 4)%nat with (S (remaining_bytes r + 3)) by lia. rewrite Ez. cbn.
    unfold rr_give_up. destruct Hst as [->|Hst]; [done|]. destruct E. lia.
Qed.

Lemma chunk_len pad t p : 0 <= pad -> len (chunk_bytes recycle num (mkChunk pad t p)) = pad + header_size_of recycle + len p.
Proof. intros. unfold chunk_bytes. cbn. rewrite zlen_app, physical_len. unfold zlen at 1. rewrite repeat_length. lia. Qed.

Lemma chunks_cons c cs : chunks_bytes recycle num (c :: cs) = chunk_bytes recycle num c ++ chunks_bytes recycle num cs.
Proof. done. Qed.

(** A chunk is one round, or two. *)
Lemma reads_chunk st r r0 p begin end_ r' a pad n :
  r0 = r \/ ReadRecord_round mode st r = Some (inr st, r0) /\ 7 <= pad ->
  ReadPhysicalRecord r0 = Some (mkPhys (fragment_type recycle begin end_) p 0, r') -> rr_fragmented st = negb begin ->
  at_pos a r' -> (1 <= n)%nat -> 0 <= pad ->
  exists o r'', at_pos a r'' /\
    if end_ then reads (Z.to_nat pad + n) mode st r (Some (joined begin st p), r'')
    else forall m res, reads m mode (mkRR true (joined begin st p) o) r'' res -> reads (Z.to_nat pad + n + m) mode st r res.
Proof.
  intros Hr0 E Hst H Hn Hpad. destruct (round_fragment st r0 begin end_ p 0 r' a E Hst H) as (o & r'' & Er & H''). exists o, r''.
  split; [done|]. destruct end_.
  - apply reads_done in Er. destruct Hr0 as [->|[E0 H7]]; [eapply reads_mono; [done|lia]|].
    eapply reads_mono; [by eapply reads_step|lia].
  - intros m res Hm. eapply reads_step in Hm; [|exact Er]. destruct Hr0 as [->|[E0 H7]]; [eapply reads_mono; [done|lia]|].
    eapply reads_mono; [by eapply reads_step|lia].
Qed.

Lemma read_record off begin p cs off' :
  fragments recycle off begin p cs off' -> forall st r a pre post,
  0 <= off <= kBlockSize -> a mod kBlockSize = off mod kBlockSize -> at_pos a r ->
  D = pre ++ chunks_bytes recycle num cs ++ post -> len pre = a -> rr_fragmented st = negb begin -> begin = true \/ off = kBlockSize ->
  exists r', reads (length (chunks_bytes recycle num cs)) mode st r (Some (joined begin st p), r') /\
    at_pos (a + len (chunks_bytes recycle num cs)) r' /\ (a + len (chunks_bytes recycle num cs)) mod kBlockSize = off' mod kBlockSize.
Proof using Hnum.
  pose proof (header_size_range recycle) as Hh.
  induction 1 as [off begin p pad off1 E Hfit|off begin p q pad off1 cs off' E Hfit Hq Hf IH]; intros st r a pre post Hoff Ha H HD Hpre Hst Hb;
    apply block_start_range in E as HE; try done; rewrite chunks_cons, <- app_assoc in HD; rewrite chunks_cons;
    pose proof (zlen_nonneg p) as Hp;
    assert (Hst' : rr_fragmented st = false \/ off = kBlockSize) by (rewrite Hst; destruct Hb as [->|Hb]; auto).
  - destruct (read_chunk off st r a pad off1 _ p pre _ E Hoff Ha Hfit (fragment_type_range _ begin true) H HD Hpre Hst')
      as (r0 & r' & Hr0 & Er & H' & Hm).
    destruct (reads_chunk st r r0 p begin true r' _ pad (length (physical recycle num (fragment_type recycle begin true) p)) Hr0 Er Hst H')
      as (o & r'' & H'' & Hrd); [|lia|].
    { pose proof (physical_len recycle num (fragment_type recycle begin true) p). zlia. }
    exists r''. rewrite app_nil_r, chunk_len by lia. rewrite !Z.add_assoc. split_and!; [|done|done].
    unfold chunk_bytes. cbn. by rewrite length_app, repeat_length.
  - destruct (read_chunk off st r a pad off1 _ p pre _ E Hoff Ha ltac:(lia) (fragment_type_range _ begin false) H HD Hpre Hst')
      as (r0 & r' & Hr0 & Er & H' & Hm). rewrite Hfit in Hm.
    set (n := length (physical recycle num (fragment_type recycle begin false) p)).
    destruct (reads_chunk st r r0 p begin false r' _ pad n Hr0 Er Hst H') as (o & r'' & H'' & Hrd); [|lia|].
    { unfold n. pose proof (physical_len recycle num (fragment_type recycle begin false) p). zlia. }
    set (c := mkChunk _ _ _) in *. assert (Hc : len (chunk_bytes recycle num c) = pad + header_size_of recycle + len p) by (apply chunk_len; lia).
    destruct (IH (mkRR true (joined begin st p) o) r'' (a + pad + header_size_of recycle + len p) (pre ++ chunk_bytes recycle num c) post)
      as (r3 & Hr3 & H3 & Hm3); [unfold kBlockSize; lia|done|done|by rewrite <- app_assoc|rewrite zlen_app; lia|done|by right|].
    exists r3. rewrite zlen_app, Hc. replace (a + (pad + header_size_of recycle + len p + len (chunks_bytes recycle num cs)))
      with (a + pad + header_size_of recycle + len p + len (chunks_bytes recycle num cs)) by lia. split_and!; [|done|done].
    apply Hrd in Hr3. unfold joined in *. cbn [rr_scratch] in Hr3. rewrite <- app_assoc in Hr3. eapply reads_mono; [done|].
    rewrite length_app. unfold c, chunk_bytes. cbn [c_pad c_type c_data]. rewrite length_app, repeat_length. fold n. lia.
Qed.

(** The log ends here: no record is returned, and nothing is reported but in the strictest mode. *)
Definition ends (n : nat) st r (a : Z) : Prop :=
  exists r', reads n mode st r (None, r') /\
    (mode <> kAbsoluteConsistency \/ a = len D /\ rr_fragmented st = false -> reporter_ r' = rep).

Lemma ends_end st r a : log_end D rep num a (ReadPhysicalRecord r) -> ends 1 st r a.
Proof. apply round_end. Qed.

Lemma ends_at_end st r a : at_pos a r -> len D - a < 7 -> ends 1 st r a.
Proof. intros H Ha. apply ends_end. destruct (ReadPhysicalRecord_fuel r) as [n ->]. by apply read_end. Qed.

Lemma ends_step n st r st' r' a a' :
  ReadRecord_round mode st r = Some (inr st', r') -> a < len D -> ends n st' r' a' -> ends (S n) st r a.
Proof.
  intros E Ha (r2 & H2 & Hrep). exists r2. split; [by eapply reads_step|]. intros [Hm|[Hm _]]; [apply Hrep; by left|lia].
Qed.

Lemma ends_mono n n' st r a : ends n st r a -> (n <= n')%nat -> ends n' st r a.
Proof. intros (r' & H & Hr) Hn. exists r'. split; [by eapply reads_mono|done]. Qed.

(** Zeros that fill up a block are a round that changes nothing. *)
Lemma zeros_round st r a s n pre post :
  at_pos a r -> D = pre ++ repeat Byte.x00 n ++ post -> len pre = a -> (7 <= n)%nat -> s mod kBlockSize = 0 ->
  a + Z.of_nat n <= s <= a + 10 -> rr_fragmented st = false ->
  exists r1, ReadRecord_round mode st r = Some (inr st, r1) /\ at_pos (s `min` len D) r1.
Proof.
  intros H HD Hpre Hn Hs Ha Hst.
  destruct (read_zeros D rep num (remaining_bytes r + 3) 0 a s n r pre post H HD Hpre Hn Hs Ha) as (r1 & Ez & H1 & _).
  exists r1. split; [|done]. unfold ReadRecord_round, ReadPhysicalRecord.
  replace (remaining_bytes r + 4)%nat with (S (remaining_bytes r + 3)) by lia. rewrite Ez. cbn. unfold rr_give_up. by rewrite Hst.
Qed.

(** A cut in the zeros before a fragment, or in the fragment. *)
Lemma read_zeros_cut st r a s n pre :
  at_pos a r -> D = pre ++ repeat Byte.x00 n -> len pre = a -> s mod kBlockSize = 0 ->
  a + Z.of_nat n <= s <= a + 10 -> rr_fragmented st = false -> ends (n + 1) st r a.
Proof.
  intros H HD Hpre Hs Ha Hst. assert (HlD : len D = a + Z.of_nat n) by (rewrite HD, zlen_app, Hpre; unfold zlen; by rewrite repeat_length).
  destruct (Z.lt_ge_cases (Z.of_nat n) 7) as [H7|H7]; [eapply ends_mono; [apply ends_at_end; [done|lia]|lia]|].
  destruct (zeros_round st r a s n pre []) as (r1 & Er & H1); [done|by rewrite app_nil_r|done|lia|done|done|done|].
  rewrite Z.min_r in H1 by lia. eapply ends_mono; [eapply ends_step; [done|lia|apply ends_at_end; [done|lia]]|lia].
Qed.

Lemma read_chunk_cut off st r a pad off1 t p pre x y :
  block_start recycle off = (pad, off1) -> 0 <= off <= kBlockSize -> a mod kBlockSize = off mod kBlockSize ->
  off1 + header_size_of recycle + len p <= kBlockSize -> type_ok recycle t ->
  at_pos a r -> D = pre ++ x -> len pre = a -> chunk_bytes recycle num (mkChunk pad t p) = x ++ y -> y <> [] ->
  rr_fragmented st = false \/ off = kBlockSize -> ends (length x + 1) st r a.
Proof using Hnum.
  intros E Hoff Ha Hfit Ht H HD Hpre Hxy Hy Hst. pose proof (header_size_range recycle) as Hh. pose proof (zlen_nonneg p) as Hp.
  apply block_start_range in E; [|done].
  destruct (chunk_place a off pad off1 (header_size_of recycle + len p)) as (Hs & Hmod & _); [done|done|apply E|lia..|].
  rewrite Z.add_assoc in Hmod. assert (HlD : len D = a + len x) by (by rewrite HD, zlen_app, Hpre).
  unfold chunk_bytes in Hxy. cbn [c_pad c_type c_data] in Hxy. set (z := repeat Byte.x00 (Z.to_nat pad)) in *.
  assert (Hz : length z = Z.to_nat pad) by apply repeat_length.
  apply app_eq_inv in Hxy as [(x' & Hzx & Hx')|(x' & Hx & Hx')].
  - pose proof (f_equal length Hzx) as Hl. rewrite length_app in Hl.
    assert (Hxr : x = repeat Byte.x00 (length x)).
    { pose proof (f_equal (take (length x)) Hzx) as Ht1. rewrite take_app_length in Ht1. rewrite <- Ht1 at 1. unfold z.
      replace (Z.to_nat pad) with (length x + (Z.to_nat pad - length x))%nat by lia. rewrite repeat_app. apply take_app_length'.
      by rewrite repeat_length. }
    destruct (decide (x = [])) as [->|Hne].
    { eapply ends_mono; [apply ends_at_end; [done|]|]; [rewrite HlD, zlen_nil; lia|lia]. }
    assert (0 < length x)%nat by (destruct x; [done|simpl; lia]).
    eapply (read_zeros_cut st r a (a + pad) (length x) pre); [done|by rewrite <- Hxr|done|lia|lia|destruct Hst; [done|lia]].
  - assert (Hpre' : len (pre ++ z) = a + pad) by (rewrite zlen_app, Hpre; unfold zlen; rewrite Hz; lia).
    assert (HD' : D = (pre ++ z) ++ x') by (by rewrite <- app_assoc, <- Hx).
    assert (Hcut : forall r0 k a0, at_pos a0 r0 -> a + pad = a0 + k -> k = 0 \/ 0 < k < 7 /\ (a + pad) mod kBlockSize = 0 -> ends 1 st r0 a0).
    { intros r0 k a0 H0 Hk1 Hk2. apply ends_end. destruct (ReadPhysicalRecord_fuel r0) as [n ->].
      by eapply (read_cut D rep num recycle Hnum n 0 a0 k (a + pad) r0 t p _ x' y H0 Hk1 Hk2). }
    destruct (Z.lt_ge_cases pad 7) as [H7|H7]; [eapply ends_mono; [apply (Hcut r pad a H); [done|lia]|lia]|].
    rewrite Hx in HD. destruct (zeros_round st r a (a + pad) (Z.to_nat pad) pre x' H HD Hpre) as (r1 & Er & H1);
      [lia|lia|lia|destruct Hst; [done|lia]|].
    pose proof (f_equal len HD') as HlD'. rewrite zlen_app, Hpre' in HlD'. pose proof (zlen_nonneg x').
    rewrite Z.min_l in H1 by lia. rewrite Hx, length_app, Hz.
    eapply ends_mono; [eapply ends_step; [done|lia|apply (Hcut r1 0 _ H1); [lia|by left]]|lia].
Qed.

Lemma read_record_cut off begin p cs off' :
  fragments recycle off begin p cs off' -> forall st r a pre x y,
  0 <= off <= kBlockSize -> a mod kBlockSize = off mod kBlockSize -> at_pos a r ->
  D = pre ++ x -> chunks_bytes recycle num cs = x ++ y -> y <> [] -> len pre = a ->
  rr_fragmented st = negb begin -> begin = true \/ off = kBlockSize -> ends (length x + 1) st r a.
Proof using Hnum.
  pose proof (header_size_range recycle) as Hh.
  induction 1 as [off begin p pad off1 E Hfit|off begin p q pad off1 cs off' E Hfit Hq Hf IH];
    intros st r a pre x y Hoff Ha H HD Hxy Hy Hpre Hst Hb; pose proof (zlen_nonneg p) as Hp;
    assert (Hst' : rr_fragmented st = false \/ off = kBlockSize) by (rewrite Hst; destruct Hb as [->|Hb]; auto);
    rewrite chunks_cons in Hxy.
  - rewrite app_nil_r in Hxy. eapply (read_chunk_cut off st r a pad off1); try done. apply fragment_type_range.
  - apply block_start_range in E as HE; [|done]. set (c := mkChunk _ _ _) in *.
    assert (Hc : len (chunk_bytes recycle num c) = pad + header_size_of recycle + len p) by (apply chunk_len; lia).
    destruct (Nat.le_gt_cases (length (chunk_bytes recycle num c)) (length x)) as [Hl|Hl].
    + apply app_prefix in Hxy as (x' & -> & Hcs); [|done]. pose proof (f_equal len HD) as HlD. rewrite !zlen_app, Hpre, Hc in HlD.
      destruct (read_chunk off st r a pad off1 _ p pre x' E Hoff Ha ltac:(lia) (fragment_type_range _ begin false) H HD Hpre Hst')
        as (r0 & r' & Hr0 & Er & H' & Hm). rewrite Hfit in Hm.
      set (n := length (physical recycle num (fragment_type recycle begin false) p)).
      destruct (reads_chunk st r r0 p begin false r' _ pad n Hr0 Er Hst H') as (o & r'' & H'' & Hrd); [|lia|].
      { unfold n. pose proof (physical_len recycle num (fragment_type recycle begin false) p). zlia. }
      destruct (IH (mkRR true (joined begin st p) o) r'' (a + pad + header_size_of recycle + len p) (pre ++ chunk_bytes recycle num c) x' y)
        as (r3 & Hr3 & Hrep); [unfold kBlockSize; lia|done|done|by rewrite <- app_assoc|done|done|rewrite zlen_app; lia|done|by right|].
      exists r3. split; [|intros [Hm'|[Hm' _]]; [apply Hrep; by left|pose proof (zlen_nonneg x'); lia]]. apply Hrd in Hr3.
      eapply reads_mono; [done|]. rewrite length_app. unfold c, chunk_bytes. cbn [c_pad c_type c_data]. rewrite length_app, repeat_length. fold n. lia.
    + symmetry in Hxy. apply app_prefix in Hxy as (x' & Hx & Hx'); [|lia].
      eapply (read_chunk_cut off st r a pad off1 _ p pre x x'); try done; [lia|apply fragment_type_range|].
      intros ->. rewrite app_nil_r in Hx. by rewrite Hx in Hl; lia.
Qed.

Lemma ReadRecord_reads n r a res : at_pos a r -> reads n mode rr_empty r res -> (Z.of_nat n <= len D - a + 1) -> ReadRecord mode r = Some res.
Proof. intros H Hr Hn. apply Hr. pose proof (ra_remaining _ _ H). lia. Qed.

(** The calls of [ReadRecord] that return these records and then the end, with nothing reported before it. *)
Inductive yields : list bytes -> Reader -> Reader -> Prop :=
| yields_end r r' : ReadRecord mode r = Some (None, r') -> yields [] r r'
| yields_cons record records r r1 r' :
    ReadRecord mode r = Some (Some record, r1) -> reporter_ r1 = rep -> yields records r1 r' -> yields (record :: records) r r'.

(** The records that are whole in a part of the log, and the end. *)
Record reads_part (records : list bytes) (css : list (list chunk)) (x : bytes) (k : nat) (r r' : Reader) : Prop := {
  rp_read : forall m, (length x + 1 <= m)%nat -> read_all m mode r = Some (take k records, r');
  rp_yields : yields (take k records) r r';
  rp_in : (length (log_bytes recycle num (take k css)) <= length x)%nat;
  rp_out : (k < length records)%nat -> (length x < length (log_bytes recycle num (take (S k) css)))%nat;
  rp_le : (k <= length records)%nat;
  rp_len : (k <= length x)%nat;
  rp_reports : mode <> kAbsoluteConsistency \/ length x = length (log_bytes recycle num (take k css)) -> reporter_ r' = rep
}.

Lemma read_all_end m r r' : ReadRecord mode r = Some (None, r') -> (1 <= m)%nat -> read_all m mode r = Some ([], r').
Proof. intros E Hm. destruct m; [lia|]. cbn [read_all]. by rewrite E. Qed.

Lemma log_bytes_cons cs css : log_bytes recycle num (cs :: css) = chunks_bytes recycle num cs ++ log_bytes recycle num css.
Proof. done. Qed.

Lemma read_records off records css off' :
  layout recycle off records css off' -> forall r a pre x y,
  0 <= off <= kBlockSize -> a mod kBlockSize = off mod kBlockSize -> at_pos a r -> D = pre ++ x -> len pre = a ->
  log_bytes recycle num css = x ++ y -> exists k r', reads_part records css x k r r'.
Proof using Hnum.
  induction 1 as [off|off slice cs off1 records css off2 Hf Hl IH]; intros r a pre x y Hoff Ha H HD Hpre Hxy;
    assert (HlD : len D = a + len x) by (by rewrite HD, zlen_app, Hpre).
  - symmetry in Hxy. apply app_nil in Hxy as [-> ->]. rewrite zlen_nil in HlD. destruct (ends_at_end rr_empty r a H) as (r' & Hr & Hrep); [lia|].
    apply (ReadRecord_reads _ _ a) in Hr; [|done|lia].
    exists 0%nat, r'. split; simpl; try lia; [|by apply yields_end|intros _; apply Hrep; right; split; [lia|done]].
    intros m Hm. apply read_all_end; [done|lia].
  - rewrite log_bytes_cons in Hxy. destruct (Nat.le_gt_cases (length (chunks_bytes recycle num cs)) (length x)) as [Hle|Hgt].
    + apply app_prefix in Hxy as (x' & -> & Hcs); [|done]. rewrite zlen_app in HlD. pose proof (zlen_nonneg x').
      destruct (read_record _ _ _ _ _ Hf rr_empty r a pre x') as (r1 & Hr1 & H1 & Hm1); [done..|by left|].
      apply (ReadRecord_reads _ r a) in Hr1; [|done|unfold zlen in *; lia].
      destruct (IH r1 (a + len (chunks_bytes recycle num cs)) (pre ++ chunks_bytes recycle num cs) x' y) as (k & r' & [Hk1 Hky Hk2 Hk3 Hk4 Hkl Hk5]);
        [by eapply fragments_range|done|done|by rewrite <- app_assoc|by rewrite zlen_app, Hpre|done|].
      assert (Hpos : (1 <= length (chunks_bytes recycle num cs))%nat).
      { inversion Hf; subst; unfold chunks_bytes; cbn [mbind list_bind]; unfold chunk_bytes; cbn [c_pad c_type c_data];
          rewrite !length_app; match goal with |- context [physical ?c ?n ?t ?p] => pose proof (physical_len c n t p); pose proof (zlen_nonneg p) end;
          pose proof (header_size_range recycle); zlia. }
      exists (S k), r'. split; cbn [take]; rewrite ?log_bytes_cons, ?length_app; simpl; try lia.
      * intros m Hm. destruct m as [|m]; [lia|]. cbn [read_all]. rewrite Hr1. cbn [mbind option_bind]. rewrite Hk1 by lia. done.
      * eapply yields_cons; [done|apply H1|done].
      * intros [Hm|Hm]; apply Hk5; [by left|right; lia].
    + symmetry in Hxy. apply app_prefix in Hxy as (z & Hx & Hz); [|lia].
      destruct (read_record_cut _ _ _ _ _ Hf rr_empty r a pre x z) as (r' & Hr & Hrep); try done; [|by left|].
      { intros ->. rewrite app_nil_r in Hx. rewrite Hx in Hgt. lia. }
      apply (ReadRecord_reads _ _ a) in Hr; [|done|unfold zlen in *; lia].
      exists 0%nat, r'. split; [|by apply yields_end|simpl; lia| |lia|lia|].
      * intros m Hm. apply read_all_end; [done|lia].
      * intros _. cbn [take]. rewrite log_bytes_cons, length_app. lia.
      * intros [Hm|Hm]; apply Hrep; [by left|]. right. split; [|done]. unfold zlen in *. simpl in Hm. lia.
Qed.
End Records.

(** ** Whole logs *)

(** The file after these records were added to a new log, and whether they were all accepted. *)
Definition write_log (recycle : bool) (number : Z) (manual : bool) (faults : list (option nat)) (records : list bytes) :
    option (bool * bytes) :=
  w ← Writer_make (mkLogFile [] faults) number recycle manual;
  '(s, w) ← AddRecords w records;
  Some (s, lf_data (dest_ w)).

(** The bytes of a log without failures. *)
Definition log_of (recycle : bool) (number : Z) (records : list bytes) : bytes :=
  match write_log recycle number true [] records with Some (_, D) => D | None => [] end.

(** A reader at the start of a file, with a reporter. *)
Definition open_log (checksum : bool) (number : Z) (D : bytes) : Reader :=
  Reader_make (mkSeqFile D 0 []) (Some []) checksum number false.

Lemma write_log_layout recycle number manual faults records css off' :
  layout recycle 0 records css off' ->
  exists s k, write_log recycle number manual faults records = Some (s, take k (log_bytes recycle number css)) /\
    (s = true -> take k (log_bytes recycle number css) = log_bytes recycle number css) /\ (faults = [] -> s = true).
Proof.
  intros Hl. unfold write_log. destruct (Writer_make_ok (mkLogFile [] faults) number recycle manual) as (w & -> & Hw & Hd & Ho & Hn & Hr).
  cbn [mbind option_bind]. destruct (AddRecords_ok _ _ _ _ _ Hl w Hw Hr Ho) as (s & w' & -> & [(k & Hk & Hs) Hf] & _).
  cbn [mbind option_bind]. rewrite Hk, Hd, Hn in *. exists s, k. split; [done|]. split; [done|]. intros ->. by apply Hf.
Qed.

Lemma log_of_layout recycle number records css off' : layout recycle 0 records css off' -> log_of recycle number records = log_bytes recycle number css.
Proof.
  intros Hl. unfold log_of. destruct (write_log_layout recycle number true [] records css off' Hl) as (s & k & -> & Hs & Hf). by apply Hs, Hf.
Qed.

Lemma layout_take recycle off records css off' k :
  layout recycle off records css off' -> exists off1, layout recycle off (take k records) (take k css) off1.
Proof.
  intros H. revert k. induction H as [|off slice cs off1 records css off2 Hf Hl IH]; intros [|k]; try (eexists; constructor).
  destruct (IH k) as [o Ho]. exists o. by econstructor.
Qed.

(** A log cut anywhere. *)
Lemma read_cut_log recycle number records mode checksum n css off' :
  (recycle = true -> u32 number) -> layout recycle 0 records css off' ->
  exists k r, read_log mode (open_log checksum number (take n (log_of recycle number records))) = Some (take k records, r) /\
    yields (Some []) mode (take k records) (open_log checksum number (take n (log_of recycle number records))) r /\
    (k <= length records)%nat /\ (k <= length (take n (log_of recycle number records)))%nat /\
    (length (log_of recycle number (take k records)) <= length (take n (log_of recycle number records)))%nat /\
    ((k < length records)%nat ->
     (length (take n (log_of recycle number records)) < length (log_of recycle number (take (S k) records)))%nat) /\
    (mode <> kAbsoluteConsistency \/ length (take n (log_of recycle number records)) = length (log_of recycle number (take k records)) ->
     reporter_ r = Some []).
Proof.
  intros Hnum Hl. rewrite (log_of_layout _ number _ _ _ Hl). set (x := take n _).
  destruct (read_records x (Some []) number recycle mode Hnum _ _ _ _ Hl (open_log checksum number x) 0 [] x (drop n (log_bytes recycle number css)))
    as (k & r & [H1 Hy H2 H3 H4 Hkl H5]); [unfold kBlockSize; lia|done|apply Reader_make_at|done|done|by unfold x; rewrite take_drop|].
  assert (Htake : forall j, log_of recycle number (take j records) = log_bytes recycle number (take j css)).
  { intros j. destruct (layout_take _ _ _ _ _ j Hl) as [o Ho]. by eapply log_of_layout. }
  exists k, r. rewrite !Htake. split_and!; try done. apply H1. unfold open_log, Reader_make, remaining_bytes. simpl. lia.
Qed.

(** The records written to a log, of either format, are what a reader returns, in order, in every recovery mode and
    with or without checksums: none of the assertions of the writer fails, and the reader reports nothing. The number of a
    log whose file is reused has to fit in 32 bits. *)
Theorem log_roundtrip recycle number manual records mode checksum :
  (recycle = true -> u32 number) ->
  exists D r, write_log recycle number manual [] records = Some (true, D) /\
    read_log mode (open_log checksum number D) = Some (records, r) /\ reporter_ r = Some [].
Proof.
  intros Hnum. destruct (layout_total recycle 0 records) as (css & off' & Hl); [unfold kBlockSize; lia|].
  destruct (write_log_layout recycle number manual [] records css off' Hl) as (s & k & Ew & Hs & Hf). rewrite (Hf eq_refl) in *.
  rewrite Hs in Ew by done.
  destruct (read_cut_log recycle number records mode checksum (length (log_of recycle number records)) css off' Hnum Hl) as (j & r & Er & _ & Hj & _ & Hin & Hout & Hrep).
  rewrite firstn_all in *. assert (j = length records) as ->.
  { destruct (decide (j < length records)%nat) as [Hlt|]; [|lia]. apply Hout in Hlt. revert Hlt. rewrite <- (firstn_all records) at 1.
    destruct (layout_take _ _ _ _ _ (S j) Hl) as [o Ho]. rewrite (log_of_layout _ _ _ _ _ Ho), firstn_all, (log_of_layout _ _ _ _ _ Hl).
    rewrite <- (take_drop (S j) css) at 1. unfold log_bytes. rewrite bind_app, length_app. lia. }
  rewrite firstn_all in *. exists (log_of recycle number records), r. split_and!; [|done|apply Hrep; by right].
  by rewrite (log_of_layout _ _ _ _ _ Hl).
Qed.

Definition sample_records : list bytes := [[Byte.x61; Byte.x62]; []; repeat Byte.x63 100].

Lemma log_roundtrip_witness :
  exists D r, write_log true 7 false [] sample_records = Some (true, D) /\
    read_log kPointInTimeRecovery (open_log true 7 D) = Some (sample_records, r) /\ reporter_ r = Some [].
Proof. apply (log_roundtrip true 7 false sample_records kPointInTimeRecovery true). intros _. unfold u32. lia. Defined.

(** C10. Whatever calls of the file fail, and wherever the file is cut afterwards, a reader returns a prefix of the
    records that were written: the records that are whole in what is left of the file, all of them and no others.
    Nothing is reported as damage but in the mode that asks for a clean end. *)
Theorem log_crash_prefix recycle number manual faults records n mode checksum :
  (recycle = true -> u32 number) ->
  exists s D k r, write_log recycle number manual faults records = Some (s, D) /\
    read_log mode (open_log checksum number (take n D)) = Some (take k records, r) /\ (k <= length records)%nat /\
    (length (log_of recycle number (take k records)) <= length (take n D))%nat /\
    ((k < length records)%nat -> (length (take n D) < length (log_of recycle number (take (S k) records)))%nat) /\
    (mode <> kAbsoluteConsistency -> reporter_ r = Some []).
Proof.
  intros Hnum. destruct (layout_total recycle 0 records) as (css & off' & Hl); [unfold kBlockSize; lia|].
  destruct (write_log_layout recycle number manual faults records css off' Hl) as (s & j & Ew & _ & _).
  rewrite <- (log_of_layout _ _ _ _ _ Hl) in Ew.
  destruct (read_cut_log recycle number records mode checksum (n `min` j) css off' Hnum Hl) as (k & r & Er & _ & Hk & _ & Hin & Hout & Hrep).
  exists s, (take j (log_of recycle number records)), k, r. rewrite take_take. split_and!; try done. intros Hm. apply Hrep. by left.
Qed.

Lemma log_crash_prefix_witness :
  exists s D k r, write_log false 7 false [None; None; None; Some 3%nat] sample_records = Some (s, D) /\
    read_log kTolerateCorruptedTailRecords (open_log true 7 (take 10 D)) = Some (take k sample_records, r) /\
    (k <= length sample_records)%nat /\
    (length (log_of false 7 (take k sample_records)) <= length (take 10 D))%nat /\
    ((k < length sample_records)%nat -> (length (take 10 D) < length (log_of false 7 (take (S k) sample_records)))%nat) /\
    (kTolerateCorruptedTailRecords <> kAbsoluteConsistency -> reporter_ r = Some []).
Proof. apply log_crash_prefix. discriminate. Defined.

(** ** Logs that are not read *)

(** A log whose file may be reused and whose number needs more than 32 bits is not read back: the header keeps the
    low 32 bits of the number and the reader compares them with all of it, so that its own records look like those of an
    earlier log. Nothing is reported. *)
Theorem recycled_log_number_lost :
  exists D r, write_log true (2 ^ 32) false [] [[Byte.x61]] = Some (true, D) /\
    read_log kPointInTimeRecovery (open_log true (2 ^ 32) D) = Some ([], r) /\ reporter_ r = Some [].
Proof. do 2 eexists. split; [vm_compute; reflexivity|]. split; [vm_compute; reflexivity|]. reflexivity. Qed.

(** A record of an earlier log stays in the buffer. *)
Definition old_record_reader : Reader := r_recycled (r_eof true 12 (r_read (mkSeqFile (log_of true 1 [[Byte.x61]]) 12 []) 12
  (r_buffer (log_of true 1 [[Byte.x61]]) (open_log true 2 (log_of true 1 [[Byte.x61]]))))).

Lemma old_record_round : ReadRecord_round kSkipAnyCorruptedRecords rr_empty old_record_reader = Some (inr rr_empty, old_record_reader).
Proof. vm_compute. reflexivity. Qed.

Lemma old_record_first :
  ReadRecord_round kSkipAnyCorruptedRecords rr_empty (open_log true 2 (log_of true 1 [[Byte.x61]])) = Some (inr rr_empty, old_record_reader).
Proof. vm_compute. reflexivity. Qed.

(** In the mode that skips damaged records, a record left by an earlier log in a reused file keeps [ReadRecord] in its
    loop for ever: [ReadPhysicalRecord] leaves such a record in the buffer, and the loop does not end there in this mode. *)
Theorem skip_old_record_diverges fuel :
  ReadRecord_loop fuel kSkipAnyCorruptedRecords rr_empty (open_log true 2 (log_of true 1 [[Byte.x61]])) = None.
Proof.
  assert (H : forall n, ReadRecord_loop n kSkipAnyCorruptedRecords rr_empty old_record_reader = None).
  { induction n as [|n IH]; [done|]. cbn [ReadRecord_loop]. rewrite old_record_round. apply IH. }
  destruct fuel as [|fuel]; [done|]. cbn [ReadRecord_loop]. rewrite old_record_first. apply H.
Qed.
