(* ===== verification/LogTotal.v ===== *)
(** * The log reader on arbitrary files (db/log_reader.cc)

    Whatever the bytes of the file are and whichever reads fail, the reader comes to the
    end of the log; it does not hand out a fragment whose checksum is wrong, and it goes on
    where it was when the file has grown. *)

From S2P Require Import Prelude Coding Crc32c LogWriter LogReader LogRoundtrip.

(** ** Termination *)

Record rd_ok (r : Reader) : Prop := {
  rd_retry : retry_after_eof_ r = false;
  rd_pos : 0 <= sf_pos (file_ r) <= len (sf_data (file_ r))
}.

(** No byte comes back. *)
Definition onward (r r' : Reader) : Prop := rd_ok r' /\ (remaining_bytes r' <= remaining_bytes r)%nat.

Lemma onward_trans r1 r2 r3 : onward r1 r2 -> onward r2 r3 -> onward r1 r3.
Proof. intros [_ H1] [H2 H3]. split; [done|lia]. Qed.

(** The fields [onward] is about are those of another reader. *)
Lemma onward_same r r' :
  rd_ok r -> file_ r' = file_ r -> buffer_ r' = buffer_ r -> retry_after_eof_ r' = retry_after_eof_ r -> onward r r'.
Proof. intros [H1 H2] Hf Hb Hr. split; [split; congruence|]. unfold remaining_bytes. by rewrite Hf, Hb. Qed.

Lemma onward_clear r : rd_ok r -> onward r (r_buffer [] r) /\ (remaining_bytes (r_buffer [] r) + length (buffer_ r) = remaining_bytes r)%nat.
Proof. intros [H1 H2]. destruct r; simpl in *. split; [split; [by split|]|]; unfold remaining_bytes; simpl; lia. Qed.

Lemma Read_ok n f : 0 <= n -> 0 <= sf_pos f <= len (sf_data f) ->
  exists s got f', Read n f = (s, got, f') /\ sf_data f' = sf_data f /\ sf_pos f' = sf_pos f + len got /\ sf_pos f' <= len (sf_data f) /\
    (s = true -> n <= len got \/ len got < n).
Proof.
  intros Hn Hf. unfold Read. set (want := take _ _).
  assert (Hw : len want <= len (sf_data f) - sf_pos f) by (unfold want, zlen in *; rewrite length_take, length_drop; lia).
  destruct (sf_faults f) as [|[k|] fs]; do 3 eexists; (split; [done|]); simpl; split_and!; try done; try lia.
  unfold zlen in *. rewrite length_take. lia.
Qed.

Lemma ReadMore_total d r :
  rd_ok r -> exists res r', ReadMore d r = Some (res, r') /\ onward r r' /\
    match res with
    | inl (t, _) => t = kEof \/ t = kBadHeader
    | inr _ => eof_ r = false /\ read_error_ r = false /\ (eof_ r' = true \/ kBlockSize <= len (buffer_ r'))
    end.
Proof.
  intros Hok. unfold ReadMore. rewrite (rd_retry _ Hok). cbn [andb]. destruct (negb (eof_ r) && negb (read_error_ r)) eqn:E.
  - apply andb_true_iff in E as [E1%negb_true_iff E2%negb_true_iff].
    destruct (Read_ok kBlockSize (file_ r)) as (s & got & f' & -> & Hd & Hp & Hle & _); [unfold kBlockSize; lia|apply Hok|].
    destruct r as [f rp ck b eo er eoff lo eb n rc rt]; simpl in *. destruct Hok as [Hr Hpos]; simpl in *.
    assert (Hon : forall b' rp' eo' er' eoff', (length b' <= length got)%nat ->
      onward (mkReader f rp ck b eo er eoff lo eb n rc rt) (mkReader f' rp' ck b' eo' er' eoff' lo (eb + len got) n rc rt)).
    { intros. split; [split; simpl; [done|rewrite Hd, Hp in *; pose proof (zlen_nonneg got); lia]|]. unfold remaining_bytes; simpl.
      rewrite Hd, Hp. unfold zlen in *. lia. }
    destruct s; cbn [negb]; do 2 eexists; (split; [done|]).
    + destruct (Z.ltb_spec (len got) kBlockSize) as [Hs|Hs]; (split; [apply Hon; lia|]); simpl; auto.
    + split; [apply Hon; simpl; lia|by left].
  - destruct (0 <? len (buffer_ r)); do 2 eexists; (split; [done|]); (split; [by apply onward_clear|]); auto.
Qed.

(** What a physical read leaves to read. *)
Definition good_read (r : Reader) (o : option (phys * Reader)) : Prop :=
  exists ph r', o = Some (ph, r') /\ onward r r' /\
    (ph_type ph = kEof \/ ph_type ph = kBadHeader \/ ph_type ph = kOldRecord \/ (remaining_bytes r' < remaining_bytes r)%nat).

Lemma good_read_onward r r1 o : onward r r1 -> good_read r1 o -> good_read r o.
Proof. intros H (ph & r' & -> & H1 & H2). exists ph, r'. split; [done|]. split; [by eapply onward_trans|]. destruct H. intuition lia. Qed.

Lemma parse_total more d t n r :
  rd_ok r -> 7 <= len (buffer_ r) -> 0 <= n ->
  (forall r1, onward r r1 -> r1 = r \/ r1 = r_recycled r -> len (buffer_ r) < 11 -> good_read r (more r1)) ->
  good_read r (parse_record more d t n r).
Proof.
  intros Hok H7 Hn Hmore. unfold parse_record. set (rec := (kRecyclableFullType <=? t) && _).
  set (r1 := if rec && (_ =? 0) then r_recycled r else r). assert (Hr1 : r1 = r \/ r1 = r_recycled r) by (unfold r1; destruct (rec && _); auto).
  assert (Hs : onward r r1 /\ buffer_ r1 = buffer_ r).
  { unfold r1. destruct (rec && _); (split; [|by destruct r]); apply onward_same; try done; by destruct r. }
  destruct Hs as [Hon Hb]. destruct (proj1 Hon) as [Hretry _]. rewrite Hretry.
  assert (Hclear : forall ty dd, good_read r (Some (mkPhys ty [] dd, r_buffer [] r1))).
  { intros ty dd. destruct (onward_clear r1 (proj1 Hon)) as [Hc1 Hc2]. eexists _, _. split; [done|]. split; [by eapply onward_trans|].
    do 3 right. rewrite Hb in Hc2. destruct Hon. zlia. }
  destruct (rec && (len (buffer_ r) <? kRecyclableHeaderSize)) eqn:E1.
  { apply Hmore; [done..|]. apply andb_true_iff in E1 as [_ E1%Z.ltb_lt]. exact E1. }
  destruct (rec && negb _); [eexists _, _; split; [done|]; split; [done|]; auto|].
  destruct (len (buffer_ r) <? (if rec then kRecyclableHeaderSize else kHeaderSize) + n) eqn:E2; [apply Hclear|]. destruct ((t =? kZeroType) && (n =? 0)); [apply Hclear|].
  rewrite crc_Value_ok. destruct (checksum_ r1); cbn [mbind option_bind]; (destruct (negb _); [apply Hclear|]);
    (eexists _, _; split; [done|]; set (b := drop _ (buffer_ r));
     assert (Hlb : (length b < length (buffer_ r))%nat) by
       (unfold b; rewrite length_drop; apply Z.ltb_ge in E2; destruct rec; unfold kRecyclableHeaderSize, kHeaderSize in *; zlia);
     rewrite <- Hb in Hlb; clearbody b; destruct Hon as [[Ho1 Ho2] Hrem]; destruct r1 as [f rp ck b1 eo er eoff lo eb nm rc rt]; simpl in *;
     unfold onward, remaining_bytes in *; simpl in *; split; [split; [by split|lia]|lia]).
Qed.

Lemma phys_total_full fuel d r :
  rd_ok r -> eof_ r = true \/ read_error_ r = true \/ 11 <= len (buffer_ r) -> good_read r (ReadPhysicalRecord_loop (S fuel) d r).
Proof.
  intros Hok Hfull. cbn [ReadPhysicalRecord_loop].
  assert (Hend : forall r1, onward r r1 -> r1 = r \/ r1 = r_recycled r -> len (buffer_ r) < 11 ->
    good_read r (read_on (ReadPhysicalRecord_loop fuel) d r1)).
  { intros r1 Hon Hr1 Hlt. apply (good_read_onward r r1); [done|].
    destruct (ReadMore_total d r1 (proj1 Hon)) as (res & r2 & E & Ho & Hres). unfold read_on. rewrite E. cbn [mbind option_bind].
    destruct res as [[t dd]|]; [eexists _, _; split; [done|]; split; [done|]; simpl; tauto|].
    destruct Hres as (He1 & He2 & _). assert (eof_ r = false /\ read_error_ r = false) by (destruct Hr1 as [->| ->]; by destruct r).
    destruct Hfull as [|[|]]; intuition (congruence || lia). }
  destruct (Z.ltb_spec (len (buffer_ r)) kHeaderSize) as [H7|H7]; unfold kHeaderSize in H7.
  { apply Hend; [by apply onward_same|by left|lia]. }
  destruct (zget_is_Some (buffer_ r) 4) as [b4 ->]; [lia|]. destruct (zget_is_Some (buffer_ r) 5) as [b5 ->]; [lia|].
  destruct (zget_is_Some (buffer_ r) 6) as [b6 ->]; [lia|]. cbn [fmap option_fmap option_map mbind option_bind].
  apply parse_total; [done|lia| |done]. apply Z.lor_nonneg. pose proof (byte.unsigned_range b4). pose proof (byte.unsigned_range b5).
  split; [lia|]. apply Z.shiftl_nonneg. lia.
Qed.

Lemma phys_total r : rd_ok r -> good_read r (ReadPhysicalRecord r).
Proof.
  intros Hok. unfold ReadPhysicalRecord. replace (remaining_bytes r + 4)%nat with (S (S (remaining_bytes r + 2))) by lia.
  generalize (remaining_bytes r + 2)%nat as fuel. intros fuel. generalize 0 as d. intros d.
  assert (Hmore : forall r1, onward r r1 -> good_read r (read_on (ReadPhysicalRecord_loop (S fuel)) d r1)).
  { intros r1 Hon. apply (good_read_onward r r1); [done|].
    destruct (ReadMore_total d r1 (proj1 Hon)) as (res & r2 & E & Ho & Hres). unfold read_on. rewrite E. cbn [mbind option_bind].
    destruct res as [[t dd]|]; [eexists _, _; split; [done|]; split; [done|]; simpl; tauto|].
    apply (good_read_onward r1 r2); [done|]. apply phys_total_full; [apply Ho|]. unfold kBlockSize in Hres. intuition lia. }
  destruct (Z.lt_ge_cases (len (buffer_ r)) 11) as [H11|H11]; [|apply phys_total_full; [done|lia]].
  cbn [ReadPhysicalRecord_loop]. destruct (Z.ltb_spec (len (buffer_ r)) kHeaderSize) as [H7|H7]; unfold kHeaderSize in H7.
  { apply Hmore. by apply onward_same. }
  destruct (zget_is_Some (buffer_ r) 4) as [b4 ->]; [lia|]. destruct (zget_is_Some (buffer_ r) 5) as [b5 ->]; [lia|].
  destruct (zget_is_Some (buffer_ r) 6) as [b6 ->]; [lia|]. cbn [fmap option_fmap option_map mbind option_bind].
  apply parse_total; [done|lia| |auto]. apply Z.lor_nonneg. pose proof (byte.unsigned_range b4). pose proof (byte.unsigned_range b5).
  split; [lia|]. apply Z.shiftl_nonneg. lia.
Qed.

(** What a report or the offset of the last record changes is not what is read next. *)
Lemma still_onward r r1 f :
  onward r r1 -> file_ (f r1) = file_ r1 -> buffer_ (f r1) = buffer_ r1 -> retry_after_eof_ (f r1) = retry_after_eof_ r1 ->
  onward r (f r1) /\ remaining_bytes (f r1) = remaining_bytes r1.
Proof.
  intros H Hf Hb Hr. split; [eapply onward_trans; [done|]; by apply onward_same; [apply H|..]|]. unfold remaining_bytes. by rewrite Hf, Hb.
Qed.

Definition same_input (r r' : Reader) : Prop :=
  file_ r' = file_ r /\ buffer_ r' = buffer_ r /\ retry_after_eof_ r' = retry_after_eof_ r.

Lemma same_input_refl r : same_input r r.
Proof. done. Qed.

Lemma same_report r0 b m r : same_input r0 r -> same_input r0 (ReportCorruption b m r).
Proof. by destruct r. Qed.

Lemma same_last r0 o r : same_input r0 r -> same_input r0 (r_last o r).
Proof. by destruct r. Qed.

Lemma same_stop r0 mode st r : same_input r0 r -> same_input r0 (rr_stop mode st r).
Proof. unfold rr_stop. destruct (_ && _); [apply same_report|done]. Qed.

Lemma same_new r0 m st r : same_input r0 r -> same_input r0 (rr_new m st r).
Proof. unfold rr_new. destruct (_ && _); [apply same_report|done]. Qed.

Lemma same_give_up r0 st r : same_input r0 r -> same_input r0 (rr_give_up st r).2.
Proof. unfold rr_give_up. destruct (rr_fragmented st); [apply same_report|done]. Qed.

Create HintDb log.
#[local] Hint Resolve same_input_refl same_report same_last same_stop same_new same_give_up : log.

(** A round ends the loop or takes some of the log. *)
Lemma round_total mode st r :
  rd_ok r -> mode <> kSkipAnyCorruptedRecords ->
  exists res r', ReadRecord_round mode st r = Some (res, r') /\ onward r r' /\ (res = inl None \/ (remaining_bytes r' < remaining_bytes r)%nat).
Proof.
  intros Hok Hm. destruct (phys_total r Hok) as (ph & r1 & E & Hon & Hph).
  assert (Hround : exists res r', ReadRecord_round mode st r = Some (res, r') /\ same_input r1 r' /\
    (res = inl None \/ ~ (ph_type ph = kEof \/ ph_type ph = kBadHeader \/ ph_type ph = kOldRecord))).
  { unfold ReadRecord_round. rewrite E. cbn [mbind option_bind]. destruct ph as [t res d]; cbn [ph_type ph_result ph_drop].
    rewrite (bool_decide_false _ Hm). cbn [negb andb].
    destruct (Z.eqb_spec t kOldRecord) as [->|H1]; [eexists _, _; split; [reflexivity|]; auto with log|].
    destruct (Z.eqb_spec t kBadHeader) as [->|H2]; [eexists _, _; split; [reflexivity|]; split; [|by left]|].
    { apply same_stop. destruct (_ && _); auto with log. }
    destruct (Z.eqb_spec t kEof) as [->|H3]; [eexists _, _; split; [reflexivity|]; auto with log|]. cbn [orb andb].
    assert (Hgu : forall r2, same_input r1 r2 -> exists st' r3, rr_give_up st r2 = (st', r3) /\ same_input r1 r3).
    { intros r2 H12. destruct (rr_give_up st r2) as [st' r3] eqn:Eg. exists st', r3. split; [done|].
      pose proof (same_give_up r1 st r2 H12) as Hs. by rewrite Eg in Hs. }
    assert (Hno : ~ (t = kEof \/ t = kBadHeader \/ t = kOldRecord)) by tauto.
    repeat match goal with
    | |- context [let '(_, _) := rr_give_up st ?x in _] =>
        let Hx := fresh in assert (Hx : same_input r1 x) by eauto with log; destruct (Hgu x Hx) as (? & ? & -> & ?)
    | |- context [if ?b then _ else _] => destruct b
    end; eexists _, _; (split; [reflexivity|]); (split; [eauto 6 with log|]); auto. }
  destruct Hround as (res & r' & Er & (S1 & S2 & S3) & Hres). exists res, r'. split; [done|].
  destruct (still_onward r r1 (fun _ => r') Hon) as [Ho Hrem]; [done..|]. split; [done|]. rewrite Hrem. tauto.
Qed.

Lemma ReadRecord_total mode st r fuel :
  rd_ok r -> mode <> kSkipAnyCorruptedRecords -> (remaining_bytes r + 1 <= fuel)%nat ->
  exists rec r', ReadRecord_loop fuel mode st r = Some (rec, r') /\ onward r r' /\ (rec = None \/ (remaining_bytes r' < remaining_bytes r)%nat).
Proof.
  revert st r. induction fuel as [|fuel IH]; intros st r Hok Hm Hf; [lia|]. cbn [ReadRecord_loop].
  destruct (round_total mode st r Hok Hm) as (res & r1 & -> & Ho & Hres). cbn [mbind option_bind].
  destruct res as [rec|st1]; [exists rec, r1; split; [done|]; split; [done|]; destruct Hres as [[= ->]|]; auto|].
  destruct Hres as [|Hlt]; [done|]. destruct (IH st1 r1 (proj1 Ho) Hm) as (rec & r' & -> & Ho' & Hrec); [lia|].
  exists rec, r'. split; [done|]. split; [by eapply onward_trans|]. right. destruct Ho'. lia.
Qed.

Lemma read_all_total mode r fuel :
  rd_ok r -> mode <> kSkipAnyCorruptedRecords -> (remaining_bytes r + 1 <= fuel)%nat ->
  exists records r', read_all fuel mode r = Some (records, r').
Proof.
  revert r. induction fuel as [|fuel IH]; intros r Hok Hm Hf; [lia|]. cbn [read_all]. unfold ReadRecord.
  destruct (ReadRecord_total mode rr_empty r (remaining_bytes r + 1) Hok Hm) as (rec & r1 & -> & Ho & Hrec); [lia|]. cbn [mbind option_bind].
  destruct rec as [rec|]; [|by do 2 eexists]. destruct Hrec as [|Hlt]; [done|].
  destruct (IH r1 (proj1 Ho) Hm) as (records & r' & ->); [lia|]. by do 2 eexists.
Qed.

(** C28. Whatever the bytes of the file and whichever reads fail, reading a log comes to its end when the reader does not retry
    after the end of the file ([retry_after_eof] is false, as in recovery; with it the reader would ask for more bytes again
    and again): each record that is returned, and each stretch that is skipped, is at least a header of the file. The mode
    that skips damaged records is the exception. *)
Theorem log_reader_total D faults reporter checksum number mode :
  mode <> kSkipAnyCorruptedRecords ->
  exists records r, read_log mode (Reader_make (mkSeqFile D 0 faults) reporter checksum number false) = Some (records, r).
Proof.
  intros Hm. apply read_all_total; [|done|done]. split; simpl; [done|]. pose proof (zlen_nonneg D). lia.
Qed.

Lemma log_reader_total_witness :
  exists records r, read_log kPointInTimeRecovery (Reader_make (mkSeqFile (repeat Byte.x07 50) 0 [Some 3%nat]) None true 1 false) =
    Some (records, r).
Proof. apply log_reader_total. discriminate. Defined.

(** ** Damage *)

(** C30. A fragment of which at most four consecutive bytes of the payload were changed is not handed out when checksums are
    on: the reader finds the checksum wrong and drops the rest of the block. *)
Theorem log_detects_damage recycle num t pre w w' post rest r :
  let p := pre ++ w ++ post in
  let p' := pre ++ w' ++ post in
  type_ok recycle t -> (recycle = true -> u32 num) -> len p < 2 ^ 16 ->
  length w = length w' -> (length w <= 4)%nat -> w <> w' ->
  reader_log_number_ r = num -> checksum_ r = true ->
  buffer_ r = take (Z.to_nat (header_size_of recycle)) (physical recycle num t p) ++ p' ++ rest ->
  exists r', ReadPhysicalRecord r = Some (mkPhys kBadRecordChecksum [] (len (buffer_ r)), r') /\ buffer_ r' = [].
Proof.
  intros p p' Ht Hnum Hp Hlen H4 Hne Hn Hck Hb. destruct (ReadPhysicalRecord_fuel r) as [fuel ->].
  assert (Hlp : len p' = len p) by (unfold p, p'; rewrite !zlen_app; zlia). pose proof (zlen_nonneg p) as Hp0.
  pose proof (header_size_range recycle) as Hh. pose proof (number_bytes_len recycle num) as Hnb.
  rewrite physical_header, (app_assoc (header7 _ _ _)), take_app_length', <- app_assoc in Hb.
  2: { rewrite length_app, header7_length. zlia. }
  rewrite (loop_header _ 0 r _ _ t _ Hb) by (destruct Ht; lia).
  destruct (parse_record_header recycle num (read_on (ReadPhysicalRecord_loop (S fuel)) 0) 0 t (len p) _ r _ Hb Ht Hn Hnum) as (r1 & Hr1 & ->).
  assert (Hl : len (buffer_ r) = header_size_of recycle + len p + len rest).
  { rewrite Hb, !zlen_app, Hnb, Hlp. unfold zlen at 1. rewrite header7_length. lia. }
  pose proof (zlen_nonneg rest). rewrite (proj2 (Z.ltb_ge _ _)), Hck by lia.
  assert (Hdec : Unmask (DecodeFixed32 (buffer_ r)) = frag_crc recycle num t p).
  { rewrite Hb. unfold header7. rewrite <- !app_assoc. rewrite DecodeFixed32_Encode by apply Mask_range.
    apply Unmask_Mask, crc32c_spec_range, u32_0. }
  assert (Hbody : crc_Value (take (Z.to_nat (len p + header_size_of recycle - 6)) (drop 6 (buffer_ r))) = Some (frag_crc recycle num t p')).
  { rewrite crc_Value_ok. unfold frag_crc. do 2 f_equal. rewrite Hb.
    destruct (EncodeFixed32_four (Mask (frag_crc recycle num t p))) as (b0 & b1 & b2 & b3 & Hc).
    unfold header7. rewrite Hc. cbn [app drop]. rewrite (app_assoc _ p' rest), app_comm_cons. apply take_app_length'.
    unfold zlen in *. simpl. rewrite length_app. lia. }
  rewrite Hbody, Hdec. cbn [mbind option_bind]. replace (frag_crc recycle num t p' =? frag_crc recycle num t p) with false.
  { cbn [negb]. eexists. split; [done|]. by destruct r1. }
  symmetry. apply Z.eqb_neq. unfold frag_crc, p, p'. intros Heq. apply Hne. symmetry.
  rewrite !app_comm_cons, !(app_assoc _ pre) in Heq. eapply crc32c_burst; [apply u32_0| | |exact Heq]; lia.
Qed.

Definition sample_damaged : Reader :=
  r_buffer (take 7 (physical false 0 kFullType [Byte.x61; Byte.x62; Byte.x63]) ++ [Byte.x61; Byte.x00; Byte.x63]) (open_log true 0 []).

Lemma log_detects_damage_witness :
  exists r', ReadPhysicalRecord sample_damaged = Some (mkPhys kBadRecordChecksum [] (len (buffer_ sample_damaged)), r') /\ buffer_ r' = [].
Proof.
  apply (log_detects_damage false 0 kFullType [Byte.x61] [Byte.x62] [Byte.x00] [Byte.x63] []);
    try reflexivity; try discriminate; [split; [split; discriminate|reflexivity]|simpl; lia].
Defined.

(** ** A file that grows *)

Definition r_grow (D : bytes) '(mkReader f rp ck b eo er eoff lo eb n rc rt) :=
  mkReader (mkSeqFile D (sf_pos f) (sf_faults f)) rp ck b eo er eoff lo eb n rc rt.

Section Grow.
Context (D z : bytes) (rep : option (list (Z * string))) (num : Z).

#[local] Ltac Zify.zify_post_hook ::= Z.to_euclidean_division_equations.

Lemma grow_buffer a e : 0 <= a <= e -> e <= len D ->
  take (Z.to_nat (e - a)) (drop (Z.to_nat a) (D ++ z)) = take (Z.to_nat (e - a)) (drop (Z.to_nat a) D).
Proof. intros Ha He. rewrite drop_app_le by zlia. apply take_app_le. rewrite length_drop. zlia. Qed.

Lemma UnmarkEOF_ok a r :
  reader_at D rep num a r -> exists r', UnmarkEOF (r_grow (D ++ z) r) = Some r' /\ reader_at (D ++ z) rep num a r'.
Proof.
  intros H. pose proof (ra_len _ _ _ _ _ H) as Hl. destruct H as [Hf Hr Hb [Hs1 Hs2] Hc He].
  destruct r as [f rp ck b eo er eoff lo eb n rc rt]; simpl in *. subst er rt f. unfold UnmarkEOF. simpl.
  pose proof (zlen_app D z) as HlD. pose proof (zlen_nonneg z) as Hz. unfold kBlockSize in *.
  destruct (Z.eqb_spec eoff 0) as [Hoff|Hoff].
  - eexists. split; [done|]. split; simpl; try done; [lia|by rewrite grow_buffer by lia|]. unfold kBlockSize. destruct eo; lia.
  - destruct eo; [|lia]. destruct He as (-> & -> & Hbase).
    rewrite (proj2 (Z.leb_le 0 _)), (proj2 (Z.leb_le 0 _)) by lia. cbn [andb negb]. set (m := 32768 - len D mod 32768) in *.
    unfold Read. simpl. rewrite zlen_to_nat, drop_app_length. set (got := take (Z.to_nat m) z).
    assert (Hg : len got = m `min` len z) by (unfold got, zlen; rewrite length_take; unfold zlen in *; lia).
    assert (Hbuf : b ++ got = take (Z.to_nat (len D + len got - a)) (drop (Z.to_nat a) (D ++ z))).
    { rewrite Hb, (take_ge (drop _ D)) by (rewrite length_drop; zlia). rewrite drop_app_le by zlia.
      replace (Z.to_nat (len D + len got - a)) with (length (drop (Z.to_nat a) D) + length got)%nat
        by (rewrite length_drop; unfold zlen in *; lia).
      rewrite take_app_add. f_equal. apply take_own_length. }
    destruct (Z.ltb_spec (len got) m); eexists; (split; [done|]); split; simpl; try done; unfold kBlockSize; lia.
Qed.
End Grow.

(** Exactly [k] records. *)
Fixpoint read_n (k : nat) (mode : WALRecoveryMode) (r : Reader) : option (list bytes * Reader) :=
  match k with
  | O => Some ([], r)
  | S k =>
      '(record, r) ← ReadRecord mode r;
      record ← record;
      '(records, r) ← read_n k mode r;
      Some (record :: records, r)
  end.

Section Tail.
Context (D : bytes) (rep : option (list (Z * string))) (num : Z) (recycle : bool) (mode : WALRecoveryMode).
Context (Hnum : recycle = true -> u32 num).

Lemma read_n_ok k off records css off' :
  layout recycle off records css off' -> forall r a pre x y,
  0 <= off <= kBlockSize -> a mod kBlockSize = off mod kBlockSize -> reader_at D rep num a r -> D = pre ++ x -> len pre = a ->
  log_bytes recycle num css = x ++ y -> (k <= length records)%nat -> (length (log_bytes recycle num (take k css)) <= length x)%nat ->
  exists r' off1, read_n k mode r = Some (take k records, r') /\ reader_at D rep num (a + len (log_bytes recycle num (take k css))) r' /\
    layout recycle off1 (drop k records) (drop k css) off' /\ 0 <= off1 <= kBlockSize /\
    (a + len (log_bytes recycle num (take k css))) mod kBlockSize = off1 mod kBlockSize.
Proof using Hnum.
  revert off records css. induction k as [|k IH]; intros off records css Hl r a pre x y Hoff Ha H HD Hpre Hxy Hk Hin.
  { exists r, off. change (len (log_bytes recycle num (take 0 css))) with 0. rewrite Z.add_0_r. rewrite !drop_0, take_0. cbn [read_n]. split_and!; (done || lia). }
  destruct Hl as [|off slice cs off1 records css off2 Hf Hl]; [simpl in Hk; lia|]. cbn [take] in *. rewrite log_bytes_cons in *.
  rewrite length_app in Hin. apply app_prefix in Hxy as (x' & -> & Hcs); [|lia].
  assert (HlD : len D = a + len (chunks_bytes recycle num cs) + len x') by (rewrite HD, !zlen_app, Hpre; lia). pose proof (zlen_nonneg x').
  destruct (read_record D rep num recycle mode Hnum _ _ _ _ _ Hf rr_empty r a pre x') as (r1 & Hr1 & H1 & Hm1); [done..|by left|].
  apply (ReadRecord_reads D rep num mode _ r a) in Hr1; [|done|unfold zlen in *; lia].
  destruct (IH off1 records css Hl r1 (a + len (chunks_bytes recycle num cs)) (pre ++ chunks_bytes recycle num cs) x' y)
    as (r' & off3 & Hr' & H' & Hl' & Hoff3 & Hm'); try done;
    [by eapply fragments_range|by rewrite <- app_assoc|by rewrite zlen_app, Hpre|simpl in Hk; lia|rewrite length_app in Hin; lia|].
  exists r', off3. cbn [read_n]. rewrite Hr1. cbn [mbind option_bind]. rewrite Hr', zlen_app, Z.add_assoc. done.
Qed.

Lemma reads_part_all off records css off' k r r' :
  layout recycle off records css off' -> reads_part rep num recycle mode records css (log_bytes recycle num css) k r r' -> k = length records.
Proof.
  intros Hl [_ _ _ Hout Hk _ _]. destruct (decide (k < length records)%nat) as [Hlt|]; [|lia]. apply Hout in Hlt.
  rewrite <- (take_drop (S k) css) in Hlt at 1. unfold log_bytes in Hlt. rewrite bind_app, length_app in Hlt. lia.
Qed.
End Tail.

(** C34. A reader that read some of the records that were whole in a log while it was being written, whatever part of the next
    record its buffer held, goes on with the record after them once the file has grown and the end-of-file mark is cleared: no record is lost or
    read twice. *)
Theorem log_tailing recycle number records n k mode checksum :
  (recycle = true -> u32 number) -> (k <= length records)%nat ->
  (length (log_of recycle number (take k records)) <= length (take n (log_of recycle number records)))%nat ->
  exists r1 r2 r3,
    read_n k mode (open_log checksum number (take n (log_of recycle number records))) = Some (take k records, r1) /\
    UnmarkEOF (r_grow (log_of recycle number records) r1) = Some r2 /\
    read_log mode r2 = Some (drop k records, r3) /\ reporter_ r3 = Some [].
Proof.
  intros Hnum Hk Hin. destruct (layout_total recycle 0 records) as (css & off' & Hl); [unfold kBlockSize; lia|].
  destruct (layout_take _ _ _ _ _ k Hl) as [o Ho]. rewrite (log_of_layout _ _ _ _ _ Ho) in Hin. rewrite (log_of_layout _ _ _ _ _ Hl) in *.
  set (L := log_bytes recycle number css) in *.
  destruct (read_n_ok (take n L) (Some []) number recycle mode Hnum k 0 records css off' Hl (open_log checksum number (take n L)) 0 [] (take n L) (drop n L))
    as (r1 & off1 & Hr1 & H1 & Hl1 & Hoff1 & Hm1); [unfold kBlockSize; lia|done|apply Reader_make_at|done|done|by rewrite take_drop|done|done|].
  destruct (UnmarkEOF_ok (take n L) (drop n L) (Some []) number _ r1 H1) as (r2 & Hr2 & H2). rewrite take_drop in *.
  assert (HL : L = log_bytes recycle number (take k css) ++ log_bytes recycle number (drop k css)).
  { unfold L, log_bytes. by rewrite <- bind_app, take_drop. }
  destruct (read_records L (Some []) number recycle mode Hnum _ _ _ _ Hl1 r2 _ (log_bytes recycle number (take k css))
    (log_bytes recycle number (drop k css)) [] Hoff1 Hm1 H2 HL) as (j & r3 & Hrp); [lia|by rewrite app_nil_r|].
  pose proof (reads_part_all _ _ _ _ _ _ _ _ _ _ _ Hl1 Hrp) as ->. destruct Hrp as [Hrd _ Hin' _ _ _ Hrep]. rewrite firstn_all in Hrd.
  exists r1, r2, r3. split_and!; [done|done| |].
  - apply Hrd. pose proof (ra_remaining _ _ _ _ _ H2) as Hrem. pose proof (f_equal len HL) as HlL. rewrite zlen_app in HlL. unfold zlen in *. lia.
  - apply Hrep. right. destruct (layout_take _ _ _ _ _ (length (drop k records)) Hl1) as [o' Ho'].
    assert (Hlen : length (drop k css) = length (drop k records)) by (clear -Hl1; by induction Hl1; simpl; f_equal).
    by rewrite <- Hlen, firstn_all.
Qed.

Lemma log_tailing_witness :
  exists r1 r2 r3,
    read_n 1 kAbsoluteConsistency (open_log true 0 (take 12 (log_of false 0 sample_records))) = Some (take 1 sample_records, r1) /\
    UnmarkEOF (r_grow (log_of false 0 sample_records) r1) = Some r2 /\
    read_log kAbsoluteConsistency r2 = Some (drop 1 sample_records, r3) /\ reporter_ r3 = Some [].
Proof.
  apply (log_tailing false 0 sample_records 12 1 kAbsoluteConsistency true); [discriminate|simpl; lia|].
  apply Nat.leb_le. vm_compute. reflexivity.
Defined.
