(* ===== verification/Comparator.v ===== *)
(** * Key comparators (include/rocksdb/slice.h, util/comparator.cc)

    [Slice::compare], the [Comparator] interface as a record of operations with
    a class of laws, and the two comparators the source provides.  Components
    that order keys are written over an arbitrary [Comparator] and proved from
    [ComparatorLaws]. *)

From S2P Require Import Prelude.

(** ** Slices *)

(** [memcmp] of two ranges of the same length: only its sign is specified. *)
Fixpoint memcmp (a b : bytes) : Z :=
  match a, b with
  | x :: a, y :: b =>
      if byte.unsigned x <? byte.unsigned y then -1
      else if byte.unsigned y <? byte.unsigned x then 1
      else memcmp a b
  | _, _ => 0
  end.

(** [Slice::compare]. *)
Definition Slice_compare (a b : bytes) : Z :=
  let min_len := if len a <? len b then len a else len b in
  let r := memcmp (take (Z.to_nat min_len) a) (take (Z.to_nat min_len) b) in
  if r =? 0 then
    if len a <? len b then -1 else if len b <? len a then 1 else r
  else r.

(** [Slice::difference_offset]: the length of the common prefix. *)
Fixpoint difference_offset (a b : bytes) : nat :=
  match a, b with
  | x :: a, y :: b => if byte.unsigned x =? byte.unsigned y then S (difference_offset a b) else O
  | _, _ => O
  end.

Definition starts_with (a x : bytes) : bool :=
  (len x <=? len a) && (memcmp (take (length x) a) x =? 0).

Definition ends_with (a x : bytes) : bool :=
  (len x <=? len a) && (memcmp (drop (length a - length x) a) x =? 0).

Definition Slice_eqb (x y : bytes) : bool :=
  (len x =? len y) && (memcmp x y =? 0).

(** ** The interface *)

Record Comparator := {
  Compare : bytes -> bytes -> Z;
  FindShortestSeparator : bytes -> bytes -> bytes;
  FindShortSuccessor : bytes -> bytes;
}.

(** What the engine relies on: [Compare] is a total preorder given by its sign,
    a separator of [start < limit] lies in [start, limit), a separator of equal
    keys stays equal to them, and a successor is not smaller. *)
Class ComparatorLaws (c : Comparator) : Prop := {
  cmp_sym a b : Z.sgn (Compare c a b) = - Z.sgn (Compare c b a);
  cmp_trans a b d : Compare c a b <= 0 -> Compare c b d <= 0 -> Compare c a d <= 0;
  sep_ge start limit :
    Compare c start limit < 0 -> Compare c start (FindShortestSeparator c start limit) <= 0;
  sep_lt start limit :
    Compare c start limit < 0 -> Compare c (FindShortestSeparator c start limit) limit < 0;
  sep_eq start limit :
    Compare c start limit = 0 -> Compare c start (FindShortestSeparator c start limit) = 0;
  succ_ge key : Compare c key (FindShortSuccessor c key) <= 0;
}.

(** ** The bytewise comparator *)

(** The inner loop of the separator: the first byte of [rest] that is not 0xff is
    incremented and ends the string; [pre] is what the loop has passed. *)
Fixpoint increment_first_non_ff (pre rest : bytes) : bytes :=
  match rest with
  | [] => pre
  | b :: rest =>
      if byte.unsigned b <? 255 then pre ++ [byte.of_Z (byte.unsigned b + 1)]
      else increment_first_non_ff (pre ++ [b]) rest
  end.

Definition Bytewise_FindShortestSeparator (start limit : bytes) : bytes :=
  let min_length := Z.min (len start) (len limit) in
  let diff_index := difference_offset start limit in
  if min_length <=? Z.of_nat diff_index then start
  else
    match start !! diff_index, limit !! diff_index with
    | Some sb, Some lb =>
        let start_byte := byte.unsigned sb in
        let limit_byte := byte.unsigned lb in
        if limit_byte <=? start_byte then start
        else if (Z.of_nat diff_index <? len limit - 1) || (start_byte + 1 <? limit_byte)
        then take diff_index start ++ [byte.of_Z (start_byte + 1)]
        else increment_first_non_ff (take (S diff_index) start) (drop (S diff_index) start)
    | _, _ => start
    end.

(** The loop of [FindShortSuccessor]; a run of 0xff is left alone. *)
Fixpoint Bytewise_FindShortSuccessor (key : bytes) : bytes :=
  match key with
  | [] => []
  | b :: rest =>
      if negb (byte.unsigned b =? 255) then [byte.of_Z (byte.unsigned b + 1)]
      else b :: Bytewise_FindShortSuccessor rest
  end.

Definition BytewiseComparator : Comparator := {|
  Compare := Slice_compare;
  FindShortestSeparator := Bytewise_FindShortestSeparator;
  FindShortSuccessor := Bytewise_FindShortSuccessor;
|}.

(** [t] is the next string of the length of [s]. *)
Definition IsSameLengthImmediateSuccessor (s t : bytes) : bool :=
  if negb (len s =? len t) || (len s =? 0) then false
  else
    let diff_ind := difference_offset s t in
    match s !! diff_ind, t !! diff_ind with
    | Some byte_s, Some byte_t =>
        if negb (byte.unsigned byte_s =? 255) && (byte.unsigned byte_s + 1 =? byte.unsigned byte_t)
        then forallb (fun b => byte.unsigned b =? 255) (drop (S diff_ind) s)
             && forallb (fun b => byte.unsigned b =? 0) (drop (S diff_ind) t)
        else false
    | _, _ => false
    end.

(** ** The reverse bytewise comparator *)

Definition ReverseBytewise_FindShortestSeparator (start limit : bytes) : bytes :=
  let min_length := Z.min (len start) (len limit) in
  let diff_index := difference_offset start limit in
  if Z.of_nat diff_index =? min_length then start
  else
    match start !! diff_index, limit !! diff_index with
    | Some sb, Some lb =>
        if (byte.unsigned lb <? byte.unsigned sb) && (Z.of_nat diff_index <? len start - 1)
        then take (S diff_index) start else start
    | _, _ => start
    end.

Definition ReverseBytewiseComparator : Comparator := {|
  Compare := fun a b => - Slice_compare a b;
  FindShortestSeparator := ReverseBytewise_FindShortestSeparator;
  FindShortSuccessor := fun key => key;
|}.

(** ** Lexicographic order

    The reference definition [Slice_compare] is proved equal to. *)

Fixpoint lex (a b : bytes) : Z :=
  match a, b with
  | [], [] => 0
  | [], _ :: _ => -1
  | _ :: _, [] => 1
  | x :: a, y :: b =>
      if byte.unsigned x <? byte.unsigned y then -1
      else if byte.unsigned y <? byte.unsigned x then 1
      else lex a b
  end.

(** Case analysis on the comparisons of two bytes. *)
Ltac byte_cases :=
  repeat match goal with
  | |- context [byte.unsigned ?x <? byte.unsigned ?y] =>
      destruct (Z.ltb_spec (byte.unsigned x) (byte.unsigned y))
  | H : context [byte.unsigned ?x <? byte.unsigned ?y] |- _ =>
      destruct (Z.ltb_spec (byte.unsigned x) (byte.unsigned y))
  end.

Lemma Slice_compare_lex a b : Slice_compare a b = lex a b.
Proof.
  unfold Slice_compare. revert b. induction a as [|x a IH]; intros [|y b]; [done..|].
  rewrite !zlen_cons. specialize (IH b).
  destruct (Z.ltb_spec (len a) (len b)), (Z.ltb_spec (1 + len a) (1 + len b)); try lia;
    rewrite zlen_to_nat in IH;
    unfold zlen in *; simpl length in *;
    rewrite Z2Nat.inj_add, Nat2Z.id by lia; simpl; byte_cases; try done; simpl in *.
  rewrite <-IH.
  by destruct (Z.ltb_spec (Z.of_nat (length b)) (Z.of_nat (length a))),
      (Z.ltb_spec (1 + Z.of_nat (length b)) (1 + Z.of_nat (length a))); try lia.
Qed.

Lemma lex_refl a : lex a a = 0.
Proof. induction a as [|x a IH]; simpl; [done|]. rewrite Z.ltb_irrefl. done. Qed.

Lemma lex_sym a b : lex a b = - lex b a.
Proof.
  revert b. induction a as [|x a IH]; intros [|y b]; simpl; try done.
  byte_cases; try lia. apply IH.
Qed.

Lemma lex_trans a b c : lex a b <= 0 -> lex b c <= 0 -> lex a c <= 0.
Proof.
  revert b c. induction a as [|x a IH]; intros [|y b] [|z c]; simpl; try lia.
  byte_cases; try lia. apply IH.
Qed.

Lemma lex_eq a b : lex a b = 0 <-> a = b.
Proof.
  split; [|intros ->; apply lex_refl].
  revert b. induction a as [|x a IH]; intros [|y b]; simpl; try done.
  byte_cases; try done. intros Hab%IH. subst. f_equal. apply byte.unsigned_inj. lia.
Qed.

Lemma lex_app p a b : lex (p ++ a) (p ++ b) = lex a b.
Proof. induction p as [|x p IH]; simpl; [done|]. by rewrite Z.ltb_irrefl. Qed.

Lemma lex_prefix p a : lex p (p ++ a) <= 0.
Proof.
  rewrite <-(app_nil_r p) at 1. rewrite lex_app. by destruct a.
Qed.

(** The two keys split at their first difference. *)
Lemma difference_offset_split a b :
  let n := difference_offset a b in
  exists p a' b', a = p ++ a' /\ b = p ++ b' /\ length p = n /\
    match a', b' with x :: _, y :: _ => byte.unsigned x <> byte.unsigned y | _, _ => True end.
Proof.
  simpl. revert b. induction a as [|x a IH]; intros b.
  - exists [], [], b. by destruct b.
  - destruct b as [|y b]; [by exists [], (x :: a), []|]. simpl.
    destruct (Z.eqb_spec (byte.unsigned x) (byte.unsigned y)) as [E|E].
    + destruct (IH b) as (p & a' & b' & -> & -> & <- & H).
      exists (x :: p), a', b'. apply byte.unsigned_inj in E as ->. done.
    + by exists [], (x :: a), (y :: b).
Qed.

Lemma of_Z_succ b : byte.unsigned b < 255 -> byte.unsigned (byte.of_Z (byte.unsigned b + 1)) = byte.unsigned b + 1.
Proof.
  intros H. rewrite byte.unsigned_of_Z. unfold byte.wrap.
  pose proof (byte.unsigned_range b). apply Z.mod_small. lia.
Qed.

Lemma increment_first_non_ff_ge pre rest : lex (pre ++ rest) (increment_first_non_ff pre rest) <= 0.
Proof.
  revert pre. induction rest as [|b rest IH]; intros pre; simpl.
  - rewrite app_nil_r, lex_refl. done.
  - destruct (Z.ltb_spec (byte.unsigned b) 255).
    + rewrite lex_app. simpl. rewrite of_Z_succ by done.
      destruct (Z.ltb_spec (byte.unsigned b) (byte.unsigned b + 1)); lia.
    + specialize (IH (pre ++ [b])). by rewrite <-app_assoc in IH.
Qed.

Lemma increment_first_non_ff_prefix pre rest :
  exists s, increment_first_non_ff pre rest = pre ++ s.
Proof.
  revert pre. induction rest as [|b rest IH]; intros pre; simpl.
  - exists []. by rewrite app_nil_r.
  - destruct (byte.unsigned b <? 255); [by eexists|].
    destruct (IH (pre ++ [b])) as [s ->]. exists (b :: s). by rewrite <-app_assoc.
Qed.

(** ** The laws of the bytewise comparator *)

(** The separator of two keys that differ first at bytes [x < y]. *)
Lemma Bytewise_sep_split p x a y b :
  byte.unsigned x <> byte.unsigned y ->
  Bytewise_FindShortestSeparator (p ++ x :: a) (p ++ y :: b) =
  if byte.unsigned y <=? byte.unsigned x then p ++ x :: a
  else if (1 <=? len b) || (byte.unsigned x + 1 <? byte.unsigned y)
  then p ++ [byte.of_Z (byte.unsigned x + 1)]
  else increment_first_non_ff (p ++ [x]) a.
Proof.
  intros Hne. unfold Bytewise_FindShortestSeparator.
  assert (Hd : difference_offset (p ++ x :: a) (p ++ y :: b) = length p).
  { clear -Hne. induction p as [|z p IH]; simpl.
    - by destruct (Z.eqb_spec (byte.unsigned x) (byte.unsigned y)).
    - by rewrite Z.eqb_refl, IH. }
  rewrite Hd, !zlen_app, !zlen_cons.
  destruct (Z.leb_spec (Z.min (len p + (1 + len a)) (len p + (1 + len b))) (Z.of_nat (length p)));
    [zlia|].
  rewrite !list_lookup_middle by done.
  destruct (byte.unsigned y <=? byte.unsigned x); [done|].
  replace (Z.of_nat (length p) <? len p + (1 + len b) - 1) with (1 <=? len b) by zlia.
  destruct ((1 <=? len b) || _).
  - by rewrite take_app_length.
  - replace (p ++ x :: a) with ((p ++ [x]) ++ a) by (by rewrite <-app_assoc).
    by rewrite take_app_length', drop_app_length' by (rewrite length_app; simpl; lia).
Qed.

(** Otherwise one key is a prefix of the other and [start] is unchanged. *)
Lemma Bytewise_sep_prefix p a b :
  a = [] \/ b = [] -> Bytewise_FindShortestSeparator (p ++ a) (p ++ b) = p ++ a.
Proof.
  intros Hab. unfold Bytewise_FindShortestSeparator.
  destruct (Z.leb_spec (Z.min (len (p ++ a)) (len (p ++ b)))
             (Z.of_nat (difference_offset (p ++ a) (p ++ b)))) as [|Hlt]; [done|].
  exfalso. rewrite !zlen_app in Hlt.
  assert (length p <= difference_offset (p ++ a) (p ++ b))%nat
    by (clear; induction p; simpl; rewrite ?Z.eqb_refl; lia).
  pose proof (zlen_nonneg a). pose proof (zlen_nonneg b).
  destruct Hab; subst; rewrite zlen_nil in *; zlia.
Qed.

Lemma Bytewise_sep_lex start limit :
  lex start (Bytewise_FindShortestSeparator start limit) <= 0 /\
  (lex start limit < 0 -> lex (Bytewise_FindShortestSeparator start limit) limit < 0) /\
  (lex start limit = 0 -> Bytewise_FindShortestSeparator start limit = start).
Proof.
  destruct (difference_offset_split start limit) as (p & a & b & -> & -> & _ & Hne).
  assert (Hprefix : a = [] \/ b = [] \/ exists x a' y b', a = x :: a' /\ b = y :: b')
    by (destruct a, b; naive_solver).
  destruct Hprefix as [H|[H|(x & a' & y & b' & -> & ->)]].
  1,2: rewrite Bytewise_sep_prefix by tauto; rewrite lex_refl; split_and!; tauto || lia.
  rewrite Bytewise_sep_split by done.
  pose proof (byte.unsigned_range x). pose proof (byte.unsigned_range y).
  destruct (Z.leb_spec (byte.unsigned y) (byte.unsigned x)); [rewrite lex_refl; split_and!; tauto || lia|].
  assert (Hlt : lex (x :: a') (y :: b') < 0) by (simpl; byte_cases; lia).
  assert (Hx : byte.unsigned (byte.of_Z (byte.unsigned x + 1)) = byte.unsigned x + 1)
    by (apply of_Z_succ; lia).
  rewrite lex_app. destruct ((1 <=? len b') || _) eqn:Hc.
  - rewrite !lex_app. split_and!; [|intros _|lia]; simpl; byte_cases; try lia.
    destruct b'; [|lia]. apply orb_true_iff in Hc as [Hc|Hc]; bool_to_prop; [|lia].
    by rewrite zlen_nil in Hc.
  - pose proof (increment_first_non_ff_ge (p ++ [x]) a') as Hge.
    rewrite <-app_assoc in Hge. split_and!; [done| |lia]. intros _.
    destruct (increment_first_non_ff_prefix (p ++ [x]) a') as [s ->].
    rewrite <-app_assoc, lex_app. simpl. byte_cases; lia.
Qed.

#[export] Instance BytewiseComparator_laws : ComparatorLaws BytewiseComparator.
Proof.
  split; simpl; intros *; rewrite ?Slice_compare_lex.
  - rewrite lex_sym. by rewrite Z.sgn_opp.
  - apply lex_trans.
  - intros _. apply Bytewise_sep_lex.
  - apply Bytewise_sep_lex.
  - intros H. destruct (Bytewise_sep_lex start limit) as (_ & _ & Heq).
    rewrite Heq by done. apply lex_refl.
  - induction key as [|b key IH]; simpl; [done|].
    destruct (Z.eqb_spec (byte.unsigned b) 255); simpl.
    + by rewrite Z.ltb_irrefl.
    + pose proof (byte.unsigned_range b). rewrite of_Z_succ by lia.
      destruct (Z.ltb_spec (byte.unsigned b) (byte.unsigned b + 1)); lia.
Qed.

Lemma ReverseBytewise_sep start limit :
  let s := ReverseBytewise_FindShortestSeparator start limit in
  s = start \/ (lex s start <= 0 /\ 0 < lex s limit).
Proof.
  simpl. unfold ReverseBytewise_FindShortestSeparator.
  destruct (_ =? _); [by left|].
  destruct (start !! difference_offset start limit) as [sb|] eqn:Hs; [|by left].
  destruct (limit !! difference_offset start limit) as [lb|] eqn:Hl; [|by left].
  destruct ((byte.unsigned lb <? byte.unsigned sb) && _) eqn:Hc; [right|by left].
  bool_to_prop. erewrite take_S_r by done. split.
  - rewrite <-(take_drop_middle _ _ _ Hs) at 3.
    rewrite lex_app. simpl. rewrite Z.ltb_irrefl. by destruct (drop _ _).
  - destruct (difference_offset_split start limit) as (p & a & b & -> & -> & Hp & _).
    rewrite <-Hp in *. rewrite take_app_length, lookup_app_r, Nat.sub_diag in * by done.
    destruct b as [|y b]; [done|]. simpl in Hl. injection Hl as ->.
    rewrite lex_app. simpl. byte_cases; lia.
Qed.

#[export] Instance ReverseBytewiseComparator_laws : ComparatorLaws ReverseBytewiseComparator.
Proof.
  split; simpl; intros *; rewrite ?Slice_compare_lex.
  - rewrite lex_sym. by rewrite !Z.sgn_opp.
  - intros H1 H2. pose proof (lex_sym a b). pose proof (lex_sym b d). pose proof (lex_sym a d).
    pose proof (lex_trans d b a). lia.
  - intros _. destruct (ReverseBytewise_sep start limit) as [->|[H _]]; [by rewrite lex_refl|].
    rewrite lex_sym. lia.
  - destruct (ReverseBytewise_sep start limit) as [->|[_ H]]; lia.
  - intros H. assert (start = limit) as -> by (apply lex_eq; lia).
    destruct (ReverseBytewise_sep limit limit) as [->|[H1 H2]]; [by rewrite lex_refl|lia].
  - by rewrite lex_refl.
Qed.

(** ** Consequences of the laws *)

Section Laws.
Context (c : Comparator) `{!ComparatorLaws c}.

Lemma cmp_refl a : Compare c a a = 0.
Proof using Type*. pose proof (cmp_sym a a). lia. Qed.

Lemma cmp_lt_gt a b : Compare c a b < 0 <-> 0 < Compare c b a.
Proof using Type*. pose proof (cmp_sym a b). lia. Qed.

Lemma cmp_le_ge a b : Compare c a b <= 0 <-> 0 <= Compare c b a.
Proof using Type*. pose proof (cmp_sym a b). lia. Qed.

Lemma cmp_eq_sym a b : Compare c a b = 0 <-> Compare c b a = 0.
Proof using Type*. pose proof (cmp_sym a b). lia. Qed.

Lemma cmp_lt_le_trans a b d : Compare c a b < 0 -> Compare c b d <= 0 -> Compare c a d < 0.
Proof using Type*.
  intros H1 H2. destruct (Z.ltb_spec (Compare c a d) 0); [done|].
  assert (Compare c d a <= 0) by (apply cmp_le_ge; lia).
  pose proof (cmp_trans b d a H2 ltac:(done)). apply cmp_lt_gt in H1. lia.
Qed.

Lemma cmp_le_lt_trans a b d : Compare c a b <= 0 -> Compare c b d < 0 -> Compare c a d < 0.
Proof using Type*.
  intros H1 H2. destruct (Z.ltb_spec (Compare c a d) 0); [done|].
  assert (Compare c d a <= 0) by (apply cmp_le_ge; lia).
  pose proof (cmp_trans d a b ltac:(done) H1). apply cmp_lt_gt in H2. lia.
Qed.

Lemma cmp_lt_trans a b d : Compare c a b < 0 -> Compare c b d < 0 -> Compare c a d < 0.
Proof using Type*. intros H1 H2. apply (cmp_lt_le_trans a b d); lia. Qed.

(** Equal keys compare alike with every other key. *)
Lemma cmp_eq_l a b d : Compare c a b = 0 -> Z.sgn (Compare c a d) = Z.sgn (Compare c b d).
Proof using Type*.
  intros H. apply cmp_eq_sym in H as H'.
  pose proof (cmp_le_lt_trans a b d). pose proof (cmp_le_lt_trans b a d).
  pose proof (cmp_trans a b d). pose proof (cmp_trans b a d). lia.
Qed.

Lemma cmp_eq_r a b d : Compare c a b = 0 -> Z.sgn (Compare c d a) = Z.sgn (Compare c d b).
Proof using Type*.
  intros H. rewrite (cmp_sym d a), (cmp_sym d b). f_equal. by apply cmp_eq_l.
Qed.
End Laws.

(** ** The properties of the component *)

(** [Slice::compare] orders byte strings lexicographically and is zero exactly
    on equal strings; [operator==] decides the same equality. *)
Theorem Slice_compare_lexicographic (a b : bytes) :
  Slice_compare a b = lex a b /\ (Slice_compare a b = 0 <-> a = b) /\
  (Slice_eqb a b = true <-> a = b).
Proof.
  rewrite Slice_compare_lex. split_and!; [done|apply lex_eq|].
  unfold Slice_eqb. rewrite andb_true_iff, !Z.eqb_eq. split.
  - intros [Hl Hm]. apply lex_eq. revert b Hl Hm. induction a as [|x a IH]; intros [|y b].
    1-3: try done; rewrite zlen_cons, zlen_nil; pose proof (zlen_nonneg a);
         pose proof (zlen_nonneg b); lia.
    rewrite !zlen_cons. simpl. byte_cases; try lia. intros. apply IH; lia.
  - intros ->. split; [done|]. induction b as [|x b IH]; simpl; [done|].
    by rewrite Z.ltb_irrefl.
Qed.

(** The value of a byte string read as a big-endian number. *)
Definition be_value (s : bytes) : Z := foldl (fun acc b => acc * 256 + byte.unsigned b) 0 s.

Lemma be_fold acc s :
  foldl (fun acc b => acc * 256 + byte.unsigned b) acc s = acc * 256 ^ len s + be_value s.
Proof.
  unfold be_value. revert acc. induction s as [|b s IH]; intros acc; cbn [foldl].
  - rewrite zlen_nil. lia.
  - rewrite IH, (IH (0 * 256 + byte.unsigned b)), zlen_cons, Z.pow_add_r by (pose proof (zlen_nonneg s); lia).
    lia.
Qed.

Lemma be_value_cons b s : be_value (b :: s) = byte.unsigned b * 256 ^ len s + be_value s.
Proof.
  change (be_value (b :: s)) with
    (foldl (fun acc b => acc * 256 + byte.unsigned b) (0 * 256 + byte.unsigned b) s).
  rewrite be_fold. lia.
Qed.

Lemma be_value_range s : 0 <= be_value s < 256 ^ len s.
Proof.
  induction s as [|b s IH]; [done|].
  rewrite be_value_cons, zlen_cons, Z.pow_add_r by (pose proof (zlen_nonneg s); lia).
  pose proof (byte.unsigned_range b). nia.
Qed.

Lemma be_value_all_ff s :
  forallb (fun b => byte.unsigned b =? 255) s = true <-> be_value s = 256 ^ len s - 1.
Proof.
  induction s as [|b s IH]; [done|].
  cbn [forallb]. rewrite andb_true_iff, IH, Z.eqb_eq, be_value_cons, zlen_cons, Z.pow_add_r
    by (pose proof (zlen_nonneg s); lia).
  pose proof (be_value_range s). pose proof (byte.unsigned_range b). nia.
Qed.

Lemma be_value_all_00 s :
  forallb (fun b => byte.unsigned b =? 0) s = true <-> be_value s = 0.
Proof.
  induction s as [|b s IH]; [done|].
  cbn [forallb]. rewrite andb_true_iff, IH, Z.eqb_eq, be_value_cons.
  pose proof (be_value_range s). pose proof (byte.unsigned_range b). nia.
Qed.

(** [IsSameLengthImmediateSuccessor(s, t)] holds exactly when [t] has the
    length of [s] and is, read as a big-endian number, one more than [s]. *)
Theorem IsSameLengthImmediateSuccessor_spec (s t : bytes) :
  IsSameLengthImmediateSuccessor s t = true <-> len s = len t /\ be_value t = be_value s + 1.
Proof.
  unfold IsSameLengthImmediateSuccessor.
  destruct (Z.eqb_spec (len s) (len t)) as [Hl|]; simpl; [|split; [done|tauto]].
  destruct (Z.eqb_spec (len s) 0) as [H0|H0].
  { split; [done|]. intros [_ H]. apply zlen_zero in H0 as ->. symmetry in Hl.
    apply zlen_zero in Hl as ->. done. }
  clear H0. transitivity (be_value t = be_value s + 1); [|tauto].
  revert t Hl. induction s as [|x s IH]; intros [|y t] Hl; rewrite ?zlen_cons, ?zlen_nil in Hl.
  { cbn. split; [done|lia]. }
  1,2: exfalso; zlia.
  assert (Hlst : len s = len t) by lia. specialize (IH t Hlst).
  rewrite !be_value_cons, <-Hlst.
  pose proof (be_value_range s). pose proof (be_value_range t). rewrite <-Hlst in *.
  pose proof (byte.unsigned_range x). pose proof (byte.unsigned_range y).
  simpl difference_offset. destruct (Z.eqb_spec (byte.unsigned x) (byte.unsigned y)) as [E|E].
  - simpl. rewrite IH, E. lia.
  - simpl. rewrite !drop_0.
    destruct (Z.eqb_spec (byte.unsigned x) 255), (Z.eqb_spec (byte.unsigned x + 1) (byte.unsigned y));
      simpl; [lia|split; [done|nia]| |split; [done|nia]].
    rewrite andb_true_iff, be_value_all_ff, be_value_all_00. nia.
Qed.
