(* ===== verification/DbFormat.v ===== *)
(** * Internal keys (db/dbformat.h, db/dbformat.cc)

    An internal key is a user key followed by an eight-byte footer that packs the
    sequence number and the value type.  [InternalKeyComparator] orders internal
    keys by increasing user key, then decreasing sequence number and type. *)

From S2P Require Import Prelude Coding Comparator.

(** ** Value types

    The enumeration has [unsigned char] as underlying type and is built by casts
    from arbitrary bytes, so a value type is that byte. *)

Definition kTypeDeletion : Z := 0x0.
Definition kTypeValue : Z := 0x1.
Definition kTypeMerge : Z := 0x2.
Definition kTypeLogData : Z := 0x3.
Definition kTypeColumnFamilyDeletion : Z := 0x4.
Definition kTypeColumnFamilyValue : Z := 0x5.
Definition kTypeColumnFamilyMerge : Z := 0x6.
Definition kTypeSingleDeletion : Z := 0x7.
Definition kTypeColumnFamilySingleDeletion : Z := 0x8.
Definition kTypeNoop : Z := 0xD.
Definition kTypeRangeDeletion : Z := 0xF.
Definition kTypeBlobIndex : Z := 0x11.

Definition kValueTypeForSeek : Z := kTypeBlobIndex.
Definition kValueTypeForSeekForPrev : Z := kTypeDeletion.

Definition IsValueType (t : Z) : bool :=
  (t <=? kTypeMerge) || (t =? kTypeSingleDeletion) || (t =? kTypeBlobIndex).

Definition IsExtendedValueType (t : Z) : bool :=
  IsValueType t || (t =? kTypeRangeDeletion).

Definition kMaxSequenceNumber : Z := Z.shiftl 0x1 56 - 1.

Record ParsedInternalKey := mkParsed {
  pik_user_key : bytes;
  pik_sequence : Z;
  pik_type : Z;
}.

Definition InternalKeyEncodingLength (key : ParsedInternalKey) : Z := len (pik_user_key key) + 8.

(** ** Packing *)

Definition PackSequenceAndType (seq t : Z) : Z := wrap64 (Z.lor (wrap64 (Z.shiftl seq 8)) t).

Definition UnPackSequenceAndType (packed : Z) : Z * Z := (Z.shiftr packed 8, Z.land packed 0xff).

Definition AppendInternalKeyFooter (result : bytes) (s t : Z) : bytes :=
  PutFixed64 result (PackSequenceAndType s t).

Definition AppendInternalKey (result : bytes) (key : ParsedInternalKey) : bytes :=
  PutFixed64 (result ++ pik_user_key key) (PackSequenceAndType (pik_sequence key) (pik_type key)).

(** ** Parsing *)

Definition ExtractUserKey (internal_key : bytes) : bytes :=
  take (length internal_key - 8) internal_key.

Definition ExtractInternalKeyFooter (internal_key : bytes) : Z :=
  DecodeFixed64 (drop (length internal_key - 8) internal_key).

Definition ExtractValueType (internal_key : bytes) : Z :=
  Z.land (ExtractInternalKeyFooter internal_key) 0xff.

Definition GetInternalKeySeqno (internal_key : bytes) : Z :=
  Z.shiftr (ExtractInternalKeyFooter internal_key) 8.

Definition ParseInternalKey (internal_key : bytes) : option ParsedInternalKey :=
  let n := len internal_key in
  if n <? 8 then None
  else
    let num := ExtractInternalKeyFooter internal_key in
    let c := Z.land num 0xff in
    let result := mkParsed (ExtractUserKey internal_key) (Z.shiftr num 8) c in
    if IsExtendedValueType c then Some result else None.

(** The footer is overwritten in place. *)
Definition UpdateInternalKey (ikey : bytes) (seq t : Z) : bytes :=
  take (length ikey - 8) ikey ++ EncodeFixed64 (wrap64 (Z.lor (wrap64 (Z.shiftl seq 8)) t)).

(** ** Entry types *)

Inductive EntryType :=
  kEntryPut | kEntryDelete | kEntrySingleDelete | kEntryMerge
| kEntryRangeDeletion | kEntryBlobIndex | kEntryOther.

Definition GetEntryType (value_type : Z) : EntryType :=
  if value_type =? kTypeValue then kEntryPut
  else if value_type =? kTypeDeletion then kEntryDelete
  else if value_type =? kTypeSingleDeletion then kEntrySingleDelete
  else if value_type =? kTypeMerge then kEntryMerge
  else if value_type =? kTypeRangeDeletion then kEntryRangeDeletion
  else if value_type =? kTypeBlobIndex then kEntryBlobIndex
  else kEntryOther.

Record FullKey := mkFullKey { fk_user_key : bytes; fk_sequence : Z; fk_type : EntryType }.

Definition ParseFullKey (internal_key : bytes) : option FullKey :=
  ikey ← ParseInternalKey internal_key;
  Some (mkFullKey (pik_user_key ikey) (pik_sequence ikey) (GetEntryType (pik_type ikey))).

(** ** The internal key comparator *)

Definition InternalKey_Compare (ucmp : Comparator) (akey bkey : bytes) : Z :=
  let r := Compare ucmp (ExtractUserKey akey) (ExtractUserKey bkey) in
  if r =? 0 then
    let anum := ExtractInternalKeyFooter akey in
    let bnum := ExtractInternalKeyFooter bkey in
    if bnum <? anum then -1 else if anum <? bnum then 1 else r
  else r.

Definition InternalKey_CompareKeySeq (ucmp : Comparator) (akey bkey : bytes) : Z :=
  let r := Compare ucmp (ExtractUserKey akey) (ExtractUserKey bkey) in
  if r =? 0 then
    let anum := Z.shiftr (ExtractInternalKeyFooter akey) 8 in
    let bnum := Z.shiftr (ExtractInternalKeyFooter bkey) 8 in
    if bnum <? anum then -1 else if anum <? bnum then 1 else r
  else r.

Definition InternalKey_CompareParsed (ucmp : Comparator) (a b : ParsedInternalKey) : Z :=
  let r := Compare ucmp (pik_user_key a) (pik_user_key b) in
  if r =? 0 then
    if pik_sequence b <? pik_sequence a then -1
    else if pik_sequence a <? pik_sequence b then 1
    else if pik_type b <? pik_type a then -1
    else if pik_type a <? pik_type b then 1
    else r
  else r.

Definition InternalKey_FindShortestSeparator (ucmp : Comparator) (start limit : bytes) : bytes :=
  let user_start := ExtractUserKey start in
  let user_limit := ExtractUserKey limit in
  let tmp := FindShortestSeparator ucmp user_start user_limit in
  if (len tmp <=? len user_start) && (Compare ucmp user_start tmp <? 0)
  then PutFixed64 tmp (PackSequenceAndType kMaxSequenceNumber kValueTypeForSeek)
  else start.

Definition InternalKey_FindShortSuccessor (ucmp : Comparator) (key : bytes) : bytes :=
  let user_key := ExtractUserKey key in
  let tmp := FindShortSuccessor ucmp user_key in
  if (len tmp <=? len user_key) && (Compare ucmp user_key tmp <? 0)
  then PutFixed64 tmp (PackSequenceAndType kMaxSequenceNumber kValueTypeForSeek)
  else key.

Definition InternalKeyComparator (ucmp : Comparator) : Comparator := {|
  Compare := InternalKey_Compare ucmp;
  FindShortestSeparator := InternalKey_FindShortestSeparator ucmp;
  FindShortSuccessor := InternalKey_FindShortSuccessor ucmp;
|}.

(** ** The class [InternalKey]: a string [rep_], empty when invalid *)

Definition InternalKey_make (user_key : bytes) (s t : Z) : bytes :=
  AppendInternalKey [] (mkParsed user_key s t).
Definition InternalKey_SetMaxPossibleForUserKey (rep : bytes) (user_key : bytes) : bytes :=
  AppendInternalKey rep (mkParsed user_key 0 0).
Definition InternalKey_SetMinPossibleForUserKey (rep : bytes) (user_key : bytes) : bytes :=
  AppendInternalKey rep (mkParsed user_key kMaxSequenceNumber kValueTypeForSeek).
Definition InternalKey_Valid (rep : bytes) : bool :=
  match ParseInternalKey rep with Some _ => true | None => false end.
Definition InternalKey_user_key (rep : bytes) : bytes := ExtractUserKey rep.

(** ** [LookupKey]: klength varint32, user key, tag *)

Record LookupKey := mkLookupKey { lk_prefix : bytes; lk_ikey : bytes }.

Definition make_LookupKey (user_key : bytes) (s : Z) : LookupKey :=
  let usize := len user_key in
  mkLookupKey (EncodeVarint32 (wrap32 (usize + 8)))
              (user_key ++ EncodeFixed64 (PackSequenceAndType s kValueTypeForSeek)).

Definition lk_memtable_key (k : LookupKey) : bytes := lk_prefix k ++ lk_ikey k.
Definition lk_internal_key (k : LookupKey) : bytes := lk_ikey k.
Definition lk_user_key (k : LookupKey) : bytes := take (length (lk_ikey k) - 8) (lk_ikey k).

(** ** Range tombstones *)

Record RangeTombstone := mkTombstone { rt_start : bytes; rt_end : bytes; rt_seq : Z }.

Definition RangeTombstone_of_entry (parsed : ParsedInternalKey) (value : bytes) : RangeTombstone :=
  mkTombstone (pik_user_key parsed) value (pik_sequence parsed).
Definition RangeTombstone_Serialize (t : RangeTombstone) : bytes * bytes :=
  (InternalKey_make (rt_start t) (rt_seq t) kTypeRangeDeletion, rt_end t).
Definition RangeTombstone_SerializeEndKey (t : RangeTombstone) : bytes :=
  InternalKey_make (rt_end t) kMaxSequenceNumber kTypeRangeDeletion.

(** ** Lemmas on packing and footers *)

Definition valid_seq (s : Z) : Prop := 0 <= s <= kMaxSequenceNumber.

Lemma Pack_eq seq t : valid_seq seq -> 0 <= t < 256 -> PackSequenceAndType seq t = seq * 256 + t.
Proof.
  unfold valid_seq, kMaxSequenceNumber. intros Hs Ht.
  change (Z.shiftl 1 56 - 1) with (2 ^ 56 - 1) in Hs.
  unfold PackSequenceAndType, wrap. rewrite Z.shiftl_mul_pow2 by lia.
  rewrite (Z.mod_small (seq * 2 ^ 8)) by lia.
  assert (Hland : Z.land (seq * 2 ^ 8) t = 0).
  { apply Z.bits_inj'. intros n Hn. rewrite Z.land_spec, Z.bits_0, <-Z.shiftl_mul_pow2 by lia.
    destruct (Z.ltb_spec n 8).
    - by rewrite Z.shiftl_spec_low by lia.
    - apply andb_false_intro2, Z.testbit_false; [lia|]. rewrite Z.div_small; [done|].
      assert (2 ^ 8 <= 2 ^ n) by (apply Z.pow_le_mono_r; lia). lia. }
  rewrite <-Z.lxor_lor, <-Z.add_nocarry_lxor by done.
  rewrite Z.mod_small by lia. lia.
Qed.

Lemma Pack_u64 seq t : valid_seq seq -> 0 <= t < 256 -> u64 (PackSequenceAndType seq t).
Proof.
  intros Hs Ht. rewrite Pack_eq by done. unfold valid_seq, kMaxSequenceNumber in Hs.
  change (Z.shiftl 1 56 - 1) with (2 ^ 56 - 1) in Hs. zlia.
Qed.

Lemma UnPack_Pack seq t :
  valid_seq seq -> 0 <= t < 256 -> UnPackSequenceAndType (PackSequenceAndType seq t) = (seq, t).
Proof.
  intros Hs Ht. unfold UnPackSequenceAndType. rewrite Pack_eq by done.
  rewrite Z.shiftr_div_pow2 by lia. change 0xff with (Z.ones 8). rewrite Z.land_ones by lia.
  f_equal.
  - symmetry. apply Z.div_unique with t; lia.
  - symmetry. apply Z.mod_unique with seq; lia.
Qed.

Lemma IsExtended_range t : 0 <= t -> IsExtendedValueType t = true -> 0 <= t <= kValueTypeForSeek.
Proof.
  unfold IsExtendedValueType, IsValueType, kValueTypeForSeek, kTypeMerge, kTypeSingleDeletion,
    kTypeBlobIndex, kTypeRangeDeletion.
  intros H0 H. repeat (apply orb_true_iff in H as [H|H]); bool_to_prop; lia.
Qed.

Lemma footer_split u x :
  ExtractUserKey (u ++ EncodeFixed64 x) = u /\
  drop (length (u ++ EncodeFixed64 x) - 8) (u ++ EncodeFixed64 x) = EncodeFixed64 x.
Proof.
  unfold ExtractUserKey. rewrite length_app. unfold EncodeFixed64. rewrite length_le_split.
  rewrite take_app_length' by lia. rewrite drop_app_length' by lia. done.
Qed.

Lemma ExtractUserKey_footer u x : ExtractUserKey (u ++ EncodeFixed64 x) = u.
Proof. apply footer_split. Qed.

Lemma ExtractFooter_footer u x : u64 x -> ExtractInternalKeyFooter (u ++ EncodeFixed64 x) = x.
Proof.
  intros Hx. unfold ExtractInternalKeyFooter.
  rewrite (proj2 (footer_split u x)). rewrite <-(app_nil_r (EncodeFixed64 x)).
  by apply DecodeFixed64_Encode.
Qed.

Lemma AppendInternalKey_eq u s t :
  AppendInternalKey [] (mkParsed u s t) = u ++ EncodeFixed64 (PackSequenceAndType s t).
Proof. done. Qed.

#[export] Hint Rewrite ExtractUserKey_footer AppendInternalKey_eq : mkv.

(** ** The order of internal keys *)

Section Order.
Context (ucmp : Comparator) `{!ComparatorLaws ucmp}.
Abbreviation icmp := (InternalKeyComparator ucmp).

(** The footer decides between keys with equal user keys. *)
Lemma InternalKey_Compare_sgn a b :
  Z.sgn (InternalKey_Compare ucmp a b) =
  let r := Compare ucmp (ExtractUserKey a) (ExtractUserKey b) in
  if r =? 0 then Z.sgn (ExtractInternalKeyFooter b - ExtractInternalKeyFooter a) else Z.sgn r.
Proof using.
  unfold InternalKey_Compare. simpl. destruct (Z.eqb_spec (Compare ucmp (ExtractUserKey a) (ExtractUserKey b)) 0) as [E|E];
    [|done].
  rewrite E. destruct (Z.ltb_spec (ExtractInternalKeyFooter b) (ExtractInternalKeyFooter a)),
    (Z.ltb_spec (ExtractInternalKeyFooter a) (ExtractInternalKeyFooter b)); lia.
Qed.

Lemma icmp_lt_user a b :
  Compare ucmp (ExtractUserKey a) (ExtractUserKey b) < 0 -> Compare icmp a b < 0.
Proof using.
  intros H. simpl. pose proof (InternalKey_Compare_sgn a b) as Hs. simpl in Hs.
  destruct (Z.eqb_spec (Compare ucmp (ExtractUserKey a) (ExtractUserKey b)) 0); lia.
Qed.

(** Smaller internal keys have smaller or equal user keys. *)
Lemma icmp_le_user a b :
  Compare icmp a b <= 0 -> Compare ucmp (ExtractUserKey a) (ExtractUserKey b) <= 0.
Proof using.
  intros H. simpl in H. pose proof (InternalKey_Compare_sgn a b) as Hs. simpl in Hs.
  destruct (Z.eqb_spec (Compare ucmp (ExtractUserKey a) (ExtractUserKey b)) 0); lia.
Qed.

(** A shortened key carries the footer that sorts first for its user key. *)
Lemma InternalKey_shortened_lt u limit :
  Compare ucmp u (ExtractUserKey limit) < 0 ->
  InternalKey_Compare ucmp (PutFixed64 u (PackSequenceAndType kMaxSequenceNumber kValueTypeForSeek)) limit < 0.
Proof using.
  intros H. apply (icmp_lt_user (PutFixed64 u _) limit).
  unfold PutFixed64. by rewrite ExtractUserKey_footer.
Qed.

Lemma InternalKey_shortened_gt key u :
  Compare ucmp (ExtractUserKey key) u < 0 ->
  InternalKey_Compare ucmp key (PutFixed64 u (PackSequenceAndType kMaxSequenceNumber kValueTypeForSeek)) < 0.
Proof using.
  intros H. apply (icmp_lt_user key (PutFixed64 u _)).
  unfold PutFixed64. by rewrite ExtractUserKey_footer.
Qed.

Lemma InternalKey_Compare_refl a : InternalKey_Compare ucmp a a = 0.
Proof using Type*.
  pose proof (InternalKey_Compare_sgn a a) as Hs. simpl in Hs. rewrite cmp_refl in Hs by done.
  simpl in Hs. lia.
Qed.

#[export] Instance InternalKeyComparator_laws : ComparatorLaws icmp.
Proof using Type*.
  split; cbn [Compare FindShortestSeparator FindShortSuccessor InternalKeyComparator].
  - intros a b. rewrite !InternalKey_Compare_sgn. cbv zeta.
    pose proof (cmp_sym (c := ucmp) (ExtractUserKey a) (ExtractUserKey b)).
    destruct (Z.eqb_spec (Compare ucmp (ExtractUserKey a) (ExtractUserKey b)) 0),
      (Z.eqb_spec (Compare ucmp (ExtractUserKey b) (ExtractUserKey a)) 0); lia.
  - intros a b d H1 H2.
    pose proof (InternalKey_Compare_sgn a b) as Hab. pose proof (InternalKey_Compare_sgn b d) as Hbd.
    pose proof (InternalKey_Compare_sgn a d) as Had. cbv zeta in *.
    set (ua := ExtractUserKey a) in *. set (ub := ExtractUserKey b) in *.
    set (ud := ExtractUserKey d) in *.
    pose proof (cmp_trans (c := ucmp) ua ub ud). pose proof (cmp_lt_le_trans ucmp ua ub ud).
    pose proof (cmp_le_lt_trans ucmp ua ub ud).
    destruct (Z.eqb_spec (Compare ucmp ua ub) 0), (Z.eqb_spec (Compare ucmp ub ud) 0),
      (Z.eqb_spec (Compare ucmp ua ud) 0); lia.
  - intros start limit H. unfold InternalKey_FindShortestSeparator.
    guard_cases; [|by rewrite InternalKey_Compare_refl].
    apply Z.lt_le_incl, InternalKey_shortened_gt. done.
  - intros start limit H. unfold InternalKey_FindShortestSeparator.
    guard_cases; [|done]. apply InternalKey_shortened_lt.
    destruct (Z.eqb_spec (Compare ucmp (ExtractUserKey start) (ExtractUserKey limit)) 0) as [E0|E0].
    + apply sep_eq in E0. lia.
    + apply sep_lt. pose proof (icmp_le_user start limit) as Hle. simpl in Hle. lia.
  - intros start limit H. unfold InternalKey_FindShortestSeparator.
    guard_cases; [|apply InternalKey_Compare_refl]. exfalso.
    pose proof (InternalKey_Compare_sgn start limit) as Hs. cbv zeta in Hs.
    destruct (Z.eqb_spec (Compare ucmp (ExtractUserKey start) (ExtractUserKey limit)) 0) as [E0'|]; [|lia].
    apply sep_eq in E0'. lia.
  - intros key. unfold InternalKey_FindShortSuccessor.
    guard_cases; [|by rewrite InternalKey_Compare_refl].
    apply Z.lt_le_incl, InternalKey_shortened_gt. done.
Qed.
End Order.

(** A key the engine writes: a valid sequence number and an extended value type. *)
Definition valid_parsed (k : ParsedInternalKey) : Prop :=
  valid_seq (pik_sequence k) /\ 0 <= pik_type k < 256 /\ IsExtendedValueType (pik_type k) = true.

Lemma Parse_Append k : valid_parsed k -> ParseInternalKey (AppendInternalKey [] k) = Some k.
Proof.
  destruct k as [u s t]. intros (Hs & Ht & Hx). simpl in *. unfold ParseInternalKey.
  rewrite AppendInternalKey_eq, zlen_app. unfold EncodeFixed64 at 1. rewrite zlen_le_split.
  destruct (Z.ltb_spec (len u + Z.of_nat 8) 8); [zlia|].
  rewrite ExtractFooter_footer, ExtractUserKey_footer by (by apply Pack_u64).
  pose proof (UnPack_Pack s t Hs Ht) as Hu. unfold UnPackSequenceAndType in Hu.
  injection Hu as -> ->. by rewrite Hx.
Qed.

Lemma Parse_Append_nil u s t :
  valid_parsed (mkParsed u s t) -> ParseInternalKey (InternalKey_make u s t) = Some (mkParsed u s t).
Proof. apply Parse_Append. Qed.

(** ** The properties of the component *)

(** Serialising an internal key and parsing it back gives the key: its user
    key, sequence number and type; the accessors that read the footer in place
    agree, and updating the footer in place changes only the footer. *)
Theorem internal_key_roundtrip (k : ParsedInternalKey) (s' t' : Z) :
  valid_parsed k -> valid_seq s' -> 0 <= t' < 256 ->
  let e := AppendInternalKey [] k in
  ParseInternalKey e = Some k /\
  len e = InternalKeyEncodingLength k /\
  ExtractUserKey e = pik_user_key k /\
  GetInternalKeySeqno e = pik_sequence k /\
  ExtractValueType e = pik_type k /\
  UpdateInternalKey e s' t' = AppendInternalKey [] (mkParsed (pik_user_key k) s' t').
Proof.
  intros Hk Hs' Ht'. pose proof Hk as (Hs & Ht & _). destruct k as [u s t]. simpl in *.
  rewrite Parse_Append by done. rewrite AppendInternalKey_eq.
  unfold GetInternalKeySeqno, ExtractValueType, InternalKeyEncodingLength, UpdateInternalKey. simpl.
  rewrite ExtractFooter_footer by (by apply Pack_u64).
  pose proof (UnPack_Pack s t Hs Ht) as Hu. unfold UnPackSequenceAndType in Hu.
  injection Hu as -> ->. split_and!; try done.
  - rewrite zlen_app. unfold EncodeFixed64. by rewrite zlen_le_split.
  - apply ExtractUserKey_footer.
  - rewrite AppendInternalKey_eq. f_equal. apply ExtractUserKey_footer.
Qed.

Lemma internal_key_roundtrip_witness :
  ParseInternalKey (AppendInternalKey [] (mkParsed [Byte.x61] 7 kTypeValue)) =
  Some (mkParsed [Byte.x61] 7 kTypeValue).
Proof.
  apply (internal_key_roundtrip (mkParsed [Byte.x61] 7 kTypeValue) 8 0);
    repeat split; vm_compute; discriminate.
Defined.

(** On serialised keys the comparator orders by increasing user key, then
    decreasing sequence number, then decreasing type; comparing the parsed keys
    gives the same sign, and [CompareKeySeq] is the same order without the type. *)
Theorem internal_key_order (ucmp : Comparator) (a b : ParsedInternalKey) :
  valid_parsed a -> valid_parsed b ->
  let ea := AppendInternalKey [] a in
  let eb := AppendInternalKey [] b in
  Z.sgn (InternalKey_Compare ucmp ea eb) = Z.sgn (InternalKey_CompareParsed ucmp a b) /\
  Z.sgn (InternalKey_CompareKeySeq ucmp ea eb) =
    (let r := Compare ucmp (pik_user_key a) (pik_user_key b) in
     if r =? 0 then Z.sgn (pik_sequence b - pik_sequence a) else Z.sgn r) /\
  (InternalKey_CompareParsed ucmp a b < 0 <->
     Compare ucmp (pik_user_key a) (pik_user_key b) < 0 \/
     (Compare ucmp (pik_user_key a) (pik_user_key b) = 0 /\
      (pik_sequence b < pik_sequence a \/
       pik_sequence a = pik_sequence b /\ pik_type b < pik_type a))).
Proof.
  destruct a as [ua sa ta], b as [ub sb tb]. intros (Hsa & Hta & _) (Hsb & Htb & _). simpl in *.
  rewrite InternalKey_Compare_sgn. rewrite !AppendInternalKey_eq, !ExtractUserKey_footer.
  unfold InternalKey_CompareParsed, InternalKey_CompareKeySeq. simpl.
  rewrite !ExtractUserKey_footer, !ExtractFooter_footer by (by apply Pack_u64).
  pose proof (UnPack_Pack sa ta Hsa Hta) as Hua. unfold UnPackSequenceAndType in Hua.
  injection Hua as -> _.
  pose proof (UnPack_Pack sb tb Hsb Htb) as Hub. unfold UnPackSequenceAndType in Hub.
  injection Hub as -> _. rewrite !Pack_eq by done.
  destruct (Z.eqb_spec (Compare ucmp ua ub) 0) as [E|E]; [rewrite E|split_and!; done || lia].
  destruct (Z.ltb_spec sb sa), (Z.ltb_spec sa sb), (Z.ltb_spec tb ta), (Z.ltb_spec ta tb);
    split_and!; lia.
Qed.

Lemma internal_key_order_witness :
  InternalKey_CompareParsed BytewiseComparator (mkParsed [Byte.x61] 9 1) (mkParsed [Byte.x61] 7 1) < 0.
Proof.
  apply (internal_key_order BytewiseComparator (mkParsed [Byte.x61] 9 1) (mkParsed [Byte.x61] 7 1));
    [repeat split; vm_compute; discriminate..|].
  right. split; [reflexivity|]. left. reflexivity.
Defined.

(** A [LookupKey] for user key [u] at snapshot [s] positions a search exactly:
    its internal key sorts at or before every entry of [u] with a sequence
    number up to [s] and after every entry of [u] that is newer than [s]; its
    parts are the user key and the length-prefixed memtable key. *)
Theorem lookup_key_seek (ucmp : Comparator) (u u' : bytes) (s s' t' : Z) :
  Compare ucmp u u' = 0 -> valid_seq s -> valid_parsed (mkParsed u' s' t') ->
  let k := make_LookupKey u s in
  (InternalKey_Compare ucmp (lk_internal_key k) (AppendInternalKey [] (mkParsed u' s' t')) <= 0
     <-> s' <= s) /\
  lk_user_key k = u /\
  (len u + 8 < 2 ^ 32 ->
     GetLengthPrefixedSlice (lk_memtable_key k) = Some (lk_internal_key k, [])).
Proof.
  intros Hu Hs (Hs' & Ht' & Hx). simpl in *.
  apply IsExtended_range in Hx; [|lia]. unfold kValueTypeForSeek, kTypeBlobIndex in Hx.
  split_and!.
  - pose proof (InternalKey_Compare_sgn ucmp (lk_internal_key (make_LookupKey u s))
      (AppendInternalKey [] (mkParsed u' s' t'))) as Hc.
    set (r := InternalKey_Compare _ _ _) in *. clearbody r.
    unfold lk_internal_key in *. simpl in Hc.
    rewrite AppendInternalKey_eq, !ExtractUserKey_footer in Hc.
    rewrite Hu, !ExtractFooter_footer, !Pack_eq in Hc
      by (done || (apply Pack_u64; done || (unfold kValueTypeForSeek, kTypeBlobIndex; lia)) ||
          (unfold kValueTypeForSeek, kTypeBlobIndex; lia)).
    simpl in Hc. unfold kValueTypeForSeek, kTypeBlobIndex in *. lia.
  - unfold lk_user_key. simpl. apply (ExtractUserKey_footer u).
  - intros Hl. unfold lk_memtable_key, lk_internal_key. simpl.
    rewrite <-(GetLengthPrefixedSlice_Put _ []).
    + rewrite app_nil_r. unfold PutLengthPrefixedSlice, PutVarint32. simpl.
      rewrite zlen_app. unfold EncodeFixed64 at 2. by rewrite zlen_le_split.
    + rewrite zlen_app. unfold EncodeFixed64. rewrite zlen_le_split. lia.
Qed.

Lemma lookup_key_seek_witness :
  InternalKey_Compare BytewiseComparator (lk_internal_key (make_LookupKey [Byte.x61] 9))
    (AppendInternalKey [] (mkParsed [Byte.x61] 7 kTypeDeletion)) <= 0.
Proof.
  apply (lookup_key_seek BytewiseComparator [Byte.x61] [Byte.x61] 9 7 kTypeDeletion);
    [reflexivity|split; vm_compute; discriminate|repeat split; vm_compute; discriminate|lia].
Defined.

(** Shortening internal keys for index entries is sound for every lawful user
    comparator: a separator of [start < limit] lies in [start, limit), and a
    short successor is not smaller than its key. *)
Theorem internal_key_separator (ucmp : Comparator) (H : ComparatorLaws ucmp) (start limit key : bytes) :
  (InternalKey_Compare ucmp start limit < 0 ->
     InternalKey_Compare ucmp start (InternalKey_FindShortestSeparator ucmp start limit) <= 0 /\
     InternalKey_Compare ucmp (InternalKey_FindShortestSeparator ucmp start limit) limit < 0) /\
  InternalKey_Compare ucmp key (InternalKey_FindShortSuccessor ucmp key) <= 0.
Proof.
  pose proof (InternalKeyComparator_laws ucmp) as L.
  split; [intros Hlt; split|].
  - exact (sep_ge (c := InternalKeyComparator ucmp) start limit Hlt).
  - exact (sep_lt (c := InternalKeyComparator ucmp) start limit Hlt).
  - exact (succ_ge (c := InternalKeyComparator ucmp) key).
Qed.

Lemma internal_key_separator_witness :
  let start := InternalKey_make [Byte.x61; Byte.x62; Byte.x63] 5 kTypeValue in
  let limit := InternalKey_make [Byte.x61; Byte.x7a] 6 kTypeValue in
  InternalKey_Compare BytewiseComparator start limit < 0 /\
  InternalKey_Compare BytewiseComparator
    (InternalKey_FindShortestSeparator BytewiseComparator start limit) limit < 0.
Proof.
  split; [reflexivity|].
  apply (internal_key_separator BytewiseComparator BytewiseComparator_laws _ _ []). reflexivity.
Defined.
