(* ===== verification/Bloom.v ===== *)
(** * Bloom filters (util/hash.cc, util/bloom.cc)

    The hash of a key, the filters of one bit array and the full filters whose probes stay
    within a cache line, and that a filter never rejects a key that was added to it. *)

From S2P Require Import Prelude Coding.

(** ** The hash (util/hash.cc, util/hash.h) *)

Definition hash_m : Z := 0xc6a4a793.

(** [static_cast<uint32_t>(static_cast<int8_t>(c))]. *)
Definition signed_word (b : Byte.byte) : Z := wrap32 (byte_signed b).

(** The loop over four bytes at a time; what is left are fewer than four. *)
Fixpoint Hash_loop (fuel : nat) (data : bytes) (h : Z) : Z * bytes :=
  match fuel with
  | O => (h, data)
  | S fuel =>
      if 4 <=? len data then
        let h := wrap32 (h + DecodeFixed32 data) in
        let h := wrap32 (h * hash_m) in
        Hash_loop fuel (drop 4 data) (Z.lxor h (Z.shiftr h 16))
      else (h, data)
  end.

Definition Hash (data : bytes) (seed : Z) : Z :=
  let h := wrap32 (Z.lxor seed (wrap64 (len data * hash_m))) in
  let '(h, rest) := Hash_loop (length data) data h in
  let h := match rest !! 2%nat with Some b => wrap32 (h + wrap32 (Z.shiftl (signed_word b) 16)) | None => h end in
  let h := match rest !! 1%nat with Some b => wrap32 (h + wrap32 (Z.shiftl (signed_word b) 8)) | None => h end in
  match rest !! 0%nat with
  | Some b =>
      let h := wrap32 (h + signed_word b) in
      let h := wrap32 (h * hash_m) in
      Z.lxor h (Z.shiftr h 24)
  | None => h
  end.

Definition BloomHash (key : bytes) : Z := Hash key 0xbc9f1d34.

(** ** Probes *)

(** [data[bitpos / 8] |= 1 << (bitpos % 8)] and the test of the bit. *)
Definition set_bit (data : bytes) (bitpos : Z) : option bytes :=
  b ← data !z (bitpos / 8);
  zset data (bitpos / 8) (byte.of_Z (Z.lor (byte.unsigned b) (Z.shiftl 1 (bitpos mod 8)))).

Definition test_bit (data : bytes) (bitpos : Z) : option bool :=
  b ← data !z (bitpos / 8);
  Some (negb (Z.land (byte.unsigned b) (Z.shiftl 1 (bitpos mod 8)) =? 0)).

(** Rotate right 17 bits. *)
Definition hash_delta (h : Z) : Z := Z.lor (Z.shiftr h 17) (wrap32 (Z.shiftl h 15)).

(** [probes] positions from a hash, each [place] of the hash so far. *)
Fixpoint add_probes (probes : nat) (place : Z -> Z) (h delta : Z) (data : bytes) : option bytes :=
  match probes with
  | O => Some data
  | S probes => data ← set_bit data (place h); add_probes probes place (wrap32 (h + delta)) delta data
  end.

Fixpoint test_probes (probes : nat) (place : Z -> Z) (h delta : Z) (data : bytes) : option bool :=
  match probes with
  | O => Some true
  | S probes =>
      b ← test_bit data (place h);
      if negb b then Some false else test_probes probes place (wrap32 (h + delta)) delta data
  end.

(** ** Filters of one array (BloomFilterPolicy) *)

(** [scaled] is the product with 0.69, rounded down. *)
Definition initialize (scaled : Z) : Z :=
  let num_probes_ := if scaled <? 1 then 1 else scaled in
  if 30 <? num_probes_ then 30 else num_probes_.

Definition CreateFilter (bits_per_key_ num_probes_ : Z) (keys : list bytes) (dst : bytes) : option bytes :=
  let bits := wrap64 (len keys * bits_per_key_) in
  let bits := if bits <? 64 then 64 else bits in
  let nbytes := wrap64 (bits + 7) / 8 in
  let bits := wrap64 (nbytes * 8) in
  array ← fold_opt (fun array key =>
             let h := BloomHash key in
             add_probes (Z.to_nat num_probes_) (fun h => h mod bits) h (hash_delta h) array)
           (replicate (Z.to_nat nbytes) Byte.x00) keys;
  Some (dst ++ array ++ [byte.of_Z num_probes_]).

Definition KeyMayMatch (key bloom_filter : bytes) : option bool :=
  let n := len bloom_filter in
  if n <? 2 then Some false else
  let bits := wrap64 ((n - 1) * 8) in
  k ← bloom_filter !z (n - 1);
  let k := wrap64 (byte_signed k) in
  if 30 <? k then Some true else
  let h := BloomHash key in
  test_probes (Z.to_nat k) (fun h => h mod bits) h (hash_delta h) bloom_filter.

(** ** Full filters *)

Section Lines.
(** [CACHE_LINE_SIZE] where the filter is built. *)
Context (CACHE_LINE_SIZE : Z).

Record FullFilterBitsBuilder := mkFFB {
  ffb_bits_per_key_ : Z;
  ffb_num_probes_ : Z;
  hash_entries_ : list Z
}.

Definition FFB_AddKey (key : bytes) (b : FullFilterBitsBuilder) : FullFilterBitsBuilder :=
  let hash := BloomHash key in
  match last (hash_entries_ b) with
  | Some h => if negb (hash =? h) then mkFFB (ffb_bits_per_key_ b) (ffb_num_probes_ b) (hash_entries_ b ++ [hash]) else b
  | None => mkFFB (ffb_bits_per_key_ b) (ffb_num_probes_ b) (hash_entries_ b ++ [hash])
  end.

Definition GetTotalBitsForLocality (total_bits : Z) : Z :=
  let num_lines := wrap32 (total_bits + CACHE_LINE_SIZE * 8 - 1) / (CACHE_LINE_SIZE * 8) in
  let num_lines := if num_lines mod 2 =? 0 then wrap32 (num_lines + 1) else num_lines in
  wrap32 (num_lines * (CACHE_LINE_SIZE * 8)).

(** [sz], [total_bits] and [num_lines]; [None] is a failed assertion. *)
Definition CalculateSpace (bits_per_key_ num_entry : Z) : option (Z * Z * Z) :=
  if bits_per_key_ =? 0 then None else
  '(total_bits, num_lines) ←
    (if negb (num_entry =? 0) then
       let total_bits := GetTotalBitsForLocality (wrap32 (num_entry * wrap32 bits_per_key_)) in
       if (0 <? total_bits) && (total_bits mod 8 =? 0) then Some (total_bits, total_bits / (CACHE_LINE_SIZE * 8)) else None
     else Some (0, 0));
  Some (wrap32 (total_bits / 8 + 5), total_bits, num_lines).

Definition AddHash (num_probes_ num_lines h : Z) (data : bytes) : option bytes :=
  if negb (0 <? num_lines) then None else
  let b := wrap32 (h mod num_lines * (CACHE_LINE_SIZE * 8)) in
  add_probes (Z.to_nat num_probes_) (fun h => wrap32 (b + h mod (CACHE_LINE_SIZE * 8))) h (hash_delta h) data.

Definition FFB_Finish (b : FullFilterBitsBuilder) : option bytes :=
  '(sz, total_bits, num_lines) ← CalculateSpace (ffb_bits_per_key_ b) (i32 (len (hash_entries_ b)));
  data ← (if negb (total_bits =? 0) && negb (num_lines =? 0)
          then fold_opt (fun data h => AddHash (ffb_num_probes_ b) num_lines h data) (replicate (Z.to_nat sz) Byte.x00) (hash_entries_ b)
          else Some (replicate (Z.to_nat sz) Byte.x00));
  data ← zset data (total_bits / 8) (byte.of_Z (ffb_num_probes_ b));
  data ← mem_write data (total_bits / 8 + 1) (EncodeFixed32 num_lines);
  Some (take (Z.to_nat (total_bits / 8 + 5)) data).
End Lines.

(** What the reader keeps; the broken filter has no lines and no probes. *)
Record FullFilterBitsReader := mkFFR {
  ffr_data_ : bytes;
  ffr_data_len_ : Z;
  ffr_num_probes_ : Z;
  ffr_num_lines_ : Z;
  log2_cache_line_size_ : Z
}.

Definition GetFilterMeta (filter : bytes) : option (Z * Z) :=
  let n := wrap32 (len filter) in
  if n <=? 5 then Some (0, 0) else
  p ← filter !z (n - 5);
  w ← mem_read filter (n - 4) 4;
  Some (wrap64 (byte_signed p), DecodeFixed32 w).

(** The loop that finds the cache line size; [None] is the failed assertion. *)
Fixpoint find_line_size (fuel : nat) (size num_lines log2 : Z) : option Z :=
  match fuel with
  | O => None
  | S fuel =>
      let num_lines_at_curr_cache_size := Z.shiftr size log2 in
      if num_lines_at_curr_cache_size =? 0 then None
      else if num_lines_at_curr_cache_size =? num_lines then Some log2
      else find_line_size fuel size num_lines (log2 + 1)
  end.

(** After 32 rounds nothing is left of a 32-bit size. *)
Definition FullFilterBitsReader_make (contents : bytes) : option FullFilterBitsReader :=
  let data_len_ := wrap32 (len contents) in
  '(num_probes_, num_lines_) ← GetFilterMeta contents;
  if negb (num_lines_ =? 0) && negb ((data_len_ - 5) mod num_lines_ =? 0) then Some (mkFFR contents data_len_ 0 0 0) else
  if negb (num_lines_ =? 0) then
    log2 ← find_line_size 33 (data_len_ - 5) num_lines_ 0;
    Some (mkFFR contents data_len_ num_probes_ num_lines_ log2)
  else Some (mkFFR contents data_len_ num_probes_ num_lines_ 0).

Definition HashMayMatch (r : FullFilterBitsReader) (hash : Z) : option bool :=
  let n := ffr_data_len_ r in
  if n <=? 5 then Some false else
  if (ffr_num_probes_ r =? 0) || (ffr_num_lines_ r =? 0) || negb ((n - 5) mod ffr_num_lines_ r =? 0) then None else
  let b := wrap32 (Z.shiftl (hash mod ffr_num_lines_ r) (log2_cache_line_size_ r + 3)) in
  test_probes (Z.to_nat (ffr_num_probes_ r)) (fun h => wrap32 (b + Z.land h (Z.shiftl 1 (log2_cache_line_size_ r + 3) - 1)))
    hash (hash_delta hash) (ffr_data_ r).

Definition MayMatch (entry : bytes) (r : FullFilterBitsReader) : option bool :=
  if ffr_data_len_ r <=? 5 then Some false else
  if (ffr_num_probes_ r =? 0) || (ffr_num_lines_ r =? 0) then Some true else
  HashMayMatch r (BloomHash entry).

(** ** Setting and testing bits *)

Lemma land_shift1 a k : 0 <= k -> negb (Z.land a (Z.shiftl 1 k) =? 0) = Z.testbit a k.
Proof.
  intros Hk. rewrite Z.shiftl_1_l. destruct (Z.testbit a k) eqn:E.
  - apply negb_true_iff, Z.eqb_neq. intros H. apply (f_equal (fun z => Z.testbit z k)) in H.
    by rewrite Z.land_spec, E, Z.pow2_bits_true, Z.bits_0 in H by lia.
  - apply negb_false_iff, Z.eqb_eq. apply Z.bits_inj'. intros n Hn. rewrite Z.land_spec, Z.bits_0.
    destruct (Z.eq_dec n k) as [->|Hne]; [by rewrite E|]. by rewrite Z.pow2_bits_false, andb_false_r by lia.
Qed.

Lemma test_bit_eq data q b : 0 <= q -> data !z (q / 8) = Some b -> test_bit data q = Some (Z.testbit (byte.unsigned b) (q mod 8)).
Proof.
  intros Hq Hb. unfold test_bit. rewrite Hb. cbn [mbind option_bind]. rewrite land_shift1; [done|].
  pose proof (Z.mod_pos_bound q 8). lia.
Qed.

Lemma byte_lor_bit b k n : 0 <= k < 8 -> 0 <= n < 8 ->
  Z.testbit (byte.unsigned (byte.of_Z (Z.lor (byte.unsigned b) (Z.shiftl 1 k)))) n = Z.testbit (byte.unsigned b) n || (n =? k).
Proof.
  intros Hk Hn. rewrite byte.unsigned_of_Z. unfold byte.wrap. rewrite Z.mod_pow2_bits_low, Z.lor_spec, Z.shiftl_1_l by lia.
  f_equal. destruct (Z.eqb_spec n k) as [->|Hne]; [apply Z.pow2_bits_true; lia|apply Z.pow2_bits_false; lia].
Qed.

(** [d'] has all the bits of [d], and is as long. *)
Definition more_bits (d d' : bytes) : Prop :=
  len d' = len d /\ forall q, 0 <= q -> test_bit d q = Some true -> test_bit d' q = Some true.

#[export] Instance more_bits_preorder : PreOrder more_bits.
Proof.
  split; [by intros d|]. intros d1 d2 d3 [H1 H2] [H3 H4]. split; [lia|]. intros q Hq Ht. by apply H4, H2.
Qed.

Lemma set_bit_ok data q : 0 <= q < len data * 8 -> exists data', set_bit data q = Some data' /\ test_bit data' q = Some true /\ more_bits data data'.
Proof.
  intros Hq. assert (Hi : 0 <= q / 8 < len data) by (split; [apply Z.div_pos; lia|apply Z.div_lt_upper_bound; lia]).
  pose proof (Z.mod_pos_bound q 8 ltac:(lia)) as Hm. destruct (zget_is_Some data (q / 8) Hi) as [b Hb]. unfold set_bit. rewrite Hb. cbn [mbind option_bind].
  rewrite (zset_in_range data _ _ Hi). eexists. split; [done|].
  assert (Hget : forall j, (<[Z.to_nat (q / 8) := byte.of_Z (Z.lor (byte.unsigned b) (Z.shiftl 1 (q mod 8)))]> data) !z j =
    if decide (j = q / 8) then Some (byte.of_Z (Z.lor (byte.unsigned b) (Z.shiftl 1 (q mod 8)))) else data !z j).
  { intros j. case_decide as Hj.
    - subst j. apply zget_Some. split; [lia|]. apply list_lookup_insert_eq. unfold zlen in Hi. lia.
    - destruct (Z.lt_ge_cases j 0); [|unfold zget; rewrite list_lookup_insert_ne by lia; done].
      assert (forall l : bytes, l !z j = None) as Hn by (intros l; apply zget_None; lia). by rewrite !Hn. }
  split.
  - erewrite test_bit_eq; [|lia|rewrite Hget, decide_True by done; done]. f_equal. rewrite byte_lor_bit by done. by rewrite Z.eqb_refl, orb_true_r.
  - split; [apply zlen_insert|]. intros p Hp Ht. pose proof (Z.mod_pos_bound p 8 ltac:(lia)) as Hpm. unfold test_bit in Ht.
    destruct (data !z (p / 8)) as [b'|] eqn:Eb; [|done]. destruct (decide (p / 8 = q / 8)) as [E|Hne].
    + rewrite E in Eb. rewrite Hb in Eb. injection Eb as <-. cbn [mbind option_bind] in Ht. rewrite land_shift1 in Ht by lia.
      erewrite test_bit_eq; [|lia|rewrite Hget, decide_True by done; done]. f_equal. rewrite byte_lor_bit by done. injection Ht as ->. done.
    + erewrite test_bit_eq; [|lia|rewrite Hget, decide_False by done; exact Eb]. cbn [mbind option_bind] in Ht. by rewrite land_shift1 in Ht by lia.
Qed.

(** ** Adding and testing probes *)

Lemma test_probes_more probes place h delta d d' :
  (forall x, 0 <= place x) -> more_bits d d' -> test_probes probes place h delta d = Some true -> test_probes probes place h delta d' = Some true.
Proof.
  intros Hp [_ Hm]. revert h. induction probes as [|probes IH]; intros h; cbn [test_probes]; [done|].
  destruct (test_bit d (place h)) as [[]|] eqn:E; cbn [mbind option_bind negb]; [|done|done].
  rewrite (Hm _ (Hp h) E). cbn [mbind option_bind negb]. apply IH.
Qed.

Lemma add_probes_ok probes place h delta d :
  (forall x, 0 <= place x < len d * 8) ->
  exists d', add_probes probes place h delta d = Some d' /\ more_bits d d' /\ test_probes probes place h delta d' = Some true.
Proof.
  intros Hp. revert h d Hp. induction probes as [|probes IH]; intros h d Hp; cbn [add_probes test_probes]; [by exists d|].
  destruct (set_bit_ok d (place h) (Hp h)) as (d1 & -> & Ht & Hm). cbn [mbind option_bind].
  assert (Hlen : len d1 = len d) by apply Hm.
  destruct (IH (wrap32 (h + delta)) d1) as (d2 & -> & Hm2 & Ht2); [intros x; rewrite Hlen; apply Hp|].
  exists d2. split; [done|]. split; [by etrans|]. destruct Hm2 as [_ Hm2]. by rewrite (Hm2 (place h) ltac:(apply Hp) Ht).
Qed.

(** The keys one after the other; each has its own places, which stay set. *)
Lemma add_keys_ok {K} (probes : nat) (place : K -> Z -> Z) (hash : K -> Z) (keys : list K) d :
  (forall k x, 0 <= place k x < len d * 8) ->
  exists d', fold_opt (fun d k => add_probes probes (place k) (hash k) (hash_delta (hash k)) d) d keys = Some d' /\ more_bits d d' /\
    forall k, k ∈ keys -> test_probes probes (place k) (hash k) (hash_delta (hash k)) d' = Some true.
Proof.
  intros Hp. revert d Hp. induction keys as [|k keys IH]; intros d Hp; cbn [fold_opt].
  { exists d. split_and!; [done|done|]. by intros k ?%elem_of_nil. }
  destruct (add_probes_ok probes (place k) (hash k) (hash_delta (hash k)) d (Hp k)) as (d1 & -> & Hm & Ht). cbn [mbind option_bind].
  assert (Hlen : len d1 = len d) by apply Hm. destruct (IH d1) as (d2 & -> & Hm2 & Ht2); [intros k' x; rewrite Hlen; apply Hp|].
  exists d2. split_and!; [done|by etrans|]. intros k' [->|Hk]%elem_of_cons; [|by apply Ht2].
  eapply test_probes_more; [intros x; apply (Hp k x)|exact Hm2|done].
Qed.

(** Bits of a part of the filter. *)
Lemma test_probes_local probes place h delta d d' n :
  (forall x, 0 <= place x < n * 8) -> (forall i, 0 <= i < n -> d' !z i = d !z i) ->
  test_probes probes place h delta d' = test_probes probes place h delta d.
Proof.
  intros Hp Hd. revert h. induction probes as [|probes IH]; intros h; cbn [test_probes]; [done|].
  assert (test_bit d' (place h) = test_bit d (place h)) as ->.
  { unfold test_bit. rewrite Hd; [done|]. specialize (Hp h). split; [apply Z.div_pos; lia|apply Z.div_lt_upper_bound; lia]. }
  destruct (test_bit d (place h)) as [[]|]; cbn [mbind option_bind negb]; [apply IH|done|done].
Qed.

Lemma test_probes_ext probes place place' h delta d :
  (forall x, place x = place' x) -> test_probes probes place h delta d = test_probes probes place' h delta d.
Proof. intros H. revert h. induction probes as [|probes IH]; intros h; cbn [test_probes]; [done|]. rewrite H. destruct (test_bit d (place' h)) as [[]|]; [apply IH|done|done]. Qed.

Lemma initialize_range scaled : 1 <= initialize scaled <= 30.
Proof. unfold initialize. destruct (Z.ltb_spec scaled 1); [done|]. destruct (Z.ltb_spec 30 scaled); lia. Qed.

Lemma fold_opt_fmap {A B S} (f : S -> B -> option S) (g : A -> B) s l : fold_opt f s (g <$> l) = fold_opt (fun s x => f s (g x)) s l.
Proof. revert s. induction l as [|x l IH]; intros s; [done|]. cbn. destruct (f s (g x)); [apply IH|done]. Qed.

Lemma zget_app_l {A} (l1 l2 : list A) i : 0 <= i < len l1 -> (l1 ++ l2) !z i = l1 !z i.
Proof.
  intros Hi. destruct (zget_is_Some l1 i Hi) as [x Hx]. rewrite Hx. apply zget_Some. apply zget_Some in Hx as [H0 Hx].
  split; [done|]. by apply lookup_app_l_Some.
Qed.

Lemma probes_byte p : 1 <= p <= 30 -> wrap64 (byte_signed (byte.of_Z p)) = p.
Proof.
  intros Hp. unfold byte_signed. rewrite byte.unsigned_of_Z. unfold byte.wrap. rewrite Z.mod_small by lia.
  destruct (Z.ltb_spec p 128); [|lia]. apply wrap_id. lia.
Qed.

(** The filters of one array. *)
Lemma CreateFilter_ok bits_per_key_ num_probes_ keys :
  1 <= num_probes_ <= 30 -> 0 <= bits_per_key_ -> len keys * bits_per_key_ + 64 < 2 ^ 64 ->
  exists filter, CreateFilter bits_per_key_ num_probes_ keys [] = Some filter /\
    forall key, key ∈ keys -> KeyMayMatch key filter = Some true.
Proof.
  intros Hp Hb Hsize. unfold CreateFilter. pose proof (zlen_nonneg keys). rewrite (wrap_id 64 (len keys * bits_per_key_)) by nia.
  set (bits0 := if len keys * bits_per_key_ <? 64 then 64 else len keys * bits_per_key_).
  assert (Hbits0 : 64 <= bits0 < 2 ^ 64 - 63) by (unfold bits0; destruct (Z.ltb_spec (len keys * bits_per_key_) 64); lia).
  rewrite (wrap_id 64 (bits0 + 7)) by lia. set (nb := (bits0 + 7) / 8).
  assert (Hnb : 8 <= nb /\ nb * 8 < 2 ^ 64) by (unfold nb; pose proof (Z.div_mod (bits0 + 7) 8 ltac:(lia)); pose proof (Z.mod_pos_bound (bits0 + 7) 8); lia).
  rewrite (wrap_id 64 (nb * 8)) by lia.
  assert (Hlen : len (replicate (Z.to_nat nb) Byte.x00) = nb) by (unfold zlen; rewrite length_replicate; lia).
  destruct (add_keys_ok (Z.to_nat num_probes_) (fun _ h => h mod (nb * 8)) BloomHash keys (replicate (Z.to_nat nb) Byte.x00)) as (d & E & [Hm1 Hm2] & Ht).
  { intros _ x. rewrite Hlen. apply Z.mod_pos_bound. lia. }
  rewrite E. cbn [mbind option_bind app]. exists (d ++ [byte.of_Z num_probes_]). split; [done|]. intros key Hk. rewrite Hlen in Hm1.
  unfold KeyMayMatch. rewrite zlen_app. change (len [_]) with 1. rewrite Hm1. rewrite (proj2 (Z.ltb_ge _ _)) by lia.
  replace (nb + 1 - 1) with nb by lia. rewrite (wrap_id 64 (nb * 8)) by lia.
  assert ((d ++ [byte.of_Z num_probes_]) !z nb = Some (byte.of_Z num_probes_)) as ->.
  { apply zget_Some. split; [lia|]. rewrite lookup_app_r by (unfold zlen in Hm1; lia). by replace (Z.to_nat nb - length d)%nat with 0%nat by (unfold zlen in Hm1; lia). }
  cbn [mbind option_bind]. rewrite probes_byte, (proj2 (Z.ltb_ge _ _)) by lia.
  rewrite (test_probes_local _ _ _ _ d _ nb); [by apply Ht|intros x; apply Z.mod_pos_bound; lia|].
  intros i Hi. apply zget_app_l. lia.
Qed.

(** ** Full filters *)

(** The hashes of the keys: a hash equal to the one before it is not kept twice. *)
Lemma FFB_AddKeys_hashes keys b :
  let b' := foldl (fun b key => FFB_AddKey key b) b keys in
  ffb_bits_per_key_ b' = ffb_bits_per_key_ b /\ ffb_num_probes_ b' = ffb_num_probes_ b /\
  (forall h, h ∈ hash_entries_ b' <-> h ∈ hash_entries_ b \/ h ∈ BloomHash <$> keys) /\
  (length (hash_entries_ b') <= length (hash_entries_ b) + length keys)%nat.
Proof.
  revert b. induction keys as [|key keys IH]; intros b; cbn [foldl].
  { cbn. split_and!; [done|done|set_solver|lia]. }
  destruct (IH (FFB_AddKey key b)) as (H1 & H2 & H3 & H4). unfold FFB_AddKey in *. rewrite fmap_cons.
  assert (Hl : forall h, last (hash_entries_ b) = Some h -> h ∈ hash_entries_ b).
  { intros h Hh. rewrite last_lookup in Hh. by eapply list_elem_of_lookup_2. }
  destruct (last (hash_entries_ b)) as [h0|]; [destruct (Z.eqb_spec (BloomHash key) h0) as [E|E]|]; cbn [negb] in *; cbn in *.
  - split_and!; [done|done| |lia]. intros h. rewrite H3, elem_of_cons, E. specialize (Hl h0 eq_refl).
    split; [tauto|]. intros [?|[->|?]]; auto.
  - split_and!; [done|done| |rewrite length_app in H4; simpl in H4; lia]. intros h. rewrite H3, elem_of_app, list_elem_of_singleton, elem_of_cons. tauto.
  - split_and!; [done|done| |rewrite length_app in H4; simpl in H4; lia]. intros h. rewrite H3, elem_of_app, list_elem_of_singleton, elem_of_cons. tauto.
Qed.

Lemma fold_opt_ext {A S} (f g : S -> A -> option S) s l : (forall s x, f s x = g s x) -> fold_opt f s l = fold_opt g s l.
Proof. intros H. revert s. induction l as [|x l IH]; intros s; [done|]. cbn. rewrite H. destruct (g s x); [apply IH|done]. Qed.

(** The five bytes behind the lines. *)
Lemma write_meta d n p nl : 0 <= n -> len d = n + 5 ->
  (data ← zset d n p; data ← mem_write data (n + 1) (EncodeFixed32 nl); Some (take (Z.to_nat (n + 5)) data)) =
    Some (take (Z.to_nat n) d ++ p :: EncodeFixed32 nl) /\
  len (take (Z.to_nat n) d) = n /\ forall i, 0 <= i < n -> take (Z.to_nat n) d !z i = d !z i.
Proof.
  intros Hn Hd. assert (Hlen : length d = (Z.to_nat n + 5)%nat) by (unfold zlen in Hd; lia). split_and!.
  - rewrite zset_in_range by lia. cbn [mbind option_bind].
    assert (He : len (EncodeFixed32 nl) = 4) by apply zlen_le_split.
    unfold mem_write. rewrite zlen_insert, He, !(proj2 (Z.leb_le _ _)) by lia. cbn [andb mbind option_bind]. f_equal.
    rewrite (insert_take_drop d (Z.to_nat n) p) by lia. replace (Z.to_nat (n + 1)) with (S (Z.to_nat n)) by lia.
    set (a := take (Z.to_nat n) d). set (t := drop (S (Z.to_nat n)) d).
    assert (Ha : length a = Z.to_nat n) by (unfold a; rewrite length_take; lia).
    assert (Ht : length t = 4%nat) by (unfold t; rewrite length_drop; lia).
    assert (He4 : length (EncodeFixed32 nl) = 4%nat) by (unfold zlen in He; lia).
    assert (E1 : take (S (Z.to_nat n)) (a ++ p :: t) = a ++ [p]).
    { change (a ++ p :: t) with (a ++ [p] ++ t). rewrite app_assoc. apply take_app_length'. rewrite length_app, Ha. simpl. lia. }
    rewrite E1, (drop_ge (a ++ p :: t)) by (rewrite length_app; simpl; lia). rewrite app_nil_r, <- app_assoc. apply take_ge.
    rewrite !length_app. simpl. lia.
  - unfold zlen. rewrite length_take. lia.
  - intros i Hi. unfold zget. destruct (0 <=? i); [|done]. by rewrite lookup_take_lt by lia.
Qed.

Section FullFilters.
Context (c : Z) (Hc : 0 <= c <= 20).
Notation line := (2 ^ c).
Notation L := (2 ^ c * 8).

Lemma line_bits : L = 2 ^ (c + 3) /\ 2 ^ 32 = L * 2 ^ (29 - c) /\ 1 < 2 ^ (29 - c) /\ (2 ^ (29 - c)) mod 2 = 0 /\ 0 < L.
Proof using Hc.
  assert (H1 : L = 2 ^ (c + 3)) by (rewrite Z.pow_add_r by lia; done). split_and!; [done| | | |].
  - rewrite H1, <- Z.pow_add_r by lia. f_equal. lia.
  - apply Z.pow_gt_1; lia.
  - replace (29 - c) with (28 - c + 1) by lia. rewrite Z.pow_add_r by lia. apply Z.mod_mul. lia.
  - rewrite H1. apply Z.pow_pos_nonneg; lia.
Qed.

(** The space is a positive odd number of lines; nothing overflows. *)
Lemma locality_lines total_bits : exists nl, GetTotalBitsForLocality line total_bits = nl * L /\ 0 < nl /\ nl * L < 2 ^ 32.
Proof using Hc.
  destruct line_bits as (H1 & H2 & H3 & H4 & H5). unfold GetTotalBitsForLocality.
  set (w := wrap32 (total_bits + L - 1)). assert (Hw : 0 <= w < 2 ^ 32) by (apply Z.mod_pos_bound; lia).
  set (n0 := w / L). assert (Hn0 : 0 <= n0 < 2 ^ (29 - c)) by (split; [apply Z.div_pos; lia|apply Z.div_lt_upper_bound; lia]).
  assert (Hodd : (if n0 mod 2 =? 0 then n0 + 1 else n0) < 2 ^ (29 - c) /\ 0 < (if n0 mod 2 =? 0 then n0 + 1 else n0)).
  { destruct (Z.eqb_spec (n0 mod 2) 0) as [E|E].
    - split; [|lia]. destruct (Z.eq_dec (n0 + 1) (2 ^ (29 - c))) as [E2|]; [|lia]. rewrite <- E2 in H4.
      pose proof (Z.div_mod n0 2 ltac:(lia)). pose proof (Z.div_mod (n0 + 1) 2 ltac:(lia)). lia.
    - split; [lia|]. destruct (Z.eq_dec n0 0) as [->|]; [done|lia]. }
  exists (if n0 mod 2 =? 0 then n0 + 1 else n0). rewrite (wrap_id 32 (n0 + 1)) by nia.
  destruct (n0 mod 2 =? 0); rewrite wrap_id by nia; (split_and!; [done|lia|nia]).
Qed.

Lemma find_line_size_ok fuel nl s :
  0 < nl -> 0 <= s <= c -> (Z.to_nat (c - s) < fuel)%nat -> find_line_size fuel (nl * line) nl s = Some c.
Proof using Hc.
  intros Hnl. revert s. induction fuel as [|fuel IH]; intros s Hs Hf; [lia|]. cbn [find_line_size].
  assert (E : Z.shiftr (nl * line) s = nl * 2 ^ (c - s)).
  { rewrite Z.shiftr_div_pow2 by lia. replace c with (c - s + s) at 1 by lia. rewrite Z.pow_add_r, Z.mul_assoc by lia.
    apply Z.div_mul. apply Z.pow_nonzero; lia. }
  rewrite E. destruct (Z.eq_dec s c) as [->|Hne].
  - rewrite Z.sub_diag, Z.pow_0_r, Z.mul_1_r. rewrite (proj2 (Z.eqb_neq _ _)) by lia. by rewrite Z.eqb_refl.
  - assert (1 < 2 ^ (c - s)) by (apply Z.pow_gt_1; lia). rewrite (proj2 (Z.eqb_neq _ _)) by nia. rewrite (proj2 (Z.eqb_neq _ _)) by nia.
    apply IH; lia.
Qed.

(** The reader looks where the builder wrote. *)
Lemma place_eq nl h x : 0 < nl -> nl * L < 2 ^ 32 ->
  let b := wrap32 (h mod nl * L) in
  wrap32 (wrap32 (Z.shiftl (h mod nl) (c + 3)) + Z.land x (Z.shiftl 1 (c + 3) - 1)) = wrap32 (b + x mod L) /\
  0 <= wrap32 (b + x mod L) < nl * L.
Proof using Hc.
  destruct line_bits as (H1 & _ & _ & _ & H5). intros Hnl H32 b.
  rewrite Z.shiftl_mul_pow2, <- H1 by lia. fold b. split.
  - do 2 f_equal. rewrite Z.shiftl_1_l. replace (2 ^ (c + 3) - 1) with (Z.ones (c + 3)) by (rewrite Z.ones_equiv; lia).
    rewrite Z.land_ones, H1 by lia. done.
  - pose proof (Z.mod_pos_bound h nl Hnl). pose proof (Z.mod_pos_bound x L H5). unfold b.
    rewrite (wrap_id 32 (h mod nl * L)) by nia. rewrite wrap_id by nia. nia.
Qed.

(** What [Finish] writes, and what the reader finds in it. *)
Lemma FFB_Finish_ok b :
  1 <= ffb_num_probes_ b <= 30 -> ffb_bits_per_key_ b <> 0 -> hash_entries_ b <> [] -> len (hash_entries_ b) < 2 ^ 31 ->
  exists d nl, let filter := d ++ byte.of_Z (ffb_num_probes_ b) :: EncodeFixed32 nl in
    FFB_Finish line b = Some filter /\ 0 < nl /\ nl * L < 2 ^ 32 /\ len d = nl * line /\
    forall h, h ∈ hash_entries_ b -> test_probes (Z.to_nat (ffb_num_probes_ b)) (fun x => wrap32 (wrap32 (h mod nl * L) + x mod L)) h (hash_delta h) d = Some true.
Proof using Hc.
  intros Hp Hb Hne Hlen. destruct line_bits as (_ & _ & _ & _ & H5). unfold FFB_Finish, CalculateSpace. rewrite (proj2 (Z.eqb_neq _ _) Hb).
  pose proof (zlen_nonneg (hash_entries_ b)). rewrite i32_id by lia. rewrite (proj2 (Z.eqb_neq (len _) 0)) by (by rewrite zlen_zero). cbn [negb].
  destruct (locality_lines (wrap32 (len (hash_entries_ b) * wrap32 (ffb_bits_per_key_ b)))) as (nl & -> & Hnl & H32).
  assert (H8 : nl * L / 8 = nl * line) by (rewrite Z.mul_assoc; apply Z.div_mul; lia).
  assert (Hm8 : (nl * L) mod 8 = 0) by (rewrite Z.mul_assoc; apply Z.mod_mul; lia).
  rewrite (proj2 (Z.ltb_lt 0 _)) by nia. rewrite Hm8, Z.eqb_refl. cbn [andb mbind option_bind]. rewrite H8, Z.div_mul by lia.
  rewrite (proj2 (Z.eqb_neq (nl * L) 0)), (proj2 (Z.eqb_neq nl 0)) by nia. cbn [negb andb].
  assert (Hnl1 : 0 < nl * line) by nia. rewrite (wrap_id 32 (nl * line + 5)) by nia.
  set (d0 := replicate (Z.to_nat (nl * line + 5)) Byte.x00).
  assert (Hd0 : len d0 = nl * line + 5) by (unfold d0, zlen; rewrite length_replicate; lia).
  destruct (add_keys_ok (Z.to_nat (ffb_num_probes_ b)) (fun h x => wrap32 (wrap32 (h mod nl * L) + x mod L)) id (hash_entries_ b) d0)
    as (d & E & [Hd _] & Ht).
  { intros h x. rewrite Hd0. pose proof (place_eq nl h x Hnl H32) as [_ Hr]. cbv zeta in Hr. lia. }
  rewrite (fold_opt_ext _ (fun d h => add_probes (Z.to_nat (ffb_num_probes_ b)) (fun x => wrap32 (wrap32 (h mod nl * L) + x mod L)) (id h) (hash_delta (id h)) d)).
  2: { intros x h. unfold AddHash. by rewrite (proj2 (Z.ltb_lt 0 nl) Hnl). }
  rewrite E. cbn [mbind option_bind]. destruct (write_meta d (nl * line) (byte.of_Z (ffb_num_probes_ b)) nl) as (Hw & Hl & Hg); [lia|lia|].
  cbv zeta in Hw. destruct (zset d (nl * line) _) as [d1|]; [|done]. cbn [mbind option_bind] in *.
  destruct (mem_write d1 _ _) as [d2|]; [|done]. cbn [mbind option_bind] in *. injection Hw as Hw.
  exists (take (Z.to_nat (nl * line)) d), nl. split_and!; [by rewrite Hw|done|done|done|].
  intros h Hh. specialize (Ht h Hh). unfold id in Ht. rewrite <- Ht. symmetry. apply test_probes_local with (n := nl * line).
  - intros x. pose proof (place_eq nl h x Hnl H32) as [_ Hr]. cbv zeta in Hr. lia.
  - intros i Hi. symmetry. by apply Hg.
Qed.

(** A hash whose probes are set matches. *)
Lemma FFR_match d nl p key :
  0 < nl -> nl * L < 2 ^ 32 -> len d = nl * line -> 1 <= p <= 30 ->
  (let h := BloomHash key in test_probes (Z.to_nat p) (fun x => wrap32 (wrap32 (h mod nl * L) + x mod L)) h (hash_delta h) d = Some true) ->
  MayMatch key (mkFFR (d ++ byte.of_Z p :: EncodeFixed32 nl) (nl * line + 5) p nl c) = Some true.
Proof using Hc.
  intros Hnl H32 Hd Hp Ht. pose proof line_bits as (_ & _ & _ & _ & H5). assert (Hpos : 0 < nl * line) by nia.
  unfold MayMatch, HashMayMatch. cbn [ffr_data_len_ ffr_num_probes_ ffr_num_lines_ ffr_data_ log2_cache_line_size_].
  rewrite (proj2 (Z.leb_gt _ _)), (proj2 (Z.eqb_neq p 0)), (proj2 (Z.eqb_neq nl 0)) by lia. cbn [orb].
  replace (nl * line + 5 - 5) with (line * nl) by lia. rewrite Z.mod_mul by lia. cbn [Z.eqb negb]. cbv zeta in Ht. rewrite <- Ht.
  rewrite <- (test_probes_local _ _ _ _ d (d ++ byte.of_Z p :: EncodeFixed32 nl) (nl * line)).
  - apply test_probes_ext. intros x. by destruct (place_eq nl (BloomHash key) x Hnl H32).
  - intros x. pose proof (place_eq nl (BloomHash key) x Hnl H32) as [_ Hr]. cbv zeta in Hr. lia.
  - intros i Hi. apply zget_app_l. lia.
Qed.

(** The reader of such a filter finds its lines, their size and the probes. *)
Lemma FFR_make_ok d nl p :
  0 < nl -> nl * L < 2 ^ 32 -> len d = nl * line -> 1 <= p <= 30 ->
  FullFilterBitsReader_make (d ++ byte.of_Z p :: EncodeFixed32 nl) = Some (mkFFR (d ++ byte.of_Z p :: EncodeFixed32 nl) (nl * line + 5) p nl c).
Proof using Hc.
  intros Hnl H32 Hd Hp. pose proof line_bits as (_ & _ & _ & _ & H5).
  assert (He : len (EncodeFixed32 nl) = 4) by apply zlen_le_split.
  assert (Hn : len (d ++ byte.of_Z p :: EncodeFixed32 nl) = nl * line + 5) by (rewrite zlen_app, zlen_cons, Hd, He; lia).
  assert (Hpos : 0 < nl * line < 2 ^ 29) by nia.
  unfold FullFilterBitsReader_make, GetFilterMeta. rewrite Hn, (wrap_id 32 (nl * line + 5)) by lia. rewrite (proj2 (Z.leb_gt _ _)) by lia.
  assert (Hg : (d ++ byte.of_Z p :: EncodeFixed32 nl) !z (nl * line + 5 - 5) = Some (byte.of_Z p)).
  { replace (nl * line + 5 - 5) with (nl * line) by lia. apply zget_Some. split; [lia|]. rewrite <- Hd, zlen_to_nat. by apply list_lookup_middle. }
  assert (Hr : mem_read (d ++ byte.of_Z p :: EncodeFixed32 nl) (nl * line + 5 - 4) 4 = Some (EncodeFixed32 nl)).
  { change (d ++ byte.of_Z p :: EncodeFixed32 nl) with (d ++ [byte.of_Z p] ++ EncodeFixed32 nl). rewrite app_assoc.
    replace (nl * line + 5 - 4) with (len (d ++ [byte.of_Z p]) + 0) by (rewrite zlen_app, Hd; change (len [_]) with 1; lia).
    rewrite mem_read_app_r by lia. rewrite <- He. apply mem_read_all. }
  rewrite Hg, Hr. cbn [mbind option_bind]. rewrite probes_byte by done.
  assert (HD : DecodeFixed32 (EncodeFixed32 nl) = nl).
  { rewrite <- (app_nil_r (EncodeFixed32 nl)). apply DecodeFixed32_Encode. unfold u32. nia. }
  rewrite HD. rewrite (proj2 (Z.eqb_neq nl 0)) by lia. replace (nl * line + 5 - 5) with (nl * line) by lia.
  rewrite (Z.mul_comm nl), Z.mod_mul by lia. cbn [negb andb Z.eqb]. rewrite (Z.mul_comm line).
  rewrite find_line_size_ok by lia. done.
Qed.
End FullFilters.

(** C21. A Bloom filter has no false negatives.  A key added to a filter of one bit array, or to a full filter, always matches:
    however long the keys are and however many there are, whatever the bits per key, also where the size of the filter
    overflows 32 bits, and for full filters also when they are read on a machine with cache lines of another size. *)
Theorem bloom_no_false_negatives keys bits_per_key scaled c :
  0 < bits_per_key < 2 ^ 32 -> len keys < 2 ^ 31 -> 0 <= c <= 20 ->
  (exists filter, CreateFilter bits_per_key (initialize scaled) keys [] = Some filter /\
     forall key, key ∈ keys -> KeyMayMatch key filter = Some true) /\
  (keys <> [] -> exists filter r,
     FFB_Finish (2 ^ c) (foldl (fun b key => FFB_AddKey key b) (mkFFB bits_per_key (initialize scaled) []) keys) = Some filter /\
     FullFilterBitsReader_make filter = Some r /\ forall key, key ∈ keys -> MayMatch key r = Some true).
Proof.
  intros Hb Hlen Hc. pose proof (initialize_range scaled) as Hp. pose proof (zlen_nonneg keys). split; [apply CreateFilter_ok; [done|lia|nia]|]. intros Hne.
  destruct (FFB_AddKeys_hashes keys (mkFFB bits_per_key (initialize scaled) [])) as (H1 & H2 & H3 & H4). cbv zeta in *.
  set (b := foldl _ _ _) in *. cbn in *.
  destruct (FFB_Finish_ok c Hc b) as (d & nl & HF & Hnl & H32 & Hd & Ht).
  - by rewrite H2.
  - rewrite H1. lia.
  - destruct keys as [|key keys]; [done|]. intros E. assert (Hin : BloomHash key ∈ hash_entries_ b) by (apply H3; right; left).
    rewrite E in Hin. by apply elem_of_nil in Hin.
  - unfold zlen in *. lia.
  - cbv zeta in *. rewrite H2 in *. exists (d ++ byte.of_Z (initialize scaled) :: EncodeFixed32 nl). eexists. split; [done|].
    split; [by apply FFR_make_ok|]. intros key Hk. apply (FFR_match c Hc d nl); try done.
    apply Ht, H3. right. by apply list_elem_of_fmap_2.
Qed.

Lemma bloom_no_false_negatives_witness :
  exists filter, CreateFilter 10 (initialize 6) [[Byte.x61]; [Byte.x62; Byte.xff]; []] [] = Some filter /\
    KeyMayMatch [Byte.x62; Byte.xff] filter = Some true /\ KeyMayMatch [Byte.x63] filter = Some false.
Proof.
  destruct (bloom_no_false_negatives [[Byte.x61]; [Byte.x62; Byte.xff]; []] 10 6 6) as [(filter & HF & Hk) _]; [lia|done|lia|].
  exists filter. split; [exact HF|]. split; [apply Hk; right; left|]. vm_compute in HF. injection HF as <-. vm_compute. reflexivity.
Defined.
