(* ===== verification/BlockBuilder.v ===== *)
(** * Building blocks (table/block_builder.cc, table/data_block_hash_index.cc, table/data_block_footer.cc)

    Entries with their keys compressed against the key before, restart points where a key is
    whole, the array of restart points, an optional hash index of the user keys, and the
    footer. *)

From S2P Require Import Prelude Coding Comparator DbFormat Bloom.

(** ** The footer *)

Inductive DataBlockIndexType := kDataBlockBinarySearch | kDataBlockBinaryAndHash.

Definition kDataBlockIndexTypeBitShift : Z := 31.
Definition kMaxNumRestarts : Z := Z.shiftl 1 kDataBlockIndexTypeBitShift - 1.
Definition kNumRestartsMask : Z := Z.shiftl 1 kDataBlockIndexTypeBitShift - 1.

(** [None] is a failed assertion. *)
Definition PackIndexTypeAndNumRestarts (index_type : DataBlockIndexType) (num_restarts : Z) : option Z :=
  if kMaxNumRestarts <? num_restarts then None else
  Some (match index_type with
        | kDataBlockBinaryAndHash => Z.lor num_restarts (Z.shiftl 1 kDataBlockIndexTypeBitShift)
        | kDataBlockBinarySearch => num_restarts
        end).

Definition UnPackIndexTypeAndNumRestarts (block_footer : Z) : DataBlockIndexType * Z :=
  (if negb (Z.land block_footer (Z.shiftl 1 kDataBlockIndexTypeBitShift) =? 0) then kDataBlockBinaryAndHash else kDataBlockBinarySearch,
   Z.land block_footer kNumRestartsMask).

(** ** The hash index *)

Definition kNoEntry : Z := 255.
Definition kCollision : Z := 254.
Definition kMaxRestartSupportedByHashIndex : Z := 253.
Definition kMaxBlockSizeSupportedByHashIndex : Z := Z.shiftl 1 16.

Definition GetSliceHash (s : bytes) : Z := Hash s 397.

(** [valid_] and [hash_and_restart_pairs_]; the estimate of the buckets is a sum of doubles and depends on the number of pairs
    alone. *)
Record DataBlockHashIndexBuilder := mkHIB { hib_valid_ : bool; hash_and_restart_pairs_ : list (Z * Z) }.

Section Builder.
(** [static_cast<uint16_t>(estimated_num_buckets_)] after so many keys. *)
Context (estimated_num_buckets : nat -> Z).

Definition HIB_Add (key : bytes) (restart_index : Z) (b : DataBlockHashIndexBuilder) : DataBlockHashIndexBuilder :=
  if kMaxRestartSupportedByHashIndex <? restart_index then mkHIB false (hash_and_restart_pairs_ b)
  else mkHIB (hib_valid_ b) (hash_and_restart_pairs_ b ++ [(GetSliceHash key, restart_index)]).

Definition HIB_num_buckets (b : DataBlockHashIndexBuilder) : Z := Z.lor (estimated_num_buckets (length (hash_and_restart_pairs_ b))) 1.

Definition HIB_EstimateSize (b : DataBlockHashIndexBuilder) : Z := 2 + HIB_num_buckets b.

Definition put_bucket (num_buckets : Z) (buckets : list Z) '((hash_value, restart_index) : Z * Z) : option (list Z) :=
  let buck_idx := wrap 16 (hash_value mod num_buckets) in
  b ← buckets !z buck_idx;
  if b =? kNoEntry then zset buckets buck_idx restart_index
  else if negb (b =? restart_index) then zset buckets buck_idx kCollision
  else Some buckets.

(** What [Finish] appends; the assertion is on the size of the whole buffer. *)
Definition HIB_Finish (b : DataBlockHashIndexBuilder) (buffer : bytes) : option bytes :=
  let num_buckets := HIB_num_buckets b in
  buckets ← fold_opt (put_bucket num_buckets) (replicate (Z.to_nat num_buckets) kNoEntry) (hash_and_restart_pairs_ b);
  let buffer := PutFixed16 (buffer ++ (byte.of_Z <$> buckets)) num_buckets in
  if len buffer <=? kMaxBlockSizeSupportedByHashIndex then Some buffer else None.

(** ** The builder *)

Record BlockBuilder := mkBB {
  block_restart_interval_ : Z;
  use_delta_encoding_ : bool;
  use_value_delta_encoding_ : bool;
  bb_buffer_ : bytes;
  bb_restarts_ : list Z;
  bb_estimate_ : Z;
  bb_counter_ : Z;
  bb_finished_ : bool;
  bb_last_key_ : bytes;
  bb_hash : DataBlockHashIndexBuilder
}.

Definition BlockBuilder_make (interval : Z) (delta value_delta : bool) (index_type : DataBlockIndexType) : option BlockBuilder :=
  if interval <? 1 then None else
  Some (mkBB interval delta value_delta [] [0] 8 0 false []
          (mkHIB (match index_type with kDataBlockBinarySearch => false | kDataBlockBinaryAndHash => true end) [])).

(** A hash index that became invalid stays so. *)
Definition BB_Reset (b : BlockBuilder) : BlockBuilder :=
  mkBB (block_restart_interval_ b) (use_delta_encoding_ b) (use_value_delta_encoding_ b) [] [0] 8 0 false []
    (if hib_valid_ (bb_hash b) then mkHIB true [] else bb_hash b).

Definition CurrentSizeEstimate (b : BlockBuilder) : Z :=
  bb_estimate_ b + (if hib_valid_ (bb_hash b) then HIB_EstimateSize (bb_hash b) else 0).

Definition EstimateSizeAfterKV (key value : bytes) (b : BlockBuilder) : Z :=
  let full := negb (use_value_delta_encoding_ b) || (block_restart_interval_ b <=? bb_counter_ b) in
  CurrentSizeEstimate b + len key + (if full then len value else len value / 2) +
  (if block_restart_interval_ b <=? bb_counter_ b then 4 else 0) + 4 + VarintLength (len key) +
  (if full then VarintLength (len value) else 0).

(** The bytes of an entry. *)
Definition encode_entry (value_delta : bool) (shared : nat) (key value : bytes) (delta_value : bytes) : bytes :=
  let non_shared := len key - Z.of_nat shared in
  let header := if value_delta then PutVarint32Varint32 [] (wrap32 (Z.of_nat shared)) (wrap32 non_shared)
                else PutVarint32Varint32Varint32 [] (wrap32 (Z.of_nat shared)) (wrap32 non_shared) (wrap32 (len value)) in
  header ++ drop shared key ++ (if negb (Nat.eqb shared 0) && value_delta then delta_value else value).

Definition BB_Add (key value : bytes) (delta_value : option bytes) (b : BlockBuilder) : option BlockBuilder :=
  if bb_finished_ b || negb (bb_counter_ b <=? block_restart_interval_ b) ||
     (use_value_delta_encoding_ b && negb (bool_decide (is_Some delta_value))) || (hib_valid_ (bb_hash b) && (len key <? 8)) then None else
  let restart := block_restart_interval_ b <=? bb_counter_ b in
  let restarts := if restart then bb_restarts_ b ++ [wrap32 (len (bb_buffer_ b))] else bb_restarts_ b in
  let shared := if restart then 0%nat else if use_delta_encoding_ b then difference_offset key (bb_last_key_ b) else 0%nat in
  let entry := encode_entry (use_value_delta_encoding_ b) shared key value (default [] delta_value) in
  Some (mkBB (block_restart_interval_ b) (use_delta_encoding_ b) (use_value_delta_encoding_ b)
          (bb_buffer_ b ++ entry) restarts
          (bb_estimate_ b + (if restart then 4 else 0) + len entry)
          ((if restart then 0 else bb_counter_ b) + 1) false
          (if use_delta_encoding_ b then key else bb_last_key_ b)
          (if hib_valid_ (bb_hash b) then HIB_Add (ExtractUserKey key) (len restarts - 1) (bb_hash b) else bb_hash b)).

(** The contents of the block. *)
Definition BB_Finish (b : BlockBuilder) : option bytes :=
  let buffer := foldl PutFixed32 (bb_buffer_ b) (bb_restarts_ b) in
  let num_restarts := wrap32 (len (bb_restarts_ b)) in
  '(buffer, index_type) ←
    (if hib_valid_ (bb_hash b) && (CurrentSizeEstimate b <=? kMaxBlockSizeSupportedByHashIndex)
     then buffer ← HIB_Finish (bb_hash b) buffer; Some (buffer, kDataBlockBinaryAndHash)
     else Some (buffer, kDataBlockBinarySearch));
  block_footer ← PackIndexTypeAndNumRestarts index_type num_restarts;
  Some (PutFixed32 buffer block_footer).
End Builder.
