(* ===== verification/VersionEdit.v ===== *)
(** * Version edits (db/version_edit.h, db/version_edit.cc)

    File descriptors and metadata, the edit record and its manifest encoding,
    including the [kNewFile5] record that carries the location of a level-0 table
    in NVM.  A [has_x_] flag with its value [x_] is one [option]; decoding returns
    the corruption message or the edit. *)

From S2P Require Import Prelude Coding Comparator DbFormat.

(** ** Files *)

(** The asserted bounds of debug builds, [number <= kFileNumberMask] in [PackFileNumberAndPathId] and
    [smallest_seqno <= largest_seqno] in [AddFile], are obligations of the callers and not part of the definitions. *)

Definition kFileNumberMask : Z := 0x3FFFFFFFFFFFFFFF.

Definition PackFileNumberAndPathId (number path_id : Z) : Z :=
  Z.lor number (wrap64 (path_id * (kFileNumberMask + 1))).

Record FileDescriptor := mkFd {
  packed_number_and_path_id : Z;
  file_size : Z;
  smallest_seqno : Z;
  largest_seqno : Z;
}.

Definition FileDescriptor_make (number path_id size smallest largest : Z) : FileDescriptor :=
  mkFd (PackFileNumberAndPathId number path_id) size smallest largest.

Definition GetNumber (fd : FileDescriptor) : Z :=
  Z.land (packed_number_and_path_id fd) kFileNumberMask.

Definition GetPathId (fd : FileDescriptor) : Z :=
  wrap32 (packed_number_and_path_id fd / (kFileNumberMask + 1)).

Definition GetFileSize (fd : FileDescriptor) : Z := file_size fd.

(** The fields after [f_nvm_meta_size] are statistics and state of the file in a
    running database; they are not written to the manifest. *)
Record FileMetaData := mkFile {
  f_fd : FileDescriptor;
  f_smallest : bytes;
  f_largest : bytes;
  f_marked_for_compaction : bool;
  f_is_nvm_level0 : bool;
  f_first_key_index : Z;
  f_nvm_sstable_index : Z;
  f_keys_num : Z;
  f_key_point_filenum : Z;
  f_raw_file_size : Z;
  f_nvm_meta_size : Z;
  f_compensated_file_size : Z;
  f_num_entries : Z;
  f_num_deletions : Z;
  f_raw_key_size : Z;
  f_raw_value_size : Z;
  f_refs : Z;
  f_being_compacted : bool;
  f_init_stats_from_file : bool;
}.

(** A file with the given manifest fields and the constructor's other fields. *)
Definition new_file fd smallest largest marked nvm first_key index keys point raw meta
  : FileMetaData :=
  mkFile fd smallest largest marked nvm first_key index keys point raw meta
    0 0 0 0 0 0 false false.

Definition FileMetaData_default : FileMetaData :=
  new_file (FileDescriptor_make 0 0 0 kMaxSequenceNumber 0) [] [] false false 0 (-1) 0 0 0 0.

Definition fd_add_seqno (fd : FileDescriptor) (seqno : Z) : FileDescriptor :=
  mkFd (packed_number_and_path_id fd) (file_size fd)
    (Z.min (smallest_seqno fd) seqno) (Z.max (largest_seqno fd) seqno).

Definition file_set_bounds (f : FileMetaData) fd smallest largest : FileMetaData :=
  mkFile fd smallest largest (f_marked_for_compaction f) (f_is_nvm_level0 f)
    (f_first_key_index f) (f_nvm_sstable_index f) (f_keys_num f) (f_key_point_filenum f)
    (f_raw_file_size f) (f_nvm_meta_size f) (f_compensated_file_size f) (f_num_entries f)
    (f_num_deletions f) (f_raw_key_size f) (f_raw_value_size f) (f_refs f)
    (f_being_compacted f) (f_init_stats_from_file f).

Definition UpdateBoundaries (f : FileMetaData) (key : bytes) (seqno : Z) : FileMetaData :=
  file_set_bounds f (fd_add_seqno (f_fd f) seqno)
    (if len (f_smallest f) =? 0 then key else f_smallest f) key.

Definition UpdateBoundariesForRange (icmp : Comparator) (f : FileMetaData)
    (start end_ : bytes) (seqno : Z) : FileMetaData :=
  file_set_bounds f (fd_add_seqno (f_fd f) seqno)
    (if (len (f_smallest f) =? 0) || (Compare icmp start (f_smallest f) <? 0)
     then start else f_smallest f)
    (if (len (f_largest f) =? 0) || (Compare icmp (f_largest f) end_ <? 0)
     then end_ else f_largest f).

(** ** The edit *)

(** [std::set<std::pair<int, uint64_t>>], iterated in increasing order. *)
Fixpoint DeletedFileSet_insert (x : Z * Z) (s : list (Z * Z)) : list (Z * Z) :=
  match s with
  | [] => [x]
  | y :: s' =>
      if (x.1 <? y.1) || ((x.1 =? y.1) && (x.2 <? y.2)) then x :: s
      else if (x.1 =? y.1) && (x.2 =? y.2) then s
      else y :: DeletedFileSet_insert x s'
  end.

Record VersionEdit := mkEdit {
  ve_max_level : Z;
  ve_comparator : option bytes;
  ve_log_number : option Z;
  ve_prev_log_number : option Z;
  ve_next_file_number : option Z;
  ve_last_sequence : option Z;
  ve_max_column_family : option Z;
  ve_min_log_number_to_keep : option Z;
  ve_deleted_files : list (Z * Z);
  ve_new_files : list (Z * FileMetaData);
  ve_column_family : Z;
  ve_column_family_add : option bytes;
  ve_column_family_drop : bool;
  ve_atomic_group : option Z;
}.

Definition VersionEdit_Clear : VersionEdit :=
  mkEdit 0 None None None None None None None [] [] 0 None false None.

Definition ve_set_max_level (l : Z) '(mkEdit _ c lg pl nf ls mc ml df nw cf ca cd ag) :=
  mkEdit l c lg pl nf ls mc ml df nw cf ca cd ag.
Definition SetComparatorName (x : bytes) '(mkEdit l _ lg pl nf ls mc ml df nw cf ca cd ag) :=
  mkEdit l (Some x) lg pl nf ls mc ml df nw cf ca cd ag.
Definition SetLogNumber (x : Z) '(mkEdit l c _ pl nf ls mc ml df nw cf ca cd ag) :=
  mkEdit l c (Some x) pl nf ls mc ml df nw cf ca cd ag.
Definition SetPrevLogNumber (x : Z) '(mkEdit l c lg _ nf ls mc ml df nw cf ca cd ag) :=
  mkEdit l c lg (Some x) nf ls mc ml df nw cf ca cd ag.
Definition SetNextFile (x : Z) '(mkEdit l c lg pl _ ls mc ml df nw cf ca cd ag) :=
  mkEdit l c lg pl (Some x) ls mc ml df nw cf ca cd ag.
Definition SetLastSequence (x : Z) '(mkEdit l c lg pl nf _ mc ml df nw cf ca cd ag) :=
  mkEdit l c lg pl nf (Some x) mc ml df nw cf ca cd ag.
Definition SetMaxColumnFamily (x : Z) '(mkEdit l c lg pl nf ls _ ml df nw cf ca cd ag) :=
  mkEdit l c lg pl nf ls (Some x) ml df nw cf ca cd ag.
Definition SetMinLogNumberToKeep (x : Z) '(mkEdit l c lg pl nf ls mc _ df nw cf ca cd ag) :=
  mkEdit l c lg pl nf ls mc (Some x) df nw cf ca cd ag.
Definition DeleteFile (level file : Z) '(mkEdit l c lg pl nf ls mc ml df nw cf ca cd ag) :=
  mkEdit l c lg pl nf ls mc ml (DeletedFileSet_insert (level, file) df) nw cf ca cd ag.
Definition AddFileMeta (level : Z) (f : FileMetaData)
    '(mkEdit l c lg pl nf ls mc ml df nw cf ca cd ag) :=
  mkEdit l c lg pl nf ls mc ml df (nw ++ [(level, f)]) cf ca cd ag.
Definition SetColumnFamily (x : Z) '(mkEdit l c lg pl nf ls mc ml df nw _ ca cd ag) :=
  mkEdit l c lg pl nf ls mc ml df nw x ca cd ag.
Definition AddColumnFamily (x : bytes) '(mkEdit l c lg pl nf ls mc ml df nw cf _ cd ag) :=
  mkEdit l c lg pl nf ls mc ml df nw cf (Some x) cd ag.
Definition DropColumnFamily '(mkEdit l c lg pl nf ls mc ml df nw cf ca _ ag) :=
  mkEdit l c lg pl nf ls mc ml df nw cf ca true ag.
Definition MarkAtomicGroup (x : Z) '(mkEdit l c lg pl nf ls mc ml df nw cf ca cd _) :=
  mkEdit l c lg pl nf ls mc ml df nw cf ca cd (Some x).

Definition AddFile (level file file_path_id size : Z) (smallest largest : bytes)
    (smallest_seqno largest_seqno : Z) (marked is_nvm_level0 : bool)
    (first_key_index nvm_sstable_index keys_num key_point_filenum raw_file_size nvm_meta_size : Z)
    (e : VersionEdit) : VersionEdit :=
  AddFileMeta level
    (new_file (FileDescriptor_make file file_path_id size smallest_seqno largest_seqno)
       smallest largest marked is_nvm_level0 first_key_index nvm_sstable_index keys_num
       key_point_filenum raw_file_size nvm_meta_size) e.

Definition NumEntries (e : VersionEdit) : Z := len (ve_new_files e) + len (ve_deleted_files e).

(** ** Encoding *)

Definition kComparator : Z := 1.
Definition kLogNumber : Z := 2.
Definition kNextFileNumber : Z := 3.
Definition kLastSequence : Z := 4.
Definition kCompactPointer : Z := 5.
Definition kDeletedFile : Z := 6.
Definition kNewFile : Z := 7.
Definition kPrevLogNumber : Z := 9.
Definition kMinLogNumberToKeep : Z := 10.
Definition kNewFile2 : Z := 100.
Definition kNewFile3 : Z := 102.
Definition kNewFile4 : Z := 103.
Definition kNewFile5 : Z := 104.
Definition kColumnFamily : Z := 200.
Definition kColumnFamilyAdd : Z := 201.
Definition kColumnFamilyDrop : Z := 202.
Definition kMaxColumnFamily : Z := 203.
Definition kInAtomicGroup : Z := 300.

Definition kTerminate : Z := 1.
Definition kNeedCompaction : Z := 2.
Definition kMinLogNumberToKeepHack : Z := 3.
Definition kPathId : Z := 65.
Definition kCustomTagNonSafeIgnoreMask : Z := Z.shiftl 1 6.

(** [if (has_x) Put(dst, x)]. *)
Definition put_opt {A} (put : bytes -> A -> bytes) (x : option A) (dst : bytes) : bytes :=
  match x with Some v => put dst v | None => dst end.

(** The customized fields of a file record and their terminator; [min_log] is the
    log number when it still has to be written. *)
Definition EncodeCustomFields (dst : bytes) (f : FileMetaData) (min_log : option Z) : bytes :=
  let path := GetPathId (f_fd f) in
  let dst := if negb (path =? 0) && negb (f_is_nvm_level0 f)
             then PutLengthPrefixedSlice (PutVarint32 dst kPathId) [byte.of_Z path] else dst in
  let dst := if f_marked_for_compaction f
             then PutLengthPrefixedSlice (PutVarint32 dst kNeedCompaction) [Byte.x01] else dst in
  let dst := put_opt (fun dst n =>
               PutLengthPrefixedSlice (PutVarint32 dst kMinLogNumberToKeepHack) (PutFixed64 [] n))
               min_log dst in
  PutVarint32 dst kTerminate.

(** One entry of [new_files_]: [has_min_log] is [has_min_log_number_to_keep_],
    [min_log] what is left to write of it; [None] when a bound is not a key. *)
Definition EncodeNewFile (dst : bytes) (level : Z) (f : FileMetaData) (has_min_log : bool)
    (min_log : option Z) : option bytes :=
  if negb (InternalKey_Valid (f_smallest f)) || negb (InternalKey_Valid (f_largest f)) then None
  else
    let path := GetPathId (f_fd f) in
    let has_customized_fields := f_marked_for_compaction f || has_min_log in
    let dst :=
      if f_is_nvm_level0 f then
        let dst := PutVarint32 dst kNewFile5 in
        let dst := PutVarint64 dst (f_first_key_index f) in
        let dst := PutVarint32 dst (wrap32 (f_nvm_sstable_index f)) in
        let dst := PutVarint64Varint64 dst (f_keys_num f) (f_key_point_filenum f) in
        let dst := PutVarint64 dst (f_raw_file_size f) in
        let dst := PutVarint64 dst (f_nvm_meta_size f) in
        let dst := PutVarint32 dst path in
        PutVarint32 dst (Z.b2z has_customized_fields)
      else if has_customized_fields then PutVarint32 dst kNewFile4
      else if path =? 0 then PutVarint32 dst kNewFile2
      else PutVarint32 dst kNewFile3 in
    let dst := PutVarint32Varint64 dst (wrap32 level) (GetNumber (f_fd f)) in
    let dst := if negb (path =? 0) && negb has_customized_fields && negb (f_is_nvm_level0 f)
               then PutVarint32 dst path else dst in
    let dst := PutVarint64 dst (GetFileSize (f_fd f)) in
    let dst := PutLengthPrefixedSlice dst (f_smallest f) in
    let dst := PutLengthPrefixedSlice dst (f_largest f) in
    let dst := PutVarint64Varint64 dst (smallest_seqno (f_fd f)) (largest_seqno (f_fd f)) in
    Some (if has_customized_fields then EncodeCustomFields dst f min_log else dst).

(** The loop over [new_files_]; the log number is written with the first file. *)
Fixpoint EncodeNewFiles (dst : bytes) (fs : list (Z * FileMetaData)) (has_min_log : bool)
    (min_log : option Z) : option bytes :=
  match fs with
  | [] => Some dst
  | (level, f) :: fs =>
      dst ← EncodeNewFile dst level f has_min_log min_log;
      EncodeNewFiles dst fs has_min_log None
  end.

Definition EncodeTo (e : VersionEdit) (dst : bytes) : option bytes :=
  let dst := put_opt (fun d x => PutLengthPrefixedSlice (PutVarint32 d kComparator) x)
               (ve_comparator e) dst in
  let dst := put_opt (fun d x => PutVarint32Varint64 d kLogNumber x) (ve_log_number e) dst in
  let dst := put_opt (fun d x => PutVarint32Varint64 d kPrevLogNumber x) (ve_prev_log_number e) dst in
  let dst := put_opt (fun d x => PutVarint32Varint64 d kNextFileNumber x) (ve_next_file_number e) dst in
  let dst := put_opt (fun d x => PutVarint32Varint64 d kLastSequence x) (ve_last_sequence e) dst in
  let dst := put_opt (fun d x => PutVarint32Varint32 d kMaxColumnFamily x)
               (ve_max_column_family e) dst in
  let dst := foldl (fun d del => PutVarint32Varint32Varint64 d kDeletedFile (wrap32 del.1) del.2)
               dst (ve_deleted_files e) in
  dst ← EncodeNewFiles dst (ve_new_files e)
          (match ve_min_log_number_to_keep e with Some _ => true | None => false end)
          (ve_min_log_number_to_keep e);
  let dst := if negb (ve_column_family e =? 0)
             then PutVarint32Varint32 dst kColumnFamily (ve_column_family e) else dst in
  let dst := put_opt (fun d x => PutLengthPrefixedSlice (PutVarint32 d kColumnFamilyAdd) x)
               (ve_column_family_add e) dst in
  let dst := if ve_column_family_drop e then PutVarint32 dst kColumnFamilyDrop else dst in
  Some (put_opt (fun d x => PutVarint32 (PutVarint32 d kInAtomicGroup) x) (ve_atomic_group e) dst).

(** ** Decoding *)

Definition GetInternalKey (input : bytes) : option (bytes * bytes) :=
  '(str, input) ← GetLengthPrefixedSlice input;
  if InternalKey_Valid str then Some (str, input) else None.

(** The level as an [int]; the caller records it with [note_level]. *)
Definition GetLevel (input : bytes) : option (Z * bytes) :=
  '(v, input) ← GetVarint32 input; Some (i32 v, input).

Definition note_level (level : Z) (e : VersionEdit) : VersionEdit :=
  if ve_max_level e <? level then ve_set_max_level level e else e.

(** The fields every file record ends its fixed part with, from the file size on. *)
Record file_tail := mkTail {
  ft_size : Z; ft_smallest : bytes; ft_largest : bytes; ft_smallest_seqno : Z; ft_largest_seqno : Z;
}.

Definition get_file_tail (input : bytes) : option (file_tail * bytes) :=
  '(size, input) ← GetVarint64 input;
  '(smallest, input) ← GetInternalKey input;
  '(largest, input) ← GetInternalKey input;
  '(sseq, input) ← GetVarint64 input;
  '(lseq, input) ← GetVarint64 input;
  Some (mkTail size smallest largest sseq lseq, input).

Definition tail_fd (number path_id : Z) (t : file_tail) : FileDescriptor :=
  FileDescriptor_make number path_id (ft_size t) (ft_smallest_seqno t) (ft_largest_seqno t).

(** What the customized fields set. *)
Record custom := mkCustom { cu_path_id : Z; cu_marked : bool; cu_min_log : option Z }.

Definition first_char (field : bytes) : Z :=
  match field with b :: _ => byte_signed b | [] => 0 end.

(** The switch on the tag of one customized field; [nf5] selects the case for
    [kPathId] of [DecodeNewFile5From], which rejects the field. *)
Definition DecodeCustomField (nf5 : bool) (custom_tag : Z) (field : bytes) (c : custom)
  : string + custom :=
  if custom_tag =? kPathId then
    if nf5 then inl "path_id field wrong "%string
    else if negb (len field =? 1) then inl "path_id field wrong size"%string
    else let path_id := wrap32 (first_char field) in
         if 3 <? path_id then inl "path_id wrong vaue"%string
         else inr (mkCustom path_id (cu_marked c) (cu_min_log c))
  else if custom_tag =? kNeedCompaction then
    if negb (len field =? 1) then inl "need_compaction field wrong size"%string
    else inr (mkCustom (cu_path_id c) (first_char field =? 1) (cu_min_log c))
  else if custom_tag =? kMinLogNumberToKeepHack then
    match GetFixed64 field with
    | None => inl "deleted log number malformatted"%string
    | Some (n, _) => inr (mkCustom (cu_path_id c) (cu_marked c) (Some n))
    end
  else if negb (Z.land custom_tag kCustomTagNonSafeIgnoreMask =? 0)
  then inl "new-file4 custom field not supported"%string
  else inr c.

(** The [while (true)] loop over the fields; every round consumes a byte, so
    [fuel] above the length of the input is never used up. *)
Fixpoint DecodeCustomFields (fuel : nat) (nf5 : bool) (input : bytes) (c : custom)
  : string + (custom * bytes) :=
  match fuel with
  | O => inl "new-file4 custom field"%string
  | S fuel =>
      match GetVarint32 input with
      | None => inl "new-file4 custom field"%string
      | Some (custom_tag, input) =>
          if custom_tag =? kTerminate then inr (c, input)
          else match GetLengthPrefixedSlice input with
               | None => inl "new-file4 custom field lenth prefixed slice error"%string
               | Some (field, input) =>
                   match DecodeCustomField nf5 custom_tag field c with
                   | inl msg => inl msg
                   | inr c => DecodeCustomFields fuel nf5 input c
                   end
               end
      end
  end.

Definition note_min_log (c : custom) (e : VersionEdit) : VersionEdit :=
  match cu_min_log c with Some n => SetMinLogNumberToKeep n e | None => e end.

(** [x ← o; k], failing with message [m]. *)
Definition or_msg {A B} (m : string) (o : option A) (k : A -> string + B) : string + B :=
  match o with Some x => k x | None => inl m end.

Definition DecodeNewFile4From (input : bytes) (e : VersionEdit) : string + (VersionEdit * bytes) :=
  or_msg "new-file4 entry"
    ('(level, input) ← GetLevel input;
     '(number, input) ← GetVarint64 input;
     '(t, input) ← get_file_tail input;
     Some (level, number, t, input))
    (fun '(level, number, t, input) =>
       match DecodeCustomFields (S (length input)) false input (mkCustom 0 false None) with
       | inl msg => inl msg
       | inr (c, input) =>
           inr (AddFileMeta level
                  (new_file (tail_fd number (cu_path_id c) t) (ft_smallest t) (ft_largest t)
                     (cu_marked c) false 0 (-1) 0 0 0 0)
                  (note_min_log c (note_level level e)), input)
       end).

(** [has_customized_fields] is a [bool] the varint is stored over: its first byte. *)
Definition DecodeNewFile5From (input : bytes) (e : VersionEdit) : string + (VersionEdit * bytes) :=
  or_msg "new-file5 entry"
    ('(first_key_index, input) ← GetVarint64 input;
     '(nvm_sstable_index, input) ← GetVarint32 input;
     '(keys_num, input) ← GetVarint64 input;
     '(key_point_filenum, input) ← GetVarint64 input;
     '(raw_file_size, input) ← GetVarint64 input;
     '(nvm_meta_size, input) ← GetVarint64 input;
     '(path_id, input) ← GetVarint32 input;
     '(customized, input) ← GetVarint32 input;
     '(level, input) ← GetLevel input;
     '(number, input) ← GetVarint64 input;
     '(t, input) ← get_file_tail input;
     Some (customized, level,
           fun marked => new_file (tail_fd number path_id t) (ft_smallest t) (ft_largest t) marked
                           true first_key_index (i32 nvm_sstable_index) keys_num
                           key_point_filenum raw_file_size nvm_meta_size, input))
    (fun '(customized, level, f, input) =>
       let has_customized_fields := negb (Z.land customized 0xff =? 0) in
       match (if has_customized_fields
              then DecodeCustomFields (S (length input)) true input (mkCustom 0 false None)
              else inr (mkCustom 0 false None, input)) with
       | inl msg => inl msg
       | inr (c, input) =>
           inr (AddFileMeta level (f (cu_marked c)) (note_min_log c (note_level level e)), input)
       end).

(** The body of one case of the switch: the value is read and stored. *)
Definition dec_case {A} (msg : string) (get : bytes -> option (A * bytes))
    (store : A -> VersionEdit -> VersionEdit) (input : bytes) (e : VersionEdit)
  : string + (VersionEdit * bytes) :=
  or_msg msg (get input) (fun '(x, input) => inr (store x e, input)).

(** [kNewFile], [kNewFile2] and [kNewFile3]. *)
Definition get_new_file (input : bytes) : option (Z * FileMetaData * bytes) :=
  '(level, input) ← GetLevel input;
  '(number, input) ← GetVarint64 input;
  '(size, input) ← GetVarint64 input;
  '(smallest, input) ← GetInternalKey input;
  '(largest, input) ← GetInternalKey input;
  Some (level, new_file (FileDescriptor_make number 0 size kMaxSequenceNumber 0) smallest largest
                 false false 0 (-1) 0 0 0 0, input).

Definition get_new_file23 (with_path : bool) (input : bytes) : option (Z * FileMetaData * bytes) :=
  '(level, input) ← GetLevel input;
  '(number, input) ← GetVarint64 input;
  '(path_id, input) ← (if with_path then GetVarint32 input else Some (0, input));
  '(t, input) ← get_file_tail input;
  Some (level, new_file (tail_fd number path_id t) (ft_smallest t) (ft_largest t)
                 false false 0 (-1) 0 0 0 0, input).

Definition store_file (lf : Z * FileMetaData) (e : VersionEdit) : VersionEdit :=
  AddFileMeta lf.1 lf.2 (note_level lf.1 e).

Definition get_compact_pointer (input : bytes) : option (Z * bytes) :=
  '(level, input) ← GetLevel input;
  '(_, input) ← GetInternalKey input;
  Some (level, input).

Definition get_deleted_file (input : bytes) : option (Z * Z * bytes) :=
  '(level, input) ← GetLevel input;
  '(number, input) ← GetVarint64 input;
  Some (level, number, input).

Definition store_deleted (ln : Z * Z) (e : VersionEdit) : VersionEdit :=
  DeleteFile ln.1 ln.2 (note_level ln.1 e).

(** The switch of [DecodeFrom]. *)
Definition DecodeTag (tag : Z) (input : bytes) (e : VersionEdit) : string + (VersionEdit * bytes) :=
  if tag =? kComparator then
    dec_case "comparator name" GetLengthPrefixedSlice SetComparatorName input e
  else if tag =? kLogNumber then dec_case "log number" GetVarint64 SetLogNumber input e
  else if tag =? kPrevLogNumber then
    dec_case "previous log number" GetVarint64 SetPrevLogNumber input e
  else if tag =? kNextFileNumber then dec_case "next file number" GetVarint64 SetNextFile input e
  else if tag =? kLastSequence then
    dec_case "last sequence number" GetVarint64 SetLastSequence input e
  else if tag =? kMaxColumnFamily then
    dec_case "max column family" GetVarint32 SetMaxColumnFamily input e
  else if tag =? kMinLogNumberToKeep then
    dec_case "min log number to kee" GetVarint64 SetMinLogNumberToKeep input e
  else if tag =? kCompactPointer then
    dec_case "compaction pointer" get_compact_pointer note_level input e
  else if tag =? kDeletedFile then dec_case "deleted file" get_deleted_file store_deleted input e
  else if tag =? kNewFile then dec_case "new-file entry" get_new_file store_file input e
  else if tag =? kNewFile2 then
    dec_case "new-file2 entry" (get_new_file23 false) store_file input e
  else if tag =? kNewFile3 then
    dec_case "new-file3 entry" (get_new_file23 true) store_file input e
  else if tag =? kNewFile4 then DecodeNewFile4From input e
  else if tag =? kNewFile5 then DecodeNewFile5From input e
  else if tag =? kColumnFamily then
    dec_case "set column family id" GetVarint32 SetColumnFamily input e
  else if tag =? kColumnFamilyAdd then
    dec_case "column family add" GetLengthPrefixedSlice AddColumnFamily input e
  else if tag =? kColumnFamilyDrop then inr (DropColumnFamily e, input)
  else if tag =? kInAtomicGroup then
    dec_case "remaining entries" GetVarint32 MarkAtomicGroup input e
  else inl "unknown tag"%string.

(** The loop of [DecodeFrom]; [fuel] above the length of the input is never used up. *)
Fixpoint DecodeFrom_loop (fuel : nat) (input : bytes) (e : VersionEdit) : string + VersionEdit :=
  match fuel with
  | O => inl "invalid tag"%string
  | S fuel =>
      match GetVarint32 input with
      | None => if len input =? 0 then inr e else inl "invalid tag"%string
      | Some (tag, input) =>
          match DecodeTag tag input e with
          | inl msg => inl msg
          | inr (e, input) => DecodeFrom_loop fuel input e
          end
      end
  end.

Definition DecodeFrom (src : bytes) : string + VersionEdit :=
  DecodeFrom_loop (S (length src)) src VersionEdit_Clear.

(** ** Decoding terminates: the readers consume input *)

(** A reader that never gives back more than it was given. *)
Class Shrinks {A} (get : bytes -> option (A * bytes)) : Prop :=
  shrinks i a i' : get i = Some (a, i') -> (length i' <= length i)%nat.

Lemma GetVarintPtr_loop_shrinks last w p shift r v p' :
  GetVarintPtr_loop last w p shift r = Some (v, p') -> (length p' < length p)%nat.
Proof.
  revert shift r. induction p as [|b p IH]; intros shift r; simpl; [done|].
  destruct (shift <=? last); [|done]. destruct (negb _).
  - intros H%IH. lia.
  - intros [= _ <-]. lia.
Qed.

Lemma GetVarint32_shrinks i v i' : GetVarint32 i = Some (v, i') -> (length i' < length i)%nat.
Proof.
  unfold GetVarint32, GetVarint32Ptr. destruct i as [|b i]; [done|].
  destruct (_ =? 0); [intros [= _ <-]; simpl; lia|apply GetVarintPtr_loop_shrinks].
Qed.

Lemma GetLengthPrefixedSlice_shrinks i v i' :
  GetLengthPrefixedSlice i = Some (v, i') -> (length i' < length i)%nat.
Proof.
  unfold GetLengthPrefixedSlice. intros H. inv_bind H. destruct x as [n rest].
  apply GetVarint32_shrinks in E. guard_cases_in H; [|done].
  injection H as _ <-. rewrite length_drop. lia.
Qed.

#[export] Instance GetVarint32_Shrinks : Shrinks GetVarint32.
Proof. intros i v i' H%GetVarint32_shrinks. lia. Qed.

#[export] Instance GetVarint64_Shrinks : Shrinks GetVarint64.
Proof. intros i v i' H%GetVarintPtr_loop_shrinks. lia. Qed.

#[export] Instance GetLengthPrefixedSlice_Shrinks : Shrinks GetLengthPrefixedSlice.
Proof. intros i v i' H%GetLengthPrefixedSlice_shrinks. lia. Qed.

(** Follows the readers of a record one after the other. *)
Ltac shrink_step :=
  match goal with
  | H : mbind _ (?g ?i) = Some _ |- _ =>
      let x := fresh "x" in let i' := fresh "i" in let E := fresh "E" in
      destruct (g i) as [[x i']|] eqn:E; simpl in H; [apply shrinks in E | discriminate H]
  | H : Some _ = Some _ |- _ => injection H; clear H; intros; subst
  | H : None = Some _ |- _ => discriminate H
  | H : (if ?b then _ else _) = Some _ |- _ => destruct b
  end.
Ltac solve_shrinks := intros ? ? ? ?H; repeat shrink_step; lia.

#[export] Instance GetInternalKey_Shrinks : Shrinks GetInternalKey.
Proof. unfold GetInternalKey. solve_shrinks. Qed.
#[export] Instance GetLevel_Shrinks : Shrinks GetLevel.
Proof. unfold GetLevel. solve_shrinks. Qed.
#[export] Instance get_file_tail_Shrinks : Shrinks get_file_tail.
Proof. unfold get_file_tail. solve_shrinks. Qed.
#[export] Instance get_new_file_Shrinks : Shrinks get_new_file.
Proof. unfold get_new_file. solve_shrinks. Qed.
#[export] Instance get_new_file23_Shrinks b : Shrinks (get_new_file23 b).
Proof. unfold get_new_file23. destruct b; simpl; solve_shrinks. Qed.
#[export] Instance get_compact_pointer_Shrinks : Shrinks get_compact_pointer.
Proof. unfold get_compact_pointer. solve_shrinks. Qed.
#[export] Instance get_deleted_file_Shrinks : Shrinks get_deleted_file.
Proof. unfold get_deleted_file. solve_shrinks. Qed.

Lemma DecodeCustomFields_shrinks fuel nf5 i c c' i' :
  DecodeCustomFields fuel nf5 i c = inr (c', i') -> (length i' <= length i)%nat.
Proof.
  revert i c. induction fuel as [|fuel IH]; intros i c H; simpl in H; [done|].
  destruct (GetVarint32 i) as [[t i1]|] eqn:E1; [|done].
  apply shrinks in E1. destruct (t =? kTerminate); [injection H as _ <-; lia|].
  destruct (GetLengthPrefixedSlice i1) as [[f i2]|] eqn:E2; [|done]. apply shrinks in E2.
  destruct (DecodeCustomField _ _ _ _); [done|]. apply IH in H. lia.
Qed.

Lemma DecodeCustomFields_fuel n m nf5 i c :
  (length i < n)%nat -> (length i < m)%nat ->
  DecodeCustomFields n nf5 i c = DecodeCustomFields m nf5 i c.
Proof.
  revert m i c. induction n as [|n IH]; intros [|m] i c ??; simpl; try lia.
  destruct (GetVarint32 i) as [[t i1]|] eqn:E1; [|done].
  apply GetVarint32_shrinks in E1. destruct (t =? kTerminate); [done|].
  destruct (GetLengthPrefixedSlice i1) as [[f i2]|] eqn:E2; [|done]. apply shrinks in E2.
  destruct (DecodeCustomField _ _ _ _); [done|]. apply IH; lia.
Qed.

Lemma dec_case_shrinks {A} msg get `{@Shrinks A get} store i e e' i' :
  dec_case msg get store i e = inr (e', i') -> (length i' <= length i)%nat.
Proof.
  unfold dec_case, or_msg. destruct (get i) as [[x i1]|] eqn:E; [|done].
  apply shrinks in E. by intros [= _ <-].
Qed.

Lemma DecodeNewFile4From_shrinks i e e' i' :
  DecodeNewFile4From i e = inr (e', i') -> (length i' <= length i)%nat.
Proof.
  unfold DecodeNewFile4From, or_msg. destruct (mbind _ _) as [[[[l n] t] i1]|] eqn:E; [|done].
  assert (length i1 <= length i)%nat by (repeat shrink_step; lia).
  destruct (DecodeCustomFields _ _ _ _) as [|[c i2]] eqn:E2; [done|].
  apply DecodeCustomFields_shrinks in E2. intros [= _ <-]. lia.
Qed.

Lemma DecodeNewFile5From_shrinks i e e' i' :
  DecodeNewFile5From i e = inr (e', i') -> (length i' <= length i)%nat.
Proof.
  unfold DecodeNewFile5From, or_msg. destruct (mbind _ _) as [[[[l n] t] i1]|] eqn:E; [|done].
  assert (length i1 <= length i)%nat by (repeat shrink_step; lia).
  destruct (negb _).
  - destruct (DecodeCustomFields _ _ _ _) as [|[c i2]] eqn:E2; [done|].
    apply DecodeCustomFields_shrinks in E2. intros [= _ <-]. lia.
  - intros [= _ <-]. lia.
Qed.

Lemma DecodeTag_shrinks tag i e e' i' :
  DecodeTag tag i e = inr (e', i') -> (length i' <= length i)%nat.
Proof.
  unfold DecodeTag.
  repeat (destruct (tag =? _);
    [solve [apply dec_case_shrinks; apply _ | apply DecodeNewFile4From_shrinks
           | apply DecodeNewFile5From_shrinks | intros [= _ <-]; lia]|]).
  done.
Qed.

Lemma DecodeFrom_loop_fuel n m i e :
  (length i < n)%nat -> (length i < m)%nat -> DecodeFrom_loop n i e = DecodeFrom_loop m i e.
Proof.
  revert m i e. induction n as [|n IH]; intros [|m] i e ??; simpl; try lia.
  destruct (GetVarint32 i) as [[t i1]|] eqn:E1; [|done].
  apply GetVarint32_shrinks in E1.
  destruct (DecodeTag _ _ _) as [|[e2 i2]] eqn:E2; [done|].
  apply DecodeTag_shrinks in E2. apply IH; lia.
Qed.

(** ** What survives a trip through the manifest *)

(** The fields a file record carries. *)
Definition saved_file (f : FileMetaData) : FileMetaData :=
  if f_is_nvm_level0 f then
    new_file (f_fd f) (f_smallest f) (f_largest f) (f_marked_for_compaction f) true
      (f_first_key_index f) (f_nvm_sstable_index f) (f_keys_num f) (f_key_point_filenum f)
      (f_raw_file_size f) (f_nvm_meta_size f)
  else
    new_file (f_fd f) (f_smallest f) (f_largest f) (f_marked_for_compaction f) false 0 (-1) 0 0 0 0.

Definition levels_of (e : VersionEdit) : list Z :=
  map fst (ve_deleted_files e) ++ map fst (ve_new_files e).

(** The edit that is read back: [min_log_number_to_keep_] travels with the first
    new file only. *)
Definition saved_edit (e : VersionEdit) : VersionEdit :=
  mkEdit (foldl Z.max 0 (levels_of e)) (ve_comparator e) (ve_log_number e) (ve_prev_log_number e)
    (ve_next_file_number e) (ve_last_sequence e) (ve_max_column_family e)
    (match ve_new_files e with [] => None | _ => ve_min_log_number_to_keep e end)
    (ve_deleted_files e) (prod_map id saved_file <$> ve_new_files e)
    (ve_column_family e) (ve_column_family_add e) (ve_column_family_drop e) (ve_atomic_group e).

Definition int_range (z : Z) : Prop := - 2 ^ 31 <= z < 2 ^ 31.

(** The values of a file's fields are those of their C++ types. *)
Record file_wf (f : FileMetaData) : Prop := {
  fw_packed : u64 (packed_number_and_path_id (f_fd f));
  fw_size : u64 (file_size (f_fd f));
  fw_sseq : u64 (smallest_seqno (f_fd f));
  fw_lseq : u64 (largest_seqno (f_fd f));
  fw_smallest : len (f_smallest f) < 2 ^ 32;
  fw_largest : len (f_largest f) < 2 ^ 32;
  fw_first : u64 (f_first_key_index f);
  fw_index : int_range (f_nvm_sstable_index f);
  fw_keys : u64 (f_keys_num f);
  fw_point : u64 (f_key_point_filenum f);
  fw_raw : u64 (f_raw_file_size f);
  fw_meta : u64 (f_nvm_meta_size f);
}.

Definition pair_lt (x y : Z * Z) : Prop := x.1 < y.1 \/ x.1 = y.1 /\ x.2 < y.2.

Definition opt_all {A} (P : A -> Prop) (o : option A) : Prop :=
  match o with Some x => P x | None => True end.

Record edit_wf (e : VersionEdit) : Prop := {
  ew_comparator : opt_all (fun x => len x < 2 ^ 32) (ve_comparator e);
  ew_log : opt_all u64 (ve_log_number e);
  ew_prev_log : opt_all u64 (ve_prev_log_number e);
  ew_next : opt_all u64 (ve_next_file_number e);
  ew_last : opt_all u64 (ve_last_sequence e);
  ew_max_cf : opt_all u32 (ve_max_column_family e);
  ew_min_log : opt_all u64 (ve_min_log_number_to_keep e);
  ew_deleted : Forall (fun d => int_range d.1 /\ u64 d.2) (ve_deleted_files e);
  ew_sorted : StronglySorted pair_lt (ve_deleted_files e);
  ew_files : Forall (fun lf => int_range lf.1 /\ file_wf lf.2) (ve_new_files e);
  ew_cf : u32 (ve_column_family e);
  ew_add : opt_all (fun x => len x < 2 ^ 32) (ve_column_family_add e);
  ew_atomic : opt_all u32 (ve_atomic_group e);
}.

Lemma DeletedFileSet_insert_in x y s : y ∈ DeletedFileSet_insert x s <-> y = x \/ y ∈ s.
Proof.
  induction s as [|z s IH]; simpl; [set_solver|]. destruct (_ || _); [set_solver|].
  destruct (Z.eqb_spec x.1 z.1), (Z.eqb_spec x.2 z.2); simpl; try (rewrite !elem_of_cons, IH; tauto).
  assert (x = z) as -> by (destruct x, z; simpl in *; by subst). set_solver.
Qed.

Lemma DeletedFileSet_insert_sorted x s :
  StronglySorted pair_lt s -> StronglySorted pair_lt (DeletedFileSet_insert x s).
Proof.
  induction s as [|z s IH]; intros Hs; simpl; [repeat constructor|]. apply StronglySorted_inv in Hs as [Hs Hz].
  destruct (Z.ltb_spec x.1 z.1), (Z.eqb_spec x.1 z.1), (Z.ltb_spec x.2 z.2), (Z.eqb_spec x.2 z.2); simpl; try lia;
    try (by constructor);
    try (constructor; [by constructor|]; constructor; [unfold pair_lt; lia|];
         eapply Forall_impl; [exact Hz|]; unfold pair_lt; intros; lia);
    (constructor; [by apply IH|]; apply Forall_forall; intros y [->|Hy]%DeletedFileSet_insert_in;
     [unfold pair_lt; lia|by rewrite Forall_forall in Hz; apply Hz]).
Qed.

Lemma u32_i32_wrap z : int_range z -> u32 (wrap32 z) /\ i32 (wrap32 z) = z.
Proof.
  unfold int_range, u32, wrap. intros. pose proof (Z.mod_pos_bound z (2 ^ 32)).
  split; [lia|]. unfold i32. rewrite Zplus_mod_idemp_l. rewrite Z.mod_small; lia.
Qed.

Lemma kFileNumberMask_ones : kFileNumberMask = Z.ones 62.
Proof. done. Qed.

Lemma GetNumber_u64 fd : u64 (packed_number_and_path_id fd) -> u64 (GetNumber fd).
Proof.
  unfold GetNumber. rewrite kFileNumberMask_ones, Z.land_ones by lia.
  pose proof (Z.mod_pos_bound (packed_number_and_path_id fd) (2 ^ 62)). zlia.
Qed.

Lemma GetPathId_range fd :
  u64 (packed_number_and_path_id fd) ->
  GetPathId fd = packed_number_and_path_id fd / 2 ^ 62 /\ 0 <= GetPathId fd < 4.
Proof.
  intros H. unfold GetPathId. change (kFileNumberMask + 1) with (2 ^ 62).
  assert (0 <= packed_number_and_path_id fd / 2 ^ 62 < 4).
  { split; [apply Z.div_pos; zlia | apply Z.div_lt_upper_bound; zlia]. }
  rewrite wrap_id by lia. done.
Qed.

(** A descriptor is rebuilt from its number and path. *)
Lemma FileDescriptor_make_Get fd :
  u64 (packed_number_and_path_id fd) ->
  FileDescriptor_make (GetNumber fd) (GetPathId fd) (file_size fd) (smallest_seqno fd)
    (largest_seqno fd) = fd.
Proof.
  intros H. destruct (GetPathId_range fd H) as [Hp Hr]. destruct fd as [p s a b].
  unfold FileDescriptor_make, PackFileNumberAndPathId. simpl in *. f_equal.
  change (kFileNumberMask + 1) with (2 ^ 62). rewrite wrap_id, Hp by lia.
  unfold GetNumber. simpl. rewrite kFileNumberMask_ones.
  rewrite <- Z.shiftl_mul_pow2, <- Z.shiftr_div_pow2 by lia.
  apply Z.bits_inj'. intros n Hn. rewrite Z.lor_spec, Z.land_spec, Z.shiftl_spec by lia.
  destruct (Z.ltb_spec n 62).
  - rewrite Z.ones_spec_low, (Z.testbit_neg_r _ (n - 62)) by lia. by rewrite andb_true_r, orb_false_r.
  - rewrite Z.ones_spec_high, Z.shiftr_spec by lia. rewrite andb_false_r. simpl. f_equal. lia.
Qed.

(** ** The encoder appends records *)

(** A writer that only appends. *)
Definition appends {A} (put : bytes -> A -> bytes) : Prop :=
  forall d v, put d v = d ++ put [] v.

Ltac solve_appends :=
  intros d v; unfold PutLengthPrefixedSlice, PutVarint32, PutVarint64, PutVarint32Varint64,
    PutVarint32Varint32, PutVarint32Varint32Varint64, PutVarint64Varint64, PutFixed64;
  by rewrite <- ?app_assoc.

Lemma put_opt_app {A} (put : bytes -> A -> bytes) x dst :
  appends put -> put_opt put x dst = dst ++ put_opt put x [].
Proof. intros H. destruct x as [v|]; simpl; [apply H|by rewrite app_nil_r]. Qed.

Lemma foldl_app_out {A} (put : bytes -> A -> bytes) xs dst :
  appends put -> foldl put dst xs = dst ++ foldl put [] xs.
Proof.
  intros H. revert dst. induction xs as [|x xs IH]; intros dst; simpl; [by rewrite app_nil_r|].
  rewrite (IH (put dst x)), (IH (put [] x)), (H dst x). by rewrite app_assoc.
Qed.

Lemma EncodeCustomFields_app dst f ml :
  EncodeCustomFields dst f ml = dst ++ EncodeCustomFields [] f ml.
Proof.
  unfold EncodeCustomFields, PutVarint32, PutLengthPrefixedSlice, PutVarint32.
  destruct (_ && _), (f_marked_for_compaction f), ml; simpl; by rewrite <- ?app_assoc.
Qed.

Lemma EncodeNewFile_app dst level f h ml :
  EncodeNewFile dst level f h ml = (dst ++.) <$> EncodeNewFile [] level f h ml.
Proof.
  unfold EncodeNewFile. destruct (_ || _); [done|]. simpl. f_equal.
  destruct (f_is_nvm_level0 f), (f_marked_for_compaction f || h), (GetPathId (f_fd f) =? 0); simpl;
    rewrite 1?EncodeCustomFields_app; rewrite 1?(EncodeCustomFields_app (PutVarint64Varint64 _ _ _));
    unfold PutLengthPrefixedSlice, PutVarint32, PutVarint64, PutVarint32Varint64, PutVarint64Varint64;
    by rewrite <- ?app_assoc.
Qed.

Lemma EncodeNewFiles_app dst fs h ml :
  EncodeNewFiles dst fs h ml = (dst ++.) <$> EncodeNewFiles [] fs h ml.
Proof.
  revert dst ml. induction fs as [|[level f] fs IH]; intros dst ml; simpl; [by rewrite app_nil_r|].
  rewrite EncodeNewFile_app. destruct (EncodeNewFile [] level f h ml) as [bs|]; simpl; [|done].
  rewrite (IH (dst ++ bs)), (IH bs). destruct (EncodeNewFiles [] fs h None); simpl; [|done].
  by rewrite app_assoc.
Qed.

Definition has_opt {A} (o : option A) : bool := match o with Some _ => true | None => false end.

(** The records of an edit, in the order they are written. *)
Lemma EncodeTo_records e out :
  EncodeTo e [] = Some out ->
  exists files,
    EncodeNewFiles [] (ve_new_files e) (has_opt (ve_min_log_number_to_keep e))
      (ve_min_log_number_to_keep e) = Some files /\
    out =
      put_opt (fun d x => PutLengthPrefixedSlice (PutVarint32 d kComparator) x) (ve_comparator e) [] ++
      put_opt (fun d x => PutVarint32Varint64 d kLogNumber x) (ve_log_number e) [] ++
      put_opt (fun d x => PutVarint32Varint64 d kPrevLogNumber x) (ve_prev_log_number e) [] ++
      put_opt (fun d x => PutVarint32Varint64 d kNextFileNumber x) (ve_next_file_number e) [] ++
      put_opt (fun d x => PutVarint32Varint64 d kLastSequence x) (ve_last_sequence e) [] ++
      put_opt (fun d x => PutVarint32Varint32 d kMaxColumnFamily x) (ve_max_column_family e) [] ++
      foldl (fun d del => PutVarint32Varint32Varint64 d kDeletedFile (wrap32 del.1) del.2) []
        (ve_deleted_files e) ++
      files ++
      (if negb (ve_column_family e =? 0)
       then PutVarint32Varint32 [] kColumnFamily (ve_column_family e) else []) ++
      put_opt (fun d x => PutLengthPrefixedSlice (PutVarint32 d kColumnFamilyAdd) x)
        (ve_column_family_add e) [] ++
      (if ve_column_family_drop e then PutVarint32 [] kColumnFamilyDrop else []) ++
      put_opt (fun d x => PutVarint32 (PutVarint32 d kInAtomicGroup) x) (ve_atomic_group e) [].
Proof.
  unfold EncodeTo. intros H. inv_bind H. injection H as <-.
  rewrite EncodeNewFiles_app in E. fold (has_opt (ve_min_log_number_to_keep e)) in E.
  destruct (EncodeNewFiles [] _ _ _) as [files|]; simpl in E; [|done].
  exists files. split; [done|]. injection E as <-.
  rewrite (put_opt_app _ (ve_atomic_group e)) by solve_appends.
  rewrite (put_opt_app _ (ve_column_family_add e)) by solve_appends.
  rewrite foldl_app_out by solve_appends.
  rewrite (put_opt_app _ (ve_max_column_family e)) by solve_appends.
  rewrite (put_opt_app _ (ve_last_sequence e)) by solve_appends.
  rewrite (put_opt_app _ (ve_next_file_number e)) by solve_appends.
  rewrite (put_opt_app _ (ve_prev_log_number e)) by solve_appends.
  rewrite (put_opt_app _ (ve_log_number e)) by solve_appends.
  destruct (negb _), (ve_column_family_drop e); unfold PutVarint32Varint32, PutVarint32;
    rewrite <- ?app_assoc; simpl; by rewrite ?app_nil_r.
Qed.

(** ** Each record is read back *)

#[local] Opaque EncodeVarint32 EncodeVarint64 EncodeFixed64.

(** [DecodeFrom] continuing from edit [e] with input [i] ends in [r]. *)
Definition decodes (e : VersionEdit) (i : bytes) (r : string + VersionEdit) : Prop :=
  DecodeFrom_loop (S (length i)) i e = r.

Lemma decodes_nil e : decodes e [] (inr e).
Proof. done. Qed.

Lemma decodes_tag tag i e e' i' r :
  u32 tag -> DecodeTag tag i e = inr (e', i') -> decodes e' i' r ->
  decodes e (EncodeVarint32 tag ++ i) r.
Proof.
  intros Ht Hd Hr. unfold decodes. simpl. rewrite GetVarint32_Encode, Hd by done.
  rewrite <- Hr. pose proof (DecodeTag_shrinks _ _ _ _ _ Hd). pose proof (EncodeVarint32_len tag Ht).
  apply DecodeFrom_loop_fuel; [|lia]. rewrite length_app. zlia.
Qed.

Lemma dec_case_ok {A} msg (get : bytes -> option (A * bytes)) store i e x i' :
  get i = Some (x, i') -> dec_case msg get store i e = inr (store x e, i').
Proof. intros H. unfold dec_case, or_msg. by rewrite H. Qed.

(** An optional field that is a tag and one value; [edit] is the edit as a function
    of the field. *)
Lemma decodes_opt {A} (P : A -> Prop) (edit : option A -> VersionEdit) tag msg get store put enc x rest r :
  (forall d v, put d v = d ++ EncodeVarint32 tag ++ enc v) ->
  (forall v rest, P v -> get (enc v ++ rest) = Some (v, rest)) ->
  (forall i e, DecodeTag tag i e = @dec_case A msg get store i e) ->
  (forall v, store v (edit None) = edit (Some v)) ->
  u32 tag -> opt_all P x -> decodes (edit x) rest r -> decodes (edit None) (put_opt put x [] ++ rest) r.
Proof.
  intros Hput Hget Htag Hst Hu Hx Hr. destruct x as [v|]; simpl in *; [|done].
  rewrite Hput. simpl. rewrite <- app_assoc. eapply decodes_tag; [done| |exact Hr].
  rewrite Htag, <- Hst. by apply dec_case_ok, Hget.
Qed.

Lemma DeletedFileSet_insert_last s x :
  Forall (fun y => pair_lt y x) s -> DeletedFileSet_insert x s = s ++ [x].
Proof.
  induction 1 as [|y s Hy Hs IH]; simpl; [done|]. rewrite IH. unfold pair_lt in Hy.
  replace ((x.1 <? y.1) || (x.1 =? y.1) && (x.2 <? y.2)) with false by lia.
  by replace ((x.1 =? y.1) && (x.2 =? y.2)) with false by lia.
Qed.

Lemma note_level_max level e :
  note_level level e = ve_set_max_level (Z.max (ve_max_level e) level) e.
Proof.
  unfold note_level. destruct e. simpl. destruct (Z.ltb_spec ve_max_level0 level); simpl; f_equal; lia.
Qed.

(** The edit after the deleted files [ds] are read. *)
Definition add_deleted (ds : list (Z * Z)) '(mkEdit l c lg pl nf ls mc ml df nw cf ca cd ag) :=
  mkEdit (foldl Z.max l (map fst ds)) c lg pl nf ls mc ml (df ++ ds) nw cf ca cd ag.

Lemma decodes_deleted ds e rest r :
  Forall (fun d => int_range d.1 /\ u64 d.2) ds ->
  StronglySorted pair_lt (ve_deleted_files e ++ ds) ->
  decodes (add_deleted ds e) rest r ->
  decodes e (foldl (fun d del => PutVarint32Varint32Varint64 d kDeletedFile (wrap32 del.1) del.2) [] ds
               ++ rest) r.
Proof.
  revert e. induction ds as [|[l n] ds IH]; intros e Hds Hs Hr; simpl.
  - destruct e. simpl in Hr. by rewrite app_nil_r in Hr.
  - inversion_clear Hds as [|?? [Hl Hn] Hds']. simpl in Hl, Hn.
    rewrite foldl_app_out by solve_appends. unfold PutVarint32Varint32Varint64 at 1. simpl.
    rewrite <- !app_assoc. destruct (u32_i32_wrap l Hl) as [Hu Hi].
    assert (Hlast : DeletedFileSet_insert (l, n) (ve_deleted_files e) = ve_deleted_files e ++ [(l, n)]).
    { apply DeletedFileSet_insert_last, Forall_forall. intros y Hy.
      eapply StronglySorted_app_1_elem_of; [exact Hs|done|left]. }
    eapply (decodes_tag _ _ _ (store_deleted (l, n) e)); [by vm_compute| |].
    + refine (dec_case_ok _ _ _ _ _ (l, n) _ _). unfold get_deleted_file, GetLevel.
      rewrite GetVarint32_Encode by done. simpl. rewrite GetVarint64_Encode, Hi by done. done.
    + destruct e. unfold store_deleted. rewrite note_level_max. simpl in *. rewrite Hlast.
      apply IH; [done| |]; simpl; rewrite <- app_assoc; done.
Qed.

Lemma get_slice value rest :
  len value < 2 ^ 32 ->
  GetLengthPrefixedSlice (EncodeVarint32 (wrap32 (len value)) ++ value ++ rest) = Some (value, rest).
Proof.
  intros H. pose proof (GetLengthPrefixedSlice_Put value rest H) as Hg.
  unfold PutLengthPrefixedSlice, PutVarint32 in Hg. simpl in Hg. by rewrite <- app_assoc in Hg.
Qed.

Lemma get_ikey key rest :
  len key < 2 ^ 32 -> InternalKey_Valid key = true ->
  GetInternalKey (EncodeVarint32 (wrap32 (len key)) ++ key ++ rest) = Some (key, rest).
Proof. intros H Hv. unfold GetInternalKey. rewrite get_slice by done. simpl. by rewrite Hv. Qed.

Lemma get_level level rest :
  int_range level -> GetLevel (EncodeVarint32 (wrap32 level) ++ rest) = Some (level, rest).
Proof.
  intros [Hu Hi]%u32_i32_wrap. unfold GetLevel. rewrite GetVarint32_Encode by done. simpl.
  by rewrite Hi.
Qed.

Definition file_tail_of (f : FileMetaData) : file_tail :=
  mkTail (file_size (f_fd f)) (f_smallest f) (f_largest f)
    (smallest_seqno (f_fd f)) (largest_seqno (f_fd f)).

Definition keys_valid (f : FileMetaData) : Prop :=
  InternalKey_Valid (f_smallest f) = true /\ InternalKey_Valid (f_largest f) = true.

Lemma get_file_tail_Encode f rest :
  file_wf f -> keys_valid f ->
  get_file_tail
    (EncodeVarint64 (GetFileSize (f_fd f)) ++ EncodeVarint32 (wrap32 (len (f_smallest f))) ++
     f_smallest f ++ EncodeVarint32 (wrap32 (len (f_largest f))) ++ f_largest f ++
     EncodeVarint64 (smallest_seqno (f_fd f)) ++ EncodeVarint64 (largest_seqno (f_fd f)) ++ rest) =
  Some (file_tail_of f, rest).
Proof.
  intros [] [Hs Hl]. unfold get_file_tail, GetFileSize.
  rewrite GetVarint64_Encode by done. simpl. rewrite get_ikey by done. simpl.
  rewrite get_ikey by done. simpl. rewrite GetVarint64_Encode by done. simpl.
  by rewrite GetVarint64_Encode by done.
Qed.

(** The loop over customized fields from [c] with input [i] ends in [r]. *)
Definition customs (nf5 : bool) (c : custom) (i : bytes) (r : string + (custom * bytes)) : Prop :=
  DecodeCustomFields (S (length i)) nf5 i c = r.

Lemma customs_end nf5 c rest : customs nf5 c (EncodeVarint32 kTerminate ++ rest) (inr (c, rest)).
Proof. unfold customs. simpl. by rewrite GetVarint32_Encode by (by vm_compute). Qed.

Lemma customs_field nf5 tag field c c' rest r :
  u32 tag -> tag <> kTerminate -> len field < 2 ^ 32 ->
  DecodeCustomField nf5 tag field c = inr c' -> customs nf5 c' rest r ->
  customs nf5 c (EncodeVarint32 tag ++ EncodeVarint32 (wrap32 (len field)) ++ field ++ rest) r.
Proof.
  intros Hu Ht Hl Hd Hr. unfold customs. simpl. rewrite GetVarint32_Encode by done.
  apply Z.eqb_neq in Ht. rewrite Ht, get_slice, Hd by done. rewrite <- Hr.
  pose proof (EncodeVarint32_len tag Hu). apply DecodeCustomFields_fuel; [|lia].
  rewrite !length_app. zlia.
Qed.

Lemma customs_min_log nf5 ml path marked rest :
  opt_all u64 ml ->
  customs nf5 (mkCustom path marked None)
    (put_opt (fun dst n => PutLengthPrefixedSlice (PutVarint32 dst kMinLogNumberToKeepHack)
       (PutFixed64 [] n)) ml [] ++ EncodeVarint32 kTerminate ++ rest)
    (inr (mkCustom path marked ml, rest)).
Proof.
  intros Hml. destruct ml as [n|]; simpl; [|apply customs_end].
  unfold PutLengthPrefixedSlice, PutVarint32. simpl. rewrite <- !app_assoc.
  eapply customs_field; [by vm_compute|done|by vm_compute| |apply customs_end].
  unfold DecodeCustomField. simpl. unfold PutFixed64. simpl.
  rewrite <- (app_nil_r (EncodeFixed64 n)). by rewrite GetFixed64_Put.
Qed.

Lemma path_char path : 0 <= path < 4 -> wrap32 (byte_signed (byte.of_Z path)) = path.
Proof.
  intros H. assert (path = 0 \/ path = 1 \/ path = 2 \/ path = 3) as Hc by lia.
  by destruct Hc as [->|[->|[->| ->]]].
Qed.

Lemma customs_Encode f ml nf5 rest :
  file_wf f -> opt_all u64 ml -> nf5 = f_is_nvm_level0 f ->
  customs nf5 (mkCustom 0 false None) (EncodeCustomFields [] f ml ++ rest)
    (inr (mkCustom (if nf5 then 0 else GetPathId (f_fd f)) (f_marked_for_compaction f) ml, rest)).
Proof.
  intros Hwf Hml ->. destruct (GetPathId_range (f_fd f) (fw_packed _ Hwf)) as [_ Hp].
  assert (Hmarked : forall path,
    customs (f_is_nvm_level0 f) (mkCustom path false None)
      ((if f_marked_for_compaction f
        then EncodeVarint32 kNeedCompaction ++ EncodeVarint32 (wrap32 (len [Byte.x01])) ++ [Byte.x01]
        else []) ++
       put_opt (fun dst n => PutLengthPrefixedSlice (PutVarint32 dst kMinLogNumberToKeepHack)
         (PutFixed64 [] n)) ml [] ++ EncodeVarint32 kTerminate ++ rest)
      (inr (mkCustom path (f_marked_for_compaction f) ml, rest))).
  { intros path. destruct (f_marked_for_compaction f); [|by apply customs_min_log].
    rewrite <- !app_assoc.
    eapply customs_field; [by vm_compute|done|by vm_compute|done|by apply customs_min_log]. }
  unfold EncodeCustomFields. unfold PutVarint32 at 1. rewrite put_opt_app by solve_appends.
  rewrite <- !app_assoc.
  destruct (f_is_nvm_level0 f) eqn:Hn; simpl; rewrite ?andb_false_r.
  - specialize (Hmarked 0). by destruct (f_marked_for_compaction f).
  - rewrite andb_true_r. destruct (Z.eqb_spec (GetPathId (f_fd f)) 0) as [->|Hne]; simpl.
    + specialize (Hmarked 0). by destruct (f_marked_for_compaction f).
    + assert (Hd : DecodeCustomField false kPathId [byte.of_Z (GetPathId (f_fd f))]
                     (mkCustom 0 false None) = inr (mkCustom (GetPathId (f_fd f)) false None)).
      { unfold DecodeCustomField. simpl. rewrite path_char by lia.
        by destruct (Z.ltb_spec 3 (GetPathId (f_fd f))); [lia|]. }
      specialize (Hmarked (GetPathId (f_fd f))).
      assert (H1 : len [byte.of_Z (GetPathId (f_fd f))] < 2 ^ 32) by (by vm_compute).
      assert (H0 : u32 kPathId) by (by vm_compute). assert (H2 : kPathId <> kTerminate) by done.
      pose proof (customs_field _ _ _ _ _ _ _ H0 H2 H1 Hd Hmarked) as Hf.
      unfold PutLengthPrefixedSlice, PutVarint32 in *.
      destruct (f_marked_for_compaction f); simpl; rewrite <- ?app_assoc in *; exact Hf.
Qed.

(** Reads the next value of a record. *)
Ltac read_next :=
  first [ rewrite GetVarint64_Encode by (done || (by apply GetNumber_u64) || zlia)
        | rewrite GetVarint32_Encode by (done || zlia)
        | rewrite get_level by done
        | rewrite get_file_tail_Encode by done ]; simpl.

Lemma tail_fd_saved f :
  file_wf f -> tail_fd (GetNumber (f_fd f)) (GetPathId (f_fd f)) (file_tail_of f) = f_fd f.
Proof. intros []. unfold tail_fd. simpl. by apply FileDescriptor_make_Get. Qed.

#[local] Opaque DecodeCustomFields.

Section NewFile.
Context (level : Z) (f : FileMetaData) (ml : option Z) (e : VersionEdit).
Hypothesis (Hlevel : int_range level) (Hwf : file_wf f) (Hkeys : keys_valid f) (Hml : opt_all u64 ml).

(** The fields after the level and number, then the customized fields. *)
Definition enc_tail : bytes :=
  EncodeVarint64 (GetFileSize (f_fd f)) ++ EncodeVarint32 (wrap32 (len (f_smallest f))) ++
  f_smallest f ++ EncodeVarint32 (wrap32 (len (f_largest f))) ++ f_largest f ++
  EncodeVarint64 (smallest_seqno (f_fd f)) ++ EncodeVarint64 (largest_seqno (f_fd f)).

(** The edit once the record is read. *)
Definition after_file : VersionEdit :=
  AddFileMeta level (saved_file f) (note_min_log (mkCustom 0 false ml) (note_level level e)).

Lemma read_tail rest : get_file_tail (enc_tail ++ rest) = Some (file_tail_of f, rest).
Proof. unfold enc_tail. rewrite <- !app_assoc. by apply get_file_tail_Encode. Qed.

Lemma DecodeNewFile5_Encode customized rest :
  f_is_nvm_level0 f = true ->
  (customized = false -> ml = None /\ f_marked_for_compaction f = false) ->
  DecodeNewFile5From
    (EncodeVarint64 (f_first_key_index f) ++ EncodeVarint32 (wrap32 (f_nvm_sstable_index f)) ++
     EncodeVarint64 (f_keys_num f) ++ EncodeVarint64 (f_key_point_filenum f) ++
     EncodeVarint64 (f_raw_file_size f) ++ EncodeVarint64 (f_nvm_meta_size f) ++
     EncodeVarint32 (GetPathId (f_fd f)) ++ EncodeVarint32 (Z.b2z customized) ++
     EncodeVarint32 (wrap32 level) ++ EncodeVarint64 (GetNumber (f_fd f)) ++ enc_tail ++
     (if customized then EncodeCustomFields [] f ml else []) ++ rest) e =
  inr (after_file, rest).
Proof.
  intros Hn Hc. pose proof Hwf as [Hpk]. destruct (u32_i32_wrap (f_nvm_sstable_index f)) as [Hu Hi]; [done|].
  destruct (GetPathId_range (f_fd f) Hpk) as [_ Hp]. unfold DecodeNewFile5From.
  do 7 read_next. rewrite GetVarint32_Encode by (destruct customized; by vm_compute). simpl.
  do 2 read_next. rewrite read_tail. simpl. unfold after_file, saved_file. rewrite Hn, Hi.
  rewrite tail_fd_saved by done. destruct customized; simpl.
  - pose proof (customs_Encode f ml true rest Hwf Hml (eq_sym Hn)) as Hcu. unfold customs in Hcu.
    by rewrite Hcu.
  - destruct (Hc eq_refl) as [-> ->]. done.
Qed.

Lemma DecodeNewFile4_Encode rest :
  f_is_nvm_level0 f = false ->
  DecodeNewFile4From
    (EncodeVarint32 (wrap32 level) ++ EncodeVarint64 (GetNumber (f_fd f)) ++ enc_tail ++
     EncodeCustomFields [] f ml ++ rest) e = inr (after_file, rest).
Proof.
  intros Hn. pose proof Hwf as [Hpk]. unfold DecodeNewFile4From. do 2 read_next.
  rewrite read_tail. simpl. unfold after_file, saved_file. rewrite Hn.
  pose proof (customs_Encode f ml false rest Hwf Hml (eq_sym Hn)) as Hcu. unfold customs in Hcu.
  rewrite Hcu. simpl. by rewrite tail_fd_saved by done.
Qed.

Lemma get_new_file23_Encode rest (with_path : bool) :
  f_is_nvm_level0 f = false -> f_marked_for_compaction f = false ->
  (if with_path then True else GetPathId (f_fd f) = 0) ->
  get_new_file23 with_path
    (EncodeVarint32 (wrap32 level) ++ EncodeVarint64 (GetNumber (f_fd f)) ++
     (if with_path then EncodeVarint32 (GetPathId (f_fd f)) else []) ++ enc_tail ++ rest) =
  Some (level, saved_file f, rest).
Proof.
  intros Hn Hm Hpath. pose proof Hwf as [Hpk]. destruct (GetPathId_range (f_fd f) Hpk) as [_ Hp].
  unfold get_new_file23, saved_file. do 2 read_next. rewrite Hn, Hm.
  destruct with_path; simpl; [read_next|]; rewrite read_tail; simpl.
  - by rewrite tail_fd_saved by done.
  - pose proof (tail_fd_saved f Hwf) as Ht. rewrite Hpath in Ht. by rewrite Ht.
Qed.

Lemma after_plain : ml = None -> store_file (level, saved_file f) e = after_file.
Proof. unfold after_file, note_min_log. by intros ->. Qed.

(** Reads a whole record with tag [t], given what the reader of its body returns. *)
Ltac by_record t H Hr :=
  unfold enc_tail in H; rewrite <- ?app_assoc, ?app_nil_l in H;
  rewrite <- ?app_assoc, ?app_nil_l; eapply (decodes_tag t); [by vm_compute | exact H | exact Hr].

Lemma decodes_new_file h bs rest r :
  (h = false -> ml = None) ->
  EncodeNewFile [] level f h ml = Some bs ->
  decodes after_file rest r -> decodes e (bs ++ rest) r.
Proof.
  intros Hh Henc Hr. unfold EncodeNewFile in Henc. guard_cases_in Henc; [done|].
  rewrite EncodeCustomFields_app in Henc.
  unfold PutLengthPrefixedSlice, PutVarint32, PutVarint64, PutVarint32Varint64, PutVarint64Varint64
    in Henc.
  destruct (f_is_nvm_level0 f) eqn:Hn, (f_marked_for_compaction f || h) eqn:Hc;
    cbn [negb] in Henc; rewrite ?andb_false_r, ?andb_true_r in Henc; cbn [andb] in Henc.
  - injection Henc as <-. pose proof (DecodeNewFile5_Encode true rest Hn ltac:(done)) as H5.
    by_record kNewFile5 H5 Hr.
  - apply orb_false_iff in Hc as [Hm ->]. injection Henc as <-.
    pose proof (DecodeNewFile5_Encode false rest Hn ltac:(auto)) as H5.
    by_record kNewFile5 H5 Hr.
  - injection Henc as <-. pose proof (DecodeNewFile4_Encode rest Hn) as H4.
    by_record kNewFile4 H4 Hr.
  - apply orb_false_iff in Hc as [Hm ->]. injection Henc as <-.
    destruct (Z.eqb_spec (GetPathId (f_fd f)) 0) as [Hp|Hp]; cbn [negb].
    + pose proof (dec_case_ok "new-file2 entry" _ store_file _ e _ _
        (get_new_file23_Encode rest false Hn Hm Hp)) as H2.
      rewrite after_plain in H2 by auto. by_record kNewFile2 H2 Hr.
    + pose proof (dec_case_ok "new-file3 entry" _ store_file _ e _ _
        (get_new_file23_Encode rest true Hn Hm I)) as H3.
      rewrite after_plain in H3 by auto. by_record kNewFile3 H3 Hr.
Qed.
End NewFile.

(** The edit after the file records of [fs] are read. *)
Definition add_files (fs : list (Z * FileMetaData)) (ml : option Z)
    '(mkEdit l c lg pl nf ls mc ml0 df nw cf ca cd ag) :=
  mkEdit (foldl Z.max l (map fst fs)) c lg pl nf ls mc
    (match fs, ml with _ :: _, Some n => Some n | _, _ => ml0 end) df
    (nw ++ (prod_map id saved_file <$> fs)) cf ca cd ag.

Lemma EncodeNewFile_keys dst level f h ml bs :
  EncodeNewFile dst level f h ml = Some bs -> keys_valid f.
Proof. unfold EncodeNewFile. intros H. guard_cases_in H; [done|]. by split. Qed.

Lemma decodes_new_files fs h ml e bs rest r :
  Forall (fun lf => int_range lf.1 /\ file_wf lf.2) fs -> opt_all u64 ml -> (h = false -> ml = None) ->
  EncodeNewFiles [] fs h ml = Some bs -> decodes (add_files fs ml e) rest r -> decodes e (bs ++ rest) r.
Proof.
  revert ml e bs. induction fs as [|[level f] fs IH]; intros ml e bs Hfs Hml Hh Henc Hr; simpl in Henc.
  - injection Henc as <-. destruct e. simpl in Hr. by rewrite app_nil_r in Hr.
  - inversion_clear Hfs as [|?? [Hl Hf] Hfs']. simpl in Hl, Hf. inv_bind Henc.
    rewrite EncodeNewFiles_app in Henc.
    destruct (EncodeNewFiles [] fs h None) as [bs'|] eqn:E'; simpl in Henc; [|done].
    injection Henc as <-. rewrite <- app_assoc.
    eapply (decodes_new_file level f ml e); [done|done|by eapply EncodeNewFile_keys|done..|].
    eapply (IH None); [done|done|done|exact E'|].
    destruct e. unfold after_file. rewrite note_level_max. destruct ml; simpl in *;
      rewrite <- app_assoc; destruct fs; exact Hr.
Qed.

(** A field made of a tag and one reader's value. *)
Ltac by_field P enc edit :=
  eapply (decodes_opt P edit _ _ _ _ _ enc);
  [ intros ? ?; unfold PutLengthPrefixedSlice, PutVarint32Varint64, PutVarint32Varint32, PutVarint32;
    by rewrite <- ?app_assoc
  | intros ? ? ?; first [ by apply GetVarint64_Encode | by apply GetVarint32_Encode
                        | rewrite <- app_assoc; by apply get_slice ]
  | intros ? ?; reflexivity | reflexivity | by vm_compute | done | ].

Lemma decodes_column_family cf e rest r :
  u32 cf -> ve_column_family e = 0 ->
  decodes (SetColumnFamily cf e) rest r ->
  decodes e ((if negb (cf =? 0) then PutVarint32Varint32 [] kColumnFamily cf else []) ++ rest) r.
Proof.
  intros Hcf H0 Hr. destruct (Z.eqb_spec cf 0) as [->|]; simpl.
  - destruct e. simpl in *. by subst.
  - unfold PutVarint32Varint32. rewrite app_nil_l, <- app_assoc.
    eapply (decodes_tag kColumnFamily); [by vm_compute| |exact Hr].
    apply (dec_case_ok "set column family id" GetVarint32 SetColumnFamily).
    by apply GetVarint32_Encode.
Qed.

Lemma decodes_drop (drop : bool) e rest r :
  decodes (if drop then DropColumnFamily e else e) rest r ->
  decodes e ((if drop then PutVarint32 [] kColumnFamilyDrop else []) ++ rest) r.
Proof.
  intros Hr. destruct drop; [|done]. unfold PutVarint32. rewrite app_nil_l.
  by eapply (decodes_tag kColumnFamilyDrop); [by vm_compute|reflexivity|].
Qed.

Lemma DecodeFrom_EncodeTo e out :
  edit_wf e -> EncodeTo e [] = Some out -> DecodeFrom out = inr (saved_edit e).
Proof.
  intros [] Henc. apply EncodeTo_records in Henc as (files & Hfiles & ->).
  unfold DecodeFrom. match goal with |- DecodeFrom_loop _ ?i ?e0 = ?r => change (decodes e0 i r) end.
  destruct e as [l c lg pl nf ls mc ml df nw cf ca cd ag]. simpl in *.
  by_field (fun x : bytes => len x < 2 ^ 32) (fun x => EncodeVarint32 (wrap32 (len x)) ++ x)
    (fun c => mkEdit 0 c None None None None None None [] [] 0 None false None).
  by_field u64 EncodeVarint64 (fun lg => mkEdit 0 c lg None None None None None [] [] 0 None false None).
  by_field u64 EncodeVarint64 (fun pl => mkEdit 0 c lg pl None None None None [] [] 0 None false None).
  by_field u64 EncodeVarint64 (fun nf => mkEdit 0 c lg pl nf None None None [] [] 0 None false None).
  by_field u64 EncodeVarint64 (fun ls => mkEdit 0 c lg pl nf ls None None [] [] 0 None false None).
  by_field u32 EncodeVarint32 (fun mc => mkEdit 0 c lg pl nf ls mc None [] [] 0 None false None).
  apply decodes_deleted; [done..|].
  eapply (decodes_new_files nw (has_opt ml) ml); [done|done|by destruct ml|done|].
  apply decodes_column_family; [done..|]. simpl. rewrite <- foldl_app.
  set (L := foldl _ _ _). set (ml' := match nw with [] => None | _ :: _ => _ end).
  by_field (fun x : bytes => len x < 2 ^ 32) (fun x => EncodeVarint32 (wrap32 (len x)) ++ x)
    (fun ca => mkEdit L c lg pl nf ls mc ml' df (prod_map id saved_file <$> nw) cf ca false None).
  apply decodes_drop. rewrite <- (app_nil_r (put_opt _ ag [])).
  replace (if cd then _ else _) with
    (mkEdit L c lg pl nf ls mc ml' df (prod_map id saved_file <$> nw) cf ca cd None) by (by destruct cd).
  by_field u32 EncodeVarint32
    (fun ag => mkEdit L c lg pl nf ls mc ml' df (prod_map id saved_file <$> nw) cf ca cd ag).
  unfold saved_edit, levels_of, L, ml'. simpl. destruct nw, ml; apply decodes_nil.
Qed.

(** C26. An edit written to the manifest is read back: for every edit whose fields
    are in the range of their types, decoding what [EncodeTo] wrote succeeds and
    gives the edit with the fields the format carries, the NVM location of level-0
    tables ([kNewFile5]) and the order of the files included. *)
Theorem version_edit_roundtrip e out :
  edit_wf e -> EncodeTo e [] = Some out -> DecodeFrom out = inr (saved_edit e).
Proof. apply DecodeFrom_EncodeTo. Qed.

(** An edit that deletes a file and adds a level-0 table in NVM and a table of level 1. *)
Definition sample_edit : VersionEdit :=
  let k1 := InternalKey_make [Byte.x61] 7 kTypeValue in
  let k2 := InternalKey_make [Byte.x62] 5 kTypeValue in
  AddFile 1 9 2 4096 k1 k2 3 7 false false 0 (-1) 0 0 0 0
    (AddFile 0 12 0 1048576 k1 k2 5 7 true true 17 4 200 11 1048000 576
       (DeleteFile 0 8 (SetMinLogNumberToKeep 6 (SetLogNumber 10 (SetLastSequence 300
          (DeleteFile 1 3 VersionEdit_Clear)))))).

Lemma version_edit_roundtrip_witness :
  exists out, EncodeTo sample_edit [] = Some out /\ DecodeFrom out = inr (saved_edit sample_edit).
Proof.
  destruct (EncodeTo sample_edit []) as [out|] eqn:E; [|by vm_compute in E].
  exists out. split; [done|]. apply version_edit_roundtrip; [|done].
  clear E. constructor; cbn;
    repeat first [apply SSorted_cons | apply SSorted_nil | apply Forall_cons_2 | apply Forall_nil_2];
    try (by vm_compute); try (split; [by vm_compute|constructor; by vm_compute]);
    try (left; by vm_compute).
Defined.

(** Decoding terminates on every input: each round of the loops consumes at
    least one byte, so the rounds the model allows are never used up and allowing
    more does not change the result. *)
Theorem version_edit_decode_terminates src n :
  (length src < n)%nat -> DecodeFrom_loop n src VersionEdit_Clear = DecodeFrom src.
Proof. intros H. apply DecodeFrom_loop_fuel; lia. Qed.

Lemma version_edit_decode_terminates_witness :
  DecodeFrom_loop 9 [Byte.x68; Byte.xff] VersionEdit_Clear = inl "new-file5 entry"%string.
Proof.
  rewrite (version_edit_decode_terminates [Byte.x68; Byte.xff] 9) by (simpl; lia).
  vm_compute. reflexivity.
Defined.
