(* ===== verification/EditTypes.v ===== *)
(** * The types of decoded edits (VersionEdit::DecodeFrom of db/version_edit.cc)

    Whatever bytes a record holds, an edit that is accepted has every field within the
    range of its C++ type and every key of a file valid. *)

From S2P Require Import Prelude Coding Comparator DbFormat VersionEdit.

(** ** Readers and what they yield *)

(** A reader all of whose results have a property. *)
Class Yields {A} (P : A -> Prop) (get : bytes -> option (A * bytes)) : Prop :=
  yields_ok i a i' : get i = Some (a, i') -> P a.

Lemma lor_u w a b : 0 <= w -> 0 <= a < 2 ^ w -> 0 <= b < 2 ^ w -> 0 <= Z.lor a b < 2 ^ w.
Proof.
  intros Hw Ha Hb. assert (Hn : 0 <= Z.lor a b) by (apply Z.lor_nonneg; lia). split; [done|].
  destruct (Z.eq_dec (Z.lor a b) 0) as [->|Hz]; [apply Z.pow_pos_nonneg; lia|].
  apply Z.log2_lt_pow2; [lia|]. rewrite Z.log2_lor by lia.
  destruct (Z.eq_dec a 0) as [->|Ha0], (Z.eq_dec b 0) as [->|Hb0].
  - by rewrite Z.lor_0_r in Hz.
  - rewrite Z.max_r by apply Z.log2_nonneg. apply Z.log2_lt_pow2; lia.
  - rewrite Z.max_l by apply Z.log2_nonneg. apply Z.log2_lt_pow2; lia.
  - apply Z.max_lub_lt; apply Z.log2_lt_pow2; lia.
Qed.

Lemma wrap_bounds w z : 0 <= w -> 0 <= wrap w z < 2 ^ w.
Proof. intros Hw. unfold wrap. apply Z.mod_pos_bound, Z.pow_pos_nonneg; lia. Qed.

Lemma GetVarintPtr_loop_bounds last w p shift r v p' :
  0 <= w -> 0 <= r < 2 ^ w -> GetVarintPtr_loop last w p shift r = Some (v, p') -> 0 <= v < 2 ^ w.
Proof.
  intros Hw. revert shift r. induction p as [|b p IH]; intros shift r Hr; cbn [GetVarintPtr_loop]; [done|].
  destruct (shift <=? last); [|done]. destruct (negb _); [apply IH|intros [= <- _]]; (apply lor_u; [done|done|by apply wrap_bounds]).
Qed.

#[export] Instance GetVarint64_Yields : Yields u64 GetVarint64.
Proof. intros i v i' H. by apply GetVarintPtr_loop_bounds in H. Qed.

#[export] Instance GetVarint32_Yields : Yields u32 GetVarint32.
Proof.
  intros i v i'. unfold GetVarint32, GetVarint32Ptr. destruct i as [|b i]; [done|]. destruct (_ =? 0).
  - intros [= <- _]. pose proof (byte.unsigned_range b). unfold u32. lia.
  - intros H. by apply GetVarintPtr_loop_bounds in H.
Qed.

#[export] Instance GetLengthPrefixedSlice_Yields : Yields (fun s => len s < 2 ^ 32) GetLengthPrefixedSlice.
Proof.
  intros i s i'. unfold GetLengthPrefixedSlice. intros H. inv_bind H. destruct x as [n rest].
  apply yields_ok in E. guard_cases_in H; [|done]. injection H as <- _. unfold zlen, u32 in *. rewrite length_take. lia.
Qed.

Lemma i32_range z : int_range (i32 z).
Proof. unfold int_range, i32. pose proof (Z.mod_pos_bound (z + 2 ^ 31) (2 ^ 32)). lia. Qed.

#[export] Instance GetLevel_Yields : Yields int_range GetLevel.
Proof. intros i v i' H. unfold GetLevel in H. inv_bind H. destruct x. injection H as <- _. apply i32_range. Qed.

(** A key of a file: valid, and short enough for its length to be written. *)
Definition key_wf (key : bytes) : Prop := InternalKey_Valid key = true /\ len key < 2 ^ 32.

#[export] Instance GetInternalKey_Yields : Yields key_wf GetInternalKey.
Proof.
  intros i v i' H. unfold GetInternalKey in H. inv_bind H. destruct x as [s i1]. apply yields_ok in E.
  destruct (InternalKey_Valid s) eqn:Ev; [|done]. by injection H as <- _.
Qed.

#[export] Instance GetFixed64_Yields : Yields u64 GetFixed64.
Proof. intros i v i' H. unfold GetFixed64 in H. destruct (_ <? _); [done|]. injection H as <- _. apply DecodeFixed64_range. Qed.

(** Follows the readers of a record one after the other. *)
Ltac yield_step :=
  match goal with
  | H : mbind _ (?g ?i) = Some _ |- _ =>
      let x := fresh "x" in let i' := fresh "i" in let E := fresh "E" in
      destruct (g i) as [[x i']|] eqn:E; simpl in H; [apply yields_ok in E | discriminate H]
  | H : Some _ = Some _ |- _ => injection H; clear H; intros; subst
  | H : None = Some _ |- _ => discriminate H
  end.

(** ** Files *)

(** A file the decoder makes: its fields are in range, its keys valid, and it loses nothing when it is written again. *)
Record file_typed (f : FileMetaData) : Prop := {
  fy_wf : file_wf f;
  fy_smallest : InternalKey_Valid (f_smallest f) = true;
  fy_largest : InternalKey_Valid (f_largest f) = true;
  fy_saved : saved_file f = f
}.

Definition tail_wf (t : file_tail) : Prop :=
  u64 (ft_size t) /\ key_wf (ft_smallest t) /\ key_wf (ft_largest t) /\ u64 (ft_smallest_seqno t) /\ u64 (ft_largest_seqno t).

#[export] Instance get_file_tail_Yields : Yields tail_wf get_file_tail.
Proof. intros i t i' H. unfold get_file_tail in H. repeat yield_step. by split_and!. Qed.

Lemma PackFileNumber_u64 number path_id : u64 number -> u64 (PackFileNumberAndPathId number path_id).
Proof. intros H. apply lor_u; [lia|done|by apply wrap_bounds]. Qed.

Lemma tail_fd_typed number path_id t :
  u64 number -> tail_wf t -> let fd := tail_fd number path_id t in
  u64 (packed_number_and_path_id fd) /\ u64 (file_size fd) /\ u64 (smallest_seqno fd) /\ u64 (largest_seqno fd).
Proof. intros Hn (H1 & _ & _ & H4 & H5). split_and!; [by apply PackFileNumber_u64|done|done|done]. Qed.

(** A file on disk. *)
Lemma plain_file_typed fd smallest largest marked :
  u64 (packed_number_and_path_id fd) /\ u64 (file_size fd) /\ u64 (smallest_seqno fd) /\ u64 (largest_seqno fd) ->
  key_wf smallest -> key_wf largest -> file_typed (new_file fd smallest largest marked false 0 (-1) 0 0 0 0).
Proof. intros (H1 & H2 & H3 & H4) [Hs1 Hs2] [Hl1 Hl2]. constructor; [by constructor|done|done|done]. Qed.

(** A table in NVM. *)
Lemma nvm_file_typed fd smallest largest marked first index keys point raw meta :
  u64 (packed_number_and_path_id fd) /\ u64 (file_size fd) /\ u64 (smallest_seqno fd) /\ u64 (largest_seqno fd) ->
  key_wf smallest -> key_wf largest -> u64 first -> u64 keys -> u64 point -> u64 raw -> u64 meta ->
  file_typed (new_file fd smallest largest marked true first (i32 index) keys point raw meta).
Proof.
  intros (H1 & H2 & H3 & H4) [Hs1 Hs2] [Hl1 Hl2] ?????. constructor; [constructor; try done; apply i32_range|done|done|done].
Qed.

Definition level_file (lf : Z * FileMetaData) : Prop := int_range lf.1 /\ file_typed lf.2.

#[export] Instance get_new_file_Yields : Yields level_file get_new_file.
Proof.
  intros i [l f] i' H. unfold get_new_file in H. repeat yield_step. split; [done|]. apply plain_file_typed; [|done|done].
  split_and!; [by apply PackFileNumber_u64|done|done|done].
Qed.

#[export] Instance get_new_file23_Yields b : Yields level_file (get_new_file23 b).
Proof.
  intros i [l f] i' H. unfold get_new_file23 in H.
  destruct b; simpl in H; repeat yield_step; (split; [done|]); cbn [snd];
    match goal with Ht : tail_wf _ |- _ => pose proof Ht as (_ & ? & ? & _) end;
    (apply plain_file_typed; [by apply tail_fd_typed|done|done]).
Qed.

#[export] Instance get_deleted_file_Yields : Yields (fun d => int_range d.1 /\ u64 d.2) get_deleted_file.
Proof. intros i [l n] i' H. unfold get_deleted_file in H. repeat yield_step. done. Qed.

#[export] Instance get_compact_pointer_Yields : Yields int_range get_compact_pointer.
Proof. intros i l i' H. unfold get_compact_pointer in H. repeat yield_step. done. Qed.

(** ** Edits *)

Record edit_typed (e : VersionEdit) : Prop := {
  et_wf : edit_wf e;
  et_files : Forall level_file (ve_new_files e);
  et_max_level : 0 <= ve_max_level e < 2 ^ 31
}.

Lemma VersionEdit_Clear_typed : edit_typed VersionEdit_Clear.
Proof. constructor; [constructor; (done || constructor)|constructor|done]. Qed.

(** The setters of single fields. *)
Lemma set_field_typed e : edit_typed e ->
  (forall x, len x < 2 ^ 32 -> edit_typed (SetComparatorName x e)) /\
  (forall x, u64 x -> edit_typed (SetLogNumber x e)) /\ (forall x, u64 x -> edit_typed (SetPrevLogNumber x e)) /\
  (forall x, u64 x -> edit_typed (SetNextFile x e)) /\ (forall x, u64 x -> edit_typed (SetLastSequence x e)) /\
  (forall x, u32 x -> edit_typed (SetMaxColumnFamily x e)) /\ (forall x, u64 x -> edit_typed (SetMinLogNumberToKeep x e)) /\
  (forall x, u32 x -> edit_typed (SetColumnFamily x e)) /\ (forall x, len x < 2 ^ 32 -> edit_typed (AddColumnFamily x e)) /\
  edit_typed (DropColumnFamily e) /\ (forall x, u32 x -> edit_typed (MarkAtomicGroup x e)).
Proof. intros [[] ? ?]. destruct e; cbn in *. split_and!; intros; constructor; try done; by constructor. Qed.

Lemma note_level_typed l e : int_range l -> edit_typed e -> edit_typed (note_level l e).
Proof.
  intros Hl [[] Hf Hm]. unfold note_level. destruct (Z.ltb_spec (ve_max_level e) l); [|by constructor; [constructor|..]].
  destruct e; cbn in *. constructor; [by constructor|done|cbn; unfold int_range in Hl; lia].
Qed.

Lemma store_deleted_typed d e : int_range d.1 /\ u64 d.2 -> edit_typed e -> edit_typed (store_deleted d e).
Proof.
  intros Hd He. unfold store_deleted. apply (note_level_typed d.1) in He as [[] Hf Hm]; [|by destruct Hd].
  destruct (note_level d.1 e); cbn in *. constructor; [constructor; try done|done|done]; cbn.
  - apply Forall_forall. intros y [->|Hy]%DeletedFileSet_insert_in; [by destruct d|]. by eapply Forall_forall in ew_deleted.
  - by apply DeletedFileSet_insert_sorted.
Qed.

Lemma AddFileMeta_typed l f e : int_range l -> file_typed f -> edit_typed e -> edit_typed (AddFileMeta l f e).
Proof.
  intros Hl Hf [[] Hfs Hm]. destruct e; cbn in *. constructor; cbn; [constructor; try done; cbn| |done]; apply Forall_app; split; try done.
  - apply Forall_singleton. split; [done|apply Hf].
  - by apply Forall_singleton.
Qed.

Lemma store_file_typed lf e : level_file lf -> edit_typed e -> edit_typed (store_file lf e).
Proof. intros [Hl Hf] He. apply AddFileMeta_typed; [done|done|by apply note_level_typed]. Qed.

(** ** The decoder *)

Lemma DecodeCustomField_typed nf5 tag field c c' :
  opt_all u64 (cu_min_log c) -> DecodeCustomField nf5 tag field c = inr c' -> opt_all u64 (cu_min_log c').
Proof.
  intros Hc. unfold DecodeCustomField. destruct (tag =? kPathId).
  { destruct nf5; [done|]. destruct (negb _); [done|]. destruct (3 <? _); [done|]. by intros [= <-]. }
  destruct (tag =? kNeedCompaction); [destruct (negb _); [done|]; by intros [= <-]|].
  destruct (tag =? kMinLogNumberToKeepHack).
  { destruct (GetFixed64 field) as [[n i]|] eqn:E; [|done]. intros [= <-]. cbn. by eapply yields_ok. }
  destruct (negb _); [done|]. by intros [= <-].
Qed.

Lemma DecodeCustomFields_typed fuel nf5 i c c' i' :
  opt_all u64 (cu_min_log c) -> DecodeCustomFields fuel nf5 i c = inr (c', i') -> opt_all u64 (cu_min_log c').
Proof.
  revert i c. induction fuel as [|fuel IH]; intros i c Hc; cbn [DecodeCustomFields]; [done|].
  destruct (GetVarint32 i) as [[t i1]|]; [|done]. destruct (t =? kTerminate); [by intros [= <- _]|].
  destruct (GetLengthPrefixedSlice i1) as [[f i2]|]; [|done]. destruct (DecodeCustomField _ _ _ _) as [|c1] eqn:E; [done|].
  apply IH. by eapply DecodeCustomField_typed.
Qed.

Lemma note_min_log_typed c e : opt_all u64 (cu_min_log c) -> edit_typed e -> edit_typed (note_min_log c e).
Proof. intros Hc He. unfold note_min_log. destruct (cu_min_log c) as [n|]; [|done]. by apply set_field_typed. Qed.

Lemma dec_case_typed {A} msg (P : A -> Prop) get `{!Yields P get} store i e e' i' :
  (forall x e, P x -> edit_typed e -> edit_typed (store x e)) -> edit_typed e ->
  dec_case msg get store i e = inr (e', i') -> edit_typed e'.
Proof.
  intros Hs He. unfold dec_case, or_msg. destruct (get i) as [[x i1]|] eqn:E; [|done]. apply yields_ok in E.
  intros [= <- _]. by apply Hs.
Qed.

Lemma DecodeNewFile4From_typed i e e' i' : edit_typed e -> DecodeNewFile4From i e = inr (e', i') -> edit_typed e'.
Proof.
  intros He Hdec. unfold DecodeNewFile4From, or_msg in Hdec. destruct (mbind _ _) as [[[[l n] t] i1]|] eqn:E; [|done]. repeat yield_step.
  destruct (DecodeCustomFields _ _ _ _) as [|[c j]] eqn:Ec; [done|]. apply DecodeCustomFields_typed in Ec; [|done].
  injection Hdec as <- _. match goal with Ht : tail_wf _ |- _ => pose proof Ht as (_ & ? & ? & _) end. apply AddFileMeta_typed; [done| |].
  - apply plain_file_typed; [by apply tail_fd_typed|done|done].
  - apply note_min_log_typed; [done|by apply note_level_typed].
Qed.

Lemma DecodeNewFile5From_typed i e e' i' : edit_typed e -> DecodeNewFile5From i e = inr (e', i') -> edit_typed e'.
Proof.
  intros He Hdec. unfold DecodeNewFile5From, or_msg in Hdec. destruct (mbind _ _) as [[[[cu l] f] i1]|] eqn:E; [|done]. repeat yield_step.
  match goal with Ht : tail_wf _ |- _ => pose proof Ht as (_ & ? & ? & _) end.
  destruct (if negb _ then _ else _) as [|[c j]] eqn:Ec; [done|]. injection Hdec as <- _.
  assert (Hc : opt_all u64 (cu_min_log c)) by (destruct (negb _); [by apply DecodeCustomFields_typed in Ec|by injection Ec as <- _]).
  apply AddFileMeta_typed; [done| |apply note_min_log_typed; [done|by apply note_level_typed]].
  by apply nvm_file_typed; [apply tail_fd_typed|..].
Qed.

Lemma DecodeTag_typed tag i e e' i' : edit_typed e -> DecodeTag tag i e = inr (e', i') -> edit_typed e'.
Proof.
  intros He. unfold DecodeTag.
  repeat (destruct (tag =? _);
    [solve [eapply dec_case_typed; [apply _|intros; first [by apply set_field_typed | by apply note_level_typed
              | by apply store_deleted_typed | by apply store_file_typed]|done]
           | by apply DecodeNewFile4From_typed | by apply DecodeNewFile5From_typed | intros [= <- _]; by apply set_field_typed]|]).
  done.
Qed.

Lemma DecodeFrom_loop_typed fuel i e e' : edit_typed e -> DecodeFrom_loop fuel i e = inr e' -> edit_typed e'.
Proof.
  revert i e. induction fuel as [|fuel IH]; intros i e He; cbn [DecodeFrom_loop]; [done|].
  destruct (GetVarint32 i) as [[t i1]|]; [|destruct (_ =? 0); [by intros [= <-]|done]].
  destruct (DecodeTag t i1 e) as [|[e1 i2]] eqn:E; [done|]. apply IH. by eapply DecodeTag_typed.
Qed.

(** ** Decoded edits are well typed *)

Lemma EncodeNewFiles_some dst fs has_min_log min_log : Forall level_file fs -> is_Some (EncodeNewFiles dst fs has_min_log min_log).
Proof.
  intros H. revert dst min_log. induction H as [|[l f] fs [Hl Hf] Hfs IH]; intros dst min_log; [by eexists|].
  cbn [EncodeNewFiles fst snd] in *. unfold EncodeNewFile. destruct Hf as [_ -> -> _]. cbn [negb orb mbind option_bind]. apply IH.
Qed.

Lemma EncodeTo_some e : edit_typed e -> is_Some (EncodeTo e []).
Proof.
  intros [_ Hf _]. unfold EncodeTo. set (dst := foldl _ _ _).
  destruct (EncodeNewFiles_some dst (ve_new_files e) (match ve_min_log_number_to_keep e with Some _ => true | None => false end) (ve_min_log_number_to_keep e) Hf)
    as [out E]. rewrite E. by eexists.
Qed.

Lemma typed_files_saved fs : Forall level_file fs -> prod_map id saved_file <$> fs = fs.
Proof.
  induction 1 as [|[l f] fs [_ Hf] Hfs IH]; [done|]. rewrite fmap_cons, IH. unfold prod_map. cbn [fst snd id] in *.
  by rewrite (fy_saved _ Hf).
Qed.

(** C27. Decoding only makes well-typed edits: whatever the bytes of a record are, an edit [DecodeFrom] accepts has every number
    within the range of its C++ type, the levels among the ints, strings shorter than 2^32, its deleted files in increasing
    order without duplicates, and valid keys in all its files; so it can be written again, and reading what is written gives
    the edit back with exactly its files. *)
Theorem decoded_edit_typed src e :
  DecodeFrom src = inr e ->
  edit_typed e /\
  exists out, EncodeTo e [] = Some out /\ DecodeFrom out = inr (saved_edit e) /\ ve_new_files (saved_edit e) = ve_new_files e.
Proof.
  intros H. apply DecodeFrom_loop_typed in H; [|apply VersionEdit_Clear_typed]. split; [done|].
  destruct (EncodeTo_some e H) as [out E]. exists out. split; [done|]. destruct H as [Hwf Hf _].
  split; [by apply DecodeFrom_EncodeTo|by apply typed_files_saved].
Qed.

Lemma decoded_edit_typed_witness :
  exists e, DecodeFrom [Byte.x02; Byte.x85; Byte.x01; Byte.x06; Byte.xff; Byte.xff; Byte.xff; Byte.xff; Byte.x0f; Byte.x07] = inr e /\
    ve_deleted_files e = [(-1, 7)] /\ edit_typed e.
Proof.
  destruct (DecodeFrom [Byte.x02; Byte.x85; Byte.x01; Byte.x06; Byte.xff; Byte.xff; Byte.xff; Byte.xff; Byte.x0f; Byte.x07]) as [m|e] eqn:E.
  { by vm_compute in E. }
  destruct (decoded_edit_typed _ _ E) as [Ht _]. exists e. split; [done|]. split; [|exact Ht]. vm_compute in E. by injection E as <-.
Defined.
