(* ===== verification/WriteBatch.v ===== *)
(** * Write batches (db/write_batch.cc, db/write_batch_internal.h, include/rocksdb/write_batch.h)

    The updates of one write, as the bytes that go to the log: a header of sequence number
    and count, and the records.  The pointer to the save points and an empty stack behave
    the same and are an empty list.  The handler of an iteration is a record of operations
    on its own state; sizes are below [2 ^ 64] and counts below [2 ^ 31]. *)

From S2P Require Import Prelude Coding DbFormat.

(** The record types of the log that internal keys do not have. *)
Definition kTypeBeginPrepareXID : Z := 0x9.
Definition kTypeEndPrepareXID : Z := 0xA.
Definition kTypeCommitXID : Z := 0xB.
Definition kTypeRollbackXID : Z := 0xC.
Definition kTypeColumnFamilyRangeDeletion : Z := 0xE.
Definition kTypeColumnFamilyBlobIndex : Z := 0x10.
Definition kTypeBeginPersistedPrepareXID : Z := 0x12.
Definition kTypeBeginUnprepareXID : Z := 0x13.

Inductive BatchStatus := BS_OK | BS_NotFound | BS_Corruption | BS_NotSupported | BS_InvalidArgument | BS_MemoryLimit | BS_TryAgain | BS_IOError.

#[export] Instance BatchStatus_eq_dec : EqDecision BatchStatus.
Proof. solve_decision. Defined.

Definition BS_ok (s : BatchStatus) : bool := bool_decide (s = BS_OK).

(** ** Content flags *)

Definition DEFERRED : Z := Z.shiftl 1 0.
Definition HAS_PUT : Z := Z.shiftl 1 1.
Definition HAS_DELETE : Z := Z.shiftl 1 2.
Definition HAS_SINGLE_DELETE : Z := Z.shiftl 1 3.
Definition HAS_MERGE : Z := Z.shiftl 1 4.
Definition HAS_BEGIN_PREPARE : Z := Z.shiftl 1 5.
Definition HAS_END_PREPARE : Z := Z.shiftl 1 6.
Definition HAS_COMMIT : Z := Z.shiftl 1 7.
Definition HAS_ROLLBACK : Z := Z.shiftl 1 8.
Definition HAS_DELETE_RANGE : Z := Z.shiftl 1 9.
Definition HAS_BLOB_INDEX : Z := Z.shiftl 1 10.
Definition HAS_BEGIN_UNPREPARE : Z := Z.shiftl 1 11.

(** ** The batch *)

Record SavePoint := mkSP { sp_size : Z; sp_count : Z; sp_flags : Z }.

Definition SavePoint_cleared : SavePoint := mkSP 0 0 0.

Definition is_cleared (p : SavePoint) : bool := Z.lor (Z.lor (sp_size p) (sp_count p)) (sp_flags p) =? 0.

Record WriteBatch := mkWB {
  wb_rep_ : bytes;
  wb_content_flags_ : Z;
  wb_max_bytes_ : Z;
  wb_save_points_ : list SavePoint;
  wb_wal_term_point_ : SavePoint
}.

Definition kHeader : Z := 12.

Definition wb_set (rep : bytes) (flags : Z) '(mkWB _ _ m sp w) : WriteBatch := mkWB rep flags m sp w.

Definition WriteBatch_make (max_bytes : Z) : WriteBatch :=
  mkWB (replicate (Z.to_nat kHeader) Byte.x00) 0 max_bytes [] SavePoint_cleared.

Definition WriteBatch_of (rep : bytes) : WriteBatch := mkWB rep DEFERRED 0 [] SavePoint_cleared.

Definition wb_Clear (b : WriteBatch) : WriteBatch :=
  mkWB (replicate (Z.to_nat kHeader) Byte.x00) 0 (wb_max_bytes_ b) [] SavePoint_cleared.

(** [None] is an access outside of the batch. *)
Definition wb_Count (b : WriteBatch) : option Z := w ← mem_read (wb_rep_ b) 8 4; Some (i32 (DecodeFixed32 w)).

Definition SetCount (n : Z) (b : WriteBatch) : option WriteBatch :=
  rep ← mem_write (wb_rep_ b) 8 (EncodeFixed32 (wrap32 n)); Some (wb_set rep (wb_content_flags_ b) b).

Definition wb_Sequence (b : WriteBatch) : option Z := w ← mem_read (wb_rep_ b) 0 8; Some (DecodeFixed64 w).

Definition SetSequence (seq : Z) (b : WriteBatch) : option WriteBatch :=
  rep ← mem_write (wb_rep_ b) 0 (EncodeFixed64 seq); Some (wb_set rep (wb_content_flags_ b) b).

Definition save_point_of (b : WriteBatch) : option SavePoint :=
  n ← wb_Count b; Some (mkSP (len (wb_rep_ b)) n (wb_content_flags_ b)).

(** [rep_.resize] to a smaller size, the count and the flags of a save point. *)
Definition cut_to (p : SavePoint) (b : WriteBatch) : option WriteBatch :=
  SetCount (sp_count p) (wb_set (take (Z.to_nat (sp_size p)) (wb_rep_ b)) (sp_flags p) b).

(** [LocalSavePoint::commit]. *)
Definition commit (p : SavePoint) (b : WriteBatch) : option (BatchStatus * WriteBatch) :=
  if negb (wb_max_bytes_ b =? 0) && (wb_max_bytes_ b <? len (wb_rep_ b))
  then b ← cut_to p b; Some (BS_MemoryLimit, b)
  else Some (BS_OK, b).

Definition wb_append (body : bytes) (flag : Z) (b : WriteBatch) : WriteBatch :=
  wb_set (wb_rep_ b ++ body) (Z.lor (wb_content_flags_ b) flag) b.

(** The tag, with the column family when it is not the default one. *)
Definition put_tag (tag cf_tag column_family_id : Z) : bytes :=
  if column_family_id =? 0 then [byte.of_Z tag] else PutVarint32 [byte.of_Z cf_tag] column_family_id.

(** What the operations that add a counted record have in common. *)
Definition add_counted (body : bytes) (flag : Z) (b : WriteBatch) : option (BatchStatus * WriteBatch) :=
  save ← save_point_of b;
  n ← wb_Count b;
  b ← SetCount (n + 1) b;
  commit save (wb_append body flag b).

Definition kMaxUint32 : Z := 2 ^ 32 - 1.

Definition two_slices (key value : bytes) : bytes := PutLengthPrefixedSlice (PutLengthPrefixedSlice [] key) value.
Definition two_parts (key value : list bytes) : bytes := PutLengthPrefixedSliceParts (PutLengthPrefixedSliceParts [] key) value.

Definition wb_Put (cf : Z) (key value : bytes) (b : WriteBatch) : option (BatchStatus * WriteBatch) :=
  if (kMaxUint32 <? len key) || (kMaxUint32 <? len value) then Some (BS_InvalidArgument, b) else
  add_counted (put_tag kTypeValue kTypeColumnFamilyValue cf ++ two_slices key value) HAS_PUT b.

Definition CheckSlicePartsLength (key value : list bytes) : BatchStatus :=
  if kMaxUint32 <=? foldr (fun p acc => len p + acc) 0 key then BS_InvalidArgument
  else if kMaxUint32 <=? foldr (fun p acc => len p + acc) 0 value then BS_InvalidArgument
  else BS_OK.

Definition wb_PutParts (cf : Z) (key value : list bytes) (b : WriteBatch) : option (BatchStatus * WriteBatch) :=
  if negb (BS_ok (CheckSlicePartsLength key value)) then Some (CheckSlicePartsLength key value, b) else
  add_counted (put_tag kTypeValue kTypeColumnFamilyValue cf ++ two_parts key value) HAS_PUT b.

Definition InsertNoop (b : WriteBatch) : option (BatchStatus * WriteBatch) :=
  Some (BS_OK, wb_append [byte.of_Z kTypeNoop] 0 b).

Definition wb_MarkEndPrepare (xid : bytes) (write_after_commit unprepared_batch : bool) (b : WriteBatch) : option (BatchStatus * WriteBatch) :=
  t ← wb_rep_ b !z 12;
  if negb (byte.unsigned t =? kTypeNoop) then None else
  let tag := if write_after_commit then kTypeBeginPrepareXID else if unprepared_batch then kTypeBeginUnprepareXID else kTypeBeginPersistedPrepareXID in
  rep ← zset (wb_rep_ b) 12 (byte.of_Z tag);
  let b := mkWB rep (wb_content_flags_ b) (wb_max_bytes_ b) [] (wb_wal_term_point_ b) in
  let b := wb_append (PutLengthPrefixedSlice [byte.of_Z kTypeEndPrepareXID] xid) (Z.lor HAS_END_PREPARE HAS_BEGIN_PREPARE) b in
  Some (BS_OK, if unprepared_batch then wb_append [] HAS_BEGIN_UNPREPARE b else b).

Definition wb_MarkCommit (xid : bytes) (b : WriteBatch) : option (BatchStatus * WriteBatch) :=
  Some (BS_OK, wb_append (PutLengthPrefixedSlice [byte.of_Z kTypeCommitXID] xid) HAS_COMMIT b).

Definition wb_MarkRollback (xid : bytes) (b : WriteBatch) : option (BatchStatus * WriteBatch) :=
  Some (BS_OK, wb_append (PutLengthPrefixedSlice [byte.of_Z kTypeRollbackXID] xid) HAS_ROLLBACK b).

Definition wb_Delete (cf : Z) (key : bytes) : WriteBatch -> option (BatchStatus * WriteBatch) :=
  add_counted (put_tag kTypeDeletion kTypeColumnFamilyDeletion cf ++ PutLengthPrefixedSlice [] key) HAS_DELETE.

Definition wb_DeleteParts (cf : Z) (key : list bytes) : WriteBatch -> option (BatchStatus * WriteBatch) :=
  add_counted (put_tag kTypeDeletion kTypeColumnFamilyDeletion cf ++ PutLengthPrefixedSliceParts [] key) HAS_DELETE.

Definition wb_SingleDelete (cf : Z) (key : bytes) : WriteBatch -> option (BatchStatus * WriteBatch) :=
  add_counted (put_tag kTypeSingleDeletion kTypeColumnFamilySingleDeletion cf ++ PutLengthPrefixedSlice [] key) HAS_SINGLE_DELETE.

Definition wb_SingleDeleteParts (cf : Z) (key : list bytes) : WriteBatch -> option (BatchStatus * WriteBatch) :=
  add_counted (put_tag kTypeSingleDeletion kTypeColumnFamilySingleDeletion cf ++ PutLengthPrefixedSliceParts [] key) HAS_SINGLE_DELETE.

Definition wb_DeleteRange (cf : Z) (begin_key end_key : bytes) : WriteBatch -> option (BatchStatus * WriteBatch) :=
  add_counted (put_tag kTypeRangeDeletion kTypeColumnFamilyRangeDeletion cf ++ two_slices begin_key end_key) HAS_DELETE_RANGE.

Definition wb_DeleteRangeParts (cf : Z) (begin_key end_key : list bytes) : WriteBatch -> option (BatchStatus * WriteBatch) :=
  add_counted (put_tag kTypeRangeDeletion kTypeColumnFamilyRangeDeletion cf ++ two_parts begin_key end_key) HAS_DELETE_RANGE.

Definition wb_Merge (cf : Z) (key value : bytes) (b : WriteBatch) : option (BatchStatus * WriteBatch) :=
  if (kMaxUint32 <? len key) || (kMaxUint32 <? len value) then Some (BS_InvalidArgument, b) else
  add_counted (put_tag kTypeMerge kTypeColumnFamilyMerge cf ++ two_slices key value) HAS_MERGE b.

Definition wb_MergeParts (cf : Z) (key value : list bytes) (b : WriteBatch) : option (BatchStatus * WriteBatch) :=
  if negb (BS_ok (CheckSlicePartsLength key value)) then Some (CheckSlicePartsLength key value, b) else
  add_counted (put_tag kTypeMerge kTypeColumnFamilyMerge cf ++ two_parts key value) HAS_MERGE b.

Definition wb_PutBlobIndex (cf : Z) (key value : bytes) : WriteBatch -> option (BatchStatus * WriteBatch) :=
  add_counted (put_tag kTypeBlobIndex kTypeColumnFamilyBlobIndex cf ++ two_slices key value) HAS_BLOB_INDEX.

Definition wb_PutLogData (blob : bytes) (b : WriteBatch) : option (BatchStatus * WriteBatch) :=
  save ← save_point_of b; commit save (wb_append (PutLengthPrefixedSlice [byte.of_Z kTypeLogData] blob) 0 b).

(** ** Save points *)

Definition wb_SetSavePoint (b : WriteBatch) : option WriteBatch :=
  p ← save_point_of b;
  Some (mkWB (wb_rep_ b) (wb_content_flags_ b) (wb_max_bytes_ b) (p :: wb_save_points_ b) (wb_wal_term_point_ b)).

Definition wb_RollbackToSavePoint (b : WriteBatch) : option (BatchStatus * WriteBatch) :=
  match wb_save_points_ b with
  | [] => Some (BS_NotFound, b)
  | p :: rest =>
      let b := mkWB (wb_rep_ b) (wb_content_flags_ b) (wb_max_bytes_ b) rest (wb_wal_term_point_ b) in
      n ← wb_Count b;
      if negb (sp_size p <=? len (wb_rep_ b)) || negb (sp_count p <=? n) then None
      else if sp_size p =? len (wb_rep_ b) then Some (BS_OK, b)
      else if sp_size p =? 0 then Some (BS_OK, wb_Clear b)
      else b ← cut_to p b; Some (BS_OK, b)
  end.

Definition wb_PopSavePoint (b : WriteBatch) : BatchStatus * WriteBatch :=
  match wb_save_points_ b with
  | [] => (BS_NotFound, b)
  | _ :: rest => (BS_OK, mkWB (wb_rep_ b) (wb_content_flags_ b) (wb_max_bytes_ b) rest (wb_wal_term_point_ b))
  end.

Definition MarkWalTerminationPoint (b : WriteBatch) : option WriteBatch :=
  p ← save_point_of b; Some (mkWB (wb_rep_ b) (wb_content_flags_ b) (wb_max_bytes_ b) (wb_save_points_ b) p).

Definition SetContents (contents : bytes) (b : WriteBatch) : option WriteBatch :=
  if len contents <? kHeader then None else Some (wb_set contents DEFERRED b).

Definition wb_Append (src : WriteBatch) (wal_only : bool) (dst : WriteBatch) : option WriteBatch :=
  let batch_end := wb_wal_term_point_ src in
  src_count ← wb_Count src;
  let '(src_len, src_count, src_flags) :=
    if wal_only && negb (is_cleared batch_end) then (wrap64 (sp_size batch_end - kHeader), sp_count batch_end, sp_flags batch_end)
    else (wrap64 (len (wb_rep_ src) - kHeader), src_count, wb_content_flags_ src) in
  n ← wb_Count dst;
  dst ← SetCount (n + src_count) dst;
  if len (wb_rep_ src) <? kHeader then None else
  body ← mem_read (wb_rep_ src) kHeader src_len;
  Some (wb_append body src_flags dst).

Definition AppendedByteSize (leftByteSize rightByteSize : Z) : Z :=
  if (leftByteSize =? 0) || (rightByteSize =? 0) then wrap64 (leftByteSize + rightByteSize)
  else wrap64 (leftByteSize + rightByteSize - kHeader).

(** ** Records *)

(** What [ReadRecordFromWriteBatch] found: the kind of the tag and what the iteration uses of the record. *)
Inductive BatchRecord :=
  | RPut (cf : Z) (key value : bytes) | RDelete (cf : Z) (key : bytes) | RSingleDelete (cf : Z) (key : bytes)
  | RDeleteRange (cf : Z) (begin_key end_key : bytes) | RMerge (cf : Z) (key value : bytes) | RBlobIndex (cf : Z) (key value : bytes)
  | RLogData (blob : bytes) | RBeginPrepare | RBeginPersistedPrepare | RBeginUnprepare
  | REndPrepare (xid : bytes) | RCommit (xid : bytes) | RRollback (xid : bytes) | RNoop.

(** The column family, with the default one for the short tags. *)
Definition read_cf (is_cf : bool) (input : bytes) : option (Z * bytes) := if is_cf then GetVarint32 input else Some (0, input).

Definition read_one (is_cf : bool) (make : Z -> bytes -> BatchRecord) (input : bytes) : option (BatchRecord * bytes) :=
  '(cf, input) ← read_cf is_cf input; '(key, input) ← GetLengthPrefixedSlice input; Some (make cf key, input).

Definition read_two (is_cf : bool) (make : Z -> bytes -> bytes -> BatchRecord) (input : bytes) : option (BatchRecord * bytes) :=
  '(cf, input) ← read_cf is_cf input;
  '(key, input) ← GetLengthPrefixedSlice input; '(value, input) ← GetLengthPrefixedSlice input; Some (make cf key value, input).

Definition read_xid (make : bytes -> BatchRecord) (input : bytes) : option (BatchRecord * bytes) :=
  '(xid, input) ← GetLengthPrefixedSlice input; Some (make xid, input).

(** The record and the rest of the input; [None] is a corruption. *)
Definition read_body (tag : Z) (input : bytes) : option (BatchRecord * bytes) :=
  if tag =? kTypeColumnFamilyValue then read_two true RPut input
  else if tag =? kTypeValue then read_two false RPut input
  else if tag =? kTypeColumnFamilyDeletion then read_one true RDelete input
  else if tag =? kTypeColumnFamilySingleDeletion then read_one true RSingleDelete input
  else if tag =? kTypeDeletion then read_one false RDelete input
  else if tag =? kTypeSingleDeletion then read_one false RSingleDelete input
  else if tag =? kTypeColumnFamilyRangeDeletion then read_two true RDeleteRange input
  else if tag =? kTypeRangeDeletion then read_two false RDeleteRange input
  else if tag =? kTypeColumnFamilyMerge then read_two true RMerge input
  else if tag =? kTypeMerge then read_two false RMerge input
  else if tag =? kTypeColumnFamilyBlobIndex then read_two true RBlobIndex input
  else if tag =? kTypeBlobIndex then read_two false RBlobIndex input
  else if tag =? kTypeLogData then read_xid RLogData input
  else if tag =? kTypeNoop then Some (RNoop, input)
  else if tag =? kTypeBeginPrepareXID then Some (RBeginPrepare, input)
  else if tag =? kTypeBeginPersistedPrepareXID then Some (RBeginPersistedPrepare, input)
  else if tag =? kTypeBeginUnprepareXID then Some (RBeginUnprepare, input)
  else if tag =? kTypeEndPrepareXID then read_xid REndPrepare input
  else if tag =? kTypeCommitXID then read_xid RCommit input
  else if tag =? kTypeRollbackXID then read_xid RRollback input
  else None.

Definition ReadRecordFromWriteBatch (input : bytes) : option (BatchRecord * bytes) :=
  match input with [] => None | t :: input => read_body (byte.unsigned t) input end.

(** ** Iteration *)

Inductive HandlerCall :=
  | PutCF (cf : Z) (key value : bytes) | DeleteCF (cf : Z) (key : bytes) | SingleDeleteCF (cf : Z) (key : bytes)
  | DeleteRangeCF (cf : Z) (begin_key end_key : bytes) | MergeCF (cf : Z) (key value : bytes) | PutBlobIndexCF (cf : Z) (key value : bytes)
  | LogData (blob : bytes) | MarkBeginPrepare (unprepare : bool) | MarkEndPrepare (xid : bytes) | MarkCommit (xid : bytes)
  | MarkRollback (xid : bytes) | MarkNoop (empty_batch : bool).

Record Handler (S : Type) := mkHandler {
  h_call : HandlerCall -> S -> BatchStatus * S;
  h_Continue : S -> bool * S;
  h_WriteAfterCommit : S -> bool;
  h_WriteBeforePrepare : S -> bool
}.
Arguments h_call {S} _ _ _.
Arguments h_Continue {S} _ _.
Arguments h_WriteAfterCommit {S} _ _.
Arguments h_WriteBeforePrepare {S} _ _.

(** The flags of which the iteration asserts one, besides [DEFERRED]; log data and no-ops need none. *)
Definition record_flag (r : BatchRecord) : option Z :=
  match r with
  | RPut _ _ _ => Some HAS_PUT | RDelete _ _ => Some HAS_DELETE | RSingleDelete _ _ => Some HAS_SINGLE_DELETE
  | RDeleteRange _ _ _ => Some HAS_DELETE_RANGE | RMerge _ _ _ => Some HAS_MERGE | RBlobIndex _ _ _ => Some HAS_BLOB_INDEX
  | RBeginPrepare | RBeginPersistedPrepare => Some HAS_BEGIN_PREPARE | RBeginUnprepare => Some HAS_BEGIN_UNPREPARE
  | REndPrepare _ => Some HAS_END_PREPARE | RCommit _ => Some HAS_COMMIT | RRollback _ => Some HAS_ROLLBACK
  | RLogData _ | RNoop => None
  end.

Definition flag_asserted (flags : Z) (r : BatchRecord) : bool :=
  match record_flag r with Some f => negb (Z.land flags (Z.lor DEFERRED f) =? 0) | None => true end.

Section Iterate.
Context {S : Type} (h : Handler S).

(** A counted record: the new status, whether the batch is empty, what was found. *)
Definition counted (call : HandlerCall) (marks : bool) (empty_batch : bool) (found : Z) (st : S) : BatchStatus * bool * Z * S :=
  let '(s, st) := h_call h call st in
  if BS_ok s then (s, if marks then false else empty_batch, i32 (found + 1), st) else (s, empty_batch, found, st).

(** A call whose status is not looked at. *)
Definition uncounted (call : HandlerCall) (s : BatchStatus) (empty : bool) (found : Z) (st : S) : BatchStatus * bool * Z * S :=
  (s, empty, found, (h_call h call st).2).

(** The [switch] of [Iterate], on a record read with status [OK]. *)
Definition dispatch (r : BatchRecord) (empty_batch : bool) (found : Z) (st : S) : BatchStatus * bool * Z * S :=
  match r with
  | RPut cf k v => counted (PutCF cf k v) true empty_batch found st
  | RDelete cf k => counted (DeleteCF cf k) true empty_batch found st
  | RSingleDelete cf k => counted (SingleDeleteCF cf k) true empty_batch found st
  | RDeleteRange cf k v => counted (DeleteRangeCF cf k v) true empty_batch found st
  | RMerge cf k v => counted (MergeCF cf k v) true empty_batch found st
  | RBlobIndex cf k v => counted (PutBlobIndexCF cf k v) false empty_batch found st
  | RLogData blob => uncounted (LogData blob) BS_OK false found st
  | RBeginPrepare =>
      let st := (h_call h (MarkBeginPrepare false) st).2 in
      (if negb (h_WriteAfterCommit h st) || h_WriteBeforePrepare h st then BS_NotSupported else BS_OK, false, found, st)
  | RBeginPersistedPrepare =>
      let st := (h_call h (MarkBeginPrepare false) st).2 in
      (if h_WriteAfterCommit h st then BS_NotSupported else BS_OK, false, found, st)
  | RBeginUnprepare =>
      let st := (h_call h (MarkBeginPrepare true) st).2 in
      (if h_WriteAfterCommit h st || negb (h_WriteBeforePrepare h st) then BS_NotSupported else BS_OK, false, found, st)
  | REndPrepare xid => uncounted (MarkEndPrepare xid) BS_OK true found st
  | RCommit xid => uncounted (MarkCommit xid) BS_OK true found st
  | RRollback xid => uncounted (MarkRollback xid) BS_OK true found st
  | RNoop => uncounted (MarkNoop empty_batch) BS_OK true found st
  end.

(** What the loop ended with. *)
Record IterateEnd := mkIE { ie_status : BatchStatus; ie_continue : bool; ie_found : Z; ie_handler : S }.

(** [again] is the record to repeat when the status is [TryAgain], [last] whether the round before repeated one. *)
Fixpoint Iterate_loop (fuel : nat) (flags : Z) (input : bytes) (again : option BatchRecord) (last : bool) (empty_batch : bool) (found : Z) (st : S)
    : option IterateEnd :=
  match fuel with
  | O => None
  | Datatypes.S fuel =>
      let go r input last :=
        if negb (flag_asserted flags r) then None else
        let '(s, empty, found, st) := dispatch r empty_batch found (h_Continue h st).2 in
        match s with
        | BS_OK => Iterate_loop fuel flags input None last empty found st
        | BS_TryAgain => Iterate_loop fuel flags input (Some r) last empty found st
        | _ => Some (mkIE s true found st)
        end in
      match again, input with
      | None, [] => Some (mkIE BS_OK true found st)
      | _, _ =>
          if negb (h_Continue h st).1 then
            Some (mkIE (match again with Some _ => BS_TryAgain | None => BS_OK end) false found (h_Continue h st).2) else
          match again with
          | None =>
              match ReadRecordFromWriteBatch input with
              | None => Some (mkIE BS_Corruption true found (h_Continue h st).2)
              | Some (r, input) => go r input false
              end
          | Some r => if last then None else go r input true
          end
      end
  end.

Definition wb_Iterate (b : WriteBatch) (st : S) : option (BatchStatus * S) :=
  if len (wb_rep_ b) <? kHeader then Some (BS_Corruption, st) else
  let input := drop (Z.to_nat kHeader) (wb_rep_ b) in
  e ← Iterate_loop (2 * length input + 2) (wb_content_flags_ b) input None false true 0 st;
  if negb (BS_ok (ie_status e)) then Some (ie_status e, ie_handler e) else
  n ← wb_Count b;
  Some (if ie_continue e && negb (ie_found e =? n) then BS_Corruption else BS_OK, ie_handler e).
End Iterate.
Arguments mkIE {S} _ _ _ _.

(** ** The flags of a batch that was read from a log *)

(** [BatchContentClassifier]: its calls return [OK], but for the one for no-ops, whose status is not looked at. *)
Definition classify (c : HandlerCall) (content_flags : Z) : Z :=
  match c with
  | PutCF _ _ _ => Z.lor content_flags HAS_PUT | DeleteCF _ _ => Z.lor content_flags HAS_DELETE
  | SingleDeleteCF _ _ => Z.lor content_flags HAS_SINGLE_DELETE | DeleteRangeCF _ _ _ => Z.lor content_flags HAS_DELETE_RANGE
  | MergeCF _ _ _ => Z.lor content_flags HAS_MERGE | PutBlobIndexCF _ _ _ => Z.lor content_flags HAS_BLOB_INDEX
  | MarkBeginPrepare u => let f := Z.lor content_flags HAS_BEGIN_PREPARE in if u then Z.lor f HAS_BEGIN_UNPREPARE else f
  | MarkEndPrepare _ => Z.lor content_flags HAS_END_PREPARE | MarkCommit _ => Z.lor content_flags HAS_COMMIT
  | MarkRollback _ => Z.lor content_flags HAS_ROLLBACK | LogData _ | MarkNoop _ => content_flags
  end.

Definition BatchContentClassifier : Handler Z :=
  mkHandler _ (fun c f => (BS_OK, classify c f)) (fun f => (true, f)) (fun _ => true) (fun _ => false).

Definition ComputeContentFlags (b : WriteBatch) : option (Z * WriteBatch) :=
  let rv := wb_content_flags_ b in
  if Z.land rv DEFERRED =? 0 then Some (rv, b) else
  '(_, rv) ← wb_Iterate BatchContentClassifier b 0; Some (rv, wb_set (wb_rep_ b) rv b).

Definition HasFlag (flag : Z) (b : WriteBatch) : option (bool * WriteBatch) :=
  '(rv, b) ← ComputeContentFlags b; Some (negb (Z.land rv flag =? 0), b).
