(* ===== verification/BatchRefine.v ===== *)
(** * Write batches as lists of records (db/write_batch.cc)

    Whatever is done to a batch, iterating over it calls the handler with the records that
    were added and not rolled back; appending batches concatenates their records; the flags
    of a batch that was read are recomputed; and iterating over arbitrary bytes ends. *)

From S2P Require Import Prelude Coding DbFormat VersionEdit WriteBatch.

(** ** Records and their bytes *)

Definition encode_record (r : BatchRecord) : bytes :=
  match r with
  | RPut cf k v => put_tag kTypeValue kTypeColumnFamilyValue cf ++ two_slices k v
  | RDelete cf k => put_tag kTypeDeletion kTypeColumnFamilyDeletion cf ++ PutLengthPrefixedSlice [] k
  | RSingleDelete cf k => put_tag kTypeSingleDeletion kTypeColumnFamilySingleDeletion cf ++ PutLengthPrefixedSlice [] k
  | RDeleteRange cf k v => put_tag kTypeRangeDeletion kTypeColumnFamilyRangeDeletion cf ++ two_slices k v
  | RMerge cf k v => put_tag kTypeMerge kTypeColumnFamilyMerge cf ++ two_slices k v
  | RBlobIndex cf k v => put_tag kTypeBlobIndex kTypeColumnFamilyBlobIndex cf ++ two_slices k v
  | RLogData blob => PutLengthPrefixedSlice [byte.of_Z kTypeLogData] blob
  | RBeginPrepare => [byte.of_Z kTypeBeginPrepareXID]
  | RBeginPersistedPrepare => [byte.of_Z kTypeBeginPersistedPrepareXID]
  | RBeginUnprepare => [byte.of_Z kTypeBeginUnprepareXID]
  | REndPrepare xid => PutLengthPrefixedSlice [byte.of_Z kTypeEndPrepareXID] xid
  | RCommit xid => PutLengthPrefixedSlice [byte.of_Z kTypeCommitXID] xid
  | RRollback xid => PutLengthPrefixedSlice [byte.of_Z kTypeRollbackXID] xid
  | RNoop => [byte.of_Z kTypeNoop]
  end.

Definition fits (s : bytes) : Prop := len s < 2 ^ 32.

Definition record_ok (r : BatchRecord) : Prop :=
  match r with
  | RPut cf k v | RDeleteRange cf k v | RMerge cf k v | RBlobIndex cf k v => u32 cf /\ fits k /\ fits v
  | RDelete cf k | RSingleDelete cf k => u32 cf /\ fits k
  | RLogData s | REndPrepare s | RCommit s | RRollback s => fits s
  | _ => True
  end.

Lemma PutLengthPrefixedSlice_app dst s : PutLengthPrefixedSlice dst s = dst ++ PutLengthPrefixedSlice [] s.
Proof. unfold PutLengthPrefixedSlice, PutVarint32. simpl. by rewrite <- app_assoc. Qed.

Lemma two_slices_app k v rest : two_slices k v ++ rest = PutLengthPrefixedSlice [] k ++ PutLengthPrefixedSlice [] v ++ rest.
Proof. unfold two_slices. rewrite (PutLengthPrefixedSlice_app (PutLengthPrefixedSlice [] k)). by rewrite <- app_assoc. Qed.

(** The tag gives whether a column family follows. *)
Lemma read_tag tag cf_tag cf body :
  0 <= tag < 256 -> 0 <= cf_tag < 256 -> u32 cf ->
  exists t is_cf rest, put_tag tag cf_tag cf ++ body = t :: rest /\ byte.unsigned t = (if is_cf : bool then cf_tag else tag) /\ read_cf is_cf rest = Some (cf, body).
Proof.
  intros Ht Hc Hcf. assert (forall x, 0 <= x < 256 -> byte.unsigned (byte.of_Z x) = x) as Hb.
  { intros x Hx. rewrite byte.unsigned_of_Z. unfold byte.wrap. by rewrite Z.mod_small by lia. }
  unfold put_tag. destruct (Z.eqb_spec cf 0) as [->|].
  - exists (byte.of_Z tag), false, body. split_and!; [done|by apply Hb|done].
  - exists (byte.of_Z cf_tag), true, (EncodeVarint32 cf ++ body). split_and!; [done|by apply Hb|by apply GetVarint32_Encode].
Qed.

Ltac read_tagged :=
  match goal with
  | |- context [put_tag ?t ?c ?cf ++ ?body] =>
      destruct (read_tag t c cf body ltac:(done) ltac:(done) ltac:(done)) as (tb & is_cf & rest' & -> & Htb & Hcf)
  end.

Lemma read_encode r rest : record_ok r -> ReadRecordFromWriteBatch (encode_record r ++ rest) = Some (r, rest).
Proof.
  assert (forall x s, ReadRecordFromWriteBatch (PutLengthPrefixedSlice [byte.of_Z x] s ++ rest) = read_body (byte.unsigned (byte.of_Z x)) (PutLengthPrefixedSlice [] s ++ rest)) as Hx.
  { intros x s. rewrite PutLengthPrefixedSlice_app. done. }
  destruct r as [cf k v|cf k|cf k|cf k v|cf k v|cf k v|s| | | |s|s|s|]; cbn [encode_record record_ok]; unfold fits; intros; destruct_and?; try done;
    try (rewrite Hx; unfold read_body; simpl; unfold read_xid; by rewrite GetLengthPrefixedSlice_Put).
  all: rewrite <- app_assoc; read_tagged; cbn [ReadRecordFromWriteBatch]; rewrite Htb; destruct is_cf; unfold read_body; simpl;
    unfold read_one, read_two; rewrite Hcf; cbn [mbind option_bind]; rewrite ?two_slices_app, !GetLengthPrefixedSlice_Put by done; cbn [mbind option_bind];
    rewrite ?GetLengthPrefixedSlice_Put by done; done.
Qed.

(** ** What the handler sees *)

Definition is_counted (r : BatchRecord) : bool :=
  match r with
  | RPut _ _ _ | RDelete _ _ | RSingleDelete _ _ | RDeleteRange _ _ _ | RMerge _ _ _ | RBlobIndex _ _ _ => true
  | _ => false
  end.

Definition count_records (recs : list BatchRecord) : Z := len (filter (fun r => is_counted r = true) recs).

Definition call_of (empty_batch : bool) (r : BatchRecord) : HandlerCall :=
  match r with
  | RPut cf k v => PutCF cf k v | RDelete cf k => DeleteCF cf k | RSingleDelete cf k => SingleDeleteCF cf k
  | RDeleteRange cf k v => DeleteRangeCF cf k v | RMerge cf k v => MergeCF cf k v | RBlobIndex cf k v => PutBlobIndexCF cf k v
  | RLogData s => LogData s | RBeginPrepare | RBeginPersistedPrepare => MarkBeginPrepare false | RBeginUnprepare => MarkBeginPrepare true
  | REndPrepare s => MarkEndPrepare s | RCommit s => MarkCommit s | RRollback s => MarkRollback s | RNoop => MarkNoop empty_batch
  end.

(** Whether the sub-batch is empty behind a record. *)
Definition empty_after (empty_batch : bool) (r : BatchRecord) : bool :=
  match r with
  | RBlobIndex _ _ _ => empty_batch
  | REndPrepare _ | RCommit _ | RRollback _ | RNoop => true
  | _ => false
  end.

Fixpoint calls_of (empty_batch : bool) (recs : list BatchRecord) : list HandlerCall :=
  match recs with
  | [] => []
  | r :: recs => call_of empty_batch r :: calls_of (empty_after empty_batch r) recs
  end.

(** A handler that accepts every call, under a write policy; what it does with a call is [f]. *)
Definition Accepting {S} (f : HandlerCall -> S -> S) (after_commit before_prepare : bool) : Handler S :=
  mkHandler _ (fun c st => (BS_OK, f c st)) (fun st => (true, st)) (fun _ => after_commit) (fun _ => before_prepare).

Definition handle_all {S} (f : HandlerCall -> S -> S) (calls : list HandlerCall) (st : S) : S := foldl (fun st c => f c st) st calls.

Definition policy_ok (after_commit before_prepare : bool) (r : BatchRecord) : Prop :=
  match r with
  | RBeginPrepare => after_commit = true /\ before_prepare = false
  | RBeginPersistedPrepare => after_commit = false
  | RBeginUnprepare => after_commit = false /\ before_prepare = true
  | _ => True
  end.

Lemma encode_record_cons r : exists t rest, encode_record r = t :: rest.
Proof.
  destruct r; simpl; unfold put_tag; repeat (destruct (_ =? 0); simpl); by do 2 eexists.
Qed.

Lemma count_records_cons r recs : count_records (r :: recs) = (if is_counted r then 1 else 0) + count_records recs.
Proof. unfold count_records. rewrite filter_cons. destruct (is_counted r); simpl; [by rewrite zlen_cons|done]. Qed.

Section Accepting.
Context {S : Type} (f : HandlerCall -> S -> S) (ac bp : bool).

Lemma dispatch_accepting r empty found st :
  policy_ok ac bp r ->
  dispatch (Accepting f ac bp) r empty found st = (BS_OK, empty_after empty r, if is_counted r then i32 (found + 1) else found, f (call_of empty r) st).
Proof. intros Hp. destruct r; simpl in *; destruct_and?; subst; done. Qed.

Lemma Iterate_loop_records recs fuel flags last empty found st :
  Forall (fun r => record_ok r /\ policy_ok ac bp r /\ flag_asserted flags r = true) recs -> (length recs < fuel)%nat ->
  0 <= found -> found + count_records recs < 2 ^ 31 ->
  Iterate_loop (Accepting f ac bp) fuel flags (concat (encode_record <$> recs)) None last empty found st =
    Some (mkIE BS_OK true (found + count_records recs) (handle_all f (calls_of empty recs) st)).
Proof.
  revert fuel last empty found st. induction recs as [|r recs IH]; intros fuel last empty found st Hr Hf H0 Hc; (destruct fuel as [|fuel]; [simpl in Hf; lia|]).
  { simpl. unfold count_records. by rewrite Z.add_0_r. }
  apply Forall_cons in Hr as ((Hok & Hp & Hfl) & Hr). rewrite fmap_cons. cbn [concat Iterate_loop].
  pose proof (read_encode r (concat (encode_record <$> recs)) Hok) as Hread. destruct (encode_record_cons r) as (t & rest & E). rewrite E in *. cbn [app] in *.
  rewrite Hread, Hfl. cbn [h_Continue Accepting fst snd negb]. rewrite (dispatch_accepting r empty found st Hp).
  rewrite count_records_cons in Hc |- *. pose proof (zlen_nonneg (filter (fun r => is_counted r = true) recs)) as Hnn. fold (count_records recs) in Hnn.
  assert ((if is_counted r then i32 (found + 1) else found) = found + (if is_counted r then 1 else 0)) as -> by (destruct (is_counted r); [apply i32_id|]; lia).
  rewrite IH; [|done|simpl in Hf; lia|destruct (is_counted r); lia|lia]. cbn [calls_of]. unfold handle_all. cbn [foldl]. do 2 f_equal. lia.
Qed.

Lemma dispatch_refused r empty found st :
  ~ policy_ok ac bp r -> dispatch (Accepting f ac bp) r empty found st = (BS_NotSupported, false, found, f (call_of empty r) st).
Proof. intros Hp. destruct r; simpl in *; try (by destruct Hp); destruct ac, bp; simpl; (done || (exfalso; by apply Hp)). Qed.

(** A marker of another write policy ends the iteration behind it. *)
Lemma Iterate_loop_refused pre r post fuel flags last empty found st :
  Forall (fun r => record_ok r /\ policy_ok ac bp r /\ flag_asserted flags r = true) pre -> (length pre < fuel)%nat ->
  record_ok r -> ~ policy_ok ac bp r -> flag_asserted flags r = true ->
  exists found', Iterate_loop (Accepting f ac bp) fuel flags (concat (encode_record <$> pre ++ r :: post)) None last empty found st =
    Some (mkIE BS_NotSupported true found' (handle_all f (calls_of empty (pre ++ [r])) st)).
Proof.
  intros Hpre Hf Hok Hp Hfl. revert fuel last empty found st Hpre Hf.
  induction pre as [|q pre IH]; intros fuel last empty found st Hpre Hf; (destruct fuel as [|fuel]; [simpl in Hf; lia|]); cbn [app]; rewrite fmap_cons; cbn [concat Iterate_loop].
  - pose proof (read_encode r (concat (encode_record <$> post)) Hok) as Hread. destruct (encode_record_cons r) as (t & rest & E). rewrite E in *. cbn [app] in *.
    rewrite Hread, Hfl. cbn [h_Continue Accepting fst snd negb]. rewrite (dispatch_refused r empty found st Hp). by eexists.
  - apply Forall_cons in Hpre as ((Hokq & Hpq & Hflq) & Hpre). pose proof (read_encode q (concat (encode_record <$> pre ++ r :: post)) Hokq) as Hread.
    destruct (encode_record_cons q) as (t & rest & E). rewrite E in *. cbn [app] in *. rewrite Hread, Hflq. cbn [h_Continue Accepting fst snd negb].
    rewrite (dispatch_accepting q empty found st Hpq). apply IH; [done|simpl in Hf; lia].
Qed.
End Accepting.

(** ** The batch as a list of records *)

Definition record_flags (r : BatchRecord) : Z :=
  match r with RBeginUnprepare => Z.lor HAS_BEGIN_PREPARE HAS_BEGIN_UNPREPARE | _ => default 0 (record_flag r) end.

Definition all_flags (recs : list BatchRecord) : Z := foldr (fun r f => Z.lor (record_flags r) f) 0 recs.

Definition batch_size (recs : list BatchRecord) : Z := kHeader + len (concat (encode_record <$> recs)).

Definition save_of (recs : list BatchRecord) : SavePoint := mkSP (batch_size recs) (count_records recs) (all_flags recs).

(** Each save point is of a prefix of the records that follow it. *)
Fixpoint saves_ok (recs : list BatchRecord) (saves : list (list BatchRecord)) : Prop :=
  match saves with
  | [] => True
  | s :: saves => s `prefix_of` recs /\ saves_ok s saves
  end.

Record BatchIs (max : Z) (recs : list BatchRecord) (saves : list (list BatchRecord)) (b : WriteBatch) : Prop := {
  bi_rep : exists seq, length seq = 8%nat /\ wb_rep_ b = seq ++ EncodeFixed32 (count_records recs) ++ concat (encode_record <$> recs);
  bi_flags : wb_content_flags_ b = all_flags recs;
  bi_max : wb_max_bytes_ b = max;
  bi_saves : wb_save_points_ b = save_of <$> saves;
  bi_saves_ok : saves_ok recs saves;
  bi_records : Forall record_ok recs;
  bi_count : count_records recs < 2 ^ 31
}.

Lemma all_flags_app l1 l2 : all_flags (l1 ++ l2) = Z.lor (all_flags l1) (all_flags l2).
Proof. induction l1 as [|r l1 IH]; [done|]. simpl. by rewrite IH, Z.lor_assoc. Qed.

Lemma all_flags_snoc l r : all_flags (l ++ [r]) = Z.lor (all_flags l) (record_flags r).
Proof. rewrite all_flags_app. simpl. by rewrite Z.lor_0_r. Qed.

Lemma count_records_nil : count_records [] = 0.
Proof. done. Qed.

Lemma count_records_app l1 l2 : count_records (l1 ++ l2) = count_records l1 + count_records l2.
Proof. unfold count_records. by rewrite filter_app, zlen_app. Qed.

Lemma count_records_range l : 0 <= count_records l.
Proof. apply zlen_nonneg. Qed.

Lemma encode_snoc recs r : concat (encode_record <$> recs ++ [r]) = concat (encode_record <$> recs) ++ encode_record r.
Proof. rewrite fmap_app, concat_app. simpl. by rewrite app_nil_r. Qed.

Lemma saves_ok_mono recs recs' saves : recs `prefix_of` recs' -> saves_ok recs saves -> saves_ok recs' saves.
Proof. destruct saves as [|s saves]; [done|]. intros Hp [Hs Hr]. split; [by trans recs|done]. Qed.

Section Header.
Context (seq body : bytes) (Hseq : length seq = 8%nat).

Lemma header_read n : mem_read (seq ++ EncodeFixed32 n ++ body) 8 4 = Some (EncodeFixed32 n).
Proof using Hseq.
  assert (len (EncodeFixed32 n) = 4) as H4 by (unfold EncodeFixed32; by rewrite zlen_le_split).
  replace 8 with (len seq + 0) by (unfold zlen; lia). rewrite mem_read_app_r by lia. rewrite <- H4, mem_read_app_l by lia. apply mem_read_all.
Qed.

Lemma header_write n n' : mem_write (seq ++ EncodeFixed32 n ++ body) 8 (EncodeFixed32 n') = Some (seq ++ EncodeFixed32 n' ++ body).
Proof using Hseq.
  assert (forall x, length (EncodeFixed32 x) = 4%nat) as H4 by (intros x; unfold EncodeFixed32; by rewrite length_le_split).
  destruct (mem_write_in_range (seq ++ EncodeFixed32 n ++ body) 8 (EncodeFixed32 n')) as [m Hm]; [lia|rewrite !zlen_app; unfold zlen; rewrite !H4; lia|].
  rewrite Hm. apply mem_write_Some in Hm as (_ & _ & ->). f_equal. rewrite take_app_length' by lia. f_equal. f_equal.
  rewrite drop_app_ge by (rewrite H4; lia). rewrite drop_app_ge by (rewrite !H4; lia). rewrite !H4, Hseq. done.
Qed.
End Header.

Lemma BatchIs_Count max recs saves b : BatchIs max recs saves b -> wb_Count b = Some (count_records recs).
Proof.
  intros B. destruct (bi_rep _ _ _ _ B) as (seq & Hs & Hr). unfold wb_Count. rewrite Hr, header_read by done. cbn [mbind option_bind]. f_equal.
  pose proof (count_records_range recs). pose proof (bi_count _ _ _ _ B).
  rewrite <- (app_nil_r (EncodeFixed32 _)), DecodeFixed32_Encode by (unfold u32; lia). apply i32_id. lia.
Qed.

Lemma BatchIs_size max recs saves b : BatchIs max recs saves b -> len (wb_rep_ b) = batch_size recs.
Proof.
  intros B. destruct (bi_rep _ _ _ _ B) as (seq & Hs & ->). rewrite !zlen_app. unfold batch_size, kHeader, EncodeFixed32. rewrite zlen_le_split. unfold zlen at 1. lia.
Qed.

Lemma BatchIs_header max recs saves b : BatchIs max recs saves b -> kHeader <= len (wb_rep_ b).
Proof. intros B. rewrite (BatchIs_size _ _ _ _ B). unfold batch_size. pose proof (zlen_nonneg (concat (encode_record <$> recs))). lia. Qed.

Lemma BatchIs_no_header max recs saves b : BatchIs max recs saves b -> drop (Z.to_nat kHeader) (wb_rep_ b) = concat (encode_record <$> recs).
Proof.
  intros B. destruct (bi_rep _ _ _ _ B) as (seq & Hs & ->). rewrite app_assoc. apply drop_app_length'. rewrite length_app. unfold EncodeFixed32. by rewrite length_le_split, Hs.
Qed.

Lemma BatchIs_save max recs saves b : BatchIs max recs saves b -> save_point_of b = Some (save_of recs).
Proof. intros B. unfold save_point_of. rewrite (BatchIs_Count _ _ _ _ B), (BatchIs_size _ _ _ _ B), (bi_flags _ _ _ _ B). done. Qed.

(** Records and count, as the batch holds them between the steps of an operation. *)
Definition holds (seq : bytes) (n : Z) (recs : list BatchRecord) (b : WriteBatch) : Prop :=
  wb_rep_ b = seq ++ EncodeFixed32 n ++ concat (encode_record <$> recs).

(** Back to a save point. *)
Lemma cut_to_ok max recs saves recs' b b0 seq n :
  BatchIs max recs saves b0 -> length seq = 8%nat -> holds seq n (recs ++ recs') b -> wb_max_bytes_ b = max -> wb_save_points_ b = save_of <$> saves ->
  exists b', cut_to (save_of recs) b = Some b' /\ BatchIs max recs saves b' /\ wb_wal_term_point_ b' = wb_wal_term_point_ b.
Proof.
  intros B Hs Hh Hm Hsp. unfold cut_to, SetCount. unfold holds in Hh. destruct b as [rep fl mx sp wt].
  cbn [save_of sp_size sp_count sp_flags wb_set wb_rep_ wb_max_bytes_ wb_save_points_ wb_content_flags_] in *. subst rep.
  assert (take (Z.to_nat (batch_size recs)) (seq ++ EncodeFixed32 n ++ concat (encode_record <$> recs ++ recs')) = seq ++ EncodeFixed32 n ++ concat (encode_record <$> recs)) as ->.
  { rewrite fmap_app, concat_app, !app_assoc. apply take_app_length'. rewrite !length_app. unfold batch_size, kHeader, zlen, EncodeFixed32. rewrite length_le_split. lia. }
  pose proof (count_records_range recs). pose proof (bi_count _ _ _ _ B). rewrite (wrap_id 32) by lia. rewrite header_write by done. cbn [mbind option_bind].
  eexists. split; [done|]. split; [|done]. split; simpl; try done; [by exists seq|apply (bi_saves_ok _ _ _ _ B)|apply (bi_records _ _ _ _ B)].
Qed.

(** What the limit allows. *)
Definition over_limit (max : Z) (recs : list BatchRecord) : bool := negb (max =? 0) && (max <? batch_size recs).

Lemma add_counted_ok max recs saves b r :
  BatchIs max recs saves b -> record_ok r -> is_counted r = true -> count_records recs + 1 < 2 ^ 31 ->
  exists b', add_counted (encode_record r) (record_flags r) b = Some (if over_limit max (recs ++ [r]) then BS_MemoryLimit else BS_OK, b') /\
    BatchIs max (if over_limit max (recs ++ [r]) then recs else recs ++ [r]) saves b' /\ wb_wal_term_point_ b' = wb_wal_term_point_ b.
Proof.
  intros B Hok Hcnt Hn. pose proof (count_records_range recs). unfold add_counted. rewrite (BatchIs_save _ _ _ _ B), (BatchIs_Count _ _ _ _ B). cbn [mbind option_bind].
  destruct (bi_rep _ _ _ _ B) as (seq & Hs & Hr). unfold SetCount. rewrite Hr, (wrap_id 32), header_write by (done || lia). cbn [mbind option_bind].
  assert (count_records (recs ++ [r]) = count_records recs + 1) as Hcr.
  { rewrite count_records_app, count_records_cons, count_records_nil, Hcnt. lia. }
  set (b2 := wb_append _ _ _). assert (wb_rep_ b2 = seq ++ EncodeFixed32 (count_records recs + 1) ++ concat (encode_record <$> recs ++ [r])) as Hr2.
  { unfold b2, wb_append. rewrite encode_snoc. destruct b. simpl. by rewrite <- !app_assoc. }
  assert (wb_max_bytes_ b2 = max /\ wb_save_points_ b2 = save_of <$> saves /\ wb_content_flags_ b2 = all_flags (recs ++ [r]) /\ wb_wal_term_point_ b2 = wb_wal_term_point_ b) as (Hm2 & Hsp2 & Hf2 & Hw2).
  { unfold b2, wb_append. rewrite all_flags_snoc, <- (bi_flags _ _ _ _ B), <- (bi_max _ _ _ _ B), <- (bi_saves _ _ _ _ B). by destruct b. }
  assert (len (wb_rep_ b2) = batch_size (recs ++ [r])) as Hl2.
  { rewrite Hr2, !zlen_app. unfold batch_size, kHeader, EncodeFixed32. rewrite zlen_le_split. unfold zlen at 1. lia. }
  unfold commit. rewrite Hm2, Hl2. fold (over_limit max (recs ++ [r])). destruct (over_limit max (recs ++ [r])).
  - destruct (cut_to_ok max recs saves [r] b2 b seq (count_records recs + 1) B Hs Hr2 Hm2 Hsp2) as (b' & -> & B' & Hw'). cbn [mbind option_bind]. exists b'. split_and!; [done|done|congruence].
  - exists b2. split_and!; [done| |done]. split; [exists seq; by rewrite Hcr|done|done|done| | |lia].
    + apply (saves_ok_mono recs); [by apply prefix_app_r|apply (bi_saves_ok _ _ _ _ B)].
    + apply Forall_app. split; [apply (bi_records _ _ _ _ B)|by constructor].
Qed.

(** A record that is not counted and not limited. *)
Lemma wb_append_ok max recs saves b r :
  BatchIs max recs saves b -> record_ok r -> is_counted r = false -> BatchIs max (recs ++ [r]) saves (wb_append (encode_record r) (record_flags r) b).
Proof.
  intros B Hok Hcnt. destruct (bi_rep _ _ _ _ B) as (seq & Hs & Hr).
  assert (count_records (recs ++ [r]) = count_records recs) as Hcr by (rewrite count_records_app, count_records_cons, count_records_nil, Hcnt; lia).
  pose proof (bi_flags _ _ _ _ B). pose proof (bi_max _ _ _ _ B). pose proof (bi_saves _ _ _ _ B). pose proof (bi_count _ _ _ _ B).
  unfold wb_append. destruct b as [rep fl mx sp wt]; simpl in *. subst. split; simpl; try done.
  - exists seq. rewrite Hcr, encode_snoc, <- !app_assoc. done.
  - by rewrite all_flags_snoc.
  - apply (saves_ok_mono recs); [by apply prefix_app_r|apply (bi_saves_ok _ _ _ _ B)].
  - apply Forall_app. split; [apply (bi_records _ _ _ _ B)|by constructor].
  - by rewrite Hcr.
Qed.

(** ** Operations *)

Inductive BatchOp :=
  | OPut (cf : Z) (key value : bytes) | OPutParts (cf : Z) (key value : list bytes)
  | ODelete (cf : Z) (key : bytes) | ODeleteParts (cf : Z) (key : list bytes)
  | OSingleDelete (cf : Z) (key : bytes) | OSingleDeleteParts (cf : Z) (key : list bytes)
  | ODeleteRange (cf : Z) (begin_key end_key : bytes) | ODeleteRangeParts (cf : Z) (begin_key end_key : list bytes)
  | OMerge (cf : Z) (key value : bytes) | OMergeParts (cf : Z) (key value : list bytes)
  | OBlobIndex (cf : Z) (key value : bytes) | OLogData (blob : bytes) | ONoop
  | OEndPrepare (xid : bytes) (write_after_commit unprepared : bool) | OCommit (xid : bytes) | ORollbackXID (xid : bytes)
  | OSetSavePoint | ORollbackToSavePoint | OPopSavePoint | OClear.

Definition batch_op (b : WriteBatch) (op : BatchOp) : option (BatchStatus * WriteBatch) :=
  match op with
  | OPut cf k v => wb_Put cf k v b | OPutParts cf k v => wb_PutParts cf k v b
  | ODelete cf k => wb_Delete cf k b | ODeleteParts cf k => wb_DeleteParts cf k b
  | OSingleDelete cf k => wb_SingleDelete cf k b | OSingleDeleteParts cf k => wb_SingleDeleteParts cf k b
  | ODeleteRange cf k v => wb_DeleteRange cf k v b | ODeleteRangeParts cf k v => wb_DeleteRangeParts cf k v b
  | OMerge cf k v => wb_Merge cf k v b | OMergeParts cf k v => wb_MergeParts cf k v b
  | OBlobIndex cf k v => wb_PutBlobIndex cf k v b | OLogData s => wb_PutLogData s b | ONoop => InsertNoop b
  | OEndPrepare xid w u => wb_MarkEndPrepare xid w u b | OCommit xid => wb_MarkCommit xid b | ORollbackXID xid => wb_MarkRollback xid b
  | OSetSavePoint => b ← wb_SetSavePoint b; Some (BS_OK, b)
  | ORollbackToSavePoint => wb_RollbackToSavePoint b
  | OPopSavePoint => Some (wb_PopSavePoint b)
  | OClear => Some (BS_OK, wb_Clear b)
  end.

(** The record an operation adds, and whether its sizes are refused. *)
Definition op_record (op : BatchOp) : option BatchRecord :=
  match op with
  | OPut cf k v => Some (RPut cf k v) | OPutParts cf k v => Some (RPut cf (concat k) (concat v))
  | ODelete cf k => Some (RDelete cf k) | ODeleteParts cf k => Some (RDelete cf (concat k))
  | OSingleDelete cf k => Some (RSingleDelete cf k) | OSingleDeleteParts cf k => Some (RSingleDelete cf (concat k))
  | ODeleteRange cf k v => Some (RDeleteRange cf k v) | ODeleteRangeParts cf k v => Some (RDeleteRange cf (concat k) (concat v))
  | OMerge cf k v => Some (RMerge cf k v) | OMergeParts cf k v => Some (RMerge cf (concat k) (concat v))
  | OBlobIndex cf k v => Some (RBlobIndex cf k v) | OLogData s => Some (RLogData s) | ONoop => Some RNoop
  | OCommit xid => Some (RCommit xid) | ORollbackXID xid => Some (RRollback xid)
  | _ => None
  end.

Definition op_refused (op : BatchOp) : bool :=
  match op with
  | OPut _ k v | OMerge _ k v => (2 ^ 32 <=? len k) || (2 ^ 32 <=? len v)
  | OPutParts _ k v | OMergeParts _ k v => (2 ^ 32 - 1 <=? len (concat k)) || (2 ^ 32 - 1 <=? len (concat v))
  | _ => false
  end.

(** The limit is for counted records and log data. *)
Definition op_limited (r : BatchRecord) : bool := is_counted r || match r with RLogData _ => true | _ => false end.

Definition begin_record (write_after_commit unprepared : bool) : BatchRecord :=
  if write_after_commit then RBeginPrepare else if unprepared then RBeginUnprepare else RBeginPersistedPrepare.

(** The reference: records, save points, and the status of each operation. *)
Definition spec_op (max : Z) '((recs, saves) : list BatchRecord * list (list BatchRecord)) (op : BatchOp)
    : BatchStatus * (list BatchRecord * list (list BatchRecord)) :=
  match op_record op with
  | Some r =>
      if op_refused op then (BS_InvalidArgument, (recs, saves))
      else if op_limited r && over_limit max (recs ++ [r]) then (BS_MemoryLimit, (recs, saves))
      else (BS_OK, (recs ++ [r], saves))
  | None =>
      match op with
      | OEndPrepare xid w u => (BS_OK, (begin_record w u :: tail recs ++ [REndPrepare xid], []))
      | OSetSavePoint => (BS_OK, (recs, recs :: saves))
      | ORollbackToSavePoint => match saves with [] => (BS_NotFound, (recs, saves)) | s :: saves => (BS_OK, (s, saves)) end
      | OPopSavePoint => match saves with [] => (BS_NotFound, (recs, saves)) | _ :: saves => (BS_OK, (recs, saves)) end
      | OClear => (BS_OK, ([], []))
      | _ => (BS_OK, (recs, saves))
      end
  end.

(** What the caller must keep to: sizes that the code does not check, and a prepare section that a no-op began. *)
Definition op_legal (recs : list BatchRecord) (op : BatchOp) : Prop :=
  count_records recs + 1 < 2 ^ 31 /\
  (forall r, op_record op = Some r -> op_refused op = false -> record_ok r) /\
  match op with OEndPrepare xid w u => head recs = Some RNoop /\ fits xid /\ w && u = false | _ => True end.

Fixpoint spec_ops (max : Z) (st : list BatchRecord * list (list BatchRecord)) (ops : list BatchOp) : list BatchStatus * (list BatchRecord * list (list BatchRecord)) :=
  match ops with
  | [] => ([], st)
  | op :: ops => let '(s, st) := spec_op max st op in let '(ss, st) := spec_ops max st ops in (s :: ss, st)
  end.

Fixpoint ops_legal (max : Z) (st : list BatchRecord * list (list BatchRecord)) (ops : list BatchOp) : Prop :=
  match ops with
  | [] => True
  | op :: ops => op_legal st.1 op /\ ops_legal max (spec_op max st op).2 ops
  end.

Fixpoint batch_ops (b : WriteBatch) (ops : list BatchOp) : option (list BatchStatus * WriteBatch) :=
  match ops with
  | [] => Some ([], b)
  | op :: ops => '(s, b) ← batch_op b op; '(ss, b) ← batch_ops b ops; Some (s :: ss, b)
  end.

Lemma parts_total (parts : list bytes) : foldr (fun p acc => len p + acc) 0 parts = len (concat parts).
Proof. induction parts as [|p parts IH]; [done|]. simpl. by rewrite zlen_app, IH. Qed.

Lemma parts_slice dst parts : PutLengthPrefixedSliceParts dst parts = PutLengthPrefixedSlice dst (concat parts).
Proof.
  unfold PutLengthPrefixedSliceParts, PutLengthPrefixedSlice. cbv zeta.
  rewrite parts_total.
  generalize (PutVarint32 dst (wrap32 (len (concat parts)))). clear. induction parts as [|p parts IH]; intros d; simpl; [by rewrite app_nil_r|].
  by rewrite IH, <- app_assoc.
Qed.

(** Every operation that adds a counted record does it the same way. *)
Lemma batch_op_counted b op r :
  op_record op = Some r -> is_counted r = true ->
  batch_op b op = if op_refused op then Some (BS_InvalidArgument, b) else add_counted (encode_record r) (record_flags r) b.
Proof.
  destruct op; simpl; intros [= <-] Hc; try done;
    unfold wb_Put, wb_PutParts, wb_Merge, wb_MergeParts, wb_Delete, wb_DeleteParts, wb_SingleDelete, wb_SingleDeleteParts, wb_DeleteRange, wb_DeleteRangeParts,
      wb_PutBlobIndex, two_parts; rewrite ?parts_slice; try done.
  all: assert (forall x, (2 ^ 32 - 1 <? x) = (2 ^ 32 <=? x)) as Hx by (intros x; destruct (Z.ltb_spec (2 ^ 32 - 1) x), (Z.leb_spec (2 ^ 32) x); done || lia).
  all: unfold CheckSlicePartsLength, kMaxUint32; rewrite ?parts_total, ?Hx; try done.
  all: by destruct (_ <=? len (concat _)), (_ <=? len (concat _)).
Qed.

Lemma zlen_encode_pos r : 1 <= len (encode_record r).
Proof. destruct (encode_record_cons r) as (t & rest & ->). rewrite zlen_cons. pose proof (zlen_nonneg rest). lia. Qed.

Lemma saves_prefix_size (s recs : list BatchRecord) :
  s `prefix_of` recs -> batch_size s <= batch_size recs /\ count_records s <= count_records recs /\ (batch_size s = batch_size recs -> s = recs).
Proof.
  intros [k ->]. unfold batch_size. rewrite fmap_app, concat_app, zlen_app, count_records_app.
  pose proof (zlen_nonneg (concat (encode_record <$> k))). pose proof (count_records_range k). split_and!; [lia|lia|].
  destruct k as [|r k]; [by rewrite app_nil_r|]. rewrite fmap_cons. cbn [concat]. rewrite zlen_app. pose proof (zlen_encode_pos r). pose proof (zlen_nonneg (concat (encode_record <$> k))). lia.
Qed.

Lemma BatchIs_prefix max s recs saves b : s `prefix_of` recs -> saves_ok s saves -> BatchIs max recs saves b -> Forall record_ok s /\ count_records s < 2 ^ 31.
Proof.
  intros Hp Hs B. pose proof (saves_prefix_size _ _ Hp) as (_ & Hc & _). pose proof (bi_count _ _ _ _ B). split; [|lia].
  pose proof (bi_records _ _ _ _ B) as Hr. destruct Hp as [k ->]. by apply Forall_app in Hr as [? _].
Qed.

Lemma Rollback_ok max recs s saves b :
  BatchIs max recs (s :: saves) b -> exists b', wb_RollbackToSavePoint b = Some (BS_OK, b') /\ BatchIs max s saves b' /\ wb_wal_term_point_ b' = wb_wal_term_point_ b.
Proof.
  intros B. destruct (bi_saves_ok _ _ _ _ B) as [Hp Hs]. destruct (saves_prefix_size _ _ Hp) as (Hsz & Hcnt & Heq).
  unfold wb_RollbackToSavePoint. rewrite (bi_saves _ _ _ _ B). cbn [fmap list_fmap]. set (b1 := mkWB _ _ _ _ _).
  assert (BatchIs max recs saves b1) as B1.
  { destruct B. split; try done. apply (saves_ok_mono s); [done|done]. }
  rewrite (BatchIs_Count _ _ _ _ B1), (BatchIs_size _ _ _ _ B1). cbn [mbind option_bind save_of sp_size sp_count].
  destruct (Z.leb_spec (batch_size s) (batch_size recs)); [|lia]. destruct (Z.leb_spec (count_records s) (count_records recs)); [|lia]. cbn [negb orb].
  destruct (Z.eqb_spec (batch_size s) (batch_size recs)) as [E|].
  { rewrite (Heq E). exists b1. by split_and!. }
  destruct (Z.eqb_spec (batch_size s) 0) as [E|]; [unfold batch_size, kHeader in E; pose proof (zlen_nonneg (concat (encode_record <$> s))); lia|].
  destruct (bi_rep _ _ _ _ B1) as (seq & Hseq & Hrep). destruct Hp as [k ->]. destruct (BatchIs_prefix max s _ saves b1 (prefix_app_r _ _ _ (reflexivity s)) Hs B1) as [Hf Hc].
  assert (BatchIs max s saves (mkWB (seq ++ EncodeFixed32 (count_records s) ++ concat (encode_record <$> s)) (all_flags s) max (save_of <$> saves) SavePoint_cleared)) as B0.
  { split; try done. by exists seq. }
  destruct (cut_to_ok max s saves k b1 _ seq (count_records (s ++ k)) B0 Hseq Hrep (bi_max _ _ _ _ B1) (bi_saves _ _ _ _ B1)) as (b' & Hcut & B' & Hw).
  rewrite Hcut. cbn [mbind option_bind]. by exists b'.
Qed.

(** The begin marker takes the place of the no-op. *)
Lemma EndPrepare_ok max recs saves b xid w u :
  BatchIs max (RNoop :: recs) saves b -> fits xid -> w && u = false ->
  exists b', wb_MarkEndPrepare xid w u b = Some (BS_OK, b') /\ BatchIs max (begin_record w u :: recs ++ [REndPrepare xid]) [] b' /\ wb_wal_term_point_ b' = wb_wal_term_point_ b.
Proof.
  intros B Hx Hwu. destruct (bi_rep _ _ _ _ B) as (seq & Hseq & Hrep). pose proof (bi_records _ _ _ _ B) as Hok. pose proof (bi_flags _ _ _ _ B) as Hfl. pose proof (bi_max _ _ _ _ B) as Hm.
  pose proof (bi_count _ _ _ _ B) as Hcnt. rewrite count_records_cons in *. cbn [is_counted] in *. rewrite Z.add_0_l in *.
  set (body := concat (encode_record <$> recs)). rewrite fmap_cons in Hrep. cbn [concat encode_record app] in Hrep. fold body in Hrep.
  set (hd := seq ++ EncodeFixed32 (count_records recs)). assert (length hd = 12%nat) as Hhd by (unfold hd, EncodeFixed32; rewrite length_app, length_le_split; lia).
  assert (wb_rep_ b = hd ++ byte.of_Z kTypeNoop :: body) as Hrep' by (rewrite Hrep; unfold hd; by rewrite <- app_assoc).
  unfold wb_MarkEndPrepare. rewrite Hrep'. assert ((hd ++ byte.of_Z kTypeNoop :: body) !z 12 = Some (byte.of_Z kTypeNoop)) as ->.
  { apply zget_Some. split; [lia|]. change (Z.to_nat 12) with 12%nat. rewrite <- Hhd. by apply list_lookup_middle. }
  cbn [mbind option_bind]. change (byte.unsigned (byte.of_Z kTypeNoop) =? kTypeNoop) with true. cbn [negb].
  rewrite zset_in_range by (rewrite zlen_app, zlen_cons; pose proof (zlen_nonneg body); unfold zlen at 1; lia). cbn [mbind option_bind]. change (Z.to_nat 12) with 12%nat.
  set (tag := if w then _ else _).
  assert (<[12%nat := byte.of_Z tag]> (hd ++ byte.of_Z kTypeNoop :: body) = hd ++ byte.of_Z tag :: body) as Hins by (rewrite insert_app_r_alt by lia; by rewrite Hhd).
  rewrite Hins.
  assert (encode_record (begin_record w u) = [byte.of_Z tag]) as Htag by (unfold tag; by destruct w, u).
  assert (count_records (begin_record w u :: recs ++ [REndPrepare xid]) = count_records recs) as Hc.
  { rewrite count_records_cons, count_records_app, count_records_cons, count_records_nil. unfold begin_record. destruct w, u; cbn [is_counted]; lia. }
  eexists. split; [done|]. split; [|by destruct u]. set (b' := if u then _ else _).
  assert (wb_rep_ b' = (hd ++ byte.of_Z tag :: body) ++ encode_record (REndPrepare xid) /\ wb_max_bytes_ b' = max /\ wb_save_points_ b' = []) as (Hr' & Hm' & Hs')
    by (unfold b'; rewrite <- Hm; destruct u; simpl; by rewrite ?app_nil_r).
  assert (wb_content_flags_ b' = all_flags (begin_record w u :: recs ++ [REndPrepare xid])) as Hf'.
  { unfold b'. cbn [all_flags foldr]. fold (all_flags (recs ++ [REndPrepare xid])). rewrite all_flags_snoc. cbn [all_flags foldr record_flags record_flag default] in Hfl.
    fold (all_flags recs) in Hfl. unfold begin_record. destruct w, u; try done; cbn [wb_append wb_set wb_content_flags_ record_flags record_flag default from_option]; unfold id; rewrite Hfl;
      apply Z.bits_inj'; intros n Hn; rewrite !Z.lor_spec, ?Z.bits_0; (destruct (Z.testbit (all_flags recs) n), (Z.testbit HAS_BEGIN_PREPARE n), (Z.testbit HAS_END_PREPARE n), (Z.testbit HAS_BEGIN_UNPREPARE n); done). }
  split; [|done|done|by rewrite Hs'|done| |by rewrite Hc].
  - exists seq. split; [done|]. rewrite Hr', Hc, fmap_cons. cbn [concat]. rewrite Htag, encode_snoc. fold body. unfold hd. by rewrite <- !app_assoc.
  - apply Forall_cons in Hok as [_ Hok]. apply Forall_cons. split; [unfold begin_record; by destruct w, u|]. apply Forall_app. split; [done|by constructor].
Qed.

Lemma PutLogData_ok max recs saves b s :
  BatchIs max recs saves b -> fits s ->
  exists b', wb_PutLogData s b = Some (if over_limit max (recs ++ [RLogData s]) then BS_MemoryLimit else BS_OK, b') /\
    BatchIs max (if over_limit max (recs ++ [RLogData s]) then recs else recs ++ [RLogData s]) saves b' /\ wb_wal_term_point_ b' = wb_wal_term_point_ b.
Proof.
  intros B Hs. unfold wb_PutLogData. rewrite (BatchIs_save _ _ _ _ B). cbn [mbind option_bind].
  pose proof (wb_append_ok max recs saves b (RLogData s) B Hs eq_refl) as B1. cbn [encode_record record_flags record_flag default] in B1.
  unfold commit. rewrite (bi_max _ _ _ _ B1), (BatchIs_size _ _ _ _ B1). fold (over_limit max (recs ++ [RLogData s])). destruct (over_limit max (recs ++ [RLogData s])); [|by eexists; split_and!; [done|done|destruct b]].
  destruct (bi_rep _ _ _ _ B1) as (seq & Hseq & Hrep).
  destruct (cut_to_ok max recs saves [RLogData s] _ b seq _ B Hseq Hrep (bi_max _ _ _ _ B1) (bi_saves _ _ _ _ B1)) as (b' & -> & B' & Hw). cbn [mbind option_bind]. exists b'. rewrite Hw. by destruct b.
Qed.

Lemma BatchIs_make max : BatchIs max [] [] (WriteBatch_make max).
Proof. split; try done. exists (replicate 8 Byte.x00). done. Qed.

Lemma batch_op_ok max recs saves b op :
  BatchIs max recs saves b -> op_legal recs op ->
  exists b', batch_op b op = Some ((spec_op max (recs, saves) op).1, b') /\ BatchIs max (spec_op max (recs, saves) op).2.1 (spec_op max (recs, saves) op).2.2 b' /\
    (op <> OClear -> wb_wal_term_point_ b' = wb_wal_term_point_ b).
Proof.
  intros B (Hn & Hok & Hend). destruct (op_record op) as [r|] eqn:Er.
  - specialize (Hok r eq_refl). unfold spec_op. rewrite Er. destruct (is_counted r) eqn:Ec.
    + rewrite (batch_op_counted b op r Er Ec). destruct (op_refused op) eqn:Erf; [by exists b|]. unfold op_limited. rewrite Ec. cbn [orb andb].
      destruct (add_counted_ok max recs saves b r B (Hok eq_refl) Ec Hn) as (b' & -> & B' & Hw). exists b'. by destruct (over_limit max (recs ++ [r])).
    + destruct op; try done; simpl in Er; injection Er as <-; try done; cbn [op_refused op_limited is_counted orb andb batch_op].
      * destruct (PutLogData_ok max recs saves b blob B (Hok eq_refl)) as (b' & -> & B' & Hw). exists b'. by destruct (over_limit max _).
      * eexists. split_and!; [done|exact (wb_append_ok max recs saves b RNoop B I eq_refl)|by destruct b].
      * eexists. split_and!; [done|exact (wb_append_ok max recs saves b (RCommit xid) B (Hok eq_refl) eq_refl)|by destruct b].
      * eexists. split_and!; [done|exact (wb_append_ok max recs saves b (RRollback xid) B (Hok eq_refl) eq_refl)|by destruct b].
  - unfold spec_op. rewrite Er. destruct op; try done; cbn [batch_op].
    + destruct Hend as (Hhd & Hx & Hwu). destruct recs as [|r recs]; [done|]. injection Hhd as ->.
      destruct (EndPrepare_ok max recs saves b xid write_after_commit unprepared B Hx Hwu) as (b' & -> & B' & Hw). by exists b'.
    + unfold wb_SetSavePoint. rewrite (BatchIs_save _ _ _ _ B). cbn [mbind option_bind]. eexists. split_and!; [done| |done]. destruct B. split; try done.
      simpl. by rewrite bi_saves0.
    + destruct saves as [|s saves]; [|by destruct (Rollback_ok max recs s saves b B) as (b' & -> & B' & Hw); exists b'].
      unfold wb_RollbackToSavePoint. rewrite (bi_saves _ _ _ _ B). by exists b.
    + unfold wb_PopSavePoint. rewrite (bi_saves _ _ _ _ B). destruct saves as [|s saves]; [by exists b|]. eexists. split_and!; [done| |done]. destruct B as [? ? ? ? [? ?] ? ?].
      split; try done. by apply (saves_ok_mono s).
    + eexists. split_and!; [done| |done]. unfold wb_Clear. rewrite (bi_max _ _ _ _ B). apply BatchIs_make.
Qed.

Lemma batch_ops_ok max ops st b :
  BatchIs max st.1 st.2 b -> ops_legal max st ops ->
  exists b', batch_ops b ops = Some ((spec_ops max st ops).1, b') /\ BatchIs max (spec_ops max st ops).2.1 (spec_ops max st ops).2.2 b' /\
    (OClear ∉ ops -> wb_wal_term_point_ b' = wb_wal_term_point_ b).
Proof.
  revert st b. induction ops as [|op ops IH]; intros [recs saves] b B; [intros _; by exists b|]. intros [Hl Hls]. simpl in B, Hl.
  destruct (batch_op_ok max recs saves b op B Hl) as (b1 & Hop & B1 & Hw1). cbn [batch_ops spec_ops]. rewrite Hop. cbn [mbind option_bind].
  cbn [ops_legal fst] in Hls. destruct (spec_op max (recs, saves) op) as [s st1]. destruct (IH st1 b1 B1 Hls) as (b2 & -> & B2 & Hw2). cbn [mbind option_bind].
  destruct (spec_ops max st1 ops) as [ss st2]. exists b2. split_and!; [done|done|]. intros [Hne Hnot]%not_elem_of_cons. rewrite Hw2, Hw1 by done. done.
Qed.

(** The flags a record needs are among those of the batch. *)
Lemma flags_asserted recs r : r ∈ recs -> flag_asserted (all_flags recs) r = true.
Proof.
  intros Hr. unfold flag_asserted. destruct (record_flag r) as [f|] eqn:Ef; [|done].
  assert (Z.land f (record_flags r) = f /\ f <> 0) as [Hf Hf0] by (destruct r; simpl in *; simplify_eq; done).
  apply negb_true_iff, Z.eqb_neq. rewrite Z.land_lor_distr_r. intros [_ H0]%Z.lor_eq_0_iff. apply Hf0. rewrite <- H0. clear H0.
  apply list_elem_of_split in Hr as (l1 & l2 & ->). rewrite all_flags_app. cbn [all_flags foldr]. fold (all_flags l2). rewrite <- Hf. apply Z.bits_inj'. intros n Hn.
  rewrite !Z.land_spec, !Z.lor_spec. by destruct (Z.testbit f n), (Z.testbit (record_flags r) n), (Z.testbit (all_flags l1) n), (Z.testbit (all_flags l2) n).
Qed.

Lemma concat_encode_length recs : (length recs <= length (concat (encode_record <$> recs)))%nat.
Proof.
  induction recs as [|r recs IH]; [done|]. rewrite fmap_cons. cbn [concat]. rewrite length_app. destruct (encode_record_cons r) as (t & rest & ->). simpl. lia.
Qed.

(** Iterating over the batch, or over one made of its bytes. *)
Lemma Iterate_records {S} (f : HandlerCall -> S -> S) (st : S) max recs saves b ac bp flags :
  BatchIs max recs saves b -> Forall (policy_ok ac bp) recs -> (forall r, r ∈ recs -> flag_asserted flags r = true) ->
  wb_Iterate (Accepting f ac bp) (wb_set (wb_rep_ b) flags b) st = Some (BS_OK, handle_all f (calls_of true recs) st).
Proof.
  intros B Hp Hfl. assert (wb_Count (wb_set (wb_rep_ b) flags b) = Some (count_records recs)) as Hcnt by (rewrite <- (BatchIs_Count _ _ _ _ B); by destruct b).
  unfold wb_Iterate. rewrite Hcnt. assert (wb_rep_ (wb_set (wb_rep_ b) flags b) = wb_rep_ b /\ wb_content_flags_ (wb_set (wb_rep_ b) flags b) = flags) as [-> ->] by (by destruct b).
  rewrite (BatchIs_no_header _ _ _ _ B). destruct (Z.ltb_spec (len (wb_rep_ b)) kHeader) as [Hl|_]; [by pose proof (BatchIs_header _ _ _ _ B); lia|].
  pose proof (bi_count _ _ _ _ B) as Hcn.
  rewrite Iterate_loop_records; [|apply Forall_forall; intros r Hin; split_and!|pose proof (concat_encode_length recs); lia|lia|lia].
  - cbn [mbind option_bind ie_status ie_continue ie_found ie_handler BS_ok]. cbn [negb andb]. by rewrite Z.add_0_l, Z.eqb_refl.
  - by apply (proj1 (Forall_forall _ _) (bi_records _ _ _ _ B)).
  - by apply (proj1 (Forall_forall _ _) Hp).
  - by apply Hfl.
Qed.

Lemma Iterate_own {S} (f : HandlerCall -> S -> S) (st : S) max recs saves b ac bp :
  BatchIs max recs saves b -> Forall (policy_ok ac bp) recs -> wb_Iterate (Accepting f ac bp) b st = Some (BS_OK, handle_all f (calls_of true recs) st).
Proof.
  intros B Hp. pose proof (Iterate_records f st _ _ _ _ ac bp (all_flags recs) B Hp (flags_asserted recs)) as Hit. rewrite <- (bi_flags _ _ _ _ B) in Hit. by destruct b.
Qed.

Lemma Iterate_reread {S} (f : HandlerCall -> S -> S) (st : S) max recs saves b ac bp :
  BatchIs max recs saves b -> Forall (policy_ok ac bp) recs ->
  wb_Iterate (Accepting f ac bp) (WriteBatch_of (wb_rep_ b)) st = Some (BS_OK, handle_all f (calls_of true recs) st).
Proof.
  intros B Hp. assert (wb_Iterate (Accepting f ac bp) (WriteBatch_of (wb_rep_ b)) st = wb_Iterate (Accepting f ac bp) (wb_set (wb_rep_ b) DEFERRED b) st) as -> by (by destruct b).
  apply (Iterate_records f st _ _ _ _ ac bp DEFERRED B Hp). intros r _. by destruct r.
Qed.

(** C18. A write batch is the list of its records: after any sequence of additions, markers, save points, rollbacks and clears, each
    operation returned the status the list gives it, among them the refusal of a record that exceeds the limit, which leaves the
    batch as it was; the count and the content flags are those of the list; and iterating over the batch, or over a batch made of
    its bytes as recovery does, calls a handler that accepts them with exactly the records of the list, in their order. *)
Theorem batch_refines_records max ops :
  ops_legal max ([], []) ops ->
  exists b, batch_ops (WriteBatch_make max) ops = Some ((spec_ops max ([], []) ops).1, b) /\
  let recs := (spec_ops max ([], []) ops).2.1 in
  wb_Count b = Some (count_records recs) /\ wb_content_flags_ b = all_flags recs /\
  forall S (f : HandlerCall -> S -> S) (st : S) ac bp, Forall (policy_ok ac bp) recs ->
    wb_Iterate (Accepting f ac bp) b st = Some (BS_OK, handle_all f (calls_of true recs) st) /\
    wb_Iterate (Accepting f ac bp) (WriteBatch_of (wb_rep_ b)) st = Some (BS_OK, handle_all f (calls_of true recs) st).
Proof.
  intros Hl. destruct (batch_ops_ok max ops ([], []) _ (BatchIs_make max) Hl) as (b & Hops & B & _). exists b. split; [done|]. cbv zeta.
  split_and!; [exact (BatchIs_Count _ _ _ _ B)|exact (bi_flags _ _ _ _ B)|]. intros S f st ac bp Hp. split; [by eapply Iterate_own|by eapply Iterate_reread].
Qed.

Lemma batch_refines_records_witness :
  let ops := [ONoop; OPut 0 [Byte.x61] [Byte.x62]; OSetSavePoint; ODelete 7 [Byte.x63]; OPut 1 [Byte.x64] (replicate 40 Byte.x65); ORollbackToSavePoint;
              OMergeParts 2 [[Byte.x66]; [Byte.x67]] []; OEndPrepare [Byte.x78] true false] in
  (spec_ops 50 ([], []) ops).1 = [BS_OK; BS_OK; BS_OK; BS_OK; BS_MemoryLimit; BS_OK; BS_OK; BS_OK] /\
  exists b, batch_ops (WriteBatch_make 50) ops = Some ((spec_ops 50 ([], []) ops).1, b) /\ wb_Count b = Some 2 /\
    wb_Iterate (Accepting (fun c l => l ++ [c]) true false) (WriteBatch_of (wb_rep_ b)) [] =
      Some (BS_OK, [MarkBeginPrepare false; PutCF 0 [Byte.x61] [Byte.x62]; MergeCF 2 [Byte.x66; Byte.x67] []; MarkEndPrepare [Byte.x78]]).
Proof.
  cbv zeta. split; [reflexivity|]. edestruct (batch_refines_records 50) as (b & Hops & Hc & _ & Hit); [|exists b; split; [exact Hops|]; split; [exact Hc|]].
  - repeat split; try done; intros r [= <-] _; repeat split; done.
  - refine (proj2 (Hit _ _ [] true false _)). repeat constructor.
Defined.

(** ** Appending one batch to another *)

Lemma wb_Append_ok max recs saves dst max2 recs2 saves2 src wal_only t :
  BatchIs max recs saves dst -> BatchIs max2 recs2 saves2 src -> t `prefix_of` recs2 ->
  (if wal_only && negb (is_cleared (wb_wal_term_point_ src)) then wb_wal_term_point_ src = save_of t else t = recs2) ->
  count_records recs + count_records t < 2 ^ 31 -> batch_size recs2 < 2 ^ 64 ->
  exists b, wb_Append src wal_only dst = Some b /\ BatchIs max (recs ++ t) saves b.
Proof.
  intros B B2 Hp Ht Hcnt Hsz. pose proof (count_records_range recs). pose proof (count_records_range t). destruct (saves_prefix_size _ _ Hp) as (Hle & _).
  pose proof (zlen_nonneg (concat (encode_record <$> t))). unfold wb_Append. rewrite (BatchIs_Count _ _ _ _ B2), (BatchIs_Count _ _ _ _ B), (BatchIs_size _ _ _ _ B2). cbn [mbind option_bind].
  set (what := if _ : bool then _ else _). assert (what = (len (concat (encode_record <$> t)), count_records t, all_flags t)) as ->.
  { unfold what. destruct (wal_only && negb (is_cleared (wb_wal_term_point_ src))); [rewrite Ht|rewrite <- Ht in *; rewrite (bi_flags _ _ _ _ B2)]; cbn [save_of sp_size sp_count sp_flags];
      unfold batch_size in *; rewrite Z.add_simpl_l, wrap_id by (unfold kHeader in *; lia); congruence. }
  destruct (bi_rep _ _ _ _ B) as (seq & Hs & Hr). unfold SetCount. rewrite Hr, (wrap_id 32), header_write by (done || lia). cbn [mbind option_bind].
  destruct (Z.ltb_spec (batch_size recs2) kHeader) as [|_]; [unfold batch_size in *; lia|].
  rewrite mem_read_in_range by (rewrite ?(BatchIs_size _ _ _ _ B2); unfold batch_size, kHeader in *; lia). rewrite (BatchIs_no_header _ _ _ _ B2). cbn [mbind option_bind].
  assert (take (Z.to_nat (len (concat (encode_record <$> t)))) (concat (encode_record <$> recs2)) = concat (encode_record <$> t)) as ->.
  { destruct Hp as [k ->]. rewrite fmap_app, concat_app. apply take_app_length'. unfold zlen. lia. }
  eexists. split; [done|]. pose proof (bi_flags _ _ _ _ B). pose proof (bi_max _ _ _ _ B). pose proof (bi_saves _ _ _ _ B). unfold wb_append. destruct dst as [rep fl mx sp wt]; simpl in *. subst.
  split; simpl; try done.
  - exists seq. split; [done|]. by rewrite count_records_app, fmap_app, concat_app, <- !app_assoc.
  - by rewrite all_flags_app.
  - apply (saves_ok_mono recs); [by apply prefix_app_r|apply (bi_saves_ok _ _ _ _ B)].
  - apply Forall_app. split; [apply (bi_records _ _ _ _ B)|]. pose proof (bi_records _ _ _ _ B2) as Hr2. destruct Hp as [k ->]. by apply Forall_app in Hr2 as [? _].
  - by rewrite count_records_app.
Qed.

Lemma MarkWal_ok max recs saves b :
  BatchIs max recs saves b -> exists b', MarkWalTerminationPoint b = Some b' /\ BatchIs max recs saves b' /\ wb_wal_term_point_ b' = save_of recs.
Proof.
  intros B. unfold MarkWalTerminationPoint. rewrite (BatchIs_save _ _ _ _ B). eexists. split_and!; [done| |done]. destruct B. by split.
Qed.

Lemma save_of_not_cleared recs : is_cleared (save_of recs) = false.
Proof.
  apply Z.eqb_neq. intros [[H _]%Z.lor_eq_0_iff _]%Z.lor_eq_0_iff. cbn [save_of sp_size] in H. unfold batch_size, kHeader in H. pose proof (zlen_nonneg (concat (encode_record <$> recs))). lia.
Qed.

(** C33. Appending one batch to another, as the leader of a write group does with the batches of the group, gives the batch of the
    records of both, with their count; for the log, only the records up to the termination point that was marked in the appended
    batch are taken.  The operations after the mark must not have rolled the batch back behind it. *)
Theorem append_concatenates max ops max2 ops2 ops3 :
  let recs := (spec_ops max ([], []) ops).2.1 in
  let marked := (spec_ops max2 ([], []) ops2).2 in
  let recs3 := (spec_ops max2 marked ops3).2.1 in
  ops_legal max ([], []) ops -> ops_legal max2 ([], []) ops2 -> ops_legal max2 marked ops3 -> OClear ∉ ops3 -> marked.1 `prefix_of` recs3 ->
  count_records recs + count_records recs3 < 2 ^ 31 -> batch_size recs3 < 2 ^ 64 ->
  exists dst src0 src1 src, snd <$> batch_ops (WriteBatch_make max) ops = Some dst /\ snd <$> batch_ops (WriteBatch_make max2) ops2 = Some src0 /\
    MarkWalTerminationPoint src0 = Some src1 /\ snd <$> batch_ops src1 ops3 = Some src /\
    forall wal_only, let all := recs ++ (if wal_only : bool then marked.1 else recs3) in
      exists b, wb_Append src wal_only dst = Some b /\ wb_Count b = Some (count_records all) /\
        forall S (f : HandlerCall -> S -> S) (st : S) ac bp, Forall (policy_ok ac bp) all ->
          wb_Iterate (Accepting f ac bp) b st = Some (BS_OK, handle_all f (calls_of true all) st).
Proof.
  intros recs marked recs3 Hl Hl2 Hl3 Hclr Hp Hcnt Hsz. destruct (batch_ops_ok max ops ([], []) _ (BatchIs_make max) Hl) as (dst & Hops & B & _).
  destruct (batch_ops_ok max2 ops2 ([], []) _ (BatchIs_make max2) Hl2) as (src0 & Hops2 & B0 & _). destruct (MarkWal_ok _ _ _ _ B0) as (src1 & Hm & B1 & Hw1).
  destruct (batch_ops_ok max2 ops3 marked _ B1 Hl3) as (src & Hops3 & B3 & Hw3). fold recs in B. fold marked in B1, B3, Hw1. fold recs3 in B3.
  exists dst, src0, src1, src. rewrite Hops, Hops2, Hops3. split_and!; [done..|]. intros wal_only. cbv zeta. set (t := if wal_only then _ else _).
  destruct (saves_prefix_size _ _ Hp) as (_ & Hc & _).
  destruct (wb_Append_ok _ _ _ dst _ _ _ src wal_only t B B3) as (b & Ha & Bb); [by destruct wal_only| |destruct wal_only; unfold t; lia|done|].
  { rewrite Hw3, Hw1, save_of_not_cleared by done. by destruct wal_only. }
  exists b. split_and!; [done|exact (BatchIs_Count _ _ _ _ Bb)|]. intros S f st ac bp Hpol. by apply (Iterate_own f st _ _ _ _ ac bp Bb).
Qed.

(** A prepared transaction whose data stays out of the log. *)
Lemma append_concatenates_witness :
  exists dst src0 src1 src b b', snd <$> batch_ops (WriteBatch_make 0) [OPut 0 [Byte.x61] []] = Some dst /\ snd <$> batch_ops (WriteBatch_make 0) [OCommit [Byte.x78]] = Some src0 /\
    MarkWalTerminationPoint src0 = Some src1 /\ snd <$> batch_ops src1 [OSetSavePoint; OPut 3 [Byte.x63] [Byte.x64]; ODelete 0 [Byte.x65]] = Some src /\
    wb_Append src true dst = Some b /\ wb_Count b = Some 1 /\
    wb_Append src false dst = Some b' /\ wb_Count b' = Some 3 /\
    wb_Iterate (Accepting (fun c l => l ++ [c]) true false) b [] = Some (BS_OK, [PutCF 0 [Byte.x61] []; MarkCommit [Byte.x78]]).
Proof.
  edestruct (append_concatenates 0 [OPut 0 [Byte.x61] []] 0 [OCommit [Byte.x78]] [OSetSavePoint; OPut 3 [Byte.x63] [Byte.x64]; ODelete 0 [Byte.x65]])
    as (dst & src0 & src1 & src & H1 & H2 & H3 & H4 & H5); [..|exists dst, src0, src1, src].
  1-3: repeat split; try done; intros r [= <-] _; repeat split; done.
  - rewrite !not_elem_of_cons. split_and!; try done. apply not_elem_of_nil.
  - by exists [RPut 3 [Byte.x63] [Byte.x64]; RDelete 0 [Byte.x65]].
  - reflexivity.
  - reflexivity.
  - destruct (H5 true) as (b & Ha & Hc & Hit), (H5 false) as (b' & Ha' & Hc' & _). exists b, b'. split_and!; [exact H1|exact H2|exact H3|exact H4|exact Ha|exact Hc|exact Ha'|exact Hc'|].
    refine (Hit _ _ [] true false _). repeat constructor.
Defined.

(** ** The flags of a batch that was read *)

Lemma classify_all recs empty fl : handle_all classify (calls_of empty recs) fl = Z.lor fl (all_flags recs).
Proof.
  revert empty fl. induction recs as [|r recs IH]; intros empty fl; [symmetry; apply Z.lor_0_r|]. unfold handle_all. cbn [calls_of foldl]. fold (handle_all classify (calls_of (empty_after empty r) recs) (classify (call_of empty r) fl)).
  rewrite IH. cbn [all_flags foldr]. fold (all_flags recs). rewrite Z.lor_assoc. f_equal. destruct r; cbn [call_of classify record_flags record_flag default from_option]; unfold id; rewrite ?Z.lor_0_r, ?Z.lor_assoc; done.
Qed.

Lemma classifier_accepts : BatchContentClassifier = Accepting classify true false.
Proof. done. Qed.

(** A prepare section of the other write policies stops the classifier behind its marker. *)
Lemma classifier_stops max pre r post saves b :
  BatchIs max (pre ++ r :: post) saves b -> Forall (policy_ok true false) pre -> ~ policy_ok true false r ->
  ComputeContentFlags (WriteBatch_of (wb_rep_ b)) = Some (all_flags (pre ++ [r]), wb_set (wb_rep_ b) (all_flags (pre ++ [r])) (WriteBatch_of (wb_rep_ b))).
Proof.
  intros B Hpre Hr. unfold ComputeContentFlags, wb_Iterate. cbn [WriteBatch_of wb_rep_ wb_content_flags_]. change (Z.land DEFERRED DEFERRED =? 0) with false. cbv iota.
  pose proof (BatchIs_header _ _ _ _ B). destruct (Z.ltb_spec (len (wb_rep_ b)) kHeader) as [|_]; [lia|]. rewrite (BatchIs_no_header _ _ _ _ B), classifier_accepts.
  pose proof (bi_records _ _ _ _ B) as Hok. rewrite Forall_forall in Hok, Hpre.
  destruct (Iterate_loop_refused classify true false pre r post (2 * length (concat (encode_record <$> pre ++ r :: post)) + 2) DEFERRED false true 0 0) as [found ->].
  - apply Forall_forall. intros q Hq. split_and!; [apply Hok; set_solver|by apply Hpre|by destruct q].
  - pose proof (concat_encode_length (pre ++ r :: post)) as Hl. rewrite length_app in Hl. simpl in Hl. lia.
  - apply Hok. set_solver.
  - done.
  - by destruct r.
  - cbn [mbind option_bind ie_status ie_handler BS_ok negb]. by rewrite classify_all.
Qed.

(** C39. The flags of a batch that was read from its bytes, by which the write path decides what it has to do, are computed to be
    those of its records, and kept, for batches of the default write policy.  In a batch with a prepare marker of the other
    policies (for prepared and for unprepared transactions) they are those of the records up to the first such marker and of the
    marker, whatever records follow: the classifier answers with the default policy, and the iteration that it asks for ends
    there with an error that is not looked at. *)
Theorem content_flags_recomputed max ops :
  ops_legal max ([], []) ops ->
  let recs := (spec_ops max ([], []) ops).2.1 in
  exists b, snd <$> batch_ops (WriteBatch_make max) ops = Some b /\
    (Forall (policy_ok true false) recs ->
       ComputeContentFlags (WriteBatch_of (wb_rep_ b)) = Some (all_flags recs, wb_set (wb_rep_ b) (all_flags recs) (WriteBatch_of (wb_rep_ b)))) /\
    (forall pre marker post, recs = pre ++ marker :: post -> Forall (policy_ok true false) pre -> marker ∈ [RBeginPersistedPrepare; RBeginUnprepare] ->
       let seen := all_flags (pre ++ [marker]) in
       ComputeContentFlags (WriteBatch_of (wb_rep_ b)) = Some (seen, wb_set (wb_rep_ b) seen (WriteBatch_of (wb_rep_ b)))).
Proof.
  intros Hl recs. destruct (batch_ops_ok max ops ([], []) _ (BatchIs_make max) Hl) as (b & Hops & B & _). fold recs in B. exists b. rewrite Hops. split_and!; [done| |].
  - intros Hp. unfold ComputeContentFlags. cbn [WriteBatch_of wb_content_flags_]. change (Z.land DEFERRED DEFERRED =? 0) with false. cbv iota.
    fold (WriteBatch_of (wb_rep_ b)). rewrite classifier_accepts, (Iterate_reread classify 0 _ _ _ _ true false B Hp), classify_all. done.
  - intros pre marker post E Hpre Hm. rewrite E in B. apply (classifier_stops max pre marker post _ _ B Hpre).
    rewrite !elem_of_cons in Hm. destruct Hm as [->|[->|Hm%elem_of_nil]]; [done|by intros [? _]|done].
Qed.

(** The batch holds a put and the end of a prepare section; read from its bytes it seems to hold the marker alone. *)
Lemma content_flags_recomputed_witness :
  let ops := [ONoop; OPut 0 [Byte.x61] [Byte.x62]; OEndPrepare [Byte.x78] false true] in
  exists b b', snd <$> batch_ops (WriteBatch_make 0) ops = Some b /\ Z.land (wb_content_flags_ b) (Z.lor HAS_PUT HAS_END_PREPARE) = Z.lor HAS_PUT HAS_END_PREPARE /\
    ComputeContentFlags (WriteBatch_of (wb_rep_ b)) = Some (Z.lor HAS_BEGIN_PREPARE HAS_BEGIN_UNPREPARE, b').
Proof.
  cbv zeta. edestruct (content_flags_recomputed 0 [ONoop; OPut 0 [Byte.x61] [Byte.x62]; OEndPrepare [Byte.x78] false true]) as (b & Hb & _ & Hh).
  - repeat split; try done; intros r [= <-] _; repeat split; done.
  - exists b. eexists. split_and!; [exact Hb| |apply (Hh [] RBeginUnprepare _ eq_refl); [constructor|right; left]]. injection Hb as <-. reflexivity.
Defined.

(** ** Iteration over arbitrary bytes *)

#[export] Instance read_cf_Shrinks is_cf : Shrinks (read_cf is_cf).
Proof. unfold read_cf. intros i cf i'. destruct is_cf; [apply shrinks|by intros [= _ <-]]. Qed.

#[export] Instance read_one_Shrinks is_cf make : Shrinks (read_one is_cf make).
Proof. unfold read_one. solve_shrinks. Qed.
#[export] Instance read_two_Shrinks is_cf make : Shrinks (read_two is_cf make).
Proof. unfold read_two. solve_shrinks. Qed.
#[export] Instance read_xid_Shrinks make : Shrinks (read_xid make).
Proof. unfold read_xid. solve_shrinks. Qed.

Lemma ReadRecord_shrinks input r rest : ReadRecordFromWriteBatch input = Some (r, rest) -> (length rest < length input)%nat.
Proof.
  destruct input as [|t input]; [done|]. cbn [ReadRecordFromWriteBatch length]. unfold read_body. generalize (byte.unsigned t). intros tag H.
  repeat match type of H with (if ?b then _ else _) = _ => destruct b end;
    first [apply shrinks in H; lia | injection H as _ <-; lia | discriminate H].
Qed.

Section Total.
Context {S : Type} (h : Handler S).

(** Repeating a call that asked for it, which the code asserts to be enough. *)
Context (no_twice : forall c st st', h_call h c st = (BS_TryAgain, st') -> (h_call h c (h_Continue h st').2).1 <> BS_TryAgain).

(** The status of the round that repeats [r]. *)
Definition no_more (r : BatchRecord) (st : S) : Prop := forall empty found, (dispatch h r empty found (h_Continue h st).2).1.1.1 <> BS_TryAgain.

Lemma dispatch_no_twice r empty found st empty' found' st' :
  dispatch h r empty found st = (BS_TryAgain, empty', found', st') -> no_more r st'.
Proof using no_twice.
  assert (forall c m e f, counted h c m e f st = (BS_TryAgain, empty', found', st') -> forall e' f', (counted h c m e' f' (h_Continue h st').2).1.1.1 <> BS_TryAgain) as Hc.
  { unfold counted. intros c m e f H e' f'. destruct (h_call h c st) as [s st1] eqn:E. destruct (BS_ok s); injection H as -> _ _ ->;
      pose proof (no_twice _ _ _ E); by destruct (h_call h c (h_Continue h st').2) as [[] ?]. }
  unfold no_more. destruct r; cbn [dispatch]; try (by intros H ? ?; eapply Hc in H); try done; intros H; by repeat (case_match || discriminate H).
Qed.

Lemma Iterate_loop_total fuel flags input again empty found st :
  Z.land flags DEFERRED <> 0 -> match again with Some r => no_more r st | None => True end ->
  (2 * length input + (if again is Some _ then 1 else 0) < fuel)%nat ->
  forall last, (again <> None -> last = false) -> exists e, Iterate_loop h fuel flags input again last empty found st = Some e.
Proof using no_twice.
  intros Hfl. assert (forall r, flag_asserted flags r = true) as Hfa.
  { intros r. unfold flag_asserted. destruct (record_flag r); [|done]. apply negb_true_iff, Z.eqb_neq. rewrite Z.land_lor_distr_r. by intros [? _]%Z.lor_eq_0_iff. }
  revert input again empty found st. induction fuel as [|fuel IH]; intros input again empty found st Hno Hf last Hlast; [lia|]. cbn [Iterate_loop].
  destruct again as [r|].
  - rewrite (Hlast ltac:(done)), Hfa. cbn [negb]. destruct (h_Continue h st).1; cbn [negb]; [|by eexists]. specialize (Hno empty found).
    destruct (dispatch h r empty found (h_Continue h st).2) as [[[s e'] f'] st']. cbn [fst] in Hno. destruct s; try done; try by eexists. apply IH; [done|lia|done].
  - destruct input as [|t input]; [by eexists|]. destruct (h_Continue h st).1; cbn [negb]; [|by eexists].
    destruct (ReadRecordFromWriteBatch (t :: input)) as [[r rest]|] eqn:Er; [|by eexists]. apply ReadRecord_shrinks in Er. rewrite Hfa. cbn [negb].
    destruct (dispatch h r empty found (h_Continue h st).2) as [[[s e'] f'] st'] eqn:Ed. destruct s; try (by eexists).
    + apply IH; [done|lia|done].
    + apply IH; [by apply (dispatch_no_twice _ _ _ _ _ _ _ Ed)|lia|done].
Qed.
End Total.

(** C29. Iterating over a batch made of arbitrary bytes, as recovery does with what it read from a log, comes to an end with a
    status: no bytes make it read past their end, loop, or fail an assertion, whatever the handler answers, as long as it does
    not ask twice for the same call to be repeated. *)
Theorem iterate_total {S : Type} (h : Handler S) (contents : bytes) (st : S) :
  (forall c st st', h_call h c st = (BS_TryAgain, st') -> (h_call h c (h_Continue h st').2).1 <> BS_TryAgain) ->
  exists s st', wb_Iterate h (WriteBatch_of contents) st = Some (s, st').
Proof.
  intros Hh. unfold wb_Iterate. cbn [WriteBatch_of wb_rep_ wb_content_flags_]. destruct (Z.ltb_spec (len contents) kHeader) as [|Hlen]; [by do 2 eexists|].
  set (input := drop _ _). destruct (Iterate_loop_total h Hh (2 * length input + 2) DEFERRED input None true 0 st ltac:(done) I ltac:(simpl; lia) false ltac:(done)) as [e ->]. cbn [mbind option_bind].
  destruct (BS_ok (ie_status e)); [|by do 2 eexists]. cbn [negb]. unfold wb_Count. cbn [WriteBatch_of wb_rep_]. unfold kHeader in Hlen.
  rewrite mem_read_in_range by lia. by do 2 eexists.
Qed.

(** A handler that asks for each call to be repeated once. *)
Lemma iterate_total_witness :
  let h := mkHandler bool (fun _ again => (if again then BS_TryAgain else BS_OK, negb again)) (fun again => (true, again)) (fun _ => true) (fun _ => false) in
  (exists s st', wb_Iterate h (WriteBatch_of (replicate 11 Byte.x00)) true = Some (s, st')) /\ wb_Iterate h (WriteBatch_of (replicate 8 Byte.x00 ++ [Byte.x01; Byte.x00; Byte.x00; Byte.x00; Byte.x00; Byte.x01; Byte.x61])) true = Some (BS_OK, true).
Proof. cbv zeta. split; [|reflexivity]. apply (iterate_total _ (replicate 11 Byte.x00) true). intros c [] st' [= <-]; done. Defined.
