(* ===== verification/WalReplay.v ===== *)
(** * Write batches in the write-ahead log (db/write_batch.cc, db/log_writer, db/log_reader, db/db_impl_open.cc)

    The batches of the writes go to the log one after the other; recovery reads the log and
    replays each batch.  What the memtables do with a record is an argument. *)

From S2P Require Import Prelude Coding DbFormat LogWriter LogReader LogRoundtrip WriteBatch BatchRefine.

(** A write: its sequence number and what its batch was made of. *)
Record LoggedWrite := mkLW { lw_sequence : Z; lw_max_bytes : Z; lw_ops : list BatchOp }.

Definition lw_spec (w : LoggedWrite) : list BatchRecord := (spec_ops (lw_max_bytes w) ([], []) (lw_ops w)).2.1.

Definition lw_legal (w : LoggedWrite) : Prop :=
  u64 (lw_sequence w) /\ ops_legal (lw_max_bytes w) ([], []) (lw_ops w) /\ Forall (policy_ok true false) (lw_spec w).

(** The record of the log for a write. *)
Definition log_record (w : LoggedWrite) : option bytes :=
  '(_, b) ← batch_ops (WriteBatch_make (lw_max_bytes w)) (lw_ops w);
  b ← SetSequence (lw_sequence w) b;
  Some (wb_rep_ b).

Section Replay.
Context {S : Type} (inserter : Z -> Handler S) (inserter_sequence : S -> Z).

(** What the loop over the records of a log changes: the status, the batch that all rounds share, what the handler works on,
    [*next_sequence] and [stop_replay_for_corruption]. *)
Record ReplayState := mkRS { rs_status : BatchStatus; rs_batch : WriteBatch; rs_memtables : S; rs_next_sequence : Z; rs_stop : bool }.

Definition MaybeIgnoreError (paranoid_checks : bool) (s : BatchStatus) : BatchStatus := if BS_ok s || paranoid_checks then s else BS_OK.

(** Whether the reporter of the log has a status to set. *)
Definition reporter_has_status (paranoid_checks : bool) (mode : WALRecoveryMode) : bool :=
  paranoid_checks && negb (bool_decide (mode = kSkipAnyCorruptedRecords)).

(** [LogReporter::Corruption]: the first damage sets the status. *)
Definition LogReporter_Corruption (paranoid_checks : bool) (mode : WALRecoveryMode) (reason status : BatchStatus) : BatchStatus :=
  if reporter_has_status paranoid_checks mode && BS_ok status then reason else status.

(** The status the reader passes with a report: that of the failed read, or damage. *)
Definition report_reason (reason : string) : BatchStatus := if bool_decide (reason = "read error"%string) then BS_IOError else BS_Corruption.

Definition reports_of (r : Reader) : list (Z * string) := default [] (reporter_ r).

(** The status after the reports that a call of the reader made. *)
Definition after_reports (paranoid_checks : bool) (mode : WALRecoveryMode) (r r' : Reader) (status : BatchStatus) : BatchStatus :=
  foldl (fun status report => LogReporter_Corruption paranoid_checks mode (report_reason report.2) status) status
    (drop (length (reports_of r)) (reports_of r')).

(** [InsertInto]: the insertion of a batch, from its sequence number on, and the next sequence number. *)
Definition insert_batch (batch : WriteBatch) (st : S) : option (BatchStatus * S * Z) :=
  sequence ← wb_Sequence batch;
  '(s, st) ← wb_Iterate (inserter sequence) batch st;
  Some (s, st, inserter_sequence st).

(** One round of the loop over the records of a log, without a filter of the log and without flushes; [false] when the round
    leaves the loop. *)
Definition replay_record (paranoid_checks : bool) (mode : WALRecoveryMode) (record : bytes) '((mkRS s batch st next stop) : ReplayState) : option (bool * ReplayState) :=
  if len record <? kHeader then Some (true, mkRS (LogReporter_Corruption paranoid_checks mode BS_Corruption s) batch st next stop) else
  batch ← SetContents record batch;
  sequence ← wb_Sequence batch;
  let point_in_time := bool_decide (mode = kPointInTimeRecovery) in
  let stop := if point_in_time && (sequence =? next) then false else stop in
  if point_in_time && stop then Some (false, mkRS s batch st next stop) else
  '(s, st, next) ← insert_batch batch st;
  let s := MaybeIgnoreError paranoid_checks s in
  Some (true, mkRS (if BS_ok s then s else LogReporter_Corruption paranoid_checks mode s s) batch st next stop).

(** The loop: each round reads a record, and the reports of the reader may set the status that ends the loop. *)
Fixpoint replay_log (fuel : nat) (paranoid_checks : bool) (mode : WALRecoveryMode) (r : Reader) (rs : ReplayState) : option (Reader * ReplayState) :=
  let '(mkRS s batch st next stop) := rs in
  match fuel with
  | O => None
  | Datatypes.S fuel =>
      '(record, r') ← ReadRecord mode r;
      let s := after_reports paranoid_checks mode r r' s in
      match record with
      | None => Some (r', mkRS s batch st next stop)
      | Some record =>
          if negb (BS_ok s) then Some (r', mkRS s batch st next stop) else
          '(go, rs) ← replay_record paranoid_checks mode record (mkRS s batch st next stop);
          if go : bool then replay_log fuel paranoid_checks mode r' rs else Some (r', rs)
      end
  end.

(** What the logs share: the memtables, [*next_sequence], [stop_replay_for_corruption], [corrupted_log_number] and
    [versions_->LastSequence()]. *)
Record LogsState := mkLogs { ls_memtables : S; ls_next_sequence : Z; ls_stop : bool; ls_corrupted_log_number : Z; ls_last_sequence : Z }.

(** After the records of a log: the status that recovery returns, or what the next log starts from. *)
Definition finish_log (mode : WALRecoveryMode) (log_number corrupted last : Z) '((mkRS s _ st next stop) : ReplayState) : BatchStatus + LogsState :=
  let last_sequence := wrap64 (next - 1) in
  let last := if negb (next =? kMaxSequenceNumber) && (last <=? last_sequence) then last_sequence else last in
  if BS_ok s then inr (mkLogs st next stop corrupted last)
  else if bool_decide (s = BS_NotSupported) then inl s
  else match mode with
       | kSkipAnyCorruptedRecords => inr (mkLogs st next stop corrupted last)
       | kPointInTimeRecovery => inr (mkLogs st next true log_number last)
       | kTolerateCorruptedTailRecords | kAbsoluteConsistency => inl s
       end.

(** The recovery of one log that was opened. *)
Definition recover_log (paranoid_checks : bool) (mode : WALRecoveryMode) (log_number : Z) (r : Reader) '((mkLogs st next stop corrupted last) : LogsState)
    : option (Reader * (BatchStatus + LogsState)) :=
  '(r, rs) ← replay_log (remaining_bytes r + 1) paranoid_checks mode r (mkRS BS_OK (WriteBatch_make 0) st next stop);
  Some (r, finish_log mode log_number corrupted last rs).
End Replay.
Arguments mkRS {S} _ _ _ _ _.
Arguments rs_status {S} _.
Arguments mkLogs {S} _ _ _ _ _.
Arguments ls_memtables {S} _.
Arguments ls_stop {S} _.

(** What the replay of whole writes amounts to. *)
Definition apply_writes {S : Type} (insert : Z -> HandlerCall -> S -> S) (ws : list LoggedWrite) (st : S) : S :=
  foldl (fun st w => handle_all (insert (lw_sequence w)) (calls_of true (lw_spec w)) st) st ws.

Definition accept_all {S : Type} (insert : Z -> HandlerCall -> S -> S) (sequence : Z) : Handler S := Accepting (insert sequence) true false.

Lemma tauto_if (b : bool) : (if b then false else false) = false.
Proof. by destruct b. Qed.

Lemma SetSequence_ok max recs saves b seq :
  BatchIs max recs saves b -> exists b', SetSequence seq b = Some b' /\ BatchIs max recs saves b' /\ take 8 (wb_rep_ b') = EncodeFixed64 seq.
Proof.
  intros B. destruct (bi_rep _ _ _ _ B) as (s & Hs & Hr). unfold SetSequence.
  assert (length (EncodeFixed64 seq) = 8%nat) as H8 by (unfold EncodeFixed64; by rewrite length_le_split).
  destruct (mem_write_in_range (wb_rep_ b) 0 (EncodeFixed64 seq)) as [m Hm]; [lia|pose proof (BatchIs_header _ _ _ _ B) as Hh; unfold zlen, kHeader in *; lia|].
  rewrite Hm. apply mem_write_Some in Hm as (_ & _ & ->). cbn [mbind option_bind].
  assert (drop (Z.to_nat 0 + length (EncodeFixed64 seq)) (wb_rep_ b) = EncodeFixed32 (count_records recs) ++ concat (encode_record <$> recs)) as Hd.
  { rewrite H8, Hr. by apply drop_app_length'. }
  eexists. split; [done|]. destruct b as [rep fl mx sp wt]. cbn [wb_set wb_rep_] in *. split.
  - destruct B. split; try done. exists (EncodeFixed64 seq). split; [done|]. simpl in *. by rewrite Hd.
  - done.
Qed.

Lemma log_record_ok w :
  lw_legal w -> exists rep b, log_record w = Some rep /\ wb_rep_ b = rep /\ BatchIs (lw_max_bytes w) (lw_spec w) (spec_ops (lw_max_bytes w) ([], []) (lw_ops w)).2.2 b /\
    take 8 rep = EncodeFixed64 (lw_sequence w).
Proof.
  intros (Hs & Hl & _). destruct (batch_ops_ok _ (lw_ops w) ([], []) _ (BatchIs_make (lw_max_bytes w)) Hl) as (b & Hops & B & _). unfold log_record. rewrite Hops. cbn [mbind option_bind].
  destruct (SetSequence_ok _ _ _ _ (lw_sequence w) B) as (b' & -> & B' & Ht). by exists (wb_rep_ b'), b'.
Qed.

(** [*next_sequence] after whole writes. *)
Definition next_after {S : Type} (insert : Z -> HandlerCall -> S -> S) (inserter_sequence : S -> Z) (ws : list LoggedWrite) (st : S) (next : Z) : Z :=
  match ws with [] => next | _ => inserter_sequence (apply_writes insert ws st) end.

(** What recovery of a log goes on with after whole writes. *)
Definition recovered_writes {S : Type} (insert : Z -> HandlerCall -> S -> S) (inserter_sequence : S -> Z) (ws : list LoggedWrite) (ls : LogsState) : LogsState :=
  let '(mkLogs st next stop corrupted last) := ls in
  let next' := next_after insert inserter_sequence ws st next in
  mkLogs (apply_writes insert ws st) next' stop corrupted (if negb (next' =? kMaxSequenceNumber) && (last <=? wrap64 (next' - 1)) then wrap64 (next' - 1) else last).

Section Laws.
Context {S : Type} (insert : Z -> HandlerCall -> S -> S) (inserter_sequence : S -> Z) (paranoid : bool) (mode : WALRecoveryMode).

Lemma replay_record_ok w rep batch st next :
  lw_legal w -> log_record w = Some rep ->
  exists batch', replay_record (accept_all insert) inserter_sequence paranoid mode rep (mkRS BS_OK batch st next false) =
    Some (true, mkRS BS_OK batch' (apply_writes insert [w] st) (inserter_sequence (apply_writes insert [w] st)) false).
Proof.
  intros Hw Hrep. destruct (log_record_ok w Hw) as (rep' & b & Hrep' & Hb & B & Ht). rewrite Hrep in Hrep'. injection Hrep' as <-. destruct Hw as (Hs & _ & Hp).
  unfold replay_record, insert_batch, SetContents. pose proof (BatchIs_header _ _ _ _ B) as Hh. rewrite Hb in Hh. destruct (Z.ltb_spec (len rep) kHeader) as [|_]; [lia|]. cbn [mbind option_bind].
  unfold wb_Sequence. assert (wb_rep_ (wb_set rep DEFERRED batch) = rep) as Hr by (by destruct batch). rewrite Hr, mem_read_in_range by (unfold kHeader in *; lia). cbn [mbind option_bind].
  change (take (Z.to_nat 8) (drop (Z.to_nat 0) rep)) with (take 8 rep). rewrite Ht, <- (app_nil_r (EncodeFixed64 _)), DecodeFixed64_Encode by done.
  rewrite (tauto_if (bool_decide (mode = kPointInTimeRecovery) && (lw_sequence w =? next))), andb_false_r.
  pose proof (Iterate_reread (insert (lw_sequence w)) st _ _ _ _ true false B Hp) as Hit. rewrite Hb in Hit.
  assert (forall h : Handler S, wb_Iterate h (wb_set rep DEFERRED batch) st = wb_Iterate h (WriteBatch_of rep) st) as -> by (by destruct batch). unfold accept_all. rewrite Hit. by eexists.
Qed.

Lemma after_reports_same r r' s : reporter_ r' = reporter_ r -> after_reports paranoid mode r r' s = s.
Proof. intros H. unfold after_reports, reports_of. by rewrite H, drop_all. Qed.

Lemma replay_ok ws reps r r' batch st next fuel :
  Forall lw_legal ws -> Forall2 (fun w rep => log_record w = Some rep) ws reps ->
  yields (Some []) mode reps r r' -> reporter_ r = Some [] -> (length reps < fuel)%nat ->
  exists batch', replay_log (accept_all insert) inserter_sequence fuel paranoid mode r (mkRS BS_OK batch st next false) =
    Some (r', mkRS (after_reports paranoid mode r r' BS_OK) batch' (apply_writes insert ws st) (next_after insert inserter_sequence ws st next) false).
Proof.
  intros Hl H Hy. revert ws batch st next fuel Hl H. induction Hy as [r r' Hr|rep reps r r1 r' Hr Hrep Hy IH]; intros ws batch st next fuel Hl H Hr0 Hf; (destruct fuel as [|fuel]; [simpl in Hf; lia|]).
  - apply Forall2_nil_inv_r in H as ->. cbn [replay_log]. rewrite Hr. by eexists.
  - apply Forall2_cons_inv_r in H as (w & ws' & Hw & H & ->). apply Forall_cons in Hl as [Hlw Hl]. cbn [replay_log]. rewrite Hr. cbn [mbind option_bind].
    rewrite after_reports_same by congruence. cbn [negb BS_ok]. destruct (replay_record_ok w rep batch st next Hlw Hw) as [batch1 ->]. cbn [mbind option_bind].
    destruct (IH ws' batch1 (apply_writes insert [w] st) (inserter_sequence (apply_writes insert [w] st)) fuel Hl H Hrep ltac:(simpl in Hf; lia)) as [batch' ->].
    exists batch'. replace (after_reports paranoid mode r r' BS_OK) with (after_reports paranoid mode r1 r' BS_OK) by (unfold after_reports, reports_of; by rewrite Hr0, Hrep).
    by destruct ws'.
Qed.

Lemma after_reports_off r r' s : after_reports false mode r r' s = s.
Proof. unfold after_reports. by induction (drop _ _) as [|? l IH]. Qed.

(** The status of a recovery that fails at the end of the log is that of damage or of a read. *)
Lemma after_reports_kinds r r' : let s := after_reports paranoid mode r r' BS_OK in s = BS_OK \/ s = BS_Corruption \/ s = BS_IOError.
Proof.
  cbv zeta. unfold after_reports. set (l := drop _ _). assert (forall s, s = BS_OK \/ s = BS_Corruption \/ s = BS_IOError ->
    let s' := foldl (fun status report => LogReporter_Corruption paranoid mode (report_reason report.2) status) s l in s' = BS_OK \/ s' = BS_Corruption \/ s' = BS_IOError) as H; [|by apply H; left].
  induction l as [|[b reason] l IH]; intros s Hs; [done|]. apply IH. unfold LogReporter_Corruption, report_reason. cbn [snd]. case_match; [|done]. case_match; auto.
Qed.

Lemma recover_ok ws reps r r' number (ls : LogsState (S := S)) :
  Forall lw_legal ws -> Forall2 (fun w rep => log_record w = Some rep) ws reps -> ls_stop ls = false ->
  yields (Some []) mode reps r r' -> reporter_ r = Some [] -> (length reps <= remaining_bytes r)%nat ->
  (mode <> kAbsoluteConsistency -> after_reports paranoid mode r r' BS_OK = BS_OK) ->
  recover_log (accept_all insert) inserter_sequence paranoid mode number r ls =
    Some (r', if BS_ok (after_reports paranoid mode r r' BS_OK) then inr (recovered_writes insert inserter_sequence ws ls) else inl (after_reports paranoid mode r r' BS_OK)).
Proof.
  intros Hl H Hstop Hy Hr Hlen Hm. destruct ls as [st next stop corrupted last]. cbn in Hstop. subst stop. unfold recover_log.
  destruct (replay_ok ws reps r r' (WriteBatch_make 0) st next (remaining_bytes r + 1) Hl H Hy Hr ltac:(lia)) as [batch ->]. cbn [mbind option_bind]. unfold finish_log, recovered_writes.
  destruct (after_reports_kinds r r') as [Hs|Hs]; [by rewrite Hs|]. destruct (decide (mode = kAbsoluteConsistency)) as [->|Hd]; [|specialize (Hm Hd); destruct Hs; congruence].
  by destruct Hs as [-> | ->].
Qed.
End Laws.

Lemma log_records_ok ws : Forall lw_legal ws -> exists reps, Forall2 (fun w rep => log_record w = Some rep) ws reps.
Proof.
  induction 1 as [|w ws Hw _ [reps IH]]; [by exists []|]. destruct (log_record_ok w Hw) as (rep & _ & Hr & _). exists (rep :: reps). by constructor.
Qed.

(** A longer prefix of the records has no shorter log. *)
Lemma log_of_take_mono recycle number reps css off' i j :
  layout recycle 0 reps css off' -> (i <= j)%nat -> (length (log_of recycle number (take i reps)) <= length (log_of recycle number (take j reps)))%nat.
Proof.
  intros Hl Hij. destruct (layout_take _ _ _ _ _ i Hl) as [oi Hi], (layout_take _ _ _ _ _ j Hl) as [oj Hj].
  rewrite (log_of_layout _ _ _ _ _ Hi), (log_of_layout _ _ _ _ _ Hj). replace (take i css) with (take i (take j css)) by (rewrite take_take; f_equal; lia).
  rewrite <- (take_drop i (take j css)) at 2. unfold log_bytes. rewrite bind_app, length_app. lia.
Qed.


(** The sample cuts the log in the second write. *)
Definition sample_writes : list LoggedWrite :=
  [mkLW 5 0 [OPut 0 [Byte.x61] [Byte.x62]; ODelete 3 [Byte.x63]]; mkLW 7 0 [OMerge 0 [Byte.x64] [Byte.x65]]].

Definition sample_insert (seq : Z) (c : HandlerCall) (l : list (Z * HandlerCall)) : list (Z * HandlerCall) := l ++ [(seq, c)].
Definition sample_sequence (l : list (Z * HandlerCall)) : Z := match last l with Some (seq, _) => seq + 1 | None => 0 end.
Definition sample_logs : LogsState (S := list (Z * HandlerCall)) := mkLogs [] kMaxSequenceNumber false kMaxSequenceNumber 4.

Definition sample_reps : list bytes := omap log_record sample_writes.

Lemma sample_writes_legal : Forall lw_legal sample_writes.
Proof. repeat constructor; unfold u64; try done; try lia; intros r [= <-] _; repeat split; done. Qed.

