(* ===== verification/VersionStorage.v ===== *)
(** * Overlap queries on the files of a version (db/version_set.cc, db/compaction.cc)

    The files of a level that meet a key range: a linear closure on level 0, binary
    search with extension in both directions on the sorted levels.  A pointer to a key
    that may be null is an [option]; [None] as a result is an access out of range. *)

From S2P Require Import Prelude Coding Comparator DbFormat VersionEdit.

Definition kRangeTombstoneSentinel : Z := PackSequenceAndType kMaxSequenceNumber kTypeRangeDeletion.

Section Overlap.
Context (ucmp : Comparator).

(** Keys of file boundaries: by user key, a range tombstone's end first. *)
Definition sstableKeyCompare (a b : bytes) : Z :=
  let c := Compare ucmp (ExtractUserKey a) (ExtractUserKey b) in
  if negb (c =? 0) then c
  else
    let a_footer := ExtractInternalKeyFooter a in
    let b_footer := ExtractInternalKeyFooter b in
    if a_footer =? kRangeTombstoneSentinel then
      if negb (b_footer =? kRangeTombstoneSentinel) then -1 else 0
    else if b_footer =? kRangeTombstoneSentinel then 1
    else 0.

(** The overloads that take a pointer. *)
Definition sstableKeyCompare_pl (a : option bytes) (b : bytes) : Z :=
  match a with None => -1 | Some a => sstableKeyCompare a b end.

Definition sstableKeyCompare_pr (a : bytes) (b : option bytes) : Z :=
  match b with None => -1 | Some b => sstableKeyCompare a b end.

Definition AfterFile (user_key : option bytes) (f : FileMetaData) : bool :=
  match user_key with
  | None => false
  | Some k => 0 <? Compare ucmp k (ExtractUserKey (f_largest f))
  end.

Definition BeforeFile (user_key : option bytes) (f : FileMetaData) : bool :=
  match user_key with
  | None => false
  | Some k => Compare ucmp k (ExtractUserKey (f_smallest f)) <? 0
  end.

(** [std::lower_bound] on [files[first .. first + count)] with the comparison of
    [FindFileInRange]. *)
Fixpoint lower_bound (fuel : nat) (files : list FileMetaData) (key : bytes) (first count : Z) : option Z :=
  if 0 <? count then
    match fuel with
    | O => None
    | S fuel =>
        let step := count / 2 in
        f ← files !z (first + step);
        if Compare (InternalKeyComparator ucmp) (f_largest f) key <? 0
        then lower_bound fuel files key (first + step + 1) (count - (step + 1))
        else lower_bound fuel files key first step
    end
  else Some first.

Definition FindFileInRange (files : list FileMetaData) (key : bytes) (l r : Z) : option Z :=
  lower_bound (Z.to_nat (r - l)) files key l (r - l).

Definition VS_FindFile (files : list FileMetaData) (key : bytes) : option Z :=
  FindFileInRange files key 0 (len files).

Definition SomeFileOverlapsRange (disjoint_sorted_files : bool) (files : list FileMetaData)
    (smallest_user_key largest_user_key : option bytes) : option bool :=
  if negb disjoint_sorted_files then
    Some (existsb (fun f => negb (AfterFile smallest_user_key f || BeforeFile largest_user_key f)) files)
  else
    index ← match smallest_user_key with
            | None => Some 0
            | Some k => VS_FindFile files (InternalKey_SetMinPossibleForUserKey [] k)
            end;
    if len files <=? index then Some false
    else f ← files !z index; Some (negb (BeforeFile largest_user_key f)).

(** ** Sorted levels *)

(** The search for one file that meets the range: its index, or [-1]. *)
Fixpoint overlap_search (fuel : nat) (files : list FileMetaData) (begin_ end_ : option bytes)
    (within_interval : bool) (min max : Z) : option Z :=
  if min <=? max then
    match fuel with
    | O => None
    | S fuel =>
        let mid := Z.quot (min + max) 2 in
        f ← files !z mid;
        if 0 <? sstableKeyCompare_pl begin_ (if within_interval then f_smallest f else f_largest f)
        then overlap_search fuel files begin_ end_ within_interval (mid + 1) max
        else if 0 <? sstableKeyCompare_pr (if within_interval then f_largest f else f_smallest f) end_
        then overlap_search fuel files begin_ end_ within_interval min (mid - 1)
        else Some mid
    end
  else Some (-1).

(** The loop from [i] down, and [count]; [n] is [i + 1]. *)
Fixpoint extend_back (files : list FileMetaData) (begin_ : option bytes) (n : nat) (start_index count : Z)
  : option (Z * Z) :=
  match n with
  | O => Some (start_index, count)
  | S i =>
      f ← files !! i;
      if sstableKeyCompare_pl begin_ (f_largest f) <=? 0
      then extend_back files begin_ i (Z.of_nat i) (count + 1) else Some (start_index, count)
  end.

(** The loop from [i] up over the files [rest] that start at [i]. *)
Fixpoint extend_forward (rest : list FileMetaData) (end_ : option bytes) (i end_index count : Z) : Z * Z :=
  match rest with
  | [] => (end_index, count)
  | f :: rest =>
      if sstableKeyCompare_pr (f_smallest f) end_ <=? 0
      then extend_forward rest end_ (i + 1) i (count + 1) else (end_index, count)
  end.

(** The debug check that a file overlaps the range. *)
Definition overlaps_range (begin_ end_ : option bytes) (f : FileMetaData) : bool :=
  if sstableKeyCompare_pl begin_ (f_smallest f) <=? 0 then sstableKeyCompare_pr (f_smallest f) end_ <=? 0
  else sstableKeyCompare_pl begin_ (f_largest f) <=? 0.

Definition ExtendFileRangeOverlappingInterval (files : list FileMetaData) (begin_ end_ : option bytes)
    (mid_index : Z) : option (Z * Z) :=
  f ← files !z mid_index;
  if negb (overlaps_range begin_ end_ f) then None else
  '(start_index, count) ← extend_back files begin_ (Z.to_nat (mid_index + 1)) (mid_index + 1) 0;
  let '(end_index, count) := extend_forward (drop (Z.to_nat (mid_index + 1)) files) end_ (mid_index + 1) mid_index count in
  if negb (count =? end_index - start_index + 1) then None else Some (start_index, end_index).

(** The two shrinking loops; each round removes a file, so their number is fuel enough. *)
Fixpoint shrink_left (fuel : nat) (files : list FileMetaData) (begin_ : option bytes) (left_ right_ : Z)
  : option Z :=
  if left_ <=? right_ then
    match fuel with
    | O => None
    | S fuel =>
        f ← files !z left_;
        if 0 <? sstableKeyCompare_pl begin_ (f_smallest f)
        then shrink_left fuel files begin_ (left_ + 1) right_
        else if 0 <? left_ then
          p ← files !z (left_ - 1);
          if sstableKeyCompare (f_smallest f) (f_largest p) =? 0
          then shrink_left fuel files begin_ (left_ + 1) right_ else Some left_
        else Some left_
    end
  else Some left_.

Fixpoint shrink_right (fuel : nat) (files : list FileMetaData) (end_ : option bytes) (left_ right_ : Z)
  : option Z :=
  if left_ <=? right_ then
    match fuel with
    | O => None
    | S fuel =>
        f ← files !z right_;
        if 0 <? sstableKeyCompare_pr (f_largest f) end_
        then shrink_right fuel files end_ left_ (right_ - 1)
        else if right_ <? len files - 1 then
          q ← files !z (right_ + 1);
          if sstableKeyCompare (f_smallest q) (f_largest f) =? 0
          then shrink_right fuel files end_ left_ (right_ - 1) else Some right_
        else Some right_
    end
  else Some right_.

Definition ExtendFileRangeWithinInterval (files : list FileMetaData) (begin_ end_ : option bytes)
    (mid_index : Z) : option (Z * Z) :=
  f ← files !z mid_index;
  if negb ((sstableKeyCompare_pl begin_ (f_smallest f) <=? 0) && (sstableKeyCompare_pr (f_largest f) end_ <=? 0)) then None else
  '(start_index, end_index) ← ExtendFileRangeOverlappingInterval files begin_ end_ mid_index;
  l ← shrink_left (length files) files begin_ start_index end_index;
  r ← shrink_right (length files) files end_ l end_index;
  Some (l, r).

(** The files found, the index of one that meets the range ([-1] for none), and the
    key written to [next_smallest]: [Some None] is the null pointer, [None] when the
    pointer is left alone. *)
Definition GetOverlappingInputsRangeBinarySearch (files : list FileMetaData)
    (begin_ end_ : option bytes) (hint_index : Z) (within_interval : bool)
  : option (list FileMetaData * Z * option (option bytes)) :=
  mid ← (if negb (hint_index =? -1) then Some hint_index
         else overlap_search (length files) files begin_ end_ within_interval 0 (len files - 1));
  if mid =? -1 then Some ([], -1, None)
  else
    '(start_index, end_index) ←
      (if within_interval then ExtendFileRangeWithinInterval files begin_ end_ mid
       else ExtendFileRangeOverlappingInterval files begin_ end_ mid);
    inputs ← mapM (fun i => files !z i) (seqZ start_index (end_index - start_index + 1));
    Some (inputs, mid,
          Some (if end_index + 1 <? len files then f_smallest <$> (files !z (end_index + 1)) else None)).

(** ** Level 0 *)

Record l0_scan := mkScan {
  sc_inputs : list FileMetaData;
  sc_file_index : Z;
  sc_begin : option bytes;       (** [user_begin], [None] for a null [begin] *)
  sc_end : option bytes;
  sc_found : bool;
}.

(** One pass over the files not taken yet: those left, and the state. *)
Fixpoint l0_pass (expand_range : bool) (index : list (Z * FileMetaData)) (st : l0_scan)
  : list (Z * FileMetaData) * l0_scan :=
  match index with
  | [] => ([], st)
  | (i, f) :: index =>
      let file_start := ExtractUserKey (f_smallest f) in
      let file_limit := ExtractUserKey (f_largest f) in
      let before := match sc_begin st with None => false | Some b => Compare ucmp file_limit b <? 0 end in
      let after := match sc_end st with None => false | Some e => 0 <? Compare ucmp file_start e end in
      if before || after then
        let '(rest, st) := l0_pass expand_range index st in ((i, f) :: rest, st)
      else
        l0_pass expand_range index
          (mkScan (sc_inputs st ++ [f])
             (if sc_file_index st =? -1 then i else sc_file_index st)
             (match sc_begin st with
              | Some b => Some (if expand_range && (Compare ucmp file_start b <? 0) then file_start else b)
              | None => None end)
             (match sc_end st with
              | Some e => Some (if expand_range && (0 <? Compare ucmp file_limit e) then file_limit else e)
              | None => None end)
             true)
  end.

(** Passes until one takes no file; each other pass removes one, so the number of
    files is fuel enough. *)
Fixpoint l0_passes (fuel : nat) (expand_range : bool) (index : list (Z * FileMetaData)) (st : l0_scan)
  : option (list (Z * FileMetaData) * l0_scan) :=
  match index with
  | [] => Some ([], st)
  | _ =>
      match fuel with
      | O => None
      | S fuel =>
          let '(rest, st') :=
            l0_pass expand_range index
              (mkScan (sc_inputs st) (sc_file_index st) (sc_begin st) (sc_end st) false) in
          if sc_found st' then l0_passes fuel expand_range rest st' else Some (rest, st')
      end
  end.

Definition indexed (files : list FileMetaData) : list (Z * FileMetaData) :=
  zip (seqZ 0 (len files)) files.

Record VersionStorageInfo := mkVS {
  vs_files : list (list FileMetaData);
  num_non_empty_levels_ : Z;
}.

Definition LevelFiles (vs : VersionStorageInfo) (level : Z) : option (list FileMetaData) := vs_files vs !z level.

(** [None] inside when the level is empty and [inputs] is left as it was. *)
Definition GetOverlappingInputs (vs : VersionStorageInfo) (level : Z) (begin_ end_ : option bytes)
    (hint_index : Z) (expand_range : bool)
  : option (option (list FileMetaData * Z * option (option bytes))) :=
  if num_non_empty_levels_ vs <=? level then Some None
  else
    files ← LevelFiles vs level;
    if 0 <? level then
      r ← GetOverlappingInputsRangeBinarySearch files begin_ end_ hint_index false; Some (Some r)
    else
      '(_, st) ← l0_passes (S (length files)) expand_range (indexed files)
                   (mkScan [] (-1) (ExtractUserKey <$> begin_) (ExtractUserKey <$> end_) false);
      Some (Some (sc_inputs st, sc_file_index st, Some None)).

Definition OverlapInLevel (vs : VersionStorageInfo) (level : Z)
    (smallest_user_key largest_user_key : option bytes) : option bool :=
  if num_non_empty_levels_ vs <=? level then Some false
  else files ← LevelFiles vs level;
       SomeFileOverlapsRange (0 <? level) files smallest_user_key largest_user_key.

Definition GetCleanInputsWithinInterval (vs : VersionStorageInfo) (level : Z) (begin_ end_ : option bytes)
    (hint_index : Z) : option (list FileMetaData * Z) :=
  if (num_non_empty_levels_ vs <=? level) || (level =? 0) then Some ([], -1)
  else
    files ← LevelFiles vs level;
    if len files =? 0 then Some ([], -1)
    else
      first ← head files;
      back ← last files;
      let begin_ := match begin_ with None => Some (f_smallest first) | b => b end in
      let end_ := match end_ with None => Some (f_largest back) | e => e end in
      '(inputs, i, _) ← GetOverlappingInputsRangeBinarySearch files begin_ end_ hint_index true;
      Some (inputs, i).
End Overlap.

(** ** The order of file boundaries *)

Section Order.
Context (ucmp : Comparator) {Laws : ComparatorLaws ucmp}.

Abbreviation skc := (sstableKeyCompare ucmp).

Definition tombstone_rank (k : bytes) : Z :=
  if ExtractInternalKeyFooter k =? kRangeTombstoneSentinel then 0 else 1.

Lemma skc_eq a b :
  skc a b = let c := Compare ucmp (ExtractUserKey a) (ExtractUserKey b) in
            if c =? 0 then tombstone_rank a - tombstone_rank b else c.
Proof.
  unfold sstableKeyCompare, tombstone_rank. simpl.
  destruct (_ =? 0); simpl; [|done].
  destruct (ExtractInternalKeyFooter a =? _), (ExtractInternalKeyFooter b =? _); done.
Qed.

Lemma skc_refl a : skc a a = 0.
Proof. rewrite skc_eq. simpl. rewrite (cmp_refl ucmp). simpl. lia. Qed.

Lemma skc_le_ge a b : skc a b <= 0 <-> 0 <= skc b a.
Proof.
  rewrite !skc_eq. simpl. pose proof (cmp_sym (c := ucmp) (ExtractUserKey a) (ExtractUserKey b)) as Hs.
  destruct (Z.eqb_spec (Compare ucmp (ExtractUserKey a) (ExtractUserKey b)) 0),
    (Z.eqb_spec (Compare ucmp (ExtractUserKey b) (ExtractUserKey a)) 0); lia.
Qed.

Lemma skc_trans a b d : skc a b <= 0 -> skc b d <= 0 -> skc a d <= 0.
Proof.
  rewrite !skc_eq. simpl.
  set (ab := Compare ucmp (ExtractUserKey a) (ExtractUserKey b)).
  set (bd := Compare ucmp (ExtractUserKey b) (ExtractUserKey d)).
  set (ad := Compare ucmp (ExtractUserKey a) (ExtractUserKey d)).
  intros Hab Hbd.
  assert (Hle : ab <= 0 -> bd <= 0 -> ad <= 0) by apply (cmp_trans (c := ucmp)).
  assert (Hl : ab = 0 -> Z.sgn ad = Z.sgn bd) by apply (cmp_eq_l ucmp).
  assert (Hr : bd = 0 -> Z.sgn ad = Z.sgn ab).
  { intros H. symmetry. by apply (cmp_eq_r ucmp). }
  assert (Hlt : ab < 0 -> bd <= 0 -> ad < 0) by apply (cmp_lt_le_trans ucmp).
  destruct (Z.eqb_spec ab 0), (Z.eqb_spec bd 0), (Z.eqb_spec ad 0); lia.
Qed.

Lemma skc_lt_le_trans a b d : skc a b < 0 -> skc b d <= 0 -> skc a d < 0.
Proof.
  intros Hab Hbd. destruct (Z.lt_ge_cases (skc a d) 0) as [|H]; [done|].
  apply skc_le_ge in H. pose proof (skc_trans b d a Hbd H) as H2. apply skc_le_ge in H2. lia.
Qed.

Lemma skc_le_lt_trans a b d : skc a b <= 0 -> skc b d < 0 -> skc a d < 0.
Proof.
  intros Hab Hbd. destruct (Z.lt_ge_cases (skc a d) 0) as [|H]; [done|].
  apply skc_le_ge in H. pose proof (skc_trans d a b H Hab) as H2. apply skc_le_ge in H2. lia.
Qed.

(** ** Sorted levels *)

Implicit Types (files : list FileMetaData).

(** Files one after the other; neighbours may share their boundary's user key. *)
Record level_sorted files : Prop := {
  ls_file i f : files !z i = Some f -> skc (f_smallest f) (f_largest f) <= 0;
  ls_next i j f g : files !z i = Some f -> files !z j = Some g -> i < j -> skc (f_largest f) (f_smallest g) <= 0;
}.

(** Files with no user key in common, in order. *)
Definition user_disjoint files : Prop :=
  StronglySorted (fun f g => Compare ucmp (ExtractUserKey (f_largest f)) (ExtractUserKey (f_smallest g)) < 0) files /\
  Forall (fun f => Compare ucmp (ExtractUserKey (f_smallest f)) (ExtractUserKey (f_largest f)) <= 0) files.

(** [f] meets the range, or lies in it. *)
Definition meets (begin_ end_ : option bytes) (f : FileMetaData) : bool :=
  (sstableKeyCompare_pl ucmp begin_ (f_largest f) <=? 0) && (sstableKeyCompare_pr ucmp (f_smallest f) end_ <=? 0).

Definition inside (begin_ end_ : option bytes) (f : FileMetaData) : bool :=
  (sstableKeyCompare_pl ucmp begin_ (f_smallest f) <=? 0) && (sstableKeyCompare_pr ucmp (f_largest f) end_ <=? 0).

Lemma pl_mono begin_ a b : sstableKeyCompare_pl ucmp begin_ a <= 0 -> skc a b <= 0 -> sstableKeyCompare_pl ucmp begin_ b <= 0.
Proof. destruct begin_ as [k|]; simpl; [|lia]. apply skc_trans. Qed.

Lemma pr_mono end_ a b : sstableKeyCompare_pr ucmp b end_ <= 0 -> skc a b <= 0 -> sstableKeyCompare_pr ucmp a end_ <= 0.
Proof. destruct end_ as [k|]; simpl; [|lia]. intros H1 H2. by eapply skc_trans. Qed.

Section Sorted.
Context (files : list FileMetaData) (Hs : level_sorted files).

Lemma largest_mono i j f g :
  files !z i = Some f -> files !z j = Some g -> i <= j -> skc (f_largest f) (f_largest g) <= 0.
Proof.
  intros Hf Hg Hij. destruct (decide (i = j)) as [->|]; [replace g with f by congruence; by rewrite skc_refl|].
  eapply skc_trans; [eapply (ls_next _ Hs i j); [done|done|lia]|by eapply (ls_file _ Hs)].
Qed.

Lemma smallest_mono i j f g :
  files !z i = Some f -> files !z j = Some g -> i <= j -> skc (f_smallest f) (f_smallest g) <= 0.
Proof.
  intros Hf Hg Hij. destruct (decide (i = j)) as [->|]; [replace g with f by congruence; by rewrite skc_refl|].
  eapply skc_trans; [by eapply (ls_file _ Hs)|eapply (ls_next _ Hs i j); [done|done|lia]].
Qed.

(** What the search compares with each end of the range. *)
Definition low_key (within : bool) (f : FileMetaData) : bytes := if within then f_smallest f else f_largest f.
Definition high_key (within : bool) (f : FileMetaData) : bytes := if within then f_largest f else f_smallest f.

Definition hit (within : bool) (begin_ end_ : option bytes) (f : FileMetaData) : bool :=
  (sstableKeyCompare_pl ucmp begin_ (low_key within f) <=? 0) &&
  (sstableKeyCompare_pr ucmp (high_key within f) end_ <=? 0).

Lemma low_mono within i j f g :
  files !z i = Some f -> files !z j = Some g -> i <= j -> skc (low_key within f) (low_key within g) <= 0.
Proof. destruct within; [apply smallest_mono|apply largest_mono]. Qed.

Lemma high_mono within i j f g :
  files !z i = Some f -> files !z j = Some g -> i <= j -> skc (high_key within f) (high_key within g) <= 0.
Proof. destruct within; [apply largest_mono|apply smallest_mono]. Qed.

Lemma overlap_search_ok within begin_ end_ fuel min max :
  0 <= min -> max < len files -> max - min + 1 <= Z.of_nat fuel ->
  (forall i f, files !z i = Some f -> i < min -> 0 < sstableKeyCompare_pl ucmp begin_ (low_key within f)) ->
  (forall i f, files !z i = Some f -> max < i -> 0 < sstableKeyCompare_pr ucmp (high_key within f) end_) ->
  exists mid, overlap_search ucmp fuel files begin_ end_ within min max = Some mid /\
    ((mid = -1 /\ forall i f, files !z i = Some f -> hit within begin_ end_ f = false) \/
     exists f, files !z mid = Some f /\ hit within begin_ end_ f = true).
Proof.
  revert min max. induction fuel as [|fuel IH]; intros min max Hmin Hmax Hfuel Hlo Hhi;
    (simpl; destruct (Z.leb_spec min max) as [Hle|Hgt]; [try lia|]).
  1, 3: exists (-1); split; [done|]; left; split; [done|]; intros i f Hf;
    apply andb_false_iff; rewrite !Z.leb_gt; destruct (Z.lt_ge_cases i min); [left|right]; eauto with lia.
  assert (Hq : min <= Z.quot (min + max) 2 <= max) by (rewrite Z.quot_div_nonneg by lia; split;
    [apply Z.div_le_lower_bound; lia|apply Z.div_le_upper_bound; lia]).
  set (mid := Z.quot (min + max) 2) in *.
  destruct (zget_is_Some files mid ltac:(lia)) as [f Hf]. rewrite Hf. simpl.
  fold (low_key within f) (high_key within f).
  destruct (Z.ltb_spec 0 (sstableKeyCompare_pl ucmp begin_ (low_key within f))) as [H1|H1].
  - apply IH; try lia; [|done]. intros i g Hg Hi.
    destruct (Z.lt_ge_cases 0 (sstableKeyCompare_pl ucmp begin_ (low_key within g))) as [|H2]; [done|].
    pose proof (pl_mono begin_ _ _ H2 (low_mono within i mid g f Hg Hf ltac:(lia))). lia.
  - destruct (Z.ltb_spec 0 (sstableKeyCompare_pr ucmp (high_key within f) end_)) as [H2|H2].
    + apply IH; try lia; [done|]. intros i g Hg Hi.
      destruct (Z.lt_ge_cases 0 (sstableKeyCompare_pr ucmp (high_key within g) end_)) as [|H3]; [done|].
      pose proof (pr_mono end_ _ _ H3 (high_mono within mid i f g Hf Hg ltac:(lia))). lia.
    + exists mid. split; [done|]. right. exists f. split; [done|]. unfold hit.
      apply andb_true_iff. rewrite !Z.leb_le. lia.
Qed.

Lemma extend_back_ok begin_ (n : nat) c :
  Z.of_nat n <= len files ->
  exists s, extend_back ucmp files begin_ n (Z.of_nat n) c = Some (s, c + (Z.of_nat n - s)) /\ 0 <= s <= Z.of_nat n /\
    forall i f, files !z i = Some f -> i < Z.of_nat n ->
      (sstableKeyCompare_pl ucmp begin_ (f_largest f) <= 0 <-> s <= i).
Proof.
  revert c. induction n as [|n IH]; intros c Hn; simpl.
  - exists 0. split_and!; [by rewrite Z.add_0_r|lia|lia|]. intros i f Hf Hi. apply zget_range in Hf. lia.
  - destruct (zget_is_Some files (Z.of_nat n) ltac:(lia)) as [f Hf]. pose proof Hf as Hf'.
    rewrite zget_nat in Hf'. rewrite Hf'. simpl.
    destruct (Z.leb_spec (sstableKeyCompare_pl ucmp begin_ (f_largest f)) 0) as [H|H].
    + destruct (IH (c + 1) ltac:(lia)) as (s & -> & Hsn & Hsp). exists s. split_and!; [do 2 f_equal; lia|lia|lia|].
      intros i g Hg Hi. destruct (decide (i = Z.of_nat n)) as [->|]; [|apply Hsp; [done|lia]].
      assert (g = f) as -> by congruence. split; lia.
    + exists (Z.pos (Pos.of_succ_nat n)). split_and!; [do 2 f_equal; lia|lia|lia|]. intros i g Hg Hi. split; [|lia]. intros Hle.
      pose proof (pl_mono begin_ _ _ Hle (largest_mono i (Z.of_nat n) g f Hg Hf ltac:(lia))). lia.
Qed.

Lemma extend_forward_ok end_ rest i e c :
  0 <= i -> rest = drop (Z.to_nat i) files -> e = i - 1 -> i <= len files ->
  exists e', extend_forward ucmp rest end_ i e c = (e', c + (e' - (i - 1))) /\
  i - 1 <= e' < len files /\
  forall j f, files !z j = Some f -> i <= j ->
    (sstableKeyCompare_pr ucmp (f_smallest f) end_ <= 0 <-> j <= e').
Proof.
  revert i e c. induction rest as [|f rest IH]; intros i e c Hi Hrest -> Hlen; simpl.
  - apply (f_equal length) in Hrest. rewrite length_drop in Hrest. simpl in Hrest. unfold zlen in *.
    exists (i - 1). split; [f_equal; lia|]. split; [lia|]. intros j g Hg%zget_range Hj. unfold zlen in *. lia.
  - assert (Hf : files !z i = Some f).
    { apply zget_Some. split; [done|]. rewrite <- (Nat.add_0_r (Z.to_nat i)), <- lookup_drop, <- Hrest. done. }
    pose proof (zget_range _ _ _ Hf).
    destruct (Z.leb_spec (sstableKeyCompare_pr ucmp (f_smallest f) end_) 0) as [H1|H1].
    + destruct (IH (i + 1) i (c + 1)) as (e' & -> & He & Hp); [lia| |lia|lia|].
      { replace (Z.to_nat (i + 1)) with (Z.to_nat i + 1)%nat by lia. by rewrite <- drop_drop, <- Hrest. }
      exists e'. split; [f_equal; lia|]. split; [lia|]. intros j g Hg Hj. destruct (decide (j = i)) as [->|]; [|apply Hp; [done|lia]].
      assert (g = f) as -> by congruence. split; lia.
    + exists (i - 1). split; [f_equal; lia|]. split; [lia|]. intros j g Hg Hj. split; [|lia]. intros Hle.
      pose proof (pr_mono end_ _ _ Hle (smallest_mono i j f g Hf Hg Hj)). lia.
Qed.

Lemma ExtendFileRangeOverlappingInterval_ok begin_ end_ mid f :
  files !z mid = Some f -> meets begin_ end_ f = true ->
  exists s e, ExtendFileRangeOverlappingInterval ucmp files begin_ end_ mid = Some (s, e) /\
    0 <= s <= mid /\ mid <= e < len files /\
    forall i g, files !z i = Some g -> (meets begin_ end_ g = true <-> s <= i <= e).
Proof.
  intros Hf Hm. pose proof (zget_range _ _ _ Hf) as Hr. unfold meets in *. apply andb_true_iff in Hm. rewrite !Z.leb_le in Hm.
  destruct Hm as [Hb He].
  destruct (extend_back_ok begin_ (Z.to_nat (mid + 1)) 0) as (s & Hs1 & Hs2 & Hs3); [lia|].
  rewrite Z2Nat.id in * by lia.
  destruct (extend_forward_ok end_ (drop (Z.to_nat (mid + 1)) files) (mid + 1) mid (0 + (mid + 1 - s))) as (e & He0 & He1 & He2);
    [lia|done|lia|lia|].
  assert (overlaps_range ucmp begin_ end_ f = true) as Hov by (unfold overlaps_range; case_match; lia).
  unfold ExtendFileRangeOverlappingInterval. rewrite Hf. cbn [mbind option_bind]. rewrite Hov, Hs1. cbn [negb mbind option_bind]. rewrite He0.
  destruct (Z.eqb_spec (0 + (mid + 1 - s) + (e - (mid + 1 - 1))) (e - s + 1)); [|lia]. exists s, e. split; [done|].
  assert (s <= mid) by (apply (Hs3 mid f Hf); [lia|done]).
  split_and!; try lia. intros i g Hg. rewrite andb_true_iff, !Z.leb_le.
  destruct (Z.le_gt_cases i mid) as [Hi|Hi].
  - rewrite (Hs3 i g Hg) by lia. split; [lia|]. intros [Hsi _]. split; [done|].
    eapply pr_mono; [exact He|]. by apply (smallest_mono i mid).
  - rewrite (He2 i g Hg) by lia. split; [lia|]. intros [_ Hie]. split; [|done].
    eapply pl_mono; [exact Hb|]. apply (largest_mono mid i); [done|done|lia].
Qed.

(** The files at consecutive positions. *)
Lemma mapM_slice s n :
  0 <= s -> 0 <= n -> s + n <= len files ->
  mapM (fun i => files !z i) (seqZ s n) = Some (take (Z.to_nat n) (drop (Z.to_nat s) files)).
Proof.
  intros Hs0 Hn Hl. apply mapM_Some. apply Forall2_same_length_lookup_2.
  { rewrite length_seqZ, length_take, length_drop. unfold zlen in Hl. lia. }
  intros i x f Hx Hf. apply lookup_seqZ in Hx as [-> Hi].
  apply lookup_take_Some in Hf as [Hf _]. rewrite lookup_drop in Hf. apply zget_Some. split; [lia|].
  by replace (Z.to_nat (s + Z.of_nat i)) with (Z.to_nat s + i)%nat by lia.
Qed.

Lemma filter_slice (P : FileMetaData -> bool) s e :
  0 <= s -> s - 1 <= e < len files ->
  (forall i f, files !z i = Some f -> (P f = true <-> s <= i <= e)) ->
  filter (fun f => P f = true) files = take (Z.to_nat (e - s + 1)) (drop (Z.to_nat s) files).
Proof.
  intros Hs0 He HP.
  assert (Hz : forall i f, files !! i = Some f -> (P f = true <-> s <= Z.of_nat i <= e)).
  { intros i f Hf. apply HP. by rewrite zget_nat. }
  rewrite <- (take_drop (Z.to_nat s) files) at 1.
  rewrite <- (take_drop (Z.to_nat (e - s + 1)) (drop (Z.to_nat s) files)) at 1.
  rewrite !filter_app, !drop_drop.
  assert (filter (fun f => P f = true) (take (Z.to_nat s) files) = []) as ->.
  { apply filter_none. intros f [i Hf]%list_elem_of_lookup Hp. apply lookup_take_Some in Hf as [Hf Hi].
    apply (Hz i f Hf) in Hp. lia. }
  assert (filter (fun f => P f = true) (drop (Z.to_nat s + Z.to_nat (e - s + 1)) files) = []) as ->.
  { apply filter_none. intros f [i Hf]%list_elem_of_lookup Hp. rewrite lookup_drop in Hf.
    apply (Hz _ f Hf) in Hp. lia. }
  rewrite app_nil_r. simpl. apply filter_id. intros f [i Hf]%list_elem_of_lookup.
  apply lookup_take_Some in Hf as [Hf Hi]. rewrite lookup_drop in Hf. apply (Hz _ f Hf). lia.
Qed.

(** ** Clean ranges *)

(** A file at which a range of files can start, or end, without cutting a user key. *)
Definition good_left (begin_ : option bytes) (i : Z) : Prop :=
  exists f, files !z i = Some f /\ sstableKeyCompare_pl ucmp begin_ (f_smallest f) <= 0 /\
    (i = 0 \/ exists p, files !z (i - 1) = Some p /\ skc (f_smallest f) (f_largest p) <> 0).

Definition good_right (end_ : option bytes) (i : Z) : Prop :=
  exists f, files !z i = Some f /\ sstableKeyCompare_pr ucmp (f_largest f) end_ <= 0 /\
    (i = len files - 1 \/ exists q, files !z (i + 1) = Some q /\ skc (f_smallest q) (f_largest f) <> 0).

Lemma shrink_left_ok begin_ fuel l r :
  0 <= l -> r < len files -> r - l + 1 <= Z.of_nat fuel ->
  exists l', shrink_left ucmp fuel files begin_ l r = Some l' /\ l <= l' <= Z.max l (r + 1) /\
    (l' <= r -> good_left begin_ l') /\ forall i, l <= i < l' -> ~ good_left begin_ i.
Proof.
  revert l. induction fuel as [|fuel IH]; intros l Hl Hr Hfuel;
    (simpl; destruct (Z.leb_spec l r) as [Hle|Hgt]; [try lia|]).
  1, 3: eexists; split_and!; [done|lia|lia|lia|lia].
  destruct (zget_is_Some files l ltac:(lia)) as [f Hf]. rewrite Hf. simpl.
  assert (Hstep : ~ good_left begin_ l -> exists l', shrink_left ucmp fuel files begin_ (l + 1) r = Some l' /\
    l <= l' <= Z.max l (r + 1) /\ (l' <= r -> good_left begin_ l') /\ forall i, l <= i < l' -> ~ good_left begin_ i).
  { intros Hbad. destruct (IH (l + 1)) as (l' & Hs' & Hl' & Hg & Hb); [lia..|].
    exists l'. split_and!; [done|lia|lia|done|]. intros i Hi.
    destruct (decide (i = l)) as [->|]; [done|apply Hb; lia]. }
  destruct (Z.ltb_spec 0 (sstableKeyCompare_pl ucmp begin_ (f_smallest f))) as [H1|H1].
  { apply Hstep. intros (g & Hg & Hc & _). assert (g = f) as -> by congruence. lia. }
  destruct (Z.ltb_spec 0 l) as [H0|H0].
  - destruct (zget_is_Some files (l - 1) ltac:(lia)) as [p Hp]. rewrite Hp. simpl.
    destruct (Z.eqb_spec (skc (f_smallest f) (f_largest p)) 0) as [He|He].
    + apply Hstep. intros (g & Hg & _ & [->|(q & Hq & Hc)]); [lia|]. congruence.
    + exists l. split_and!; [done|lia|lia| |lia]. intros _. exists f. split_and!; eauto.
  - exists l. split_and!; [done|lia|lia| |lia]. intros _. exists f. split_and!; [done|done|left; lia].
Qed.

Lemma shrink_right_ok end_ fuel l r :
  0 <= l -> r < len files -> r - l + 1 <= Z.of_nat fuel ->
  exists r', shrink_right ucmp fuel files end_ l r = Some r' /\ Z.min r (l - 1) <= r' <= r /\
    (l <= r' -> good_right end_ r') /\ forall i, r' < i <= r -> ~ good_right end_ i.
Proof.
  revert r. induction fuel as [|fuel IH]; intros r Hl Hr Hfuel;
    (simpl; destruct (Z.leb_spec l r) as [Hle|Hgt]; [try lia|]).
  1, 3: eexists; split_and!; [done|lia|lia|lia|lia].
  destruct (zget_is_Some files r ltac:(lia)) as [f Hf]. rewrite Hf. simpl.
  assert (Hstep : ~ good_right end_ r -> exists r', shrink_right ucmp fuel files end_ l (r - 1) = Some r' /\
    Z.min r (l - 1) <= r' <= r /\ (l <= r' -> good_right end_ r') /\ forall i, r' < i <= r -> ~ good_right end_ i).
  { intros Hbad. destruct (IH (r - 1)) as (r' & Hs' & Hl' & Hg & Hb); [lia..|].
    exists r'. split_and!; [done|lia|lia|done|]. intros i Hi.
    destruct (decide (i = r)) as [->|]; [done|apply Hb; lia]. }
  destruct (Z.ltb_spec 0 (sstableKeyCompare_pr ucmp (f_largest f) end_)) as [H1|H1].
  { apply Hstep. intros (g & Hg & Hc & _). assert (g = f) as -> by congruence. lia. }
  destruct (Z.ltb_spec r (len files - 1)) as [H0|H0].
  - destruct (zget_is_Some files (r + 1) ltac:(lia)) as [q Hq]. rewrite Hq. simpl.
    destruct (Z.eqb_spec (skc (f_smallest q) (f_largest f)) 0) as [He|He].
    + apply Hstep. intros (g & Hg & _ & [->|(p & Hp & Hc)]); [lia|]. congruence.
    + exists r. split_and!; [done|lia|lia| |lia]. intros _. exists f. split_and!; eauto.
  - exists r. split_and!; [done|lia|lia| |lia]. intros _. exists f. split_and!; [done|done|left; lia].
Qed.

(** The positions [l .. r] hold files inside the range, cut at user key boundaries. *)
Record clean_range (begin_ end_ : option bytes) (l r : Z) : Prop := {
  cr_range : 0 <= l /\ l <= r /\ r < len files;
  cr_left : good_left begin_ l;
  cr_right : good_right end_ r;
}.

Lemma clean_inside begin_ end_ l r i f :
  clean_range begin_ end_ l r -> l <= i <= r -> files !z i = Some f -> inside begin_ end_ f = true.
Proof.
  intros [(H0 & Hlr & Hr) (fl & Hfl & Hbl & _) (fr & Hfr & Her & _)] Hi Hf.
  apply andb_true_iff. rewrite !Z.leb_le. split.
  - eapply pl_mono; [exact Hbl|]. apply (smallest_mono l i); [done|done|lia].
  - eapply pr_mono; [exact Her|]. apply (largest_mono i r); [done|done|lia].
Qed.

Lemma inside_meets begin_ end_ i f : files !z i = Some f -> inside begin_ end_ f = true -> meets begin_ end_ f = true.
Proof.
  intros Hf. unfold inside, meets. rewrite !andb_true_iff, !Z.leb_le. intros [H1 H2].
  pose proof (ls_file _ Hs i f Hf). split; [by eapply pl_mono|by eapply pr_mono].
Qed.

Lemma ExtendFileRangeWithinInterval_ok begin_ end_ mid f :
  files !z mid = Some f -> inside begin_ end_ f = true ->
  exists l r, ExtendFileRangeWithinInterval ucmp files begin_ end_ mid = Some (l, r) /\
    0 <= l /\ l - 1 <= r < len files /\
    (l <= r -> clean_range begin_ end_ l r) /\
    forall a b, clean_range begin_ end_ a b -> l <= a /\ b <= r.
Proof.
  intros Hf Hin. destruct (ExtendFileRangeOverlappingInterval_ok begin_ end_ mid f Hf) as
    (s & e & Hex & Hse & Hee & Hiff); [by eapply inside_meets|].
  unfold ExtendFileRangeWithinInterval. rewrite Hf. cbn [mbind option_bind]. fold (inside begin_ end_ f). rewrite Hin, Hex. cbn [negb mbind option_bind].
  destruct (shrink_left_ok begin_ (length files) s e) as (l & -> & Hl & Hgl & Hbl); [lia|lia|unfold zlen in *; lia|].
  simpl. destruct (shrink_right_ok end_ (length files) l e) as (r & -> & Hr & Hgr & Hbr); [lia|lia|unfold zlen in *; lia|].
  simpl. exists l, r. split_and!; [done|lia|lia|lia| |].
  - intros Hlr. constructor; [lia|apply Hgl; lia|by apply Hgr].
  - intros a b Hc. pose proof (cr_range _ _ _ _ Hc) as (Ha & Hab & Hb).
    assert (Hin' : forall i, a <= i <= b -> s <= i <= e).
    { intros i Hi. destruct (zget_is_Some files i ltac:(lia)) as [g Hg]. apply (Hiff i g Hg).
      eapply inside_meets; [exact Hg|]. by eapply clean_inside. }
    pose proof (Hin' a ltac:(lia)). pose proof (Hin' b ltac:(lia)). split.
    + destruct (Z.le_gt_cases l a); [done|]. destruct (Hbl a); [lia|]. by destruct Hc.
    + destruct (Z.le_gt_cases b r); [done|]. destruct (Hbr b); [lia|]. by destruct Hc.
Qed.
End Sorted.

(** The files that meet the range, found by binary search. *)
Lemma GetOverlappingInputs_ok vs level files begin_ end_ hint_index expand_range :
  0 < level < num_non_empty_levels_ vs -> LevelFiles vs level = Some files -> level_sorted files ->
  (hint_index = -1 \/ exists f, files !z hint_index = Some f /\ meets begin_ end_ f = true) ->
  exists mid next_smallest,
    GetOverlappingInputs ucmp vs level begin_ end_ hint_index expand_range =
      Some (Some (filter (fun f => meets begin_ end_ f = true) files, mid, next_smallest)) /\
    ((mid = -1 /\ forall f, f ∈ files -> meets begin_ end_ f = false) \/
     exists f, files !z mid = Some f /\ meets begin_ end_ f = true).
Proof.
  intros Hlv Hf Hs Hhint. unfold GetOverlappingInputs.
  destruct (Z.leb_spec (num_non_empty_levels_ vs) level); [lia|]. rewrite Hf. simpl.
  destruct (Z.ltb_spec 0 level); [|lia]. unfold GetOverlappingInputsRangeBinarySearch.
  assert (Hmid : exists mid, (if negb (hint_index =? -1) then Some hint_index
      else overlap_search ucmp (length files) files begin_ end_ false 0 (len files - 1)) = Some mid /\
    ((mid = -1 /\ forall i f, files !z i = Some f -> meets begin_ end_ f = false) \/
     exists f, files !z mid = Some f /\ meets begin_ end_ f = true)).
  { destruct Hhint as [->|(f & Hhf & Hm)].
    - apply (overlap_search_ok files Hs false);
        [lia|lia|unfold zlen; lia|intros i f Hi%zget_range; lia|intros i f Hi%zget_range; lia].
    - pose proof (zget_range _ _ _ Hhf). destruct (Z.eqb_spec hint_index (-1)); [lia|].
      exists hint_index. split; [done|]. right. eauto. }
  destruct Hmid as (mid & -> & Hmid). simpl.
  destruct Hmid as [[-> Hnone]|(f & Hmf & Hm)].
  - simpl. exists (-1), None. rewrite filter_none.
    + split; [done|]. left. split; [done|]. intros f [i Hi]%list_elem_of_lookup.
      apply (Hnone (Z.of_nat i)). by rewrite zget_nat.
    + intros f [i Hi]%list_elem_of_lookup Hm. rewrite (Hnone (Z.of_nat i)) in Hm; [done|]. by rewrite zget_nat.
  - pose proof (zget_range _ _ _ Hmf). destruct (Z.eqb_spec mid (-1)); [lia|].
    destruct (ExtendFileRangeOverlappingInterval_ok files Hs begin_ end_ mid f Hmf Hm) as
      (a & b & -> & Ha & Hb & Hiff). simpl.
    rewrite mapM_slice by lia. simpl. do 2 eexists. split; [|right; eauto].
    rewrite (filter_slice files (meets begin_ end_) a b); [done|lia|lia|done].
Qed.

(** Overlap queries on a sorted level are exact: [GetOverlappingInputs] returns, in
    order, exactly the files that meet the range (binary search and the two extensions
    stay in bounds and miss nothing), whether it searches or starts from a file the
    caller names, and reports the index of one of them, or -1 when there are none. *)
Theorem overlapping_inputs_exact vs level files begin_ end_ hint_index expand_range :
  0 < level < num_non_empty_levels_ vs -> LevelFiles vs level = Some files -> level_sorted files ->
  (hint_index = -1 \/ exists f, files !z hint_index = Some f /\ meets begin_ end_ f = true) ->
  exists mid next_smallest,
    GetOverlappingInputs ucmp vs level begin_ end_ hint_index expand_range =
      Some (Some (filter (fun f => meets begin_ end_ f = true) files, mid, next_smallest)) /\
    ((mid = -1 /\ forall f, f ∈ files -> meets begin_ end_ f = false) \/
     exists f, files !z mid = Some f /\ meets begin_ end_ f = true).
Proof. apply GetOverlappingInputs_ok. Qed.

(** Clean inputs are the largest clean cut: [GetCleanInputsWithinInterval] returns a
    run of consecutive files inside the interval whose first and last user keys are not
    shared with a neighbour outside the run, and every such run of the level is part of
    it. *)
Theorem clean_inputs_maximal vs level files b e :
  0 < level < num_non_empty_levels_ vs -> LevelFiles vs level = Some files -> level_sorted files ->
  files <> [] ->
  exists inputs i l r,
    GetCleanInputsWithinInterval ucmp vs level (Some b) (Some e) (-1) = Some (inputs, i) /\
    inputs = take (Z.to_nat (r - l + 1)) (drop (Z.to_nat l) files) /\
    (inputs <> [] -> clean_range files (Some b) (Some e) l r) /\
    forall a c, clean_range files (Some b) (Some e) a c -> l <= a /\ c <= r.
Proof.
  intros Hlv Hf Hs Hne. unfold GetCleanInputsWithinInterval.
  destruct (Z.leb_spec (num_non_empty_levels_ vs) level); [lia|]. destruct (Z.eqb_spec level 0); [lia|].
  simpl. rewrite Hf. simpl. destruct (Z.eqb_spec (len files) 0) as [Hz%zlen_zero|_]; [done|].
  destruct (head files) as [f0|] eqn:E0; [|by destruct files].
  destruct (last files) as [fl|] eqn:El; [|by apply last_None in El]. rename files into fs. simpl.
  unfold GetOverlappingInputsRangeBinarySearch. simpl.
  destruct (overlap_search_ok fs Hs true (Some b) (Some e) (length fs) 0 (len fs - 1)) as (mid & -> & Hmid);
    [lia|lia|unfold zlen; lia|intros i f Hi%zget_range; lia|intros i f Hi%zget_range; lia|]. simpl.
  destruct Hmid as [[-> Hnone]|(f & Hmf & Hm)].
  - simpl. exists [], (-1), 0, (-1). split_and!; [done|done|done|]. intros a c Hc.
    pose proof (cr_range _ _ _ _ _ Hc) as (Ha & Hac & Hcl).
    destruct (zget_is_Some fs a ltac:(lia)) as [g Hg].
    pose proof (clean_inside fs Hs _ _ a c a g Hc ltac:(lia) Hg) as Hin.
    pose proof (Hnone a g Hg) as Hno. change (hit true) with inside in Hno. congruence.
  - pose proof (zget_range _ _ _ Hmf). destruct (Z.eqb_spec mid (-1)); [lia|].
    destruct (ExtendFileRangeWithinInterval_ok fs Hs (Some b) (Some e) mid f Hmf Hm) as
      (l & r & -> & Hl & Hr & Hcl & Hmax). simpl.
    destruct (decide (l <= r)).
    + rewrite mapM_slice by lia. simpl. do 2 eexists. exists l, r. split_and!; [done|done|by auto|done].
    + assert (r - l + 1 = 0) as Hz by lia. rewrite Hz. simpl. exists [], mid, l, r.
      split_and!; [done|by rewrite Hz|done|done].
Qed.
End Order.

(** ** The binary overlap test is the linear one *)

Section SomeFile.
Context (ucmp : Comparator) {Laws : ComparatorLaws ucmp}.
Implicit Types (files : list FileMetaData).

Lemma lower_bound_ok files key fuel first count :
  (forall i j f g, files !z i = Some f -> files !z j = Some g -> i <= j ->
     Compare (InternalKeyComparator ucmp) (f_largest g) key < 0 ->
     Compare (InternalKeyComparator ucmp) (f_largest f) key < 0) ->
  0 <= first -> 0 <= count -> first + count <= len files -> count <= Z.of_nat fuel ->
  exists r, lower_bound ucmp fuel files key first count = Some r /\ first <= r <= first + count /\
    (forall i f, files !z i = Some f -> first <= i < r -> Compare (InternalKeyComparator ucmp) (f_largest f) key < 0) /\
    (forall i f, files !z i = Some f -> r <= i < first + count -> 0 <= Compare (InternalKeyComparator ucmp) (f_largest f) key).
Proof.
  intros Hmono. revert first count. induction fuel as [|fuel IH]; intros first count H0 Hc Hl Hf;
    (cbn [lower_bound]; destruct (Z.ltb_spec 0 count) as [Hpos|]; [try lia|]).
  1, 3: exists first; split_and!; [done|lia|lia|intros; lia|intros; lia].
  assert (Hst : 0 <= count / 2 < count) by (split; [apply Z.div_pos; lia|apply Z.div_lt; lia]).
  set (step := count / 2) in *. destruct (zget_is_Some files (first + step) ltac:(lia)) as [f Hfm].
  rewrite Hfm. cbn [mbind option_bind].
  destruct (Z.ltb_spec (Compare (InternalKeyComparator ucmp) (f_largest f) key) 0) as [Hlt|Hge].
  - destruct (IH (first + step + 1) (count - (step + 1))) as (r & Hr & Hrr & Hb & Ha); [lia..|].
    exists r. split_and!; [done|lia|lia| |intros i g Hg Hi; apply (Ha i g Hg); lia].
    intros i g Hg Hi. destruct (Z.le_gt_cases i (first + step)).
    + by eapply (Hmono i (first + step)).
    + apply (Hb i g Hg). lia.
  - destruct (IH first step) as (r & Hr & Hrr & Hb & Ha); [lia..|].
    exists r. split_and!; [done|lia|lia|done|].
    intros i g Hg Hi. destruct (Z.le_gt_cases (first + step) i).
    + destruct (Z.le_gt_cases 0 (Compare (InternalKeyComparator ucmp) (f_largest g) key)) as [|Hn]; [done|].
      pose proof (Hmono _ _ _ _ Hfm Hg ltac:(lia) Hn). lia.
    + apply (Ha i g Hg). lia.
Qed.

(** Levels as the overlap test needs them: by user key, with boundaries whose footer is
    that of a real entry or a range tombstone. *)
Record level_user_sorted files : Prop := {
  lu_file i f : files !z i = Some f -> Compare ucmp (ExtractUserKey (f_smallest f)) (ExtractUserKey (f_largest f)) <= 0;
  lu_next i j f g : files !z i = Some f -> files !z j = Some g -> i < j ->
    Compare ucmp (ExtractUserKey (f_largest f)) (ExtractUserKey (f_smallest g)) <= 0;
  lu_footer i f : files !z i = Some f ->
    ExtractInternalKeyFooter (f_largest f) <= PackSequenceAndType kMaxSequenceNumber kValueTypeForSeek;
}.

Lemma min_key_order files i f u :
  level_user_sorted files -> files !z i = Some f ->
  Compare (InternalKeyComparator ucmp) (f_largest f) (InternalKey_SetMinPossibleForUserKey [] u) < 0 <->
  Compare ucmp (ExtractUserKey (f_largest f)) u < 0.
Proof.
  intros Hs Hf. pose proof (lu_footer _ Hs i f Hf) as Hft.
  unfold InternalKey_SetMinPossibleForUserKey. rewrite AppendInternalKey_eq.
  set (k := u ++ _). change (Compare (InternalKeyComparator ucmp) (f_largest f) k) with (InternalKey_Compare ucmp (f_largest f) k).
  pose proof (InternalKey_Compare_sgn ucmp (f_largest f) k) as Hc. cbv zeta in Hc. unfold k in Hc at 2 3 4.
  rewrite ExtractUserKey_footer, ExtractFooter_footer in Hc by (split; vm_compute; done).
  destruct (Z.eqb_spec (Compare ucmp (ExtractUserKey (f_largest f)) u) 0); lia.
Qed.

Lemma not_before files i j f g e :
  level_user_sorted files -> files !z i = Some f -> files !z j = Some g -> i <= j ->
  BeforeFile ucmp e g = false -> BeforeFile ucmp e f = false.
Proof.
  intros Hs Hf Hg Hij. destruct e as [k|]; simpl; [|done]. rewrite !Z.ltb_ge. intros Hb.
  destruct (decide (i = j)) as [->|]; [congruence|].
  apply (cmp_le_ge ucmp) in Hb. apply (cmp_le_ge ucmp). eapply (cmp_trans (c := ucmp)); [|exact Hb].
  eapply (cmp_trans (c := ucmp)); [by eapply lu_file|eapply (lu_next _ Hs i j); [done|done|lia]].
Qed.

(** The first file not before [index] decides. *)
Lemma first_file_decides files a b (index : Z) :
  level_user_sorted files -> 0 <= index <= len files ->
  (forall i f, files !z i = Some f -> (AfterFile ucmp a f = true <-> i < index)) ->
  (if len files <=? index then Some false
   else f ← files !z index; Some (negb (BeforeFile ucmp b f))) =
  Some (existsb (fun f => negb (AfterFile ucmp a f || BeforeFile ucmp b f)) files).
Proof.
  intros Hs Hi Ha. destruct (Z.leb_spec (len files) index) as [Hge|Hlt].
  - f_equal. symmetry. apply not_true_is_false. rewrite existsb_exists. intros (f & Hin & Hf).
    apply list_elem_of_In, list_elem_of_lookup in Hin as [j Hj]. rewrite <- zget_nat in Hj.
    pose proof (zget_range _ _ _ Hj). destruct (Ha _ f Hj) as [_ Ha2]. rewrite Ha2 in Hf by lia. done.
  - destruct (zget_is_Some files index ltac:(lia)) as [f Hf]. rewrite Hf. simpl. f_equal.
    assert (Hna : AfterFile ucmp a f = false) by (apply not_true_is_false; intros H%(Ha _ f Hf); lia).
    destruct (BeforeFile ucmp b f) eqn:Hb; simpl; symmetry.
    + apply not_true_is_false. rewrite existsb_exists. intros (g & Hin & Hg).
      apply list_elem_of_In, list_elem_of_lookup in Hin as [j Hj]. rewrite <- zget_nat in Hj.
      apply negb_true_iff, orb_false_iff in Hg as [Hg1 Hg2].
      assert (index <= Z.of_nat j).
      { destruct (Z.le_gt_cases index (Z.of_nat j)); [done|].
        destruct (Ha _ g Hj) as [_ Ha2]. rewrite Ha2 in Hg1 by lia. done. }
      by rewrite (not_before files index (Z.of_nat j) f g b) in Hb.
    + apply existsb_exists. exists f. split; [|by rewrite Hna, Hb].
      apply list_elem_of_In, list_elem_of_lookup. apply zget_Some in Hf as [_ Hf]. eauto.
Qed.

(** The overlap test of the sorted levels, which looks at one file found by binary
    search, gives the answer of the test that looks at every file. *)
Theorem overlap_test_binary_search files a b :
  level_user_sorted files ->
  SomeFileOverlapsRange ucmp true files a b = SomeFileOverlapsRange ucmp false files a b.
Proof.
  intros Hs. pose proof (zlen_nonneg files). unfold SomeFileOverlapsRange. simpl. destruct a as [u|].
  - unfold VS_FindFile, FindFileInRange. rewrite Z.sub_0_r.
    destruct (lower_bound_ok files (InternalKey_SetMinPossibleForUserKey [] u) (Z.to_nat (len files)) 0 (len files))
      as (r & -> & Hr & Hb & Ha); [|lia..|].
    + intros i j f g Hf Hg Hij Hlt. apply (min_key_order files j g u Hs Hg) in Hlt.
      apply (min_key_order files i f u Hs Hf). destruct (decide (i = j)) as [->|]; [congruence|].
      eapply (cmp_le_lt_trans ucmp); [|exact Hlt].
      eapply (cmp_trans (c := ucmp)); [eapply (lu_next _ Hs i j); [done|done|lia]|by eapply lu_file].
    + simpl. apply (first_file_decides files (Some u) b r Hs); [lia|].
      intros i f Hf. simpl. rewrite Z.ltb_lt, <- (cmp_lt_gt ucmp), <- (min_key_order files i f u Hs Hf).
      pose proof (zget_range _ _ _ Hf). split.
      * intros Hlt. destruct (Z.lt_ge_cases i r); [done|]. pose proof (Ha i f Hf ltac:(lia)). lia.
      * intros Hi. apply (Hb i f Hf). lia.
  - simpl. apply (first_file_decides files None b 0 Hs); [lia|].
    intros i f Hf. simpl. pose proof (zget_range _ _ _ Hf). split; [done|lia].
Qed.
End SomeFile.

(** ** Level 0: the least closed range *)

Section LevelZero.
Context (ucmp : Comparator) {Laws : ComparatorLaws ucmp}.
Implicit Types (f : FileMetaData) (index : list (Z * FileMetaData)) (st : l0_scan).

Abbreviation start_ f := (ExtractUserKey (f_smallest f)).
Abbreviation limit_ f := (ExtractUserKey (f_largest f)).

(** Order of lower and of upper ends; a null end is no bound. *)
Definition lo_le (x y : option bytes) : Prop :=
  match x, y with None, _ => True | Some x, Some y => Compare ucmp x y <= 0 | Some _, None => False end.
Definition hi_le (x y : option bytes) : Prop :=
  match x, y with _, None => True | Some x, Some y => Compare ucmp x y <= 0 | None, Some _ => False end.

Definition overlaps (b e : option bytes) f : bool :=
  negb (match b with None => false | Some b => Compare ucmp (limit_ f) b <? 0 end ||
        match e with None => false | Some e => 0 <? Compare ucmp (start_ f) e end).

Definition covers (b e : option bytes) f : Prop := lo_le b (Some (start_ f)) /\ hi_le (Some (limit_ f)) e.

Definition closed_range (b e : option bytes) (files : list FileMetaData) : Prop :=
  forall f, f ∈ files -> overlaps b e f = true -> covers b e f.

Lemma lo_le_trans x y z : lo_le x y -> lo_le y z -> lo_le x z.
Proof. destruct x, y, z; simpl; try done. apply (cmp_trans (c := ucmp)). Qed.

Lemma hi_le_trans x y z : hi_le x y -> hi_le y z -> hi_le x z.
Proof. destruct x, y, z; simpl; try done. apply (cmp_trans (c := ucmp)). Qed.

Lemma overlaps_iff b e f :
  overlaps b e f = true <->
  match b with None => True | Some b => Compare ucmp b (limit_ f) <= 0 end /\
  match e with None => True | Some e => Compare ucmp (start_ f) e <= 0 end.
Proof.
  unfold overlaps. rewrite negb_true_iff, orb_false_iff.
  destruct b, e; rewrite ?Z.ltb_ge, ?(cmp_le_ge ucmp _ (limit_ f)); tauto.
Qed.

Lemma overlaps_wider b e b2 e2 f :
  lo_le b2 b -> hi_le e e2 -> overlaps b e f = true -> overlaps b2 e2 f = true.
Proof.
  rewrite !overlaps_iff. intros Hb He [H1 H2]. split.
  - destruct b2, b; simpl in *; try done. by eapply (cmp_trans (c := ucmp)).
  - destruct e2, e; simpl in *; try done. by eapply (cmp_trans (c := ucmp)).
Qed.

(** The ends after a file is taken. *)
Definition grow_lo (b : option bytes) f : option bytes :=
  match b with Some b => Some (if Compare ucmp (start_ f) b <? 0 then start_ f else b) | None => None end.
Definition grow_hi (e : option bytes) f : option bytes :=
  match e with Some e => Some (if 0 <? Compare ucmp (limit_ f) e then limit_ f else e) | None => None end.

Lemma grow_lo_ok b f : lo_le (grow_lo b f) b /\ lo_le (grow_lo b f) (Some (start_ f)).
Proof.
  destruct b as [b|]; simpl; [|done].
  destruct (Z.ltb_spec (Compare ucmp (start_ f) b) 0); rewrite ?(cmp_refl ucmp); split; try lia.
  by apply (cmp_le_ge ucmp).
Qed.

Lemma grow_hi_ok e f : hi_le e (grow_hi e f) /\ hi_le (Some (limit_ f)) (grow_hi e f).
Proof.
  destruct e as [e|]; simpl; [|done].
  destruct (Z.ltb_spec 0 (Compare ucmp (limit_ f) e)); rewrite ?(cmp_refl ucmp); split; try lia.
  apply (cmp_le_ge ucmp). lia.
Qed.

Lemma grow_lo_least b f x : lo_le x b -> lo_le x (Some (start_ f)) -> lo_le x (grow_lo b f).
Proof. destruct b, x; simpl; try done. by destruct (_ <? 0). Qed.

Lemma grow_hi_least e f x : hi_le e x -> hi_le (Some (limit_ f)) x -> hi_le (grow_hi e f) x.
Proof. destruct e, x; simpl; try done. by destruct (0 <? _). Qed.

Section Closure.
Context (files : list FileMetaData) (b0 e0 : option bytes).

Record scan_ok index st : Prop := {
  so_files : sc_inputs st ++ index.*2 ≡ₚ files;
  so_lo : lo_le (sc_begin st) b0;
  so_hi : hi_le e0 (sc_end st);
  so_covers f : f ∈ sc_inputs st -> covers (sc_begin st) (sc_end st) f;
  so_least b2 e2 : lo_le b2 b0 -> hi_le e0 e2 -> closed_range b2 e2 files ->
    lo_le b2 (sc_begin st) /\ hi_le (sc_end st) e2;
}.

(** Taking the file at the head. *)
Definition take_file (i : Z) f st : l0_scan :=
  mkScan (sc_inputs st ++ [f]) (if sc_file_index st =? -1 then i else sc_file_index st)
    (grow_lo (sc_begin st) f) (grow_hi (sc_end st) f) true.

Lemma scan_take i f index st :
  overlaps (sc_begin st) (sc_end st) f = true -> scan_ok ((i, f) :: index) st -> scan_ok index (take_file i f st).
Proof.
  intros Hov []. destruct (grow_lo_ok (sc_begin st) f) as [Hl1 Hl2], (grow_hi_ok (sc_end st) f) as [Hh1 Hh2].
  constructor; simpl.
  - by rewrite <- app_assoc.
  - exact (lo_le_trans _ _ _ Hl1 so_lo0).
  - exact (hi_le_trans _ _ _ so_hi0 Hh1).
  - intros g [Hg|Hg%list_elem_of_singleton]%elem_of_app; [|by subst].
    destruct (so_covers0 g Hg) as [Hc1 Hc2].
    split; [exact (lo_le_trans _ _ _ Hl1 Hc1)|exact (hi_le_trans _ _ _ Hc2 Hh1)].
  - intros b2 e2 Hb He Hcl. destruct (so_least0 b2 e2 Hb He Hcl) as [Hb2 He2].
    destruct (Hcl f) as [Hc1 Hc2].
    + rewrite <- so_files0. apply elem_of_app. right. left.
    + by eapply overlaps_wider.
    + split; [by apply grow_lo_least|by apply grow_hi_least].
Qed.

(** A file skipped goes to the end of those left. *)
Lemma l0_pass_ok pre index st :
  scan_ok (pre ++ index) st ->
  let '(rest, st') := l0_pass ucmp true index st in
  scan_ok (pre ++ rest) st' /\ (length rest <= length index)%nat /\
  (if sc_found st' then sc_found st = true \/ (length rest < length index)%nat
   else sc_found st = false /\ rest = index /\ sc_begin st' = sc_begin st /\ sc_end st' = sc_end st /\
        forall f, f ∈ index.*2 -> overlaps (sc_begin st) (sc_end st) f = false).
Proof.
  revert pre st. induction index as [|[i f] index IH]; intros pre st Hok; simpl.
  - split_and!; [done|done|]. destruct (sc_found st); [by left|]. split_and!; try done. intros f Hf. inversion Hf.
  - destruct (overlaps (sc_begin st) (sc_end st) f) eqn:Hov.
    + pose proof Hov as Hov'. unfold overlaps in Hov'. apply negb_true_iff in Hov'. rewrite Hov'.
      fold (grow_lo (sc_begin st) f) (grow_hi (sc_end st) f) (take_file i f st).
      assert (Hok1 : scan_ok (pre ++ index) (take_file i f st)).
      { apply scan_take; [done|]. destruct Hok. constructor; try done.
        rewrite <- so_files0. apply Permutation_app_head, fmap_Permutation, Permutation_middle. }
      specialize (IH pre _ Hok1). destruct (l0_pass ucmp true index (take_file i f st)) as [rest st'].
      destruct IH as (Hok2 & Hlen & Hf). split_and!; [done|lia|].
      destruct (sc_found st'); [right; lia|]. by destruct Hf as [? _].
    + pose proof Hov as Hov'. unfold overlaps in Hov'. apply negb_false_iff in Hov'. rewrite Hov'.
      specialize (IH (pre ++ [(i, f)]) st). rewrite <- app_assoc in IH. specialize (IH Hok).
      destruct (l0_pass ucmp true index st) as [rest st']. rewrite <- app_assoc in IH.
      destruct IH as (Hok2 & Hlen & Hf). split_and!; [done|simpl; lia|].
      destruct (sc_found st'); [destruct Hf as [|]; [by left|right; simpl; lia]|].
      destruct Hf as (? & -> & ? & ? & Hf). split_and!; try done.
      intros g [->|Hg]%elem_of_cons; [done|by apply Hf].
Qed.

Lemma l0_passes_ok fuel index st :
  scan_ok index st -> (length index < fuel)%nat ->
  exists rest st', l0_passes ucmp fuel true index st = Some (rest, st') /\ scan_ok rest st' /\
    forall f, f ∈ rest.*2 -> overlaps (sc_begin st') (sc_end st') f = false.
Proof.
  revert index st. induction fuel as [|fuel IH]; intros index st Hok Hlen; [lia|].
  destruct index as [|x index]; cbn [l0_passes].
  - do 2 eexists. split_and!; [done|done|]. intros f Hf. inversion Hf.
  - set (st1 := mkScan (sc_inputs st) (sc_file_index st) (sc_begin st) (sc_end st) false).
    assert (Hok1 : scan_ok ([] ++ x :: index) st1) by (by destruct Hok).
    pose proof (l0_pass_ok [] (x :: index) st1 Hok1) as Hp.
    destruct (l0_pass ucmp true (x :: index) st1) as [rest st']. destruct Hp as (Hok2 & Hl & Hf).
    destruct (sc_found st') eqn:Hfd.
    + apply IH; [done|]. destruct Hf as [?|?]; [done|lia].
    + do 2 eexists. split_and!; [done|done|]. destruct Hf as (_ & -> & -> & -> & Hf). exact Hf.
Qed.
End Closure.

(** On level 0 an expanding overlap query returns the least closed set: the range
    grows to the smallest one that contains the given range and every file that
    overlaps it; the files returned are those inside it, and no other file of the level
    overlaps it. *)
Theorem level0_inputs_least_closed vs files begin_ end_ hint_index :
  0 < num_non_empty_levels_ vs -> LevelFiles vs 0 = Some files ->
  let b0 := ExtractUserKey <$> begin_ in let e0 := ExtractUserKey <$> end_ in
  exists inputs i rest b' e',
    GetOverlappingInputs ucmp vs 0 begin_ end_ hint_index true = Some (Some (inputs, i, Some None)) /\
    inputs ++ rest ≡ₚ files /\ lo_le b' b0 /\ hi_le e0 e' /\
    (forall f, f ∈ inputs -> covers b' e' f) /\ (forall f, f ∈ rest -> overlaps b' e' f = false) /\
    forall b2 e2, lo_le b2 b0 -> hi_le e0 e2 -> closed_range b2 e2 files -> lo_le b2 b' /\ hi_le e' e2.
Proof.
  intros Hn Hf b0 e0. unfold GetOverlappingInputs. destruct (Z.leb_spec (num_non_empty_levels_ vs) 0); [lia|].
  rewrite Hf. cbn [mbind option_bind]. change (0 <? 0) with false. cbv iota. fold b0 e0.
  assert (Hidx : (indexed files).*2 = files) by (apply snd_zip; rewrite length_seqZ; unfold zlen; lia).
  destruct (l0_passes_ok files b0 e0 (S (length files)) (indexed files) (mkScan [] (-1) b0 e0 false))
    as (rest & st & -> & [] & Hrest).
  - constructor; simpl; [by rewrite Hidx|by destruct b0; simpl; rewrite ?(cmp_refl ucmp)
      |by destruct e0; simpl; rewrite ?(cmp_refl ucmp)| |done]. intros f Hfi. inversion Hfi.
  - rewrite <- Hidx at 2. rewrite length_fmap. lia.
  - simpl. do 2 eexists. exists (rest.*2). do 2 eexists. split_and!; [done|done|done|done|done|done|done].
Qed.
End LevelZero.

(** ** Small instances *)

Definition sample_file (n : Z) (lo hi : byte) : FileMetaData :=
  let key u := AppendInternalKey [] (mkParsed [u] 5 kTypeValue) in
  new_file (FileDescriptor_make n 0 100 5 5) (key lo) (key hi) false false 0 (-1) 0 0 0 0.

Definition sample_level : list FileMetaData :=
  [sample_file 1 Byte.x61 Byte.x63; sample_file 2 Byte.x65 Byte.x67; sample_file 3 Byte.x69 Byte.x6b].

Definition sample_storage : VersionStorageInfo := mkVS [[]; sample_level] 2.

Definition boundary_key (u : byte) : bytes := AppendInternalKey [] (mkParsed [u] 5 kTypeValue).

Lemma sample_level_files i f :
  sample_level !z i = Some f ->
  i = 0 /\ f = sample_file 1 Byte.x61 Byte.x63 \/ i = 1 /\ f = sample_file 2 Byte.x65 Byte.x67 \/
  i = 2 /\ f = sample_file 3 Byte.x69 Byte.x6b.
Proof.
  intros [Hi Hf]%zget_Some.
  destruct (Z.to_nat i) as [|[|[|n]]] eqn:E; simpl in Hf; [..|done]; injection Hf as <-.
  - left. split; [lia|done].
  - right. left. split; [lia|done].
  - right. right. split; [lia|done].
Qed.

Lemma sample_level_sorted : level_sorted BytewiseComparator sample_level.
Proof.
  split.
  - intros i f Hf. apply sample_level_files in Hf as [[_ ->]|[[_ ->]|[_ ->]]]; vm_compute; done.
  - intros i j f g Hf%sample_level_files Hg%sample_level_files Hij.
    destruct Hf as [[-> ->]|[[-> ->]|[-> ->]]], Hg as [[-> ->]|[[-> ->]|[-> ->]]]; try lia; vm_compute; done.
Qed.

Lemma overlapping_inputs_exact_witness :
  exists mid ns, GetOverlappingInputs BytewiseComparator sample_storage 1
    (Some (boundary_key Byte.x66)) (Some (boundary_key Byte.x69)) (-1) false =
    Some (Some ([sample_file 2 Byte.x65 Byte.x67; sample_file 3 Byte.x69 Byte.x6b], mid, ns)).
Proof.
  destruct (overlapping_inputs_exact BytewiseComparator sample_storage 1 sample_level
    (Some (boundary_key Byte.x66)) (Some (boundary_key Byte.x69)) (-1) false) as (mid & ns & H & _).
  - simpl. lia.
  - done.
  - apply sample_level_sorted.
  - by left.
  - exists mid, ns. rewrite H. vm_compute. done.
Defined.

Lemma clean_inputs_maximal_witness :
  exists inputs i, GetCleanInputsWithinInterval BytewiseComparator sample_storage 1
    (Some (boundary_key Byte.x62)) (Some (boundary_key Byte.x68)) (-1) = Some (inputs, i).
Proof.
  destruct (clean_inputs_maximal BytewiseComparator sample_storage 1 sample_level
    (boundary_key Byte.x62) (boundary_key Byte.x68)) as (inputs & i & _ & _ & H & _).
  - simpl. lia.
  - done.
  - apply sample_level_sorted.
  - done.
  - exists inputs, i. exact H.
Defined.

Lemma overlap_test_binary_search_witness :
  SomeFileOverlapsRange BytewiseComparator true sample_level (Some [Byte.x68]) (Some [Byte.x69]) =
  SomeFileOverlapsRange BytewiseComparator false sample_level (Some [Byte.x68]) (Some [Byte.x69]).
Proof.
  apply (overlap_test_binary_search BytewiseComparator sample_level (Some [Byte.x68]) (Some [Byte.x69])).
  split.
  - intros i f Hf. apply sample_level_files in Hf as [[_ ->]|[[_ ->]|[_ ->]]]; vm_compute; done.
  - intros i j f g Hf%sample_level_files Hg%sample_level_files Hij.
    destruct Hf as [[-> ->]|[[-> ->]|[-> ->]]], Hg as [[-> ->]|[[-> ->]|[-> ->]]]; try lia; vm_compute; done.
  - intros i f Hf. apply sample_level_files in Hf as [[_ ->]|[[_ ->]|[_ ->]]]; vm_compute; done.
Defined.

Lemma level0_inputs_least_closed_witness :
  exists inputs i, GetOverlappingInputs BytewiseComparator (mkVS [sample_level] 1) 0
    (Some (boundary_key Byte.x66)) (Some (boundary_key Byte.x69)) (-1) true = Some (Some (inputs, i, Some None)).
Proof.
  destruct (level0_inputs_least_closed BytewiseComparator (mkVS [sample_level] 1) sample_level
    (Some (boundary_key Byte.x66)) (Some (boundary_key Byte.x69)) (-1)) as (inputs & i & _ & _ & _ & H & _).
  - simpl. lia.
  - done.
  - exists inputs, i. exact H.
Defined.
