(* ===== verification/FileIndexer.v ===== *)
(** * The file indexer (db/file_indexer.h, db/file_indexer.cc)

    For every file of a level the indexer keeps which files of the next level may hold a
    key, given how the key compares with the file's boundaries.  The four bounds of a
    level are filled by passes over both levels; a lookup turns the comparisons it has
    made into the range of files to search next. *)

From S2P Require Import Prelude Coding Comparator DbFormat VersionEdit VersionStorage.

Definition kLevelMaxIndex : Z := 2147483647.

Record IndexUnit := mkIU {
  smallest_lb : Z;
  largest_lb : Z;
  smallest_rb : Z;
  largest_rb : Z;
}.

Definition IndexUnit_make : IndexUnit := mkIU 0 0 (-1) (-1).

Definition set_smallest_lb (u : IndexUnit) (i : Z) : IndexUnit := mkIU i (largest_lb u) (smallest_rb u) (largest_rb u).
Definition set_largest_lb (u : IndexUnit) (i : Z) : IndexUnit := mkIU (smallest_lb u) i (smallest_rb u) (largest_rb u).
Definition set_smallest_rb (u : IndexUnit) (i : Z) : IndexUnit := mkIU (smallest_lb u) (largest_lb u) i (largest_rb u).
Definition set_largest_rb (u : IndexUnit) (i : Z) : IndexUnit := mkIU (smallest_lb u) (largest_lb u) (smallest_rb u) i.

(** The units of each level and the index of the last file of each level. *)
Record FileIndexer := mkFI {
  fi_num_levels_ : Z;
  next_level_index_ : list (list IndexUnit);
  level_rb_ : list Z;
}.

Definition FileIndexer_make : FileIndexer := mkFI 0 [] [].

Definition NumLevelIndex (x : FileIndexer) : Z := len (next_level_index_ x).

Definition LevelIndexSize (x : FileIndexer) (level : Z) : option Z :=
  if NumLevelIndex x <=? level then Some 0 else units ← next_level_index_ x !z level; Some (len units).

(** ** Filling the bounds *)

Section Calculate.
Context (cmp_op : FileMetaData -> FileMetaData -> Z) (set_index : IndexUnit -> Z -> IndexUnit).
Context (upper_files lower_files : list FileMetaData).

Definition set_unit (index : list IndexUnit) (i v : Z) : option (list IndexUnit) :=
  u ← index !z i; zset index i (set_index u v).

Definition upper_size : Z := i32 (len upper_files).
Definition lower_size : Z := i32 (len lower_files).

(** The first loop of [CalculateLB]: the index at its end and the units. *)
Fixpoint CalculateLB_loop (fuel : nat) (upper_idx lower_idx : Z) (index : list IndexUnit)
  : option (Z * list IndexUnit) :=
  if (upper_idx <? upper_size) && (lower_idx <? lower_size) then
    match fuel with
    | O => None
    | S fuel =>
        a ← upper_files !z upper_idx; b ← lower_files !z lower_idx;
        let cmp := cmp_op a b in
        if cmp =? 0 then
          index ← set_unit index upper_idx lower_idx;
          CalculateLB_loop fuel (upper_idx + 1) (lower_idx + 1) index
        else if 0 <? cmp then CalculateLB_loop fuel upper_idx (lower_idx + 1) index
        else
          index ← set_unit index upper_idx lower_idx;
          CalculateLB_loop fuel (upper_idx + 1) lower_idx index
    end
  else Some (upper_idx, index).

Fixpoint CalculateLB_rest (fuel : nat) (upper_idx : Z) (index : list IndexUnit) : option (list IndexUnit) :=
  if upper_idx <? upper_size then
    match fuel with
    | O => None
    | S fuel => index ← set_unit index upper_idx lower_size; CalculateLB_rest fuel (upper_idx + 1) index
    end
  else Some index.

Definition CalculateLB (index : list IndexUnit) : option (list IndexUnit) :=
  '(upper_idx, index) ← CalculateLB_loop (length upper_files + length lower_files) 0 0 index;
  CalculateLB_rest (length upper_files) upper_idx index.

Fixpoint CalculateRB_loop (fuel : nat) (upper_idx lower_idx : Z) (index : list IndexUnit)
  : option (Z * list IndexUnit) :=
  if (0 <=? upper_idx) && (0 <=? lower_idx) then
    match fuel with
    | O => None
    | S fuel =>
        a ← upper_files !z upper_idx; b ← lower_files !z lower_idx;
        let cmp := cmp_op a b in
        if cmp =? 0 then
          index ← set_unit index upper_idx lower_idx;
          CalculateRB_loop fuel (upper_idx - 1) (lower_idx - 1) index
        else if cmp <? 0 then CalculateRB_loop fuel upper_idx (lower_idx - 1) index
        else
          index ← set_unit index upper_idx lower_idx;
          CalculateRB_loop fuel (upper_idx - 1) lower_idx index
    end
  else Some (upper_idx, index).

Fixpoint CalculateRB_rest (fuel : nat) (upper_idx : Z) (index : list IndexUnit) : option (list IndexUnit) :=
  if 0 <=? upper_idx then
    match fuel with
    | O => None
    | S fuel => index ← set_unit index upper_idx (-1); CalculateRB_rest fuel (upper_idx - 1) index
    end
  else Some index.

Definition CalculateRB (index : list IndexUnit) : option (list IndexUnit) :=
  '(upper_idx, index) ← CalculateRB_loop (length upper_files + length lower_files) (upper_size - 1) (lower_size - 1) index;
  CalculateRB_rest (length upper_files) upper_idx index.
End Calculate.

(** ** Building and using the index *)

Section Indexer.
Context (ucmp : Comparator).

Definition user_smallest (f : FileMetaData) : bytes := ExtractUserKey (f_smallest f).
Definition user_largest (f : FileMetaData) : bytes := ExtractUserKey (f_largest f).

(** The units of one level. *)
Definition level_units (upper_files lower_files : list FileMetaData) : option (list IndexUnit) :=
  let index := replicate (Z.to_nat (i32 (len upper_files))) IndexUnit_make in
  index ← CalculateLB (fun a b => Compare ucmp (user_smallest a) (user_largest b)) set_smallest_lb upper_files lower_files index;
  index ← CalculateLB (fun a b => Compare ucmp (user_largest a) (user_largest b)) set_largest_lb upper_files lower_files index;
  index ← CalculateRB (fun a b => Compare ucmp (user_smallest a) (user_smallest b)) set_smallest_rb upper_files lower_files index;
  CalculateRB (fun a b => Compare ucmp (user_largest a) (user_smallest b)) set_largest_rb upper_files lower_files index.

(** One round of the loop of [UpdateIndex], for [level]. *)
Definition update_level (files : list (list FileMetaData)) (x : FileIndexer) (level : Z) : option FileIndexer :=
  upper_files ← files !z level;
  lower_files ← files !z (level + 1);
  rb ← zset (level_rb_ x) level (i32 (len upper_files) - 1);
  if i32 (len upper_files) =? 0 then Some (mkFI (fi_num_levels_ x) (next_level_index_ x) rb)
  else
    units ← level_units upper_files lower_files;
    index ← zset (next_level_index_ x) level units;
    Some (mkFI (fi_num_levels_ x) index rb).

(** [UpdateIndex] of a fresh indexer. *)
Definition UpdateIndex (num_levels : Z) (files : list (list FileMetaData)) : option FileIndexer :=
  if num_levels =? 0 then Some FileIndexer_make
  else
    let x := mkFI num_levels (replicate (Z.to_nat num_levels) []) (replicate (Z.to_nat num_levels) (-1)) in
    x ← fold_opt (update_level files) x (Z.add 1 <$> upto (num_levels - 2));
    last ← files !z (num_levels - 1);
    rb ← zset (level_rb_ x) (num_levels - 1) (i32 (len last) - 1);
    Some (mkFI (fi_num_levels_ x) (next_level_index_ x) rb).

(** The bounds for the next level; [None] for a failed assertion. *)
Definition GetNextLevelIndex (x : FileIndexer) (level file_index cmp_smallest cmp_largest : Z) : option (Z * Z) :=
  if negb (0 <? level) then None
  else if level =? fi_num_levels_ x - 1 then Some (0, -1)
  else
    rb ← level_rb_ x !z level;
    if negb ((level <? fi_num_levels_ x - 1) && (file_index <=? rb)) then None
    else
      index_units ← next_level_index_ x !z level;
      index ← index_units !z file_index;
      next_rb ← level_rb_ x !z (level + 1);
      '(left_bound, right_bound) ←
        (if cmp_smallest <? 0 then
           l ← (if (0 <? level) && (0 <? file_index)
                then u ← index_units !z (file_index - 1); Some (largest_lb u) else Some 0);
           Some (l, smallest_rb index)
         else if cmp_smallest =? 0 then Some (smallest_lb index, smallest_rb index)
         else if (0 <? cmp_smallest) && (cmp_largest <? 0) then Some (smallest_lb index, largest_rb index)
         else if cmp_largest =? 0 then Some (largest_lb index, largest_rb index)
         else if 0 <? cmp_largest then Some (largest_lb index, next_rb)
         else None);
      if (0 <=? left_bound) && (left_bound <=? right_bound + 1) && (right_bound <=? next_rb)
      then Some (left_bound, right_bound) else None.
End Indexer.

(** ** What the bounds are *)

Section Bounds.
Context (ucmp : Comparator) {Laws : ComparatorLaws ucmp}.
Implicit Types (files : list FileMetaData) (key : FileMetaData -> bytes) (k : bytes).

(** [r] is the first file whose [key] is not below [k]; the last one whose [key] is not
    above it. *)
Definition is_lb files key k (r : Z) : Prop :=
  0 <= r <= len files /\
  (forall j f, files !z j = Some f -> j < r -> Compare ucmp (key f) k < 0) /\
  (forall j f, files !z j = Some f -> r <= j -> Compare ucmp k (key f) <= 0).

Definition is_rb files key k (r : Z) : Prop :=
  -1 <= r < len files /\
  (forall j f, files !z j = Some f -> r < j -> Compare ucmp k (key f) < 0) /\
  (forall j f, files !z j = Some f -> j <= r -> Compare ucmp (key f) k <= 0).

(** The keys of a level in strictly increasing order. *)
Definition increasing files key : Prop :=
  forall i j f g, files !z i = Some f -> files !z j = Some g -> i < j -> Compare ucmp (key f) (key g) < 0.

Lemma lb_all files key k :
  (forall j f, files !z j = Some f -> Compare ucmp (key f) k < 0) -> is_lb files key k (len files).
Proof.
  intros H. pose proof (zlen_nonneg files). split; [lia|]. split; intros j f Hf Hj; [by apply (H j)|].
  apply zget_range in Hf. lia.
Qed.

Lemma rb_none files key k :
  (forall j f, files !z j = Some f -> Compare ucmp k (key f) < 0) -> is_rb files key k (-1).
Proof.
  intros H. pose proof (zlen_nonneg files). split; [lia|]. split; intros j f Hf Hj; [by apply (H j)|].
  apply zget_range in Hf. lia.
Qed.

Lemma increasing_le files key i j f g :
  increasing files key -> files !z i = Some f -> files !z j = Some g -> i <= j -> Compare ucmp (key f) (key g) <= 0.
Proof.
  intros Hi Hf Hg Hij. destruct (Z.eq_dec i j) as [->|]; [|apply Z.lt_le_incl, (Hi i j); (done || lia)].
  assert (f = g) as -> by congruence. by rewrite (cmp_refl ucmp).
Qed.

(** ** One pass *)

Section Pass.
Context (set_index : IndexUnit -> Z -> IndexUnit) (upper lower : list FileMetaData) (ku kl : FileMetaData -> bytes).
Context (orig : list IndexUnit).
Hypothesis (Hu : increasing upper ku) (Hl : increasing lower kl).
Hypothesis (Hus : len upper < 2 ^ 31) (Hls : len lower < 2 ^ 31) (Horig : len orig = len upper).

Abbreviation op := (fun a b => Compare ucmp (ku a) (kl b)).

Lemma upper_size_eq : upper_size upper = len upper.
Proof using Hus. unfold upper_size. pose proof (zlen_nonneg upper). apply i32_id. lia. Qed.

Lemma lower_size_eq : lower_size lower = len lower.
Proof using Hls. unfold lower_size. pose proof (zlen_nonneg lower). apply i32_id. lia. Qed.

(** The units the pass has set, on the indices in [done_], and those it has not. *)
Definition set_on (R : bytes -> Z -> Prop) (done_ : Z -> Prop) (index : list IndexUnit) : Prop :=
  len index = len upper /\
  forall i u f, orig !z i = Some u -> upper !z i = Some f ->
    (done_ i -> exists r, R (ku f) r /\ index !z i = Some (set_index u r)) /\
    (~ done_ i -> index !z i = Some u).

Lemma set_on_step (R : bytes -> Z -> Prop) (done_ done' : Z -> Prop) index i f r :
  set_on R done_ index -> upper !z i = Some f -> ~ done_ i -> R (ku f) r ->
  (forall j, done' j <-> done_ j \/ j = i) ->
  exists index', set_unit set_index index i r = Some index' /\ set_on R done' index'.
Proof using Horig.
  intros [Hlen Hset] Hf Hnot Hr Hd. pose proof (zget_range _ _ _ Hf) as Hi.
  destruct (zget_is_Some orig i ltac:(lia)) as [u Hou]. destruct (Hset i u f Hou Hf) as [_ Hun].
  unfold set_unit. rewrite (Hun Hnot). simpl. rewrite zset_in_range by lia. eexists. split; [done|]. split; [by rewrite zlen_insert|].
  intros j v g Hj Hg. pose proof (zget_range _ _ _ Hg). rewrite zget_insert by lia.
  destruct (Hset j v g Hj Hg) as [H1 H2]. destruct (Z.eqb_spec i j) as [<-|Hij].
  - assert (g = f) as -> by congruence. assert (v = u) as -> by congruence. split; [by eexists|]. intros Hn. destruct Hn. apply Hd. by right.
  - split; intros H'; [apply H1|apply H2].
    + apply Hd in H' as [|]; [done|congruence].
    + intros Hn. apply H', Hd. by left.
Qed.

Lemma CalculateLB_loop_ok fuel ui li index :
  set_on (is_lb lower kl) (fun i => i < ui) index -> 0 <= ui <= len upper -> 0 <= li <= len lower ->
  (forall j b f i, lower !z j = Some b -> upper !z i = Some f -> j < li -> ui <= i -> Compare ucmp (kl b) (ku f) < 0) ->
  len upper - ui + (len lower - li) <= Z.of_nat fuel ->
  exists ui' index', CalculateLB_loop op set_index upper lower fuel ui li index = Some (ui', index') /\
    set_on (is_lb lower kl) (fun i => i < ui') index' /\ 0 <= ui' <= len upper /\
    forall i f, upper !z i = Some f -> ui' <= i -> is_lb lower kl (ku f) (len lower).
Proof using Hu Hl Hus Hls Horig Laws.
  revert ui li index. induction fuel as [|fuel IH]; intros ui li index Hset Hui Hli Hbelow Hfuel; simpl.
  all: rewrite upper_size_eq, lower_size_eq.
  all: assert (Hend : len upper <= ui \/ len lower <= li ->
         forall i f, upper !z i = Some f -> ui <= i -> is_lb lower kl (ku f) (len lower)) by
    (intros [?|?] i f Hf Hi; [apply zget_range in Hf; lia|]; apply lb_all; intros j b Hb;
     apply (Hbelow j b f i); try done; apply zget_range in Hb; lia).
  all: destruct (Z.ltb_spec ui (len upper)) as [Hu1|Hu1]; [destruct (Z.ltb_spec li (len lower)) as [Hl1|Hl1]|]; cbn [andb].
  1: lia.
  1, 4: exists ui, index; split_and!; [done|done|lia|lia|apply Hend; by right].
  1, 3: exists ui, index; split_and!; [done|done|lia|lia|apply Hend; by left].
  destruct (zget_is_Some upper ui ltac:(lia)) as [a Ha]. destruct (zget_is_Some lower li ltac:(lia)) as [b Hb].
  rewrite Ha, Hb. cbn [mbind option_bind].
  assert (Hlb : Compare ucmp (ku a) (kl b) <= 0 -> is_lb lower kl (ku a) li).
  { intros Hc. split; [lia|split].
    - intros j g Hg Hj. by apply (Hbelow j g a ui).
    - intros j g Hg Hj. apply (cmp_trans (c := ucmp) _ (kl b)); [done|]. by apply (increasing_le lower kl li j). }
  destruct (Z.eqb_spec (Compare ucmp (ku a) (kl b)) 0) as [He|Hne]; [|destruct (Z.ltb_spec 0 (Compare ucmp (ku a) (kl b))) as [Hgt|Hle]].
  - destruct (set_on_step (is_lb lower kl) _ (fun i => i < ui + 1) index ui a li Hset Ha) as (index' & -> & Hset');
      [lia|by apply Hlb; lia|intros; lia|]. cbn [mbind option_bind]. apply IH; [done|lia|lia| |lia].
    intros j g f i Hg Hf Hj Hi. destruct (Z.eq_dec j li) as [->|].
    + assert (g = b) as -> by congruence. apply (cmp_le_lt_trans ucmp _ (ku a)); [apply (cmp_eq_sym ucmp) in He; lia|].
      apply (Hu ui i); (done || lia).
    + apply (Hbelow j g f i); (done || lia).
  - apply IH; [done|lia|lia| |lia]. intros j g f i Hg Hf Hj Hi. destruct (Z.eq_dec j li) as [->|].
    + assert (g = b) as -> by congruence. apply (cmp_lt_gt ucmp) in Hgt.
      apply (cmp_lt_le_trans ucmp _ (ku a)); [done|]. by apply (increasing_le upper ku ui i).
    + apply (Hbelow j g f i); (done || lia).
  - destruct (set_on_step (is_lb lower kl) _ (fun i => i < ui + 1) index ui a li Hset Ha) as (index' & -> & Hset');
      [lia|by apply Hlb; lia|intros; lia|]. cbn [mbind option_bind]. apply IH; [done|lia|lia| |lia].
    intros j g f i Hg Hf Hj Hi. apply (Hbelow j g f i); (done || lia).
Qed.

Lemma CalculateLB_rest_ok fuel ui index :
  set_on (is_lb lower kl) (fun i => i < ui) index -> 0 <= ui <= len upper ->
  (forall i f, upper !z i = Some f -> ui <= i -> is_lb lower kl (ku f) (len lower)) -> len upper - ui <= Z.of_nat fuel ->
  exists index', CalculateLB_rest set_index upper lower fuel ui index = Some index' /\ set_on (is_lb lower kl) (fun i => i < len upper) index'.
Proof using Hus Hls Horig.
  revert ui index. induction fuel as [|fuel IH]; intros ui index Hset Hui Hrest Hfuel; simpl; rewrite upper_size_eq, ?lower_size_eq.
  all: destruct (Z.ltb_spec ui (len upper)) as [Hlt|Hge]; [|assert (ui = len upper) as -> by lia; by eexists].
  { lia. }
  destruct (zget_is_Some upper ui ltac:(lia)) as [a Ha].
  destruct (set_on_step (is_lb lower kl) _ (fun i => i < ui + 1) index ui a (len lower) Hset Ha) as (index' & -> & Hset');
    [lia|by apply (Hrest ui)|intros; lia|]. cbn [mbind option_bind].
  apply IH; [done|lia| |lia]. intros i f Hf Hi. apply (Hrest i); (done || lia).
Qed.

Lemma set_on_start (R : bytes -> Z -> Prop) (done_ : Z -> Prop) :
  (forall i, 0 <= i < len upper -> ~ done_ i) -> set_on R done_ orig.
Proof using Horig.
  intros Hn. split; [done|]. intros i u f Hou Hf. apply zget_range in Hf. split; [|done]. intros Hd. by destruct (Hn i Hf).
Qed.

Lemma set_on_all (R : bytes -> Z -> Prop) (done_ : Z -> Prop) index i u f :
  set_on R done_ index -> (forall i, 0 <= i < len upper -> done_ i) -> orig !z i = Some u -> upper !z i = Some f ->
  exists r, R (ku f) r /\ index !z i = Some (set_index u r).
Proof using Type. intros [_ H] Hd Hou Hf. destruct (H i u f Hou Hf) as [H1 _]. by apply H1, Hd, (zget_range _ _ f). Qed.

(** A pass sets the field of every unit to its left bound. *)
Lemma CalculateLB_ok :
  exists index, CalculateLB op set_index upper lower orig = Some index /\ len index = len upper /\
    forall i u f, orig !z i = Some u -> upper !z i = Some f ->
      exists r, is_lb lower kl (ku f) r /\ index !z i = Some (set_index u r).
Proof using Hu Hl Hus Hls Horig Laws.
  pose proof (zlen_nonneg upper). pose proof (zlen_nonneg lower).
  destruct (CalculateLB_loop_ok (length upper + length lower) 0 0 orig) as (ui & index & Hloop & Hset & Hui & Hrest);
    [apply set_on_start; intros; lia|lia|lia|intros j b f i Hb%zget_range Hf Hj Hi; lia|unfold zlen; lia|].
  destruct (CalculateLB_rest_ok (length upper) ui index Hset Hui Hrest) as (index' & Hr & Hset'); [unfold zlen; lia|].
  exists index'. unfold CalculateLB. rewrite Hloop. cbn [mbind option_bind]. split_and!; [done|by destruct Hset'|].
  intros i u f Hou Hf. eapply set_on_all; [exact Hset'|intros j Hj; simpl; lia|done|done].
Qed.

(** The same from the right. *)
Lemma CalculateRB_loop_ok fuel ui li index :
  set_on (is_rb lower kl) (fun i => ui < i) index -> -1 <= ui < len upper -> -1 <= li < len lower ->
  (forall j b f i, lower !z j = Some b -> upper !z i = Some f -> li < j -> i <= ui -> Compare ucmp (ku f) (kl b) < 0) ->
  ui + li + 2 <= Z.of_nat fuel ->
  exists ui' index', CalculateRB_loop op set_index upper lower fuel ui li index = Some (ui', index') /\
    set_on (is_rb lower kl) (fun i => ui' < i) index' /\ -1 <= ui' < len upper /\
    forall i f, upper !z i = Some f -> i <= ui' -> is_rb lower kl (ku f) (-1).
Proof using Hu Hl Hus Hls Horig Laws.
  revert ui li index. induction fuel as [|fuel IH]; intros ui li index Hset Hui Hli Habove Hfuel; simpl.
  all: assert (Hend : ui < 0 \/ li < 0 -> forall i f, upper !z i = Some f -> i <= ui -> is_rb lower kl (ku f) (-1)) by
    (intros [?|?] i f Hf Hi; [apply zget_range in Hf; lia|]; apply rb_none; intros j b Hb;
     apply (Habove j b f i); try done; apply zget_range in Hb; lia).
  all: destruct (Z.leb_spec 0 ui) as [Hu1|Hu1]; [destruct (Z.leb_spec 0 li) as [Hl1|Hl1]|]; cbn [andb].
  1: lia.
  1, 4: exists ui, index; split_and!; [done|done|lia|lia|apply Hend; by right].
  1, 3: exists ui, index; split_and!; [done|done|lia|lia|apply Hend; by left].
  destruct (zget_is_Some upper ui ltac:(lia)) as [a Ha]. destruct (zget_is_Some lower li ltac:(lia)) as [b Hb].
  rewrite Ha, Hb. cbn [mbind option_bind].
  assert (Hrb : 0 <= Compare ucmp (ku a) (kl b) -> is_rb lower kl (ku a) li).
  { intros Hc. split; [lia|split].
    - intros j g Hg Hj. by apply (Habove j g a ui).
    - intros j g Hg Hj. apply (cmp_trans (c := ucmp) _ (kl b)); [by apply (increasing_le lower kl j li)|].
      by apply (cmp_le_ge ucmp). }
  destruct (Z.eqb_spec (Compare ucmp (ku a) (kl b)) 0) as [He|Hne]; [|destruct (Z.ltb_spec (Compare ucmp (ku a) (kl b)) 0) as [Hlt|Hge]].
  - destruct (set_on_step (is_rb lower kl) _ (fun i => ui - 1 < i) index ui a li Hset Ha) as (index' & -> & Hset');
      [lia|by apply Hrb; lia|intros; lia|]. cbn [mbind option_bind]. apply IH; [done|lia|lia| |lia].
    intros j g f i Hg Hf Hj Hi. destruct (Z.eq_dec j li) as [->|].
    + assert (g = b) as -> by congruence. apply (cmp_lt_le_trans ucmp _ (ku a)); [apply (Hu i ui); (done || lia)|lia].
    + apply (Habove j g f i); (done || lia).
  - apply IH; [done|lia|lia| |lia]. intros j g f i Hg Hf Hj Hi. destruct (Z.eq_dec j li) as [->|].
    + assert (g = b) as -> by congruence. apply (cmp_le_lt_trans ucmp _ (ku a)); [|done]. by apply (increasing_le upper ku i ui).
    + apply (Habove j g f i); (done || lia).
  - destruct (set_on_step (is_rb lower kl) _ (fun i => ui - 1 < i) index ui a li Hset Ha) as (index' & -> & Hset');
      [lia|by apply Hrb; lia|intros; lia|]. cbn [mbind option_bind]. apply IH; [done|lia|lia| |lia].
    intros j g f i Hg Hf Hj Hi. apply (Habove j g f i); (done || lia).
Qed.

Lemma CalculateRB_rest_ok fuel ui index :
  set_on (is_rb lower kl) (fun i => ui < i) index -> -1 <= ui < len upper ->
  (forall i f, upper !z i = Some f -> i <= ui -> is_rb lower kl (ku f) (-1)) -> ui + 1 <= Z.of_nat fuel ->
  exists index', CalculateRB_rest set_index fuel ui index = Some index' /\ set_on (is_rb lower kl) (fun i => -1 < i) index'.
Proof using Horig.
  revert ui index. induction fuel as [|fuel IH]; intros ui index Hset Hui Hrest Hfuel; simpl.
  all: destruct (Z.leb_spec 0 ui) as [Hlt|Hge]; [|assert (ui = -1) as -> by lia; by eexists].
  { lia. }
  destruct (zget_is_Some upper ui ltac:(lia)) as [a Ha].
  destruct (set_on_step (is_rb lower kl) _ (fun i => ui - 1 < i) index ui a (-1) Hset Ha) as (index' & -> & Hset');
    [lia|by apply (Hrest ui)|intros; lia|]. cbn [mbind option_bind].
  apply IH; [done|lia| |lia]. intros i f Hf Hi. apply (Hrest i); (done || lia).
Qed.

Lemma CalculateRB_ok :
  exists index, CalculateRB op set_index upper lower orig = Some index /\ len index = len upper /\
    forall i u f, orig !z i = Some u -> upper !z i = Some f ->
      exists r, is_rb lower kl (ku f) r /\ index !z i = Some (set_index u r).
Proof using Hu Hl Hus Hls Horig Laws.
  pose proof (zlen_nonneg upper). pose proof (zlen_nonneg lower). unfold CalculateRB. rewrite upper_size_eq, lower_size_eq.
  destruct (CalculateRB_loop_ok (length upper + length lower) (len upper - 1) (len lower - 1) orig) as (ui & index & Hloop & Hset & Hui & Hrest);
    [apply set_on_start; intros; lia|lia|lia|intros j b f i Hb%zget_range Hf Hj Hi; lia|unfold zlen; lia|].
  destruct (CalculateRB_rest_ok (length upper) ui index Hset Hui Hrest) as (index' & Hr & Hset'); [unfold zlen in *; lia|].
  exists index'. rewrite Hloop. cbn [mbind option_bind]. split_and!; [done|by destruct Hset'|].
  intros i u f Hou Hf. eapply set_on_all; [exact Hset'|intros j Hj; simpl; lia|done|done].
Qed.
End Pass.
End Bounds.

(** ** The units of a level *)

Section Units.
Context (ucmp : Comparator) {Laws : ComparatorLaws ucmp}.
Implicit Types (upper lower : list FileMetaData) (k : bytes).

Lemma user_disjoint_file files i f :
  user_disjoint ucmp files -> files !z i = Some f -> Compare ucmp (user_smallest f) (user_largest f) <= 0.
Proof using Type.
  intros [_ Hf] [_ Hi]%zget_Some. rewrite Forall_lookup in Hf. by eapply Hf.
Qed.

Lemma user_disjoint_next files i j f g :
  user_disjoint ucmp files -> files !z i = Some f -> files !z j = Some g -> i < j ->
  Compare ucmp (user_largest f) (user_smallest g) < 0.
Proof using Type.
  intros [Hs _] [Hi0 Hi]%zget_Some [Hj0 Hj]%zget_Some Hij. exact (StronglySorted_lookup_lt _ _ (Z.to_nat i) (Z.to_nat j) _ _ Hs ltac:(lia) Hi Hj).
Qed.

Lemma disjoint_smallest files : user_disjoint ucmp files -> increasing ucmp files user_smallest.
Proof using Laws.
  intros Hd i j f g Hf Hg Hij. apply (cmp_le_lt_trans ucmp _ (user_largest f)); [by eapply user_disjoint_file|by eapply user_disjoint_next].
Qed.

Lemma disjoint_largest files : user_disjoint ucmp files -> increasing ucmp files user_largest.
Proof using Laws.
  intros Hd i j f g Hf Hg Hij. apply (cmp_lt_le_trans ucmp _ (user_smallest g)); [by eapply user_disjoint_next|by eapply user_disjoint_file].
Qed.

Record unit_ok lower (f : FileMetaData) (u : IndexUnit) : Prop := {
  uo_smallest_lb : is_lb ucmp lower user_largest (user_smallest f) (smallest_lb u);
  uo_largest_lb : is_lb ucmp lower user_largest (user_largest f) (largest_lb u);
  uo_smallest_rb : is_rb ucmp lower user_smallest (user_smallest f) (smallest_rb u);
  uo_largest_rb : is_rb ucmp lower user_smallest (user_largest f) (largest_rb u);
}.

Lemma level_units_ok upper lower :
  user_disjoint ucmp upper -> user_disjoint ucmp lower -> len upper < 2 ^ 31 -> len lower < 2 ^ 31 ->
  exists units, level_units ucmp upper lower = Some units /\ len units = len upper /\
    forall i f, upper !z i = Some f -> exists u, units !z i = Some u /\ unit_ok lower f u.
Proof using Laws.
  intros Hu Hl Hus Hls. unfold level_units. pose proof (zlen_nonneg upper). rewrite i32_id by lia.
  pose proof (disjoint_smallest upper Hu) as Hus1. pose proof (disjoint_largest upper Hu) as Hul1.
  pose proof (disjoint_smallest lower Hl) as Hls1. pose proof (disjoint_largest lower Hl) as Hll1.
  set (x0 := replicate _ _). assert (H0 : len x0 = len upper) by (unfold x0, zlen; rewrite length_replicate; lia).
  destruct (CalculateLB_ok ucmp set_smallest_lb upper lower user_smallest user_largest x0 Hus1 Hll1 Hus Hls H0) as (x1 & -> & H1 & P1).
  cbn [mbind option_bind].
  destruct (CalculateLB_ok ucmp set_largest_lb upper lower user_largest user_largest x1 Hul1 Hll1 Hus Hls H1) as (x2 & -> & H2 & P2).
  cbn [mbind option_bind].
  destruct (CalculateRB_ok ucmp set_smallest_rb upper lower user_smallest user_smallest x2 Hus1 Hls1 Hus Hls H2) as (x3 & -> & H3 & P3).
  cbn [mbind option_bind].
  destruct (CalculateRB_ok ucmp set_largest_rb upper lower user_largest user_smallest x3 Hul1 Hls1 Hus Hls H3) as (x4 & -> & H4 & P4).
  exists x4. split_and!; [done|done|]. intros i f Hf. pose proof (zget_range _ _ _ Hf).
  destruct (zget_is_Some x0 i ltac:(lia)) as [u0 Hu0]. destruct (P1 i u0 f Hu0 Hf) as (r1 & R1 & Hu1).
  destruct (P2 i _ f Hu1 Hf) as (r2 & R2 & Hu2). destruct (P3 i _ f Hu2 Hf) as (r3 & R3 & Hu3).
  destruct (P4 i _ f Hu3 Hf) as (r4 & R4 & Hu4). eexists. split; [exact Hu4|]. by constructor.
Qed.

(** ** The index of a version *)

(** What the index says of one level. *)
Definition level_indexed (x : FileIndexer) (files : list (list FileMetaData)) (level : Z) : Prop :=
  forall upper lower, files !z level = Some upper -> files !z (level + 1) = Some lower ->
    level_rb_ x !z level = Some (len upper - 1) /\
    (upper <> [] -> exists units, next_level_index_ x !z level = Some units /\
      forall i f, upper !z i = Some f -> exists u, units !z i = Some u /\ unit_ok lower f u).

Record index_ok (x : FileIndexer) (n : Z) (files : list (list FileMetaData)) : Prop := {
  io_num : fi_num_levels_ x = n;
  io_levels level : 1 <= level < n - 1 -> level_indexed x files level;
  io_last fs : 1 < n -> files !z (n - 1) = Some fs -> level_rb_ x !z (n - 1) = Some (len fs - 1);
}.

(** The levels below level 0. *)
Definition levels_ok (n : Z) (files : list (list FileMetaData)) : Prop :=
  0 < n <= len files /\
  forall level fs, 1 <= level -> files !z level = Some fs -> user_disjoint ucmp fs /\ len fs < 2 ^ 31.

(** One round leaves the other levels as they are. *)
Lemma update_level_ok n files x level :
  levels_ok n files -> 1 <= level < n - 1 -> len (next_level_index_ x) = n -> len (level_rb_ x) = n ->
  exists x', update_level ucmp files x level = Some x' /\ fi_num_levels_ x' = fi_num_levels_ x /\
    len (next_level_index_ x') = n /\ len (level_rb_ x') = n /\ level_indexed x' files level /\
    forall l, l <> level -> level_indexed x files l -> level_indexed x' files l.
Proof using Laws.
  intros [Hn Hok] Hl Hnx Hrb. destruct (zget_is_Some files level ltac:(lia)) as [upper Hu].
  destruct (zget_is_Some files (level + 1) ltac:(lia)) as [lower Hlo].
  destruct (Hok level upper ltac:(lia) Hu) as [Hud Hus]. destruct (Hok (level + 1) lower ltac:(lia) Hlo) as [Hld Hls].
  pose proof (zlen_nonneg upper). unfold update_level. rewrite Hu, Hlo. cbn [mbind option_bind].
  rewrite i32_id by lia. rewrite zset_in_range by lia. cbn [mbind option_bind].
  destruct (Z.eqb_spec (len upper) 0) as [Hz%zlen_zero|Hz].
  - eexists. split; [done|]. simpl. split_and!; [done|done|by rewrite zlen_insert| |].
    + intros u lo Hu' _. rewrite Hu in Hu'. injection Hu' as <-. simpl. split; [|by intros].
      rewrite zget_insert by lia. by rewrite Z.eqb_refl.
    + intros l Hne Hx u lo Hu' Hlo'. pose proof (zget_range _ _ _ Hu'). destruct (Hx u lo Hu' Hlo') as [H1 H2]. simpl.
      split; [|done]. rewrite zget_insert by lia. by destruct (Z.eqb_spec level l); [congruence|].
  - destruct (level_units_ok upper lower Hud Hld Hus Hls) as (units & -> & Hlen & Hun). cbn [mbind option_bind].
    rewrite zset_in_range by lia. cbn [mbind option_bind].
    eexists. split; [done|]. simpl. split_and!; [done|by rewrite zlen_insert|by rewrite zlen_insert| |].
    + intros u lo Hu' Hlo'. rewrite Hu in Hu'. injection Hu' as <-. rewrite Hlo in Hlo'. injection Hlo' as <-. simpl.
      rewrite !zget_insert, Z.eqb_refl by lia. split; [done|]. intros _. by exists units.
    + intros l Hne Hx u lo Hu' Hlo'. pose proof (zget_range _ _ _ Hu'). destruct (Hx u lo Hu' Hlo') as [H1 H2]. simpl.
      rewrite !zget_insert by lia. by destruct (Z.eqb_spec level l); [congruence|].
Qed.

Lemma UpdateIndex_ok n files :
  levels_ok n files -> exists x, UpdateIndex ucmp n files = Some x /\ index_ok x n files.
Proof using Laws.
  intros Hok. pose proof Hok as [Hn Hlv]. unfold UpdateIndex. destruct (Z.eqb_spec n 0); [lia|].
  set (x0 := mkFI _ _ _). set (ls := Z.add 1 <$> upto (n - 2)).
  assert (Hin : forall l, l ∈ ls <-> 1 <= l < n - 1).
  { intros l. unfold ls. rewrite list_elem_of_fmap. split.
    - intros (y & -> & Hy). apply elem_of_upto in Hy. lia.
    - intros Hl. exists (l - 1). split; [lia|]. apply elem_of_upto. lia. }
  assert (Hnd : NoDup ls) by (unfold ls; apply NoDup_fmap_2; [intros ? ?; lia|apply NoDup_upto]).
  destruct (fold_opt_ok (update_level ucmp files) (fun pre x => fi_num_levels_ x = n /\ len (next_level_index_ x) = n /\
    len (level_rb_ x) = n /\ forall l, l ∈ pre -> level_indexed x files l) x0 ls) as (x & -> & Hnum & Hnx & Hrb & Hall).
  { unfold x0, zlen. simpl. rewrite !length_replicate. split_and!; [done|lia|lia|]. by intros l ?%not_elem_of_nil. }
  { intros pre l x [post Hls] (H1 & H2 & H3 & H4).
    assert (Hl : l ∈ ls) by (rewrite Hls; apply elem_of_app; left; apply elem_of_app; right; by apply list_elem_of_singleton).
    assert (Hfresh : l ∉ pre).
    { rewrite Hls in Hnd. apply NoDup_app in Hnd as [Hnd _]. apply NoDup_app in Hnd as (_ & Hd & _). intros Hp.
      apply (Hd l Hp). by apply list_elem_of_singleton. }
    destruct (update_level_ok n files x l Hok (proj1 (Hin l) Hl) H2 H3) as (x' & Hx & K1 & K2 & K3 & K4 & K5).
    exists x'. split; [done|]. split_and!; [congruence|done|done|]. intros m [Hm|Hm%list_elem_of_singleton]%elem_of_app; [|by subst].
    apply K5; [by intros ->|by apply H4]. }
  cbn [mbind option_bind]. destruct (zget_is_Some files (n - 1) ltac:(lia)) as [last Hlast]. rewrite Hlast. cbn [mbind option_bind].
  rewrite zset_in_range by lia. cbn [mbind option_bind]. eexists. split; [done|]. constructor; simpl; [done| |].
  - intros l Hl upper lower Hu Hlo. destruct (Hall l (proj2 (Hin l) Hl) upper lower Hu Hlo) as [H1 H2]. simpl.
    split; [|done]. rewrite zget_insert by lia. by destruct (Z.eqb_spec (n - 1) l); [lia|].
  - intros fs Hgt Hfs. rewrite Hlast in Hfs. injection Hfs as <-. rewrite zget_insert, Z.eqb_refl by lia.
    destruct (Hlv (n - 1) last ltac:(lia) Hlast) as [_ Hls]. pose proof (zlen_nonneg last). by rewrite i32_id by lia.
Qed.

(** ** The bounds of a lookup *)

(** Files outside [l .. r] lie entirely before or after the key. *)
Record bounds_ok lower k (l r : Z) : Prop := {
  bo_left : 0 <= l <= r + 1;
  bo_right : r < len lower;
  bo_before j f : lower !z j = Some f -> j < l -> Compare ucmp (user_largest f) k < 0;
  bo_after j f : lower !z j = Some f -> r < j -> Compare ucmp k (user_smallest f) < 0;
}.

Lemma bounds_intro lower k l r :
  user_disjoint ucmp lower -> 0 <= l <= len lower -> -1 <= r < len lower ->
  (forall j f, lower !z j = Some f -> j < l -> Compare ucmp (user_largest f) k < 0) ->
  (forall j f, lower !z j = Some f -> r < j -> Compare ucmp k (user_smallest f) < 0) -> bounds_ok lower k l r.
Proof using Laws.
  intros Hd Hl Hr Hb Ha. constructor; [|lia|done|done]. split; [lia|]. destruct (Z.le_gt_cases l (r + 1)) as [|Hgt]; [done|].
  destruct (zget_is_Some lower (r + 1) ltac:(lia)) as [f Hf]. pose proof (Hb _ _ Hf ltac:(lia)). pose proof (Ha _ _ Hf ltac:(lia)).
  pose proof (cmp_lt_trans ucmp _ _ _ H H0) as Hx. pose proof (user_disjoint_file _ _ _ Hd Hf) as Hy.
  apply (cmp_lt_gt ucmp) in Hx. lia.
Qed.

(** The comparisons a lookup makes with a file. *)
Definition cmp_smallest k (f : FileMetaData) : Z := Compare ucmp k (user_smallest f).
Definition cmp_largest k (f : FileMetaData) : Z :=
  if 0 <=? cmp_smallest k f then Compare ucmp k (user_largest f) else -1.

Lemma lb_before lower k a r j f :
  is_lb ucmp lower user_largest a r -> Compare ucmp a k <= 0 -> lower !z j = Some f -> j < r ->
  Compare ucmp (user_largest f) k < 0.
Proof using Laws. intros (_ & H & _) Hk Hf Hj. apply (cmp_lt_le_trans ucmp _ a); [by apply (H j)|done]. Qed.

Lemma rb_after lower k a r j f :
  is_rb ucmp lower user_smallest a r -> Compare ucmp k a <= 0 -> lower !z j = Some f -> r < j ->
  Compare ucmp k (user_smallest f) < 0.
Proof using Laws. intros (_ & H & _) Hk Hf Hj. apply (cmp_le_lt_trans ucmp _ a); [done|by apply (H j)]. Qed.

(** The branches of [GetNextLevelIndex], for the unit [u] of the file [f] and the left
    bound [l] that the file before gives. *)
Lemma unit_bounds lower k f u :
  user_disjoint ucmp lower -> unit_ok lower f u ->
  (forall l, 0 <= l <= len lower -> (forall j h, lower !z j = Some h -> j < l -> Compare ucmp (user_largest h) k < 0) ->
     cmp_smallest k f < 0 -> bounds_ok lower k l (smallest_rb u)) /\
  (cmp_smallest k f = 0 -> bounds_ok lower k (smallest_lb u) (smallest_rb u)) /\
  (0 < cmp_smallest k f -> Compare ucmp k (user_largest f) < 0 -> bounds_ok lower k (smallest_lb u) (largest_rb u)) /\
  (Compare ucmp k (user_largest f) = 0 -> bounds_ok lower k (largest_lb u) (largest_rb u)) /\
  (0 < Compare ucmp k (user_largest f) -> bounds_ok lower k (largest_lb u) (len lower - 1)).
Proof using Laws.
  intros Hd [S1 S2 S3 S4]. unfold cmp_smallest. pose proof (zlen_nonneg lower).
  pose proof (proj1 S1). pose proof (proj1 S2). pose proof (proj1 S3). pose proof (proj1 S4).
  assert (Hge : forall a, 0 <= Compare ucmp k a -> Compare ucmp a k <= 0) by (intros; by apply (cmp_le_ge ucmp)).
  split_and!; intros; (apply bounds_intro; [done|lia|lia|intros j h Hh Hj|intros j h Hh Hj]).
  all: first [exfalso; apply zget_range in Hh; lia
             |eapply lb_before; [| |exact Hh|exact Hj]; [eassumption|]; apply Hge; lia
             |eapply rb_after; [| |exact Hh|exact Hj]; [eassumption|]; lia
             |eauto].
Qed.

(** The bounds exclude only files that lie before or after the key. *)
Lemma GetNextLevelIndex_ok x n files level upper i f k :
  levels_ok n files -> index_ok x n files -> 1 <= level < n -> files !z level = Some upper -> upper !z i = Some f ->
  (forall g, upper !z (i - 1) = Some g -> Compare ucmp (user_largest g) k <= 0) ->
  exists l r, GetNextLevelIndex x level i (cmp_smallest k f) (cmp_largest k f) = Some (l, r) /\
    forall lower, level < n - 1 -> files !z (level + 1) = Some lower -> bounds_ok lower k l r.
Proof using Laws.
  intros [Hn Hlv] [Hnum Hidx Hlast] Hl Hu Hf Hprev. unfold GetNextLevelIndex. rewrite Hnum.
  destruct (Z.ltb_spec 0 level); [|lia]. cbn [negb]. destruct (Z.eqb_spec level (n - 1)) as [He|Hne].
  { eexists _, _. split; [done|]. intros; lia. }
  destruct (zget_is_Some files (level + 1) ltac:(lia)) as [lower Hlo].
  destruct (Hidx level ltac:(lia) upper lower Hu Hlo) as [Hrb Hun].
  destruct Hun as (units & Hunits & Hok); [intros ->; by apply zget_range in Hf; unfold zlen in Hf; simpl in Hf; lia|]. destruct (Hok i f Hf) as (u & Hiu & Huok).
  pose proof (zget_range _ _ _ Hf) as Hi. rewrite Hrb. cbn [mbind option_bind].
  destruct (Z.ltb_spec level (n - 1)); [|lia]. destruct (Z.leb_spec i (len upper - 1)); [|lia]. cbn [andb negb].
  rewrite Hunits. cbn [mbind option_bind]. rewrite Hiu. cbn [mbind option_bind].
  assert (Hnext : level_rb_ x !z (level + 1) = Some (len lower - 1)).
  { destruct (Z.eq_dec (level + 1) (n - 1)) as [E|]; [rewrite E in *; by apply Hlast; [lia|]|].
    destruct (zget_is_Some files (level + 1 + 1) ltac:(lia)) as [l2 Hl2]. by destruct (Hidx (level + 1) ltac:(lia) lower l2 Hlo Hl2). }
  rewrite Hnext. cbn [mbind option_bind]. destruct (Hlv (level + 1) lower ltac:(lia) Hlo) as [Hd _].
  destruct (unit_bounds lower k f u Hd Huok) as (B1 & B2 & B3 & B4 & B5).
  assert (Hfin : forall l r, bounds_ok lower k l r ->
    exists l' r', (if (0 <=? l) && (l <=? r + 1) && (r <=? len lower - 1) then Some (l, r) else None) = Some (l', r') /\
      forall lower', level < n - 1 -> files !z (level + 1) = Some lower' -> bounds_ok lower' k l' r').
  { intros l r Hb. exists l, r. pose proof Hb as [? ? _ _]. destruct (Z.leb_spec 0 l); [|lia]. destruct (Z.leb_spec l (r + 1)); [|lia].
    destruct (Z.leb_spec r (len lower - 1)); [|lia]. split; [done|]. intros lower' _ E. by rewrite Hlo in E; injection E as <-. }
  unfold cmp_largest. destruct (Z.ltb_spec (cmp_smallest k f) 0) as [Hlt|Hge].
  - destruct (Z.ltb_spec 0 i); cbn [mbind option_bind].
    + destruct (zget_is_Some upper (i - 1) ltac:(lia)) as [g Hg]. destruct (Hok _ _ Hg) as (v & Hv & [_ G _ _]). rewrite Hv.
      cbn [mbind option_bind]. apply Hfin, B1; [by destruct G| |done]. intros j h Hh Hj.
      eapply lb_before; [exact G|by apply Hprev|done|done].
    + apply Hfin, B1; [pose proof (zlen_nonneg lower); lia| |done]. intros j h Hh%zget_range Hj. lia.
  - destruct (Z.leb_spec 0 (cmp_smallest k f)); [|lia]. destruct (Z.eqb_spec (cmp_smallest k f) 0); [by apply Hfin, B2|].
    destruct (Z.ltb_spec 0 (cmp_smallest k f)); [|lia]. cbn [andb].
    destruct (Z.ltb_spec (Compare ucmp k (user_largest f)) 0); [by apply Hfin, B3|].
    destruct (Z.eqb_spec (Compare ucmp k (user_largest f)) 0); [by apply Hfin, B4|].
    destruct (Z.ltb_spec 0 (Compare ucmp k (user_largest f))); [by apply Hfin, B5|lia].
Qed.
End Units.

(** ** Correctness of the index *)

Section IndexClaims.
Context (ucmp : Comparator) {Laws : ComparatorLaws ucmp}.

(** The user key lies between the boundaries of the file. *)
Definition holds_key (k : bytes) (f : FileMetaData) : Prop :=
  Compare ucmp (user_smallest f) k <= 0 /\ Compare ucmp k (user_largest f) <= 0.

(** C40. The index of a version with disjoint levels is built without leaving an array,
    and its bounds lose nothing: for a key that is past the file before [f], the
    comparisons of the key with [f] give a range of files of the next level, within
    that level, that includes every file whose boundaries enclose the key. *)
Theorem file_indexer_bounds n files :
  levels_ok ucmp n files ->
  exists x, UpdateIndex ucmp n files = Some x /\
    forall level upper lower i f k, 1 <= level < n - 1 -> files !z level = Some upper -> files !z (level + 1) = Some lower ->
      upper !z i = Some f -> (forall g, upper !z (i - 1) = Some g -> Compare ucmp (user_largest g) k <= 0) ->
      exists l r, GetNextLevelIndex x level i (cmp_smallest ucmp k f) (cmp_largest ucmp k f) = Some (l, r) /\
        0 <= l <= r + 1 /\ r < len lower /\ forall j h, lower !z j = Some h -> holds_key k h -> l <= j <= r.
Proof.
  intros Hok. destruct (UpdateIndex_ok ucmp n files Hok) as (x & Hx & Hidx). exists x. split; [done|].
  intros level upper lower i f k Hl Hu Hlo Hf Hprev.
  destruct (GetNextLevelIndex_ok ucmp x n files level upper i f k Hok Hidx ltac:(lia) Hu Hf Hprev) as (l & r & Hget & Hb).
  destruct (Hb lower ltac:(lia) Hlo) as [H1 H2 H3 H4]. exists l, r. split_and!; [done|lia|lia|done|].
  intros j h Hh [Hs Hlg]. split.
  - destruct (Z.lt_ge_cases j l) as [Hlt|]; [|done]. pose proof (H3 j h Hh Hlt) as Hx1. apply (cmp_lt_gt ucmp) in Hx1. lia.
  - destruct (Z.lt_ge_cases r j) as [Hlt|]; [|done]. pose proof (H4 j h Hh Hlt) as Hx1. apply (cmp_lt_gt ucmp) in Hx1. lia.
Qed.
End IndexClaims.

(** ** A small instance *)

(** The example of the indexer's documentation: one file above three. *)
Definition sample_upper : list FileMetaData := [sample_file 9 Byte.x64 Byte.x69].

Lemma sample_levels_ok : levels_ok BytewiseComparator 3 [[]; sample_upper; sample_level].
Proof.
  assert (Hd : user_disjoint BytewiseComparator sample_level /\ user_disjoint BytewiseComparator sample_upper).
  { split; split; repeat (constructor; try (by vm_compute)). }
  split; [by vm_compute|]. intros level fs Hl [H0 Hf]%zget_Some.
  destruct (Z.to_nat level) as [|[|[|m]]] eqn:E; simpl in Hf; [lia|injection Hf as <-; by split; [apply Hd|]..|done].
Qed.

Lemma file_indexer_bounds_witness :
  exists x l r, UpdateIndex BytewiseComparator 3 [[]; sample_upper; sample_level] = Some x /\
    GetNextLevelIndex x 1 0 1 (-1) = Some (l, r) /\ 0 <= l <= r + 1.
Proof.
  destruct (file_indexer_bounds BytewiseComparator 3 [[]; sample_upper; sample_level] sample_levels_ok) as (x & Hx & H).
  destruct (H 1 sample_upper sample_level 0 (sample_file 9 Byte.x64 Byte.x69) [Byte.x66]) as (l & r & Hg & Hl & _).
  - lia.
  - reflexivity.
  - reflexivity.
  - reflexivity.
  - done.
  - exists x, l, r. split; [exact Hx|]. split; [|exact Hl].
    vm_compute in Hx. injection Hx as <-. vm_compute in Hg. vm_compute. exact Hg.
Defined.
