(* ===== verification/NvmAlloc.v ===== *)
(** * The NVM table pool (utilities/nvm_mod/bitmap.*, persistent_sstable.h)

    [PersistentSstable] cuts one mapped NVM file into [num_] slots of [each_size_]
    bytes and keeps a bitmap of the slots in use.  Pointers into the pool are
    offsets from [raw_].  [None] is an access outside the bitmap's array. *)

From S2P Require Import Prelude.

(** ** libpmem

    The NVM library is not part of the sources: the two calls the pool and the
    table builder make are operations of a class, with their documented
    behaviour as laws. *)

Class Pmem := {
  (** Maps (creating it when needed) the file at a path with a given size: the
      mapped bytes, the mapped length and whether it is persistent memory. *)
  pmem_map_file : bytes -> Z -> option (bytes * Z * Z);
  (** Copies a buffer to an offset of the mapped range and makes it durable. *)
  pmem_memcpy_persist : bytes -> Z -> bytes -> option bytes;
}.

Class PmemLaws (P : Pmem) : Prop := {
  pmem_map_file_size path total m l pm :
    pmem_map_file path total = Some (m, l, pm) -> len m = total;
  pmem_memcpy_persist_spec m off src :
    pmem_memcpy_persist m off src = mem_write m off src;
}.

(** ** BitMap *)

(** [bm_bits] is the [char] array, [gsize] its length as the code records it. *)
Record BitMap := mkBitMap { bm_bits : bytes; gsize : Z }.

Definition BitMap_make (n : Z) : BitMap :=
  let g := Z.shiftr n 3 + 1 in
  mkBitMap (replicate (Z.to_nat g) Byte.x00) g.

Definition BitMap_default : BitMap := BitMap_make 10000.

(** [char] is signed: the byte is sign-extended before it is shifted. *)
Definition BitMap_get (bm : BitMap) (x : Z) : option Z :=
  let cur := Z.shiftr x 3 in
  let remainder := Z.land x 7 in
  if gsize bm <? cur then Some (-1)
  else b ← bm_bits bm !z cur; Some (Z.land (Z.shiftr (byte_signed b) remainder) 1).

Definition BitMap_set (bm : BitMap) (x : Z) : option (Z * BitMap) :=
  let cur := Z.shiftr x 3 in
  let remainder := Z.land x 7 in
  if gsize bm <? cur then Some (0, bm)
  else b ← bm_bits bm !z cur;
       bits ← zset (bm_bits bm) cur (byte.of_Z (Z.lor (byte_signed b) (Z.shiftl 1 remainder)));
       Some (1, mkBitMap bits (gsize bm)).

Definition BitMap_clr (bm : BitMap) (x : Z) : option (Z * BitMap) :=
  let cur := Z.shiftr x 3 in
  let remainder := Z.land x 7 in
  if gsize bm <? cur then Some (0, bm)
  else b ← bm_bits bm !z cur;
       bits ← zset (bm_bits bm) cur (byte.of_Z (Z.lxor (byte_signed b) (Z.shiftl 1 remainder)));
       Some (1, mkBitMap bits (gsize bm)).

Definition BitMap_reset (bm : BitMap) : Z * BitMap :=
  (1, mkBitMap (replicate (length (bm_bits bm)) Byte.x00) (gsize bm)).

(** ** PersistentSstable *)

Record PersistentSstable := mkPS {
  raw_ : bytes;
  bitmap_ : BitMap;
  mapped_len_ : Z;
  is_pmem_ : Z;
  each_size_ : Z;
  num_ : Z;
  use_num_ : Z;
}.

Definition ps_set_bitmap (p : PersistentSstable) (bm : BitMap) (use : Z) : PersistentSstable :=
  mkPS (raw_ p) bm (mapped_len_ p) (is_pmem_ p) (each_size_ p) (num_ p) use.

Definition ps_set_raw (p : PersistentSstable) (m : bytes) : PersistentSstable :=
  mkPS m (bitmap_ p) (mapped_len_ p) (is_pmem_ p) (each_size_ p) (num_ p) (use_num_ p).

Section Pool.
Context `{Pmem}.

(** The constructor; [None] when the file cannot be mapped (the assertion). *)
Definition PersistentSstable_make (path : bytes) (each_size number : Z) : option PersistentSstable :=
  let total_size := wrap64 (each_size * number) in
  '(pmemaddr, mapped_len, is_pmem) ← pmem_map_file path total_size;
  Some (mkPS pmemaddr (BitMap_make (i32 number)) mapped_len is_pmem each_size number 0).

End Pool.

(** The scan for a free slot from [i]: [fuel] is the number of slots left.  The
    result is the pointer and the index, [None] inside for a null pointer. *)
Fixpoint AllocSstable_loop (fuel : nat) (p : PersistentSstable) (i : Z)
  : option (option (Z * Z) * PersistentSstable) :=
  match fuel with
  | O => Some (None, p)
  | S fuel =>
      if i <? num_ p then
        bit ← BitMap_get (bitmap_ p) (i32 i);
        if bit =? 0 then
          let index := i32 i in
          '(_, bm) ← BitMap_set (bitmap_ p) index;
          Some (Some (wrap64 (index * each_size_ p), index),
                ps_set_bitmap p bm (wrap64 (use_num_ p + 1)))
        else AllocSstable_loop fuel p (i + 1)
      else Some (None, p)
  end.

Definition AllocSstable (p : PersistentSstable) : option (option (Z * Z) * PersistentSstable) :=
  AllocSstable_loop (Z.to_nat (num_ p)) p 0.

Definition GetIndexPtr (p : PersistentSstable) (index : Z) : option Z :=
  if (wrap64 index <? num_ p) && (0 <=? index) then Some (wrap64 (index * each_size_ p)) else None.

Definition DeleteSstable (p : PersistentSstable) (index : Z) : option PersistentSstable :=
  let pos := wrap64 index in
  '(_, bm) ← BitMap_clr (bitmap_ p) (i32 pos);
  Some (ps_set_bitmap p bm (wrap64 (use_num_ p - 1))).

Definition PersistentSstable_Reset (p : PersistentSstable) : PersistentSstable :=
  ps_set_bitmap p (BitMap_reset (bitmap_ p)).2 0.

Definition RecoverAddSstable (p : PersistentSstable) (index : Z) : option PersistentSstable :=
  if num_ p <=? wrap64 index then Some p
  else bit ← BitMap_get (bitmap_ p) index;
       if negb (bit =? 0) then Some p
       else '(_, bm) ← BitMap_set (bitmap_ p) index;
            Some (ps_set_bitmap p bm (wrap64 (use_num_ p + 1))).

(** ** The bitmap as a set of bits *)

(** Bit [x] of the array. *)
Definition bit_at (bm : BitMap) (x : Z) : bool :=
  match bm_bits bm !z (x / 8) with
  | Some b => Z.testbit (byte.unsigned b) (x mod 8)
  | None => false
  end.

(** The array has the length the bitmap records. *)
Definition bm_wf (bm : BitMap) : Prop := len (bm_bits bm) = gsize bm.

Lemma bit_position x : Z.shiftr x 3 = x / 8 /\ Z.land x 7 = x mod 8.
Proof.
  split; [by rewrite Z.shiftr_div_pow2 by lia|].
  change 7 with (Z.ones 3). by rewrite Z.land_ones by lia.
Qed.

Lemma bm_byte bm x :
  bm_wf bm -> 0 <= x < 8 * gsize bm -> exists b, bm_bits bm !z (x / 8) = Some b.
Proof.
  intros Hwf Hx. apply zget_is_Some. rewrite Hwf.
  split; [apply Z.div_pos; lia | apply Z.div_lt_upper_bound; lia].
Qed.

Lemma land_1_testbit z n : 0 <= n -> Z.land (Z.shiftr z n) 1 = Z.b2z (Z.testbit z n).
Proof.
  intros. change 1 with (Z.ones 1). rewrite Z.land_ones by lia.
  rewrite Z.testbit_spec', Z.shiftr_div_pow2 by lia. done.
Qed.

Lemma BitMap_get_spec bm x :
  bm_wf bm -> 0 <= x < 8 * gsize bm -> BitMap_get bm x = Some (Z.b2z (bit_at bm x)).
Proof.
  intros Hwf Hx. destruct (bm_byte bm x Hwf Hx) as [b Hb].
  unfold BitMap_get, bit_at. destruct (bit_position x) as [-> ->].
  pose proof (zget_range _ _ _ Hb). rewrite Hwf in H. rewrite Hb. simpl.
  destruct (Z.ltb_spec (gsize bm) (x / 8)); [lia|].
  pose proof (Z.mod_pos_bound x 8). rewrite land_1_testbit by lia.
  by rewrite byte_signed_testbit by lia.
Qed.

(** Replacing one bit of one byte of the array. *)
Lemma bit_at_update bm x b z v y :
  bm_bits bm !z (x / 8) = Some b -> 0 <= x -> 0 <= y ->
  (forall n, 0 <= n < 8 ->
     Z.testbit z n = if n =? x mod 8 then v else Z.testbit (byte.unsigned b) n) ->
  bit_at (mkBitMap (<[Z.to_nat (x / 8) := byte.of_Z z]> (bm_bits bm)) (gsize bm)) y =
  if y =? x then v else bit_at bm y.
Proof.
  intros Hb Hx Hy Hz. unfold bit_at. simpl.
  pose proof (zget_range _ _ _ Hb). pose proof (Z.mod_pos_bound y 8).
  pose proof (Z.div_mod x 8). pose proof (Z.div_mod y 8).
  assert (0 <= y / 8) by (apply Z.div_pos; lia).
  rewrite zget_insert by lia. destruct (Z.eqb_spec (x / 8) (y / 8)) as [Heq|Hne].
  - rewrite byte.unsigned_of_Z. unfold byte.wrap.
    rewrite Z.mod_pow2_bits_low, Hz by lia. rewrite <- Heq, Hb.
    destruct (Z.eqb_spec (y mod 8) (x mod 8)), (Z.eqb_spec y x); try done; subst; lia.
  - destruct (Z.eqb_spec y x); [subst; lia|done].
Qed.

Lemma BitMap_set_spec bm x :
  bm_wf bm -> 0 <= x < 8 * gsize bm ->
  exists bm', BitMap_set bm x = Some (1, bm') /\ bm_wf bm' /\ gsize bm' = gsize bm /\
    forall y, 0 <= y -> bit_at bm' y = if y =? x then true else bit_at bm y.
Proof.
  intros Hwf Hx. destruct (bm_byte bm x Hwf Hx) as [b Hb].
  pose proof (zget_range _ _ _ Hb) as Hr. pose proof (Z.mod_pos_bound x 8).
  unfold BitMap_set. destruct (bit_position x) as [-> ->].
  destruct (Z.ltb_spec (gsize bm) (x / 8)); [rewrite Hwf in Hr; lia|].
  rewrite Hb. simpl. rewrite zset_in_range by done. simpl.
  eexists. split; [done|]. split; [|split; [done|]].
  - unfold bm_wf, zlen in *. simpl. by rewrite length_insert.
  - intros y Hy. apply (bit_at_update _ _ b); try lia; [done|].
    intros n Hn. rewrite Z.lor_spec, byte_signed_testbit, Z.shiftl_1_l, Z.pow2_bits_eqb, Z.eqb_sym by lia.
    destruct (n =? x mod 8); [apply orb_true_r | apply orb_false_r].
Qed.

(** [clr] flips the bit: it clears a set bit and sets a clear one. *)
Lemma BitMap_clr_spec bm x :
  bm_wf bm -> 0 <= x < 8 * gsize bm ->
  exists bm', BitMap_clr bm x = Some (1, bm') /\ bm_wf bm' /\ gsize bm' = gsize bm /\
    forall y, 0 <= y -> bit_at bm' y = if y =? x then negb (bit_at bm x) else bit_at bm y.
Proof.
  intros Hwf Hx. destruct (bm_byte bm x Hwf Hx) as [b Hb].
  pose proof (zget_range _ _ _ Hb) as Hr. pose proof (Z.mod_pos_bound x 8).
  assert (Hbx : bit_at bm x = Z.testbit (byte.unsigned b) (x mod 8))
    by (unfold bit_at; by rewrite Hb).
  unfold BitMap_clr. destruct (bit_position x) as [-> ->].
  destruct (Z.ltb_spec (gsize bm) (x / 8)); [rewrite Hwf in Hr; lia|].
  rewrite Hb. simpl. rewrite zset_in_range by done. simpl.
  eexists. split; [done|]. split; [|split; [done|]].
  - unfold bm_wf, zlen in *. simpl. by rewrite length_insert.
  - intros y Hy. apply (bit_at_update _ _ b); try lia; [done|].
    intros n Hn. rewrite Z.lxor_spec, byte_signed_testbit, Z.shiftl_1_l, Z.pow2_bits_eqb, Z.eqb_sym by lia.
    destruct (Z.eqb_spec n (x mod 8)) as [->|]; [by rewrite xorb_true_r, Hbx | apply xorb_false_r].
Qed.

Lemma bit_at_zeros n g y : bit_at (mkBitMap (replicate n Byte.x00) g) y = false.
Proof.
  unfold bit_at. simpl. destruct (_ !z _) as [b|] eqn:E; [|done].
  apply zget_Some in E as [_ [-> _]%lookup_replicate].
  apply Z.bits_0.
Qed.

(** ** Abstract pool: a set of slot indexes

    What the pool promises its clients: [A] is the set of slots in use, a slot is
    granted by taking the least free index. *)

Inductive pool_op :=
| OpAlloc
| OpDelete (index : Z)
| OpRecover (index : Z)
| OpReset.

(** One call on the pool; the result is the pointer and index of [AllocSstable]. *)
Definition pool_step (p : PersistentSstable) (op : pool_op)
  : option (option (Z * Z) * PersistentSstable) :=
  match op with
  | OpAlloc => AllocSstable p
  | OpDelete i => p' ← DeleteSstable p i; Some (None, p')
  | OpRecover i => p' ← RecoverAddSstable p i; Some (None, p')
  | OpReset => Some (None, PersistentSstable_Reset p)
  end.

Fixpoint pool_run (p : PersistentSstable) (ops : list pool_op)
  : option (list (option (Z * Z)) * PersistentSstable) :=
  match ops with
  | [] => Some ([], p)
  | op :: ops =>
      '(out, p) ← pool_step p op;
      '(outs, p) ← pool_run p ops;
      Some (out :: outs, p)
  end.

(** The least free index from [i] on. *)
Definition least_free (A : gset Z) (i num : Z) : option Z :=
  head (filter (fun k => k ∉ A) (seqZ i (num - i))).

Definition spec_step (num each : Z) (A : gset Z) (op : pool_op) : option (Z * Z) * gset Z :=
  match op with
  | OpAlloc =>
      match least_free A 0 num with
      | Some k => (Some (k * each, k), {[k]} ∪ A)
      | None => (None, A)
      end
  | OpDelete i => (None, A ∖ {[i]})
  | OpRecover i =>
      (None, if decide (0 <= i < num /\ i ∉ A) then {[i]} ∪ A else A)
  | OpReset => (None, ∅)
  end.

Fixpoint spec_run (num each : Z) (A : gset Z) (ops : list pool_op)
  : list (option (Z * Z)) * gset Z :=
  match ops with
  | [] => ([], A)
  | op :: ops =>
      let '(out, A) := spec_step num each A op in
      let '(outs, A) := spec_run num each A ops in
      (out :: outs, A)
  end.

(** What the callers owe: only slots in use are deleted, indexes are [int]s. *)
Definition legal_op (A : gset Z) (op : pool_op) : Prop :=
  match op with
  | OpDelete i => i ∈ A
  | OpRecover i => - 2 ^ 31 <= i < 2 ^ 31
  | _ => True
  end.

Fixpoint legal_ops (num each : Z) (A : gset Z) (ops : list pool_op) : Prop :=
  match ops with
  | [] => True
  | op :: ops => legal_op A op /\ legal_ops num each (spec_step num each A op).2 ops
  end.

(** The pool [p] represents the set [A]. *)
Record pool_ok (p : PersistentSstable) (A : gset Z) : Prop := {
  pool_bm : bm_wf (bitmap_ p);
  pool_gsize : gsize (bitmap_ p) = num_ p / 8 + 1;
  pool_num : 0 <= num_ p < 2 ^ 31;
  pool_bits i : 0 <= i -> bit_at (bitmap_ p) i = bool_decide (i ∈ A);
  pool_in i : i ∈ A -> 0 <= i < num_ p;
  pool_use : use_num_ p = Z.of_nat (size A);
  pool_each : 0 <= each_size_ p;
  pool_total : each_size_ p * num_ p < 2 ^ 64;
  pool_raw : len (raw_ p) = each_size_ p * num_ p;
}.

Lemma least_free_step A i num :
  i < num -> least_free A i num = if decide (i ∈ A) then least_free A (i + 1) num else Some i.
Proof.
  intros. unfold least_free. rewrite seqZ_cons, filter_cons by lia.
  replace (Z.pred (num - i)) with (num - (i + 1)) by lia. unfold Z.succ.
  destruct (decide (i ∈ A)), (decide (i ∉ A)); done.
Qed.

Lemma least_free_end A i num : num <= i -> least_free A i num = None.
Proof. intros. unfold least_free. by rewrite seqZ_nil by lia. Qed.

Lemma least_free_Some A i num k :
  least_free A i num = Some k -> i <= k < num /\ (k ∉ A) /\ (forall j, i <= j < k -> j ∈ A).
Proof.
  remember (Z.to_nat (num - i)) as n eqn:Hn. revert i Hn.
  induction n as [|n IH]; intros i Hn; [by rewrite least_free_end by lia|].
  rewrite least_free_step by lia. destruct (decide (i ∈ A)) as [Hi|Hi].
  - intros H. apply IH in H as (? & ? & Hlt); [|lia]. split_and!; [lia..|done|].
    intros j Hj. destruct (decide (j = i)) as [->|]; [done|apply Hlt; lia].
  - intros [= <-]. split_and!; [lia..|done|lia].
Qed.

Lemma least_free_None A i num :
  least_free A i num = None -> forall j, i <= j < num -> j ∈ A.
Proof.
  remember (Z.to_nat (num - i)) as n eqn:Hn. revert i Hn.
  induction n as [|n IH]; intros i Hn; [lia|].
  rewrite least_free_step by lia. destruct (decide (i ∈ A)) as [Hi|Hi]; [|done].
  intros H j Hj. destruct (decide (j = i)) as [->|]; [done|].
  apply (IH (i + 1)); [lia|done|lia].
Qed.

(** ** Each operation refines the abstract one *)

Section Refinement.
Implicit Types (p : PersistentSstable) (A : gset Z).

(** Indexes of the pool are inside the bitmap and fit in an [int]. *)
Lemma pool_index p A i :
  pool_ok p A -> 0 <= i < num_ p ->
  0 <= i < 8 * gsize (bitmap_ p) /\ i32 i = i /\ wrap64 i = i.
Proof.
  intros [] Hi. rewrite pool_gsize0. pose proof (Z.div_mod (num_ p) 8).
  pose proof (Z.mod_pos_bound (num_ p) 8). split_and!; [lia..| |].
  - apply i32_id. lia.
  - apply wrap_id. lia.
Qed.

Lemma pool_get p A i :
  pool_ok p A -> 0 <= i < num_ p ->
  BitMap_get (bitmap_ p) i = Some (if decide (i ∈ A) then 1 else 0).
Proof.
  intros Hok Hi. pose proof (pool_index p A i Hok Hi) as (? & _).
  destruct Hok. rewrite BitMap_get_spec, pool_bits0 by (done || lia).
  case_bool_decide; by destruct (decide (i ∈ A)).
Qed.

Lemma pool_size_bound p A : pool_ok p A -> Z.of_nat (size A) <= num_ p.
Proof.
  intros []. assert (A ⊆ list_to_set (seqZ 0 (num_ p))) as Hs%subseteq_size.
  - intros i Hi. apply elem_of_list_to_set, elem_of_seqZ. specialize (pool_in0 i Hi). lia.
  - rewrite size_list_to_set, length_seqZ in Hs by apply NoDup_seqZ. lia.
Qed.

Lemma pool_full p A : pool_ok p A -> least_free A 0 (num_ p) = None -> Z.of_nat (size A) = num_ p.
Proof.
  intros Hok Hn. pose proof (pool_size_bound p A Hok). pose proof (least_free_None A 0 (num_ p) Hn) as Hall.
  assert (list_to_set (seqZ 0 (num_ p)) ⊆ A) as Hs%subseteq_size.
  - intros i Hi%elem_of_list_to_set%elem_of_seqZ. apply Hall. lia.
  - rewrite size_list_to_set, length_seqZ in Hs by apply NoDup_seqZ. destruct Hok. lia.
Qed.

(** Marking a free slot as used, as [AllocSstable] and [RecoverAddSstable] do. *)
Lemma pool_mark p A i :
  pool_ok p A -> 0 <= i < num_ p -> i ∉ A ->
  exists bm, BitMap_set (bitmap_ p) i = Some (1, bm) /\
    pool_ok (ps_set_bitmap p bm (wrap64 (use_num_ p + 1))) ({[i]} ∪ A).
Proof.
  intros Hok Hi HA. pose proof (pool_index p A i Hok Hi) as (Hr & _ & _).
  pose proof (pool_size_bound p A Hok). destruct Hok.
  destruct (BitMap_set_spec _ _ pool_bm0 Hr) as (bm & Hset & Hwf & Hg & Hbits).
  exists bm. split; [done|].
  constructor; simpl; try done; [by rewrite Hg| | |].
  - intros y Hy. rewrite Hbits, pool_bits0 by done.
    destruct (Z.eqb_spec y i) as [->|]; symmetry; [apply bool_decide_eq_true|apply bool_decide_ext];
      set_solver.
  - intros y Hy. apply elem_of_union in Hy as [->%elem_of_singleton|]; auto.
  - rewrite size_union, size_singleton by set_solver. rewrite pool_use0, wrap_id; lia.
Qed.

Lemma pool_delete p A i :
  pool_ok p A -> i ∈ A ->
  exists p', DeleteSstable p i = Some p' /\ pool_ok p' (A ∖ {[i]}).
Proof.
  intros Hok HA. pose proof (pool_in _ _ Hok _ HA) as Hi.
  pose proof (pool_index p A i Hok Hi) as (Hr & Hi32 & Hw).
  pose proof (pool_size_bound p A Hok). destruct Hok.
  destruct (BitMap_clr_spec _ _ pool_bm0 Hr) as (bm & Hclr & Hwf & Hg & Hbits).
  unfold DeleteSstable. rewrite Hw, Hi32, Hclr. simpl. eexists. split; [done|].
  constructor; simpl; try done; [by rewrite Hg| | |].
  - intros y Hy. rewrite Hbits, !pool_bits0 by lia.
    destruct (Z.eqb_spec y i) as [->|].
    + rewrite bool_decide_eq_true_2 by done. symmetry. apply bool_decide_eq_false. set_solver.
    + apply bool_decide_ext. set_solver.
  - intros y Hy. apply pool_in0. set_solver.
  - rewrite size_difference, size_singleton by set_solver.
    assert (Hs : {[i]} ⊆ A) by set_solver. apply subseteq_size in Hs. rewrite size_singleton in Hs.
    rewrite pool_use0, wrap_id; lia.
Qed.

Lemma pool_alloc_loop p A fuel i :
  pool_ok p A -> 0 <= i -> Z.of_nat fuel = Z.max 0 (num_ p - i) ->
  exists out p', AllocSstable_loop fuel p i = Some (out, p') /\
    match least_free A i (num_ p) with
    | Some k => out = Some (k * each_size_ p, k) /\ pool_ok p' ({[k]} ∪ A)
    | None => out = None /\ p' = p
    end.
Proof.
  intros Hok. revert i. induction fuel as [|fuel IH]; intros i Hi Hf; simpl.
  - rewrite least_free_end by lia. eauto.
  - destruct (Z.ltb_spec i (num_ p)); [|lia].
    pose proof (pool_index p A i Hok ltac:(lia)) as (_ & Hi32 & _). rewrite Hi32.
    rewrite (pool_get p A i) by (done || lia). rewrite least_free_step by done. simpl.
    destruct (decide (i ∈ A)) as [HA|HA]; simpl; [apply IH; lia|].
    destruct (pool_mark p A i Hok ltac:(lia) HA) as (bm & -> & Hok'). simpl.
    do 2 eexists. split; [done|]. split; [|done].
    destruct Hok. rewrite wrap_id; [done|]. nia.
Qed.

(** No operation of the pool touches its geometry or the stored bytes. *)
Definition same_pool p p' : Prop :=
  num_ p' = num_ p /\ each_size_ p' = each_size_ p /\ raw_ p' = raw_ p.

Lemma alloc_loop_frame fuel p i out p' :
  AllocSstable_loop fuel p i = Some (out, p') -> same_pool p p'.
Proof.
  revert i. induction fuel as [|fuel IH]; intros i H; simpl in H; [by simplify_eq|].
  destruct (i <? num_ p); [|by simplify_eq]. inv_bind H.
  destruct (_ =? 0); [|by eapply IH]. inv_bind H.
  destruct x0 as [? bm]. by simplify_eq.
Qed.

Lemma pool_step_frame p op out p' : pool_step p op = Some (out, p') -> same_pool p p'.
Proof.
  destruct op as [|i|i|]; simpl; intros H.
  - by eapply alloc_loop_frame.
  - unfold DeleteSstable in H. destruct (BitMap_clr _ _) as [[]|]; by simplify_eq/=.
  - unfold RecoverAddSstable in H. destruct (_ <=? _); [by simplify_eq/=|].
    destruct (BitMap_get _ _); simpl in H; [|done].
    destruct (negb _); [by simplify_eq/=|].
    destruct (BitMap_set _ _) as [[]|]; by simplify_eq/=.
  - by simplify_eq/=.
Qed.

Lemma pool_reset p A : pool_ok p A -> pool_ok (PersistentSstable_Reset p) ∅.
Proof.
  intros []. constructor; simpl; try done.
  - unfold bm_wf, zlen in *. simpl. by rewrite length_replicate.
  - intros i _. by rewrite bit_at_zeros.
Qed.

Lemma pool_recover p A i :
  pool_ok p A -> - 2 ^ 31 <= i < 2 ^ 31 ->
  exists p', RecoverAddSstable p i = Some p' /\
    pool_ok p' (if decide (0 <= i < num_ p /\ i ∉ A) then {[i]} ∪ A else A).
Proof.
  intros Hok Hi. unfold RecoverAddSstable.
  destruct (decide (0 <= i < num_ p)) as [Hr|Hr].
  - pose proof (pool_index p A i Hok Hr) as (_ & _ & ->).
    destruct (Z.leb_spec (num_ p) i); [lia|]. rewrite (pool_get p A i Hok Hr). simpl.
    destruct (decide (i ∈ A)) as [HA|HA]; simpl.
    + rewrite decide_False by tauto. eauto.
    + rewrite decide_True by tauto. destruct (pool_mark p A i Hok Hr HA) as (bm & -> & Hok').
      simpl. eauto.
  - assert (Hw : num_ p <= wrap64 i).
    { pose proof (pool_num _ _ Hok). destruct (decide (0 <= i)).
      - rewrite wrap_id; lia.
      - unfold wrap. rewrite <- (Z.mod_add i 1) by lia. rewrite Z.mod_small; lia. }
    destruct (Z.leb_spec (num_ p) (wrap64 i)); [|lia].
    rewrite decide_False by tauto. eauto.
Qed.

Lemma pool_step_refines p A op :
  pool_ok p A -> legal_op A op ->
  exists p', pool_step p op = Some ((spec_step (num_ p) (each_size_ p) A op).1, p') /\
    pool_ok p' (spec_step (num_ p) (each_size_ p) A op).2.
Proof.
  intros Hok Hl. destruct op as [|i|i|]; simpl in *.
  - destruct (pool_alloc_loop p A (Z.to_nat (num_ p)) 0 Hok) as (out & p' & He & Hm);
      [lia|destruct Hok; lia|].
    unfold AllocSstable. rewrite He. destruct (least_free _ _ _); destruct Hm as [-> ?]; simplify_eq/=; eauto.
  - destruct (pool_delete p A i Hok Hl) as (p' & -> & ?). simpl. eauto.
  - destruct (pool_recover p A i Hok Hl) as (p' & -> & ?). simpl. eauto.
  - eauto using pool_reset.
Qed.

Lemma pool_run_refines ops p A :
  pool_ok p A -> legal_ops (num_ p) (each_size_ p) A ops ->
  exists p', pool_run p ops = Some ((spec_run (num_ p) (each_size_ p) A ops).1, p') /\
    same_pool p p' /\ pool_ok p' (spec_run (num_ p) (each_size_ p) A ops).2.
Proof.
  revert p A. induction ops as [|op ops IH]; intros p A Hok Hl; simpl in *; [by exists p|].
  destruct Hl as [Hl1 Hl2]. destruct (pool_step_refines p A op Hok Hl1) as (p1 & He & Hok1).
  pose proof (pool_step_frame _ _ _ _ He) as (Hn & Hs & Hr). rewrite He. simpl.
  destruct (spec_step (num_ p) (each_size_ p) A op) as [out A1]. simpl in *.
  destruct (IH p1 A1 Hok1) as (p2 & Hrun & (? & ? & ?) & Hok2); [by rewrite Hn, Hs|].
  rewrite Hn, Hs in *. rewrite Hrun. simpl. exists p2.
  destruct (spec_run _ _ A1 ops) as [outs A2]. simpl in *. unfold same_pool.
  split_and!; congruence.
Qed.

(** The address of a slot in use. *)
Lemma pool_ptr p A i :
  pool_ok p A -> i ∈ A ->
  GetIndexPtr p i = Some (i * each_size_ p) /\
  0 <= i * each_size_ p /\ i * each_size_ p + each_size_ p <= len (raw_ p).
Proof.
  intros Hok Hi. pose proof (pool_in _ _ Hok i Hi).
  pose proof (pool_index p A i Hok ltac:(lia)) as (_ & _ & Hw).
  destruct Hok. rewrite pool_raw0. split_and!; [|nia..].
  unfold GetIndexPtr. rewrite Hw.
  destruct (Z.ltb_spec i (num_ p)), (Z.leb_spec 0 i); try lia. simpl.
  f_equal. apply wrap_id. nia.
Qed.

(** The slots of two indexes in use lie in the mapping and do not overlap. *)
Lemma pool_slots p A i j :
  pool_ok p A -> i ∈ A -> j ∈ A -> i < j ->
  GetIndexPtr p i = Some (i * each_size_ p) /\
  i * each_size_ p + each_size_ p <= j * each_size_ p /\
  j * each_size_ p + each_size_ p <= len (raw_ p).
Proof.
  intros Hok Hi Hj Hlt. destruct (pool_ptr p A i Hok Hi) as (-> & _ & _).
  destruct (pool_ptr p A j Hok Hj) as (_ & _ & ?). destruct Hok. split_and!; [done|nia|done].
Qed.
End Refinement.

(** ** Properties *)

(** A pool just constructed has no slot in use. *)
Lemma pool_make_ok {P : Pmem} {PL : PmemLaws P} path each_size number p :
  0 <= each_size -> 0 <= number < 2 ^ 31 -> each_size * number < 2 ^ 64 ->
  PersistentSstable_make path each_size number = Some p ->
  pool_ok p ∅ /\ num_ p = number /\ each_size_ p = each_size.
Proof.
  intros He Hn Ht. unfold PersistentSstable_make. rewrite wrap_id, i32_id by nia.
  destruct (pmem_map_file path (each_size * number)) as [[[m l] pm]|] eqn:E; simpl; [|done].
  intros [= <-]. split; [|done]. unfold BitMap_make.
  replace (Z.shiftr number 3) with (number / 8) by (symmetry; apply bit_position).
  assert (0 <= number / 8) by (apply Z.div_pos; lia).
  constructor; simpl; try done; try lia.
  - unfold bm_wf, zlen. simpl. rewrite length_replicate. lia.
  - intros i _. by rewrite bit_at_zeros.
  - by eapply pmem_map_file_size.
Qed.

(** C24. The slot pool implements a set of slot indexes: from construction, any
    sequence of allocations, deletions of slots in use, recoveries and resets
    runs without an out-of-range access and returns what the set specification
    returns (the least free index with its address, or null exactly when every
    slot is taken).  The slots of different indexes in use are disjoint and
    inside the mapping, [use_num_] counts them, and the stored bytes are
    untouched.  That only slots in use are deleted is the obligation of the
    callers: a deletion flips the bit of the slot. *)
Theorem pool_refines_set {P : Pmem} {PL : PmemLaws P} path each_size number p ops :
  0 <= each_size -> 0 <= number < 2 ^ 31 -> each_size * number < 2 ^ 64 ->
  PersistentSstable_make path each_size number = Some p ->
  legal_ops number each_size ∅ ops ->
  let '(outs, A) := spec_run number each_size ∅ ops in
  exists p', pool_run p ops = Some (outs, p') /\ raw_ p' = raw_ p /\
    use_num_ p' = Z.of_nat (size A) /\
    (forall i, i ∈ A <-> 0 <= i < number /\ BitMap_get (bitmap_ p') i = Some 1) /\
    forall i j, i ∈ A -> j ∈ A -> i < j ->
      GetIndexPtr p' i = Some (i * each_size) /\
      i * each_size + each_size <= j * each_size /\
      j * each_size + each_size <= len (raw_ p').
Proof.
  intros He Hn Ht Hmk Hl. destruct (pool_make_ok _ _ _ _ He Hn Ht Hmk) as (Hok & <- & <-).
  destruct (pool_run_refines ops p ∅ Hok Hl) as (p' & Hrun & (Hn' & He' & Hr') & Hok').
  destruct (spec_run _ _ _ _) as [outs A]. simpl in *.
  exists p'. split_and!; [done|done|by destruct Hok'| |].
  - intros i. rewrite <- Hn'. split.
    + intros Hi. pose proof (pool_in _ _ Hok' i Hi). split; [done|].
      rewrite (pool_get _ _ i Hok') by done. by rewrite decide_True.
    + intros [Hi Hg]. rewrite (pool_get _ _ i Hok' Hi) in Hg.
      destruct (decide (i ∈ A)); [done|discriminate].
  - intros i j Hi Hj Hlt. rewrite <- He'. by apply (pool_slots p' A i j).
Qed.

(** A concrete NVM library: files of zeros, plain copies. *)
Definition ZeroPmem : Pmem := {|
  pmem_map_file _ total := if 0 <=? total then Some (replicate (Z.to_nat total) Byte.x00, total, 1) else None;
  pmem_memcpy_persist m off src := mem_write m off src;
|}.

#[export] Instance ZeroPmem_laws : PmemLaws ZeroPmem.
Proof.
  split; [|done]. intros path total m l pm. simpl.
  destruct (Z.leb_spec 0 total); [|done]. intros [= <- <- <-].
  unfold zlen. rewrite length_replicate. lia.
Qed.

Lemma pool_refines_set_witness :
  exists p, @PersistentSstable_make ZeroPmem [] 4 3 = Some p /\
  exists p', pool_run p [OpAlloc; OpRecover 2; OpAlloc; OpAlloc; OpDelete 1; OpAlloc] =
    Some ([Some (0, 0); None; Some (4, 1); None; None; Some (4, 1)], p').
Proof.
  destruct (@PersistentSstable_make ZeroPmem [] 4 3) as [p|] eqn:E; [|by vm_compute in E].
  exists p. split; [done|].
  pose proof (pool_refines_set [] 4 3 p [OpAlloc; OpRecover 2; OpAlloc; OpAlloc; OpDelete 1; OpAlloc]
    ltac:(lia) ltac:(lia) ltac:(lia) E) as H.
  destruct H as (p' & H & _).
  - cbn [legal_ops legal_op]. split_and!; try exact I; [lia|lia|].
    refine (bool_decide_unpack (1 ∈ _) _). vm_compute. exact I.
  - exists p'. exact H.
Defined.

(** Deleting a slot that is not in use marks it as used and takes one off the
    count: [clr] flips the bit, so a second deletion of the same file loses the
    slot for later allocations. *)
Theorem double_delete_leaks_slot p A i :
  pool_ok p A -> 0 <= i < num_ p -> i ∉ A ->
  exists p', DeleteSstable p i = Some p' /\
    BitMap_get (bitmap_ p') i = Some 1 /\ use_num_ p' = wrap64 (use_num_ p - 1).
Proof.
  intros Hok Hi HA. pose proof (pool_index p A i Hok Hi) as (Hr & Hi32 & Hw).
  destruct Hok. destruct (BitMap_clr_spec _ _ pool_bm0 Hr) as (bm & Hclr & Hwf & Hg & Hbits).
  unfold DeleteSstable. rewrite Hw, Hi32, Hclr. simpl. eexists. split; [done|]. simpl.
  split; [|done]. rewrite BitMap_get_spec, Hbits, Z.eqb_refl, pool_bits0 by (done || lia).
  by rewrite bool_decide_eq_false_2.
Qed.

Lemma double_delete_leaks_slot_witness :
  exists p, @PersistentSstable_make ZeroPmem [] 4 3 = Some p /\
  exists p', DeleteSstable p 2 = Some p' /\ BitMap_get (bitmap_ p') 2 = Some 1.
Proof.
  destruct (@PersistentSstable_make ZeroPmem [] 4 3) as [p|] eqn:E; [|by vm_compute in E].
  exists p. split; [done|].
  destruct (pool_make_ok (P := ZeroPmem) [] 4 3 p) as (Hok & Hn & _); [lia..|done|].
  destruct (double_delete_leaks_slot p ∅ 2 Hok) as (p' & ? & ? & _); [lia|set_solver|eauto].
Defined.
