(* ===== verification/SstableMeta.v ===== *)
(** * Level-0 table metadata (utilities/nvm_mod/sstable_meta.h, sstable_meta.cc)

    [SstableMetadata] keeps the [FileEntry]s of the level-0 tables in NVM, newest
    first, and the list of tables under column compaction.  Entries are shared by
    pointer with the builders, the compaction items and the readers, so they live in
    a store [fheap] addressed by locations; following a pointer to a deleted entry is
    [None].  The mutex makes each operation one step. *)

From S2P Require Import Prelude Coding Comparator DbFormat VersionEdit.

Record KeysMetadata := mkKM {
  km_key : bytes;
  km_next : Z;
  km_offset : Z;
  km_size : Z;
}.

Definition KeysMetadata_default : KeysMetadata := mkKM [] (-1) 0 0.

(** A null [keys_meta] is an empty array: any access is out of range. *)
Record FileEntry := mkFE {
  filenum : Z;
  sstable_index : Z;
  keys_meta : list KeysMetadata;
  keys_num : Z;
  key_point_filenum : Z;
}.

Definition FileEntry_make (a b : Z) : FileEntry := mkFE a b [] 0 0.

Record SstableMetadata := mkSM {
  fheap : gmap nat FileEntry;
  next_loc : nat;
  files_ : list nat;
  compaction_files : list Z;
}.

Definition SstableMetadata_make : SstableMetadata := mkSM ∅ 0 [] [].

(** Stores the entry [fe] through the pointer [p]. *)
Definition store_entry (s : SstableMetadata) (p : nat) (fe : FileEntry) : SstableMetadata :=
  mkSM (<[p := fe]> (fheap s)) (next_loc s) (files_ s) (compaction_files s).

Definition SstableMetadata_AddFile (s : SstableMetadata) (filenumber index : Z)
  : nat * SstableMetadata :=
  let tmp := next_loc s in
  (tmp, mkSM (<[tmp := FileEntry_make filenumber index]> (fheap s)) (S tmp)
          (tmp :: files_ s) (compaction_files s)).

(** The first pointer of [fs] whose entry has the number, as a scan finds it. *)
Fixpoint FindFile_loop (h : gmap nat FileEntry) (filenumber : Z) (fs : list nat)
  : option (option nat) :=
  match fs with
  | [] => Some None
  | p :: fs =>
      fe ← h !! p;
      if filenum fe =? filenumber then Some (Some p) else FindFile_loop h filenumber fs
  end.

(** The inner result is the returned pointer, [None] for null. *)
Definition FindFile (s : SstableMetadata) (filenumber : Z) (forward : bool) : option (option nat) :=
  FindFile_loop (fheap s) filenumber (if forward then files_ s else reverse (files_ s)).

(** The inner [while] of [GetL0Files]: advances [j] to the file with the number;
    the result is that file and the rest after it. *)
Fixpoint GetL0Files_skip (h : gmap nat FileEntry) (filenumber : Z) (fs : list nat)
  : option (option (nat * list nat)) :=
  match fs with
  | [] => Some None
  | p :: fs =>
      fe ← h !! p;
      if filenumber =? filenum fe then Some (Some (p, fs)) else GetL0Files_skip h filenumber fs
  end.

(** The files found, in order, up to the first one that is missing. *)
Fixpoint GetL0Files_loop (h : gmap nat FileEntry) (L0files : list FileMetaData) (fs : list nat)
  : option (list nat) :=
  match L0files with
  | [] => Some []
  | f :: L0files =>
      r ← GetL0Files_skip h (GetNumber (f_fd f)) fs;
      match r with
      | Some (p, fs) => found ← GetL0Files_loop h L0files fs; Some (p :: found)
      | None => Some []
      end
  end.

Definition GetL0Files (s : SstableMetadata) (L0files : list FileMetaData) : option (list nat) :=
  GetL0Files_loop (fheap s) L0files (files_ s).

(** The scan of [DeteleFile]: the erased pointer and the files left. *)
Fixpoint DeteleFile_loop (h : gmap nat FileEntry) (filenumber : Z) (fs : list nat)
  : option (option nat * list nat) :=
  match fs with
  | [] => Some (None, [])
  | p :: fs =>
      fe ← h !! p;
      if filenum fe =? filenumber then Some (Some p, fs)
      else '(r, fs) ← DeteleFile_loop h filenumber fs; Some (r, p :: fs)
  end.

Definition DeteleFile (s : SstableMetadata) (filenumber : Z) : option SstableMetadata :=
  '(r, fs) ← DeteleFile_loop (fheap s) filenumber (files_ s);
  Some (mkSM (match r with Some p => delete p (fheap s) | None => fheap s end)
          (next_loc s) fs (compaction_files s)).

(** The scan of [UpdateKeyNext]: what [it] points to after the file, if anything. *)
Fixpoint next_after (h : gmap nat FileEntry) (filenumber : Z) (fs : list nat)
  : option (option nat) :=
  match fs with
  | [] => Some None
  | p :: fs =>
      fe ← h !! p;
      if filenum fe =? filenumber then Some (head fs) else next_after h filenumber fs
  end.

Definition set_next (k : KeysMetadata) (next : Z) : KeysMetadata :=
  mkKM (km_key k) next (km_offset k) (km_size k).

(** The merge of the two key arrays; every round advances one of the indexes, so
    [new_key_num + old_key_num] rounds are enough.  The indexes are [int32_t], compared as
    [uint64_t]. *)
Fixpoint UpdateKeyNext_loop (icmp : Comparator) (fuel : nat)
    (new_keys old_keys : list KeysMetadata) (new_key_num old_key_num new_index old_index : Z)
  : option (list KeysMetadata) :=
  if (wrap64 new_index <? new_key_num) && (wrap64 old_index <? old_key_num) then
    match fuel with
    | O => None
    | S fuel =>
        o ← old_keys !z old_index;
        n ← new_keys !z new_index;
        if 0 <=? Compare icmp (km_key o) (km_key n) then
          new_keys ← zset new_keys new_index (set_next n old_index);
          UpdateKeyNext_loop icmp fuel new_keys old_keys new_key_num old_key_num
            (i32 (new_index + 1)) old_index
        else UpdateKeyNext_loop icmp fuel new_keys old_keys new_key_num old_key_num
               new_index (i32 (old_index + 1))
    end
  else Some new_keys.

(** [file] is the pointer passed, [None] for null. *)
Definition UpdateKeyNext (icmp : Comparator) (s : SstableMetadata) (file : option nat)
  : option SstableMetadata :=
  match file with
  | None => Some s
  | Some p =>
      fe ← fheap s !! p;
      if keys_num fe =? 0 then Some s
      else
        it ← next_after (fheap s) (filenum fe) (files_ s);
        match it with
        | None => Some s
        | Some q =>
            next_file ← fheap s !! q;
            new_keys ← UpdateKeyNext_loop icmp (Z.to_nat (keys_num fe + keys_num next_file))
                         (keys_meta fe) (keys_meta next_file)
                         (keys_num fe) (keys_num next_file) 0 0;
            Some (store_entry s p
                    (mkFE (filenum fe) (sstable_index fe) new_keys (keys_num fe) (filenum next_file)))
        end
  end.

Definition set_compaction_files (s : SstableMetadata) (cf : list Z) : SstableMetadata :=
  mkSM (fheap s) (next_loc s) (files_ s) cf.

(** The comparison from the ends of the two lists; both are given reversed, and
    running past the head of [L0files] is an out-of-range access. *)
Fixpoint compaction_consistent (rev_cf : list Z) (rev_l0 : list FileMetaData) : option bool :=
  match rev_cf with
  | [] => Some true
  | n :: rev_cf =>
      match rev_l0 with
      | [] => None
      | f :: rev_l0 =>
          if n =? GetNumber (f_fd f) then compaction_consistent rev_cf rev_l0 else Some false
      end
  end.

(** Sizes are only logged. *)
Definition UpdateCompactionState (s : SstableMetadata) (L0files : list FileMetaData)
  : option SstableMetadata :=
  consistency ← (if len (compaction_files s) =? 0 then Some false
                 else compaction_consistent (reverse (compaction_files s)) (reverse L0files));
  if (consistency : bool) then Some s
  else Some (set_compaction_files s
               (foldl (fun cf f => GetNumber (f_fd f) :: cf) [] (reverse L0files))).

Fixpoint erase_first (n : Z) (l : list Z) : list Z :=
  match l with
  | [] => []
  | x :: l => if x =? n then l else x :: erase_first n l
  end.

Definition DeleteCompactionFile (s : SstableMetadata) (filenumber : Z) : SstableMetadata :=
  set_compaction_files s (erase_first filenumber (compaction_files s)).

Definition GetFilesNumber (s : SstableMetadata) : Z := len (files_ s).

(** ** The cross-table hints

    [next] of a key points to the first key of the next older table that is not
    smaller: the specification of [UpdateKeyNext]. *)

Section KeyNext.
Context (icmp : Comparator) {L : ComparatorLaws icmp}.
Implicit Types (old new : list KeysMetadata) (n o : KeysMetadata).

Abbreviation not_smaller key := (fun o : KeysMetadata => 0 <= Compare icmp (km_key o) key).

(** The index of the first key of [old] not smaller than [key], or -1. *)
Definition next_of old (key : bytes) : Z :=
  match list_find (not_smaller key) old with Some (j, _) => Z.of_nat j | None => -1 end.

Definition with_next old n : KeysMetadata := set_next n (next_of old (km_key n)).

Definition keys_sorted (l : list KeysMetadata) : Prop :=
  StronglySorted (fun a b => Compare icmp (km_key a) (km_key b) < 0) l.

Lemma next_of_Some old key (j : nat) :
  next_of old key = Z.of_nat j <->
  (exists o, old !! j = Some o /\ 0 <= Compare icmp (km_key o) key) /\
  forall i o, (i < j)%nat -> old !! i = Some o -> Compare icmp (km_key o) key < 0.
Proof.
  unfold next_of. destruct (list_find _ old) as [[j' o]|] eqn:E.
  - apply list_find_Some in E as (Ho & Hp & Hlt). split.
    + intros ->%Nat2Z.inj. split; [by eauto|]. intros i o' Hi Hio. specialize (Hlt i o' Hio Hi). lia.
    + intros [(o' & Ho' & Hp') Hall]. f_equal.
      destruct (lt_eq_lt_dec j j') as [[Hj|]|Hj]; [|done|].
      * by apply (Hlt j o') in Ho'.
      * specialize (Hall _ _ Hj Ho). lia.
  - split; [lia|]. intros [(o & Ho & Hp) _]. exfalso.
    rewrite list_find_None, Forall_forall in E. apply (E o); [|done]. by eapply list_elem_of_lookup_2.
Qed.

Lemma next_of_None old key :
  next_of old key = -1 <-> forall o, o ∈ old -> Compare icmp (km_key o) key < 0.
Proof.
  unfold next_of. destruct (list_find _ old) as [[j o]|] eqn:E.
  - split; [lia|]. intros H. apply list_find_Some in E as (Ho & Hp & _).
    specialize (H o ltac:(by eapply list_elem_of_lookup_2)). lia.
  - rewrite list_find_None, Forall_forall in E. split; [|done]. intros _ o Ho.
    specialize (E o Ho). lia.
Qed.

(** The keys after [ni] of them have their hint. *)
Definition hinted old new (ni : nat) : list KeysMetadata :=
  (with_next old <$> take ni new) ++ drop ni new.

Lemma hinted_length old new ni : length (hinted old new ni) = length new.
Proof. unfold hinted. rewrite length_app, length_fmap, length_take, length_drop. lia. Qed.

Lemma hinted_lookup_ge old new ni k : (ni <= k)%nat -> hinted old new ni !! k = new !! k.
Proof.
  intros H. unfold hinted. destruct (decide (ni <= length new)%nat) as [Hn|Hn].
  - rewrite lookup_app_r by (rewrite length_fmap, length_take; lia).
    rewrite length_fmap, length_take, lookup_drop. f_equal. lia.
  - rewrite !lookup_ge_None_2; [done|lia|].
    rewrite length_app, length_fmap, length_take, length_drop. lia.
Qed.

Lemma hinted_step old new ni n :
  new !! ni = Some n -> <[ni := with_next old n]> (hinted old new ni) = hinted old new (S ni).
Proof.
  intros H. pose proof (lookup_lt_Some _ _ _ H). unfold hinted.
  rewrite insert_app_r_alt by (rewrite length_fmap, length_take; lia).
  rewrite length_fmap, length_take, Nat.min_l, Nat.sub_diag by lia.
  rewrite (drop_S new n ni H). simpl.
  rewrite (take_S_r new ni n H), fmap_app, <- app_assoc. done.
Qed.

Lemma hinted_done old new (ni : nat) :
  (forall k n, (ni <= k)%nat -> new !! k = Some n -> with_next old n = n) ->
  hinted old new ni = with_next old <$> new.
Proof.
  intros H. unfold hinted. rewrite <- (take_drop ni new) at 3. rewrite fmap_app. f_equal.
  symmetry. rewrite <- (list_fmap_id (drop ni new)) at 2. apply list_fmap_ext.
  intros i n Hi. rewrite lookup_drop in Hi. apply (H (ni + i)%nat); [lia|done].
Qed.

(** What is known when the merge stands at [ni] and [oi]: the old keys passed over are
    smaller than the new keys to come. *)
Definition passed old new (ni oi : nat) : Prop :=
  forall j o k n, (j < oi)%nat -> old !! j = Some o -> (ni <= k)%nat -> new !! k = Some n ->
    Compare icmp (km_key o) (km_key n) < 0.

Lemma hinted_exit old new (ni oi : nat) :
  Forall (fun n => km_next n = -1) new -> passed old new ni oi ->
  (length new <= ni \/ length old <= oi)%nat -> hinted old new ni = with_next old <$> new.
Proof.
  intros Hm1 Hinv Hor. apply hinted_done. intros k n Hk Hn.
  pose proof (lookup_lt_Some _ _ _ Hn). rewrite Forall_lookup in Hm1. specialize (Hm1 k n Hn).
  assert (Hx : next_of old (km_key n) = -1).
  { apply next_of_None. intros o [j Hj]%list_elem_of_lookup. apply (Hinv j o k n); [|done..].
    pose proof (lookup_lt_Some _ _ _ Hj). lia. }
  unfold with_next, set_next. rewrite Hx, <- Hm1. by destruct n.
Qed.

Lemma passed_new old new ni oi : passed old new ni oi -> passed old new (S ni) oi.
Proof. intros H j o k n ????. apply (H j o k n); [done..|lia|done]. Qed.

Lemma passed_old old new ni oi o n :
  keys_sorted new -> old !! oi = Some o -> new !! ni = Some n ->
  Compare icmp (km_key o) (km_key n) < 0 -> passed old new ni oi -> passed old new ni (S oi).
Proof.
  intros Hs Ho Hn Hlt H j o' k n' Hj Ho' Hk Hn'.
  destruct (decide (j = oi)) as [->|]; [|apply (H j o' k n'); [lia|done..]].
  assert (o' = o) as -> by congruence. destruct (decide (k = ni)) as [->|Hne]; [congruence|].
  eapply (cmp_lt_trans icmp); [done|].
  eapply (StronglySorted_lookup_lt (fun a b => Compare icmp (km_key a) (km_key b) < 0) new ni k);
    [done|lia|done..].
Qed.

Lemma UpdateKeyNext_loop_spec old new fuel ni oi :
  keys_sorted new -> Forall (fun n => km_next n = -1) new -> len new < 2 ^ 31 -> len old < 2 ^ 31 ->
  (ni <= length new)%nat -> (oi <= length old)%nat -> (length new - ni + (length old - oi) <= fuel)%nat -> passed old new ni oi ->
  UpdateKeyNext_loop icmp fuel (hinted old new ni) old (len new) (len old) (Z.of_nat ni) (Z.of_nat oi) =
  Some (with_next old <$> new).
Proof.
  intros Hs Hm1 Hcn Hco. revert ni oi. induction fuel as [|fuel IH]; intros ni oi Hni Hoi Hf Hinv; simpl; rewrite !(wrap_id 64) by (unfold zlen in *; lia).
  - rewrite (hinted_exit old new ni oi) by (done || lia).
    destruct (Z.ltb_spec (Z.of_nat ni) (len new)), (Z.ltb_spec (Z.of_nat oi) (len old)); try done.
    zlia.
  - destruct (Z.ltb_spec (Z.of_nat ni) (len new)), (Z.ltb_spec (Z.of_nat oi) (len old)); simpl;
      try (f_equal; apply (hinted_exit old new ni oi); [done..|zlia]).
    rewrite !zget_nat, hinted_lookup_ge by done.
    destruct (lookup_lt_is_Some_2 old oi) as [o Ho]; [zlia|]. rewrite Ho. simpl.
    destruct (lookup_lt_is_Some_2 new ni) as [n Hn]; [zlia|]. rewrite Hn. simpl.
    destruct (Z.leb_spec 0 (Compare icmp (km_key o) (km_key n))).
    + rewrite zset_in_range by (unfold zlen; rewrite hinted_length; zlia). simpl.
      assert (Hnx : next_of old (km_key n) = Z.of_nat oi).
      { apply next_of_Some. split; [by eauto|]. intros i o' Hi Ho'. by apply (Hinv i o' ni n). }
      rewrite Nat2Z.id. replace (set_next n (Z.of_nat oi)) with (with_next old n)
        by (unfold with_next; by rewrite Hnx).
      rewrite (hinted_step old new ni n Hn).
      rewrite i32_id by (unfold zlen in *; lia). replace (Z.of_nat ni + 1) with (Z.of_nat (S ni)) by lia.
      apply IH; [zlia..|by apply passed_new].
    + rewrite i32_id by (unfold zlen in *; lia). replace (Z.of_nat oi + 1) with (Z.of_nat (S oi)) by lia.
      apply IH; [zlia..|by eapply passed_old].
Qed.
End KeyNext.

(** ** The store: every listed pointer is live, nothing else is *)

Record meta_ok (s : SstableMetadata) : Prop := {
  mo_nodup : NoDup (files_ s);
  mo_dom p : p ∈ files_ s <-> is_Some (fheap s !! p);
  mo_fresh p : p ∈ files_ s -> (p < next_loc s)%nat;
}.

(** The entries, newest first. *)
Definition entries (s : SstableMetadata) : list FileEntry :=
  omap (fun p => fheap s !! p) (files_ s).

(** Each pointer of [fs] leads to the entry of [es] at the same place. *)
Definition points (h : gmap nat FileEntry) (fs : list nat) (es : list FileEntry) : Prop :=
  Forall2 (fun p fe => h !! p = Some fe) fs es.

Section Store.
Implicit Types (h : gmap nat FileEntry) (s : SstableMetadata) (fs : list nat) (es : list FileEntry).

Lemma points_omap h fs :
  (forall p, p ∈ fs -> is_Some (h !! p)) -> points h fs (omap (fun p => h !! p) fs).
Proof.
  induction fs as [|p fs IH]; intros H; simpl; [constructor|].
  destruct (H p) as [fe Hfe]; [left|]. rewrite Hfe. constructor; [done|].
  apply IH. intros q Hq. apply H. by right.
Qed.

Lemma meta_points s : meta_ok s -> points (fheap s) (files_ s) (entries s).
Proof. intros []. apply points_omap. intros p. apply mo_dom0. Qed.

Lemma points_entries s es : points (fheap s) (files_ s) es -> entries s = es.
Proof.
  unfold entries, points. generalize (files_ s).
  induction 1 as [|p fe fs es' Hp _ IH]; simpl; [done|].
  rewrite Hp. f_equal. exact IH.
Qed.

(** Changing the store outside [fs] does not matter to [fs]. *)
Lemma points_insert h fs es p fe : p ∉ fs -> points h fs es -> points (<[p := fe]> h) fs es.
Proof.
  intros Hp. induction 1 as [|q fq fs es Hq _ IH]; constructor.
  - rewrite lookup_insert_ne; [done|set_solver].
  - apply IH. set_solver.
Qed.

Lemma points_delete h fs es p : p ∉ fs -> points h fs es -> points (delete p h) fs es.
Proof.
  intros Hp. induction 1 as [|q fq fs es Hq _ IH]; constructor.
  - rewrite lookup_delete_ne; [done|set_solver].
  - apply IH. set_solver.
Qed.

Lemma FindFile_loop_spec h n fs es :
  points h fs es ->
  exists r, FindFile_loop h n fs = Some r /\
    match r with
    | Some p => exists i fe, fs !! i = Some p /\ es !! i = Some fe /\ filenum fe = n /\
                  forall j fe', (j < i)%nat -> es !! j = Some fe' -> filenum fe' <> n
    | None => forall fe, fe ∈ es -> filenum fe <> n
    end.
Proof.
  induction 1 as [|p fe fs es Hp _ IH]; simpl; [eexists; split; [done|]; intros fe Hfe; by apply elem_of_nil in Hfe|].
  rewrite Hp. simpl. destruct (Z.eqb_spec (filenum fe) n) as [Hn|Hn].
  - eexists. split; [done|]. exists 0%nat, fe. split_and!; [done..|]. lia.
  - destruct IH as (r & -> & Hr). exists r. split; [done|]. destruct r as [q|].
    + destruct Hr as (i & fe' & ? & ? & ? & Hlt). exists (S i), fe'. split_and!; [done..|].
      intros [|j] fe'' Hj; simpl; [by intros [= <-]|]. apply Hlt. lia.
    + intros fe' [->|]%elem_of_cons; auto.
Qed.

Lemma AddFile_ok s n i :
  meta_ok s ->
  let '(p, s') := SstableMetadata_AddFile s n i in
  meta_ok s' /\ entries s' = FileEntry_make n i :: entries s /\
  fheap s' !! p = Some (FileEntry_make n i) /\ fheap s !! p = None /\ head (files_ s') = Some p.
Proof.
  intros Hok. pose proof (meta_points s Hok) as Hp. destruct Hok. simpl.
  assert (Hfresh : next_loc s ∉ files_ s) by (intros H; specialize (mo_fresh0 _ H); lia).
  split_and!.
  - constructor; simpl.
    + by constructor.
    + intros p. rewrite elem_of_cons, mo_dom0. destruct (decide (p = next_loc s)) as [->|].
      * rewrite lookup_insert_eq. naive_solver.
      * rewrite lookup_insert_ne by done. naive_solver.
    + intros p [->|Hin%mo_fresh0]%elem_of_cons; lia.
  - apply points_entries. simpl. constructor; [apply lookup_insert_eq|].
    by apply points_insert.
  - apply lookup_insert_eq.
  - apply eq_None_not_Some. by rewrite <- mo_dom0.
  - done.
Qed.

(** [GetL0Files] finds every file of a version whose numbers occur in the list in
    order, and pairs them in that order. *)
Lemma GetL0Files_skip_spec h fs es n ns :
  points h fs es -> sublist (n :: ns) (filenum <$> es) ->
  exists p fs' es' fe, GetL0Files_skip h n fs = Some (Some (p, fs')) /\ points h fs' es' /\
    h !! p = Some fe /\ filenum fe = n /\ sublist ns (filenum <$> es') /\
    sublist (p :: fs') fs.
Proof.
  induction 1 as [|p fe fs es Hp Hps IH]; intros Hsub; simpl in *; [by inversion Hsub|].
  rewrite Hp. simpl. destruct (Z.eqb_spec n (filenum fe)) as [->|Hne].
  - exists p, fs, es, fe. split_and!; try done.
    inversion Hsub as [|? ? ? H|? ? ? H]; simplify_eq; [done|]. etrans; [|exact H].
    apply sublist_cons. done.
  - inversion Hsub as [|? ? ? H|? ? ? H]; simplify_eq.
    destruct (IH H) as (q & fs' & es' & fe' & -> & ? & ? & ? & ? & ?).
    exists q, fs', es', fe'. split_and!; try done. by apply sublist_cons.
Qed.

Lemma GetL0Files_loop_spec h L0 fs es :
  points h fs es -> sublist ((fun f => GetNumber (f_fd f)) <$> L0) (filenum <$> es) ->
  exists ps es', GetL0Files_loop h L0 fs = Some ps /\ points h ps es' /\
    filenum <$> es' = (fun f => GetNumber (f_fd f)) <$> L0 /\ sublist ps fs.
Proof.
  revert fs es. induction L0 as [|f L0 IH]; intros fs es Hps Hsub; simpl in *.
  - exists [], []. split_and!; [done|constructor|done|apply sublist_nil_l].
  - destruct (GetL0Files_skip_spec _ _ _ _ _ Hps Hsub) as (p & fs' & es' & fe & -> & Hps' & Hp & Hn & Hs' & Hsf).
    simpl. destruct (IH _ _ Hps' Hs') as (ps & es2 & -> & Hps2 & Hnum & Hsp). simpl.
    exists (p :: ps), (fe :: es2). split_and!; [done|by constructor|rewrite fmap_cons; by rewrite Hn, Hnum|].
    etrans; [|exact Hsf]. by apply sublist_skip.
Qed.

(** Removes the first (newest) entry with the number. *)
Fixpoint del_first (n : Z) (es : list FileEntry) : list FileEntry :=
  match es with
  | [] => []
  | fe :: es => if filenum fe =? n then es else fe :: del_first n es
  end.

Lemma DeteleFile_loop_spec h n fs es :
  points h fs es -> NoDup fs ->
  exists r fs', DeteleFile_loop h n fs = Some (r, fs') /\ points h fs' (del_first n es) /\ NoDup fs' /\
    match r with Some p => (p ∈ fs) /\ (forall q, q ∈ fs' <-> q ∈ fs /\ q <> p) | None => fs' = fs end.
Proof.
  induction 1 as [|p fe fs es Hp Hps IH]; intros Hnd; simpl.
  { exists None, []. split_and!; [done|constructor|done|done]. }
  apply NoDup_cons in Hnd as [Hnin Hnd]. rewrite Hp. simpl.
  destruct (filenum fe =? n).
  - do 2 eexists. split_and!; [done..|set_solver|set_solver].
  - destruct (IH Hnd) as (r & fs' & -> & Hps' & Hnd' & Hr). simpl. do 2 eexists. split_and!; [done|by constructor| |].
    + constructor; [|done]. destruct r; [set_solver|by subst].
    + destruct r as [q|]; [|by subst]. destruct Hr as [Hq Hiff]. split; [set_solver|].
      intros q'. rewrite !elem_of_cons, Hiff. set_solver.
Qed.

Lemma DeteleFile_ok s n :
  meta_ok s -> exists s', DeteleFile s n = Some s' /\ meta_ok s' /\ entries s' = del_first n (entries s) /\
    compaction_files s' = compaction_files s.
Proof.
  intros Hok. pose proof (meta_points s Hok) as Hp. pose proof Hok as [].
  destruct (DeteleFile_loop_spec _ n _ _ Hp mo_nodup0) as (r & fs' & Hl & Hps & Hnd & Hr).
  unfold DeteleFile. rewrite Hl. simpl. eexists. split; [done|]. destruct r as [p|]; [destruct Hr as [Hpin Hiff]|subst fs'].
  - split_and!; [|apply points_entries; simpl; apply points_delete; [set_solver|done]|done].
    constructor; simpl; [done| |].
    + intros q. rewrite Hiff, mo_dom0, lookup_delete_is_Some. naive_solver.
    + intros q [Hq _]%Hiff. by apply mo_fresh0.
  - split_and!; [by constructor|by apply points_entries|done].
Qed.

(** Storing through a live pointer replaces one entry. *)
Lemma store_entry_ok s p fe fe' :
  meta_ok s -> fheap s !! p = Some fe ->
  exists i, files_ s !! i = Some p /\ entries s !! i = Some fe /\
    meta_ok (store_entry s p fe') /\ entries (store_entry s p fe') = <[i := fe']> (entries s).
Proof.
  intros Hok Hp. pose proof (meta_points s Hok) as Hps. destruct Hok.
  assert (p ∈ files_ s) as [i Hi]%list_elem_of_lookup by (apply mo_dom0; eauto).
  exists i. assert (He : entries s !! i = Some fe).
  { destruct (Forall2_lookup_l _ _ _ _ _ Hps Hi) as (fe2 & -> & ?). congruence. }
  split_and!; [done|done| |].
  - constructor; simpl; [done| |done]. intros q. rewrite mo_dom0.
    destruct (decide (q = p)) as [->|]; [rewrite lookup_insert_eq, Hp|rewrite lookup_insert_ne by done]; naive_solver.
  - apply points_entries. apply Forall2_same_length_lookup_2; simpl.
    { rewrite length_insert. by eapply Forall2_length. }
    intros j q fq Hq. destruct (decide (j = i)) as [->|Hne].
    + assert (q = p) as -> by congruence. rewrite list_lookup_insert_eq by (by eapply lookup_lt_Some).
      intros [= <-]. apply lookup_insert_eq.
    + rewrite list_lookup_insert_ne by done. intros Hfq. rewrite lookup_insert_ne.
      * destruct (Forall2_lookup_l _ _ _ _ _ Hps Hq) as (fe2 & Hfe2 & ?). congruence.
      * intros ->. apply Hne. by eapply NoDup_lookup.
Qed.
End Store.

(** ** UpdateKeyNext on the store *)

(** [keys_num] is the length of the array. *)
Definition entry_wf (fe : FileEntry) : Prop := keys_num fe = len (keys_meta fe).

Lemma next_after_spec h fs es i fe :
  points h fs es -> NoDup (filenum <$> es) -> es !! i = Some fe ->
  next_after h (filenum fe) fs = Some (fs !! S i).
Proof.
  intros Hps. revert i. induction Hps as [|p fe0 fs es Hp Hps IH]; intros i Hnd Hi; simpl; [done|].
  rewrite fmap_cons in Hnd. apply NoDup_cons in Hnd as [Hnin Hnd]. rewrite Hp. simpl. destruct i as [|i]; simpl in Hi.
  - injection Hi as ->. rewrite Z.eqb_refl. by destruct fs.
  - destruct (Z.eqb_spec (filenum fe0) (filenum fe)) as [He|He]; [|by apply IH].
    destruct Hnin. rewrite He. apply list_elem_of_fmap. exists fe. split; [done|].
    by eapply list_elem_of_lookup_2.
Qed.

(** The entry of the file with its hints into the next older entry. *)
Definition hinted_entry (icmp : Comparator) (fe old : FileEntry) : FileEntry :=
  mkFE (filenum fe) (sstable_index fe) (with_next icmp (keys_meta old) <$> keys_meta fe)
    (keys_num fe) (filenum old).

Lemma UpdateKeyNext_ok icmp `{ComparatorLaws icmp} s p fe :
  meta_ok s -> NoDup (filenum <$> entries s) -> Forall entry_wf (entries s) ->
  Forall (fun fe => len (keys_meta fe) < 2 ^ 31) (entries s) ->
  fheap s !! p = Some fe -> keys_sorted icmp (keys_meta fe) ->
  Forall (fun n => km_next n = -1) (keys_meta fe) -> keys_meta fe <> [] ->
  exists i s', files_ s !! i = Some p /\ entries s !! i = Some fe /\
    UpdateKeyNext icmp s (Some p) = Some s' /\ meta_ok s' /\
    s' = match entries s !! S i with Some old => store_entry s p (hinted_entry icmp fe old) | None => s end /\
    entries s' = match entries s !! S i with
                 | Some old => <[i := hinted_entry icmp fe old]> (entries s)
                 | None => entries s
                 end.
Proof.
  intros Hok Hnd Hwf Hcnt Hp Hs Hm1 Hne. pose proof (meta_points s Hok) as Hps.
  destruct (store_entry_ok s p fe fe Hok Hp) as (i & Hi & He & _). exists i.
  assert (Hfe : keys_num fe = len (keys_meta fe)) by (rewrite Forall_lookup in Hwf; by eapply Hwf).
  assert (0 < len (keys_meta fe)).
  { destruct (keys_meta fe); [done|]. rewrite zlen_cons. pose proof (zlen_nonneg l). lia. }
  unfold UpdateKeyNext. rewrite Hp. simpl. destruct (Z.eqb_spec (keys_num fe) 0); [lia|].
  rewrite (next_after_spec _ _ _ i fe Hps Hnd He). simpl.
  destruct (files_ s !! S i) as [q|] eqn:Hq; cycle 1.
  { rewrite (lookup_ge_None_2 (entries s) (S i)); [exists s; by split_and!|].
    apply lookup_ge_None in Hq. apply Forall2_length in Hps. lia. }
  destruct (Forall2_lookup_l _ _ _ _ _ Hps Hq) as (old & Hold & Hhq). rewrite Hhq, Hold. simpl.
  assert (Hon : keys_num old = len (keys_meta old)) by (rewrite Forall_lookup in Hwf; by eapply Hwf).
  rewrite Hfe, Hon.
  pose proof (UpdateKeyNext_loop_spec icmp (keys_meta old) (keys_meta fe)
    (Z.to_nat (len (keys_meta fe) + len (keys_meta old))) 0 0 Hs Hm1) as Hl.
  rewrite Forall_lookup in Hcnt. specialize (Hl (Hcnt _ _ He) (Hcnt _ _ Hold)).
  unfold hinted in Hl. rewrite take_0, drop_0, fmap_nil, app_nil_l in Hl. change (Z.of_nat 0) with 0 in Hl.
  rewrite Hl; [|lia|lia|zlia|intros ? ? ? ? ?; lia]. simpl.
  unfold hinted_entry. rewrite Hfe.
  destruct (store_entry_ok s p fe (hinted_entry icmp fe old) Hok Hp) as (i' & Hi' & _ & Hok' & He').
  assert (i' = i) as -> by (eapply (NoDup_lookup (files_ s)); [by destruct Hok|exact Hi'|exact Hi]).
  unfold hinted_entry in Hok', He'. rewrite Hfe in Hok', He'.
  eexists. split_and!; [done|done|done|exact Hok'|done|exact He'].
Qed.

(** ** The tables under column compaction *)

Definition numbers (L0files : list FileMetaData) : list Z := (fun f => GetNumber (f_fd f)) <$> L0files.

Lemma compaction_consistent_spec rc rl :
  match compaction_consistent rc rl with
  | Some true => rc `prefix_of` numbers rl
  | Some false => ~ rc `prefix_of` numbers rl
  | None => exists extra, extra <> [] /\ rc = numbers rl ++ extra
  end.
Proof.
  revert rl. induction rc as [|n rc IH]; intros [|f rl]; simpl.
  - apply prefix_nil.
  - apply prefix_nil.
  - by exists (n :: rc).
  - change (numbers (f :: rl)) with (GetNumber (f_fd f) :: numbers rl). destruct (Z.eqb_spec n (GetNumber (f_fd f))) as [<-|Hne].
    + specialize (IH rl). destruct (compaction_consistent rc rl) as [[]|].
      * by apply prefix_cons.
      * intros H. by apply IH, (prefix_cons_inv_2 _ _ _ _ H).
      * destruct IH as (extra & ? & ->). by exists extra.
    + intros H. by apply prefix_cons_inv_1 in H.
Qed.

Lemma all_numbers L0 : foldl (fun cf f => GetNumber (f_fd f) :: cf) [] (reverse L0) = numbers L0.
Proof.
  assert (H : forall acc, foldl (fun cf f => GetNumber (f_fd f) :: cf) acc (reverse L0) = numbers L0 ++ acc).
  { induction L0 as [|f L0 IH]; intros acc; [done|]. rewrite reverse_cons, foldl_app. simpl.
    by rewrite IH. }
  by rewrite H, app_nil_r.
Qed.

Lemma prefix_reverse (l k : list Z) : reverse l `prefix_of` k -> l `suffix_of` reverse k.
Proof. intros [m ->]. exists (reverse m). by rewrite reverse_app, reverse_involutive. Qed.

Lemma numbers_reverse L0 : numbers (reverse L0) = reverse (numbers L0).
Proof. apply fmap_reverse. Qed.

Lemma UpdateCompactionState_spec s L0files :
  match UpdateCompactionState s L0files with
  | Some s' =>
      compaction_files s' `suffix_of` numbers L0files /\
      (L0files <> [] -> compaction_files s' <> []) /\
      (compaction_files s <> [] -> compaction_files s `suffix_of` numbers L0files -> s' = s) /\
      (~ compaction_files s `suffix_of` numbers L0files -> compaction_files s' = numbers L0files)
  | None => exists extra, extra <> [] /\ compaction_files s = extra ++ numbers L0files
  end.
Proof.
  unfold UpdateCompactionState. rewrite all_numbers.
  assert (Hnew : L0files <> [] -> numbers L0files <> []) by (by destruct L0files).
  destruct (Z.eqb_spec (len (compaction_files s)) 0) as [Hz%zlen_zero|Hz]; simpl.
  { split_and!; [done|done|congruence|done]. }
  pose proof (compaction_consistent_spec (reverse (compaction_files s)) (reverse L0files)) as Hc.
  rewrite numbers_reverse in Hc. destruct (compaction_consistent _ _) as [[]|]; simpl.
  - apply prefix_reverse in Hc. rewrite reverse_involutive in Hc. split_and!; [done| |done|done].
    intros _ H. apply Hz. by rewrite H.
  - assert (Hns : ~ compaction_files s `suffix_of` numbers L0files).
    { intros [m Hm]. apply Hc. exists (reverse m). by rewrite Hm, reverse_app. }
    split_and!; done.
  - destruct Hc as (extra & Hne & Heq). exists (reverse extra). split.
    + intros H. apply Hne. by rewrite <- (reverse_involutive extra), H.
    + rewrite <- (reverse_involutive (compaction_files s)), Heq, reverse_app. by rewrite reverse_involutive.
Qed.

(** The list of tables under column compaction is always the oldest part of
    level 0: after the update it is a suffix of the version's level-0 numbers, not
    empty when level 0 is not, and the current list is kept exactly when it still is
    such a suffix.  The update reads past the start of level 0 only when level 0 has
    lost its newest tables while the list has not. *)
Theorem compaction_files_suffix s L0files :
  match UpdateCompactionState s L0files with
  | Some s' =>
      compaction_files s' `suffix_of` numbers L0files /\
      (L0files <> [] -> compaction_files s' <> []) /\
      (compaction_files s <> [] -> compaction_files s `suffix_of` numbers L0files -> s' = s) /\
      (~ compaction_files s `suffix_of` numbers L0files -> compaction_files s' = numbers L0files)
  | None => exists extra, extra <> [] /\ compaction_files s = extra ++ numbers L0files
  end.
Proof. apply UpdateCompactionState_spec. Qed.

(** ** Properties of the hints *)

(** The hint [next] of a key with respect to the keys of the next older table. *)
Definition hint_ok (icmp : Comparator) (old : list KeysMetadata) (key : bytes) (next : Z) : Prop :=
  if next =? -1 then forall o, o ∈ old -> Compare icmp (km_key o) key < 0
  else (exists o, 0 <= next /\ old !! Z.to_nat next = Some o /\ 0 <= Compare icmp (km_key o) key) /\
       forall j o, Z.of_nat j < next -> old !! j = Some o -> Compare icmp (km_key o) key < 0.

(** What a lookup relies on: a hint that is set stands at the first key not smaller;
    -1 says nothing. *)
Definition hint_sound (icmp : Comparator) (old : list KeysMetadata) (key : bytes) (next : Z) : Prop :=
  0 <= next ->
  (exists o, old !! Z.to_nat next = Some o /\ 0 <= Compare icmp (km_key o) key) /\
  forall j o, Z.of_nat j < next -> old !! j = Some o -> Compare icmp (km_key o) key < 0.

Lemma hint_ok_sound icmp old key next : hint_ok icmp old key next -> hint_sound icmp old key next.
Proof.
  unfold hint_ok. intros H Hn. destruct (Z.eqb_spec next (-1)); [lia|].
  destruct H as [(o & _ & Ho & Hc) Hlt]. eauto.
Qed.

Lemma next_of_hint_ok icmp old key : hint_ok icmp old key (next_of icmp old key).
Proof.
  unfold hint_ok. destruct (Z.eqb_spec (next_of icmp old key) (-1)) as [He|He].
  - by apply next_of_None.
  - destruct (Z_of_nat_complete (next_of icmp old key)) as [j Hj].
    { unfold next_of in *. destruct (list_find _ old) as [[]|]; lia. }
    rewrite Hj. apply next_of_Some in Hj as [(o & Ho & Hc) Hlt]. split.
    + exists o. rewrite Nat2Z.id. split_and!; [lia|done|done].
    + intros i o' Hi. apply Hlt. lia.
Qed.

(** C25. [UpdateKeyNext] gives every key of a finished table the position of the
    first key of the next older table that is not smaller (-1 when all are) and records
    that table's number.  It changes nothing else: of the entry only these two fields, of
    the keys only the hint, no other entry, and neither the list of tables nor the list of
    those under compaction.  Without an older table it does nothing.  The [int32_t]
    indexes do not overflow for tables of fewer than 2^31 keys. *)
Theorem key_hints_correct icmp {Laws : ComparatorLaws icmp} s p fe :
  meta_ok s -> NoDup (filenum <$> entries s) -> Forall entry_wf (entries s) ->
  Forall (fun fe => len (keys_meta fe) < 2 ^ 31) (entries s) ->
  fheap s !! p = Some fe -> keys_sorted icmp (keys_meta fe) ->
  Forall (fun n => km_next n = -1) (keys_meta fe) -> keys_meta fe <> [] ->
  exists i s', UpdateKeyNext icmp s (Some p) = Some s' /\ meta_ok s' /\ entries s !! i = Some fe /\
    match entries s !! S i with
    | None => s' = s
    | Some old =>
        exists keys, let fe' := mkFE (filenum fe) (sstable_index fe) keys (keys_num fe) (filenum old) in
          fheap s' = <[p := fe']> (fheap s) /\ next_loc s' = next_loc s /\ files_ s' = files_ s /\
          compaction_files s' = compaction_files s /\ entries s' = <[i := fe']> (entries s) /\
          Forall2 (fun n n' => km_key n' = km_key n /\ km_offset n' = km_offset n /\ km_size n' = km_size n /\
                     hint_ok icmp (keys_meta old) (km_key n) (km_next n')) (keys_meta fe) keys
    end.
Proof.
  intros Hok Hnd Hwf Hcnt Hp Hs Hm1 Hne.
  destruct (UpdateKeyNext_ok icmp s p fe Hok Hnd Hwf Hcnt Hp Hs Hm1 Hne) as (i & s' & _ & Hi & Hu & Hok' & Hs' & He').
  exists i, s'. split_and!; [done..|]. destruct (entries s !! S i) as [old|]; [|done].
  exists (with_next icmp (keys_meta old) <$> keys_meta fe). cbv zeta. rewrite He', Hs'. split_and!; try done.
  apply Forall2_fmap_r, Forall_Forall2_diag, Forall_forall. intros n _. split_and!; [done..|]. apply next_of_hint_ok.
Qed.

(** Two tables, the newer with keys a and c, the older with key b. *)
Definition sample_key (c : Byte.byte) (seq : Z) : KeysMetadata :=
  mkKM (InternalKey_make [c] seq kTypeValue) (-1) 0 0.

Definition sample_meta : SstableMetadata :=
  mkSM (<[1%nat := mkFE 8 1 [sample_key Byte.x61 4; sample_key Byte.x63 3] 2 0]>
       (<[0%nat := mkFE 7 0 [sample_key Byte.x62 1] 1 0]> ∅)) 2 [1%nat; 0%nat] [].

Lemma sample_meta_ok : meta_ok sample_meta.
Proof.
  constructor; simpl.
  - apply (bool_decide_unpack (NoDup [1%nat; 0%nat])). vm_compute. done.
  - intros p. split.
    + intros Hp. repeat (apply elem_of_cons in Hp as [->|Hp]; [by vm_compute; eauto|]). by apply elem_of_nil in Hp.
    + intros [fe Hp]. repeat (apply lookup_insert_Some in Hp as [[<- _]|[_ Hp]]; [set_solver|]).
      by rewrite lookup_empty in Hp.
  - intros p Hp. repeat (apply elem_of_cons in Hp as [->|Hp]; [lia|]). by apply elem_of_nil in Hp.
Qed.

Lemma key_hints_correct_witness :
  exists s', UpdateKeyNext (InternalKeyComparator BytewiseComparator) sample_meta (Some 1%nat) = Some s' /\
    compaction_files s' = compaction_files sample_meta /\
    exists fe', fheap s' !! 1%nat = Some fe' /\ key_point_filenum fe' = 7 /\ length (keys_meta fe') = 2%nat.
Proof.
  destruct (key_hints_correct (InternalKeyComparator BytewiseComparator) sample_meta 1%nat
    (mkFE 8 1 [sample_key Byte.x61 4; sample_key Byte.x63 3] 2 0)) as (i & s' & Hs & _ & Hi & Hrest).
  - apply sample_meta_ok.
  - apply (bool_decide_unpack (NoDup _)). vm_compute. done.
  - repeat constructor.
  - repeat constructor.
  - vm_compute. done.
  - constructor; [constructor; [constructor|constructor]|constructor; [by vm_compute|constructor]].
  - repeat constructor.
  - done.
  - assert (i = 0%nat) as ->.
    { destruct i as [|[|i]]; [done|by vm_compute in Hi|]. apply lookup_lt_Some in Hi. vm_compute in Hi. lia. }
    destruct Hrest as (keys & Hh & _ & _ & Hc & _ & H2). exists s'. split_and!; [exact Hs|exact Hc|].
    eexists. split_and!; [rewrite Hh; apply lookup_insert_eq|reflexivity|]. simpl. by rewrite <- (Forall2_length _ _ _ H2).
Defined.
