(* ===== verification/VersionBuilder.v ===== *)
(** * Building a version from edits (db/version_builder.cc)

    A builder collects the files that a sequence of edits deletes from and adds to the
    levels of a base version, and merges them into the files of a new version.  A file
    is an object shared by versions and builders; its reference count lives in the
    store.  The debug checks of the source are part of the model: [None] is a failed
    assertion, an [abort()] or an access the source must not make. *)

From S2P Require Import Prelude Coding Comparator DbFormat VersionEdit SstableMeta.

(** ** File objects *)

(** A [FileMetaData*]: which object, and the fields the builder reads. *)
Record FileRef := mkRef { fr_id : nat; fr_meta : FileMetaData }.

(** The [refs] of the objects allocated; a deleted object has none. *)
Record FileStore := mkStore { st_refs : gmap nat Z; st_next : nat }.

Definition set_refs (st : FileStore) (f : FileRef) (r : Z) : FileStore :=
  mkStore (<[fr_id f := r]> (st_refs st)) (st_next st).

(** [new FileMetaData(m)] with [refs = 1]. *)
Definition new_FileMetaData (st : FileStore) (m : FileMetaData) : FileStore * FileRef :=
  let f := mkRef (st_next st) m in
  (mkStore (<[fr_id f := 1]> (st_refs st)) (S (st_next st)), f).

Definition UnrefFile (st : FileStore) (f : FileRef) : option FileStore :=
  r ← st_refs st !! fr_id f;
  if r - 1 <=? 0 then Some (mkStore (delete (fr_id f) (st_refs st)) (st_next st))
  else Some (set_refs st f (r - 1)).

Abbreviation file_number f := (GetNumber (f_fd f)).

Definition ref_number (f : FileRef) : Z := file_number (fr_meta f).

Definition ref_numbers (files : list FileRef) : list Z := ref_number <$> files.

(** ** The orders of files in a level *)

Definition NewestFirstBySeqNo (a b : FileMetaData) : bool :=
  if negb (largest_seqno (f_fd a) =? largest_seqno (f_fd b))
  then largest_seqno (f_fd b) <? largest_seqno (f_fd a)
  else if negb (smallest_seqno (f_fd a) =? smallest_seqno (f_fd b))
  then smallest_seqno (f_fd b) <? smallest_seqno (f_fd a)
  else file_number b <? file_number a.

(** [vector[i - 1], vector[i]] for every [i] from 1. *)
Fixpoint adjacent {A} (ok : A -> A -> bool) (l : list A) : bool :=
  match l with
  | x :: (y :: _) as l' => ok x y && adjacent ok l'
  | _ => true
  end.

(** The levels of a version being read or built. *)
Record VStorage := mkVSt { vst_files : list (list FileRef); vst_is_nvmcf : bool }.

Record LevelState := mkLS { ls_deleted_files : gset Z; ls_added_files : gmap Z FileRef }.

Record Rep := mkRep {
  base_vstorage_ : VStorage;
  num_levels_ : Z;
  levels_ : list LevelState;
  invalid_levels_ : gmap Z (gset Z);
  has_invalid_levels_ : bool;
}.

Definition added_list (ls : LevelState) : list FileRef := (map_to_list (ls_added_files ls)).*2.

Definition Rep_make (base : VStorage) : Rep :=
  mkRep base (len (vst_files base)) (replicate (length (vst_files base)) (mkLS ∅ ∅)) ∅ false.

Definition set_levels (ls : list LevelState) (rep : Rep) : Rep :=
  mkRep (base_vstorage_ rep) (num_levels_ rep) ls (invalid_levels_ rep) (has_invalid_levels_ rep).
Definition set_invalid (inv : gmap Z (gset Z)) (bad : bool) (rep : Rep) : Rep :=
  mkRep (base_vstorage_ rep) (num_levels_ rep) (levels_ rep) inv bad.

Section Builder.
Context (icmp : Comparator).

Definition BySmallestKey (a b : FileMetaData) : bool :=
  let r := Compare icmp (f_smallest a) (f_smallest b) in
  if negb (r =? 0) then r <? 0 else file_number a <? file_number b.

(** [FileComparator::operator()] of the comparator of a level. *)
Definition level_cmp (level : Z) (a b : FileMetaData) : bool :=
  if level =? 0 then NewestFirstBySeqNo a b else BySmallestKey a b.

(** ** Consistency checks *)

Definition check_level0 (f1 f2 : FileMetaData) : bool :=
  NewestFirstBySeqNo f1 f2 &&
  (if smallest_seqno (f_fd f2) =? largest_seqno (f_fd f2)
   then (smallest_seqno (f_fd f2) <? largest_seqno (f_fd f1)) || (smallest_seqno (f_fd f2) =? 0)
   else negb (smallest_seqno (f_fd f1) <=? smallest_seqno (f_fd f2))).

Definition check_level_non0 (f1 f2 : FileMetaData) : bool :=
  BySmallestKey f1 f2 && negb (0 <=? Compare icmp (f_largest f1) (f_smallest f2)).

Definition check_level (is_nvmcf : bool) (level : Z) (files : list FileMetaData) : bool :=
  if is_nvmcf && (level =? 0) then true
  else adjacent (if level =? 0 then check_level0 else check_level_non0) files.

(** [false] when the source aborts; [None] when a level is missing. *)
Definition CheckConsistency (num_levels : Z) (v : VStorage) : option bool :=
  fold_opt (fun ok level => files ← vst_files v !z level;
                            Some (ok && check_level (vst_is_nvmcf v) level (fr_meta <$> files)))
    true (upto num_levels).

Definition is_added (rep : Rep) (number l : Z) : option bool :=
  ls ← levels_ rep !z l; Some (bool_decide (is_Some (ls_added_files ls !! number))).

(** A file to delete exists in the base version, or was added to its level or a higher
    one by an edit applied before. *)
Definition CheckConsistencyForDeletes (rep : Rep) (number level : Z) : option bool :=
  found ← fold_opt (fun found l => files ← vst_files (base_vstorage_ rep) !z l;
                      Some (found || bool_decide (number ∈ ref_numbers files)))
            false (upto (num_levels_ rep));
  found ← fold_opt (fun found l => if (found : bool) then Some true else is_added rep number l)
            found (filter (fun l => level < l) (upto (num_levels_ rep)));
  if (found : bool) then Some true else is_added rep number level.

Definition CheckConsistencyForNumLevels (rep : Rep) : bool :=
  if has_invalid_levels_ rep then false
  else forallb (fun x : Z * gset Z => bool_decide (x.2 = ∅)) (map_to_list (invalid_levels_ rep)).

(** ** Applying an edit *)

Definition invalid_at (rep : Rep) (level : Z) : gset Z := default ∅ (invalid_levels_ rep !! level).

Definition delete_file (s : FileStore * Rep) (del_file : Z * Z) : option (FileStore * Rep) :=
  let '(st, rep) := s in
  let '(level, number) := del_file in
  if level <? num_levels_ rep then
    ls ← levels_ rep !z level;
    lv ← zset (levels_ rep) level (mkLS ({[number]} ∪ ls_deleted_files ls) (ls_added_files ls));
    let rep := set_levels lv rep in
    ok ← CheckConsistencyForDeletes rep number level;
    if negb ok then None
    else match ls_added_files ls !! number with
    | None => Some (st, rep)
    | Some existing =>
        st ← UnrefFile st existing;
        lv ← zset (levels_ rep) level
               (mkLS ({[number]} ∪ ls_deleted_files ls) (delete number (ls_added_files ls)));
        Some (st, set_levels lv rep)
    end
  else
    let inv := invalid_at rep level in
    if bool_decide (number ∈ inv)
    then Some (st, set_invalid (<[level := inv ∖ {[number]}]> (invalid_levels_ rep)) (has_invalid_levels_ rep) rep)
    else Some (st, set_invalid (<[level := inv]> (invalid_levels_ rep)) true rep).

Definition add_file (s : FileStore * Rep) (new_file : Z * FileMetaData) : option (FileStore * Rep) :=
  let '(st, rep) := s in
  let '(level, m) := new_file in
  let number := file_number m in
  if level <? num_levels_ rep then
    let '(st, f) := new_FileMetaData st m in
    ls ← levels_ rep !z level;
    if bool_decide (is_Some (ls_added_files ls !! number)) then None
    else
      let deleted := if negb (f_is_nvm_level0 m) then ls_deleted_files ls ∖ {[number]}
                     else ls_deleted_files ls in
      lv ← zset (levels_ rep) level (mkLS deleted (<[number := f]> (ls_added_files ls)));
      Some (st, set_levels lv rep)
  else
    let inv := invalid_at rep level in
    if bool_decide (number ∈ inv)
    then Some (st, set_invalid (<[level := inv]> (invalid_levels_ rep)) true rep)
    else Some (st, set_invalid (<[level := {[number]} ∪ inv]> (invalid_levels_ rep)) (has_invalid_levels_ rep) rep).

Definition Apply (s : FileStore * Rep) (edit : VersionEdit) : option (FileStore * Rep) :=
  ok ← CheckConsistency (num_levels_ s.2) (base_vstorage_ s.2);
  if negb ok then None
  else
    s ← fold_opt delete_file s (ve_deleted_files edit);
    fold_opt add_file s (ve_new_files edit).

(** ** Saving the new version *)

(** [VersionStorageInfo::AddFile]; files of a level above 0 must not overlap. *)
Definition VStorage_AddFile (st : FileStore) (v : VStorage) (level : Z) (f : FileRef)
  : option (FileStore * VStorage) :=
  files ← vst_files v !z level;
  if match last files with
     | Some f2 => (0 <? level) && (0 <=? Compare icmp (f_largest (fr_meta f2)) (f_smallest (fr_meta f)))
     | None => false
     end then None
  else
    r ← st_refs st !! fr_id f;
    fs ← zset (vst_files v) level (files ++ [f]);
    Some (set_refs st f (r + 1), mkVSt fs (vst_is_nvmcf v)).

Definition MaybeAddFile (ls : LevelState) (level : Z) (s : FileStore * VStorage) (x : FileRef * bool)
  : option (FileStore * VStorage) :=
  let '(f, is_nvmcf_added_iter) := x in
  let is_deleted := bool_decide (ref_number f ∈ ls_deleted_files ls) in
  if negb is_nvmcf_added_iter then
    if is_deleted then Some s else VStorage_AddFile s.1 s.2 level f
  else if is_deleted && negb (f_is_nvm_level0 (fr_meta f)) then Some s
  else VStorage_AddFile s.1 s.2 level f.

(** [a] may come before [b]. *)
Definition file_le (level : Z) (a b : FileMetaData) : Prop := level_cmp level b a = false.

#[export] Instance file_le_dec level a b : Decision (file_le level a b).
Proof. unfold file_le. apply _. Defined.

(** [std::sort] with the comparator of the level. *)
Definition sort_files (level : Z) (l : list FileMetaData) : list FileMetaData :=
  merge_sort (file_le level) l.

Definition sort_refs (level : Z) (l : list FileRef) : list FileRef :=
  merge_sort (fun a b => file_le level (fr_meta a) (fr_meta b)) l.

(** The [while] loop over the base files and the added files: the calls of
    [MaybeAddFile] in order, [true] for the third argument of an added file.  The added
    file goes first only when it is less than the base file. *)
Definition merge_calls (level : Z) (is_nvmcf : bool) (base added : list FileRef) : list (FileRef * bool) :=
  list_merge (fun x y => file_le level (fr_meta x.1) (fr_meta y.1))
    ((., false) <$> base) ((., is_nvmcf) <$> added).

Definition save_level (rep : Rep) (s : FileStore * VStorage) (level : Z) : option (FileStore * VStorage) :=
  base_files ← vst_files (base_vstorage_ rep) !z level;
  ls ← levels_ rep !z level;
  let added_files := sort_refs level (added_list ls) in
  if (0 <? level) && negb (adjacent (fun a b => Compare icmp (f_smallest (fr_meta a)) (f_smallest (fr_meta b)) <=? 0)
                             added_files) then None
  else fold_opt (MaybeAddFile ls level) s (merge_calls level (vst_is_nvmcf s.2) base_files added_files).

Definition SaveTo (st : FileStore) (rep : Rep) (vstorage : VStorage) : option (FileStore * VStorage) :=
  ok1 ← CheckConsistency (num_levels_ rep) (base_vstorage_ rep);
  ok2 ← CheckConsistency (num_levels_ rep) vstorage;
  if negb (ok1 && ok2) then None
  else
    s ← fold_opt (save_level rep) (st, vstorage) (upto (num_levels_ rep));
    ok ← CheckConsistency (num_levels_ rep) s.2;
    if negb ok then None else Some s.

(** [~Rep]. *)
Definition Rep_destroy (st : FileStore) (rep : Rep) : option FileStore :=
  fold_opt UnrefFile st (levels_ rep ≫= added_list).

(** A builder that applies edits and saves the version. *)
Definition apply_and_save (st : FileStore) (base : VStorage) (edits : list VersionEdit) (v : VStorage)
  : option (FileStore * Rep * VStorage) :=
  '(st, rep) ← fold_opt Apply (st, Rep_make base) edits;
  '(st, v) ← SaveTo st rep v;
  Some (st, rep, v).
End Builder.

(** ** The orders are total *)

Section Order.
Context (icmp : Comparator) {Laws : ComparatorLaws icmp}.
Implicit Types (a b c : FileMetaData).

Lemma file_le_zero a b :
  file_le icmp 0 a b <->
  (largest_seqno (f_fd b) < largest_seqno (f_fd a) \/ largest_seqno (f_fd b) = largest_seqno (f_fd a) /\
   (smallest_seqno (f_fd b) < smallest_seqno (f_fd a) \/
    smallest_seqno (f_fd b) = smallest_seqno (f_fd a) /\ file_number b <= file_number a)).
Proof.
  unfold file_le, level_cmp, NewestFirstBySeqNo. simpl.
  destruct (Z.eqb_spec (largest_seqno (f_fd b)) (largest_seqno (f_fd a))),
    (Z.eqb_spec (smallest_seqno (f_fd b)) (smallest_seqno (f_fd a))); simpl; rewrite Z.ltb_ge; lia.
Qed.

Lemma file_le_nonzero l a b :
  l <> 0 ->
  file_le icmp l a b <->
  (Compare icmp (f_smallest a) (f_smallest b) < 0 \/
   Compare icmp (f_smallest a) (f_smallest b) = 0 /\ file_number a <= file_number b).
Proof using Laws.
  intros Hl. unfold file_le, level_cmp, BySmallestKey. destruct (Z.eqb_spec l 0); [done|].
  pose proof (cmp_sym (c := icmp) (f_smallest a) (f_smallest b)) as Hs.
  destruct (Z.eqb_spec (Compare icmp (f_smallest b) (f_smallest a)) 0); simpl; rewrite Z.ltb_ge; lia.
Qed.

#[export] Instance file_le_trans l : Transitive (file_le icmp l).
Proof using Laws.
  intros a b c. destruct (decide (l = 0)) as [->|Hl]; [rewrite !file_le_zero; lia|].
  rewrite !file_le_nonzero by done. intros [H1|[H1 N1]] [H2|[H2 N2]].
  - left. by apply (cmp_lt_trans icmp _ (f_smallest b)).
  - left. apply (cmp_lt_le_trans icmp _ (f_smallest b)); lia.
  - left. apply (cmp_le_lt_trans icmp _ (f_smallest b)); lia.
  - right. split; [|lia]. pose proof (cmp_eq_l icmp _ _ (f_smallest c) H1). lia.
Qed.

#[export] Instance file_le_total l : Total (file_le icmp l).
Proof using Laws.
  intros a b. destruct (decide (l = 0)) as [->|Hl]; [rewrite !file_le_zero; lia|].
  rewrite !file_le_nonzero by done.
  pose proof (cmp_sym (c := icmp) (f_smallest a) (f_smallest b)). lia.
Qed.

Lemma file_le_number l a b : file_le icmp l a b -> file_le icmp l b a -> file_number a = file_number b.
Proof using Laws.
  destruct (decide (l = 0)) as [->|Hl]; [rewrite !file_le_zero; lia|].
  rewrite !file_le_nonzero by done.
  pose proof (cmp_sym (c := icmp) (f_smallest a) (f_smallest b)). lia.
Qed.

(** Files with distinct numbers have one order. *)
Lemma sort_files_unique l (fs gs : list FileMetaData) :
  StronglySorted (file_le icmp l) fs -> fs ≡ₚ gs -> NoDup ((fun f => file_number f) <$> gs) ->
  fs = sort_files icmp l gs.
Proof using Laws.
  intros Hs Hp Hn. assert (Hp' : fs ≡ₚ sort_files icmp l gs) by (unfold sort_files; by rewrite merge_sort_Permutation).
  eapply StronglySorted_unique_strong; [|done|apply StronglySorted_merge_sort; apply _|done].
  intros x y Hx Hy Hxy Hyx. rewrite <- Hp' in Hy. rewrite Hp in Hx, Hy.
  eapply NoDup_fmap_eq; [done|done|done|]. by eapply file_le_number.
Qed.
End Order.

(** ** Reference counts *)

Definition occurrences (id : nat) (roots : list FileRef) : nat :=
  length (filter (fun f => fr_id f = id) roots).

(** The count of an object is the number of the references that keep it; an object
    without one is deleted. *)
Record counts (st : FileStore) (roots : list FileRef) : Prop := {
  co_refs id : st_refs st !! id =
    match occurrences id roots with O => None | S n => Some (Z.of_nat (S n)) end;
  co_next f : f ∈ roots -> (fr_id f < st_next st)%nat;
  co_same f g : f ∈ roots -> g ∈ roots -> fr_id f = fr_id g -> f = g;
}.

#[export] Instance counts_proper st : Proper ((≡ₚ) ==> iff) (counts st).
Proof.
  assert (forall l l', l ≡ₚ l' -> counts st l -> counts st l') as Hp.
  { intros l l' Hl [H1 H2 H3]. constructor.
    - intros id. rewrite H1. unfold occurrences. by rewrite Hl.
    - intros f. rewrite <- Hl. apply H2.
    - intros f g. rewrite <- !Hl. apply H3. }
  intros l l' Hl. split; apply Hp; by rewrite Hl.
Qed.

Lemma occurrences_cons id f R :
  occurrences id (f :: R) = ((if decide (fr_id f = id) then 1 else 0) + occurrences id R)%nat.
Proof. unfold occurrences. rewrite filter_cons. by destruct (decide _). Qed.

Lemma occurrences_in f R : f ∈ R -> exists n, occurrences (fr_id f) R = S n.
Proof.
  intros Hf. destruct (occurrences (fr_id f) R) eqn:E; [|by eexists].
  apply length_zero_iff_nil in E. exfalso. apply (not_elem_of_nil f). rewrite <- E.
  by apply list_elem_of_filter.
Qed.

Lemma counts_unref st f R :
  counts st (f :: R) -> exists st', UnrefFile st f = Some st' /\ counts st' R.
Proof.
  intros [H1 H2 H3]. unfold UnrefFile. rewrite H1, occurrences_cons, decide_True by done. simpl.
  destruct (Z.leb_spec (Z.of_nat (S (occurrences (fr_id f) R)) - 1) 0); eexists; split; try done;
    constructor; simpl; try (intros g Hg; apply H2; by right);
    try (intros g h Hg Hh; apply H3; by right); intros id.
  all: specialize (H1 id); rewrite occurrences_cons in H1; destruct (decide (fr_id f = id)) as [<-|Hne].
  - rewrite lookup_delete_eq. destruct (occurrences (fr_id f) R); [done|lia].
  - by rewrite lookup_delete_ne.
  - rewrite lookup_insert_eq. destruct (occurrences (fr_id f) R); [lia|f_equal; lia].
  - by rewrite lookup_insert_ne.
Qed.

Lemma counts_unref_all st fs R :
  counts st (fs ++ R) -> exists st', fold_opt UnrefFile st fs = Some st' /\ counts st' R.
Proof.
  revert st. induction fs as [|f fs IH]; intros st H; simpl; [by eexists|].
  apply counts_unref in H as (st' & -> & H). by apply IH.
Qed.

Lemma counts_new st m R :
  counts st R -> counts (new_FileMetaData st m).1 ((new_FileMetaData st m).2 :: R).
Proof.
  intros [H1 H2 H3]. constructor; simpl.
  - intros id. rewrite occurrences_cons. simpl. destruct (decide (st_next st = id)) as [<-|Hne].
    + rewrite lookup_insert_eq. destruct (occurrences (st_next st) R) eqn:E; [done|].
      assert (filter (fun f => fr_id f = st_next st) R <> []) as Hf.
      { intros Hf. unfold occurrences in E. by rewrite Hf in E. }
      destruct (filter _ R) as [|f l] eqn:Ef; [done|].
      assert (f ∈ filter (fun f => fr_id f = st_next st) R) as [Hid Hin]%list_elem_of_filter by (rewrite Ef; left).
      apply H2 in Hin. lia.
    + by rewrite lookup_insert_ne, H1.
  - intros f [->|Hf]%elem_of_cons; simpl; [lia|]. apply H2 in Hf. lia.
  - intros f g [->|Hf]%elem_of_cons [->|Hg]%elem_of_cons; simpl; [done| | |by apply H3];
      intros E; [apply H2 in Hg|apply H2 in Hf]; lia.
Qed.

Lemma counts_ref st f R :
  counts st R -> f ∈ R ->
  exists r, st_refs st !! fr_id f = Some r /\ counts (set_refs st f (r + 1)) (f :: R).
Proof.
  intros [H1 H2 H3] Hf. destruct (occurrences_in f R Hf) as [n Hn].
  exists (Z.of_nat (S n)). split; [by rewrite H1, Hn|]. constructor; simpl.
  - intros id. rewrite occurrences_cons. destruct (decide (fr_id f = id)) as [<-|Hne].
    + rewrite lookup_insert_eq, Hn. simpl. f_equal. lia.
    + by rewrite lookup_insert_ne, H1.
  - intros g [->|Hg]%elem_of_cons; by apply H2.
  - intros g h [->|Hg]%elem_of_cons [->|Hh]%elem_of_cons; by apply H3.
Qed.

(** ** What the edits mean *)

Definition undeleted (D : list (Z * Z)) (level : Z) (files : list FileMetaData) : list FileMetaData :=
  filter (fun f => (level, file_number f) ∉ D) files.

Definition new_in (N : list (Z * FileMetaData)) (level : Z) : list FileMetaData :=
  (filter (fun x => x.1 = level) N).*2.

(** The files of a level after an edit, in no particular order. *)
Definition edit_level (e : VersionEdit) (level : Z) (files : list FileMetaData) : list FileMetaData :=
  undeleted (ve_deleted_files e) level files ++ new_in (ve_new_files e) level.

Definition edit_levels (cur : Z -> list FileMetaData) (e : VersionEdit) : Z -> list FileMetaData :=
  fun level => edit_level e level (cur level).

(** The files of a level of a version. *)
Definition level_metas (v : VStorage) (level : Z) : list FileMetaData :=
  match vst_files v !z level with Some fs => fr_meta <$> fs | None => [] end.

(** What an edit must respect: the deleted set has no duplicates and its files exist,
    every level exists, files of a level keep distinct numbers, and only a level-0 NVM
    table may come back to the level it is deleted from. *)
Record legal_edit (base : VStorage) (cur : Z -> list FileMetaData) (e : VersionEdit) : Prop := {
  le_set : NoDup (ve_deleted_files e);
  le_deleted l k : (l, k) ∈ ve_deleted_files e -> 0 <= l < len (vst_files base) /\ k ∈ numbers (cur l);
  le_level l f : (l, f) ∈ ve_new_files e -> 0 <= l < len (vst_files base);
  le_new l f : (l, f) ∈ ve_new_files e ->
    if f_is_nvm_level0 f then vst_is_nvmcf base = true else file_number f ∉ numbers (level_metas base l);
  le_nodup l : NoDup (numbers (edit_level e l (cur l)));
}.

Fixpoint legal_edits (base : VStorage) (cur : Z -> list FileMetaData) (edits : list VersionEdit) : Prop :=
  match edits with
  | [] => True
  | e :: edits => legal_edit base cur e /\ legal_edits base (edit_levels cur e) edits
  end.

Definition consistent (v : VStorage) (files : Z -> list FileMetaData) (icmp : Comparator) : Prop :=
  forall l, 0 <= l < len (vst_files v) -> check_level icmp (vst_is_nvmcf v) l (files l) = true.

Section BuildOk.
Context (icmp : Comparator) {Laws : ComparatorLaws icmp}.
Context (base : VStorage) (Hbase : consistent base (level_metas base) icmp).
Implicit Types (rep : Rep) (st : FileStore) (cur : Z -> list FileMetaData).

(** The files of a level while edits are applied. *)
Record level_rel (b : list FileRef) (ls : LevelState) (files : list FileMetaData) : Prop := {
  lr_keys n f : ls_added_files ls !! n = Some f -> ref_number f = n;
  lr_files : files ≡ₚ fr_meta <$> (filter (fun f => ref_number f ∉ ls_deleted_files ls) b ++ added_list ls);
  lr_nodup : NoDup (numbers files);
  lr_nvm n f : ls_added_files ls !! n = Some f -> n ∈ ls_deleted_files ls ->
    f_is_nvm_level0 (fr_meta f) = true /\ vst_is_nvmcf base = true;
}.

Record rep_ok rep cur : Prop := {
  ro_base : base_vstorage_ rep = base;
  ro_num : num_levels_ rep = len (vst_files base);
  ro_len : len (levels_ rep) = len (vst_files base);
  ro_level l : 0 <= l < len (vst_files base) -> exists b ls,
    vst_files base !z l = Some b /\ levels_ rep !z l = Some ls /\ level_rel b ls (cur l);
  ro_valid : invalid_levels_ rep = ∅ /\ has_invalid_levels_ rep = false;
}.

(** The references the builder holds. *)
Definition rep_files rep : list FileRef := levels_ rep ≫= added_list.

Lemma CheckConsistency_ok v n :
  n = len (vst_files v) -> consistent v (level_metas v) icmp -> CheckConsistency icmp n v = Some true.
Proof.
  intros -> Hc. unfold CheckConsistency.
  rewrite (fold_opt_and _ (fun l => check_level icmp (vst_is_nvmcf v) l (level_metas v l))).
  - f_equal. simpl. apply forallb_forall. intros l Hl%list_elem_of_In%elem_of_upto. by apply Hc.
  - intros b l Hl%elem_of_upto. destruct (zget_is_Some (vst_files v) l Hl) as [fs Hfs].
    unfold level_metas. by rewrite Hfs.
Qed.

Lemma added_list_lookup ls f : f ∈ added_list ls <-> exists n, ls_added_files ls !! n = Some f.
Proof.
  unfold added_list. rewrite list_elem_of_fmap. split.
  - intros ([n g] & -> & Hg%elem_of_map_to_list). by exists n.
  - intros [n Hn]. exists (n, f). split; [done|]. by apply elem_of_map_to_list.
Qed.

Lemma added_list_delete d m n f :
  m !! n = Some f -> added_list (mkLS d m) ≡ₚ f :: added_list (mkLS d (delete n m)).
Proof. intros H. unfold added_list. simpl. by rewrite <- (map_to_list_delete m n f H). Qed.

Lemma added_list_insert d m n f :
  m !! n = None -> added_list (mkLS d (<[n := f]> m)) ≡ₚ f :: added_list (mkLS d m).
Proof. intros H. unfold added_list. simpl. by rewrite map_to_list_insert. Qed.

Lemma level_rel_delete b ls files k :
  level_rel b ls files ->
  level_rel b (mkLS ({[k]} ∪ ls_deleted_files ls) (delete k (ls_added_files ls)))
    (filter (fun f => file_number f <> k) files).
Proof.
  intros [Hk Hf Hn Hv]. constructor; simpl.
  - intros n f [_ Hl]%lookup_delete_Some. by apply Hk.
  - rewrite Hf, filter_fmap, filter_app, list_filter_filter. apply fmap_Permutation, Permutation_app.
    + apply reflexive_eq, list_filter_iff. intros f. unfold ref_number. set_solver.
    + assert (Hrest : filter (fun f => file_number (fr_meta f) <> k)
          (added_list (mkLS (ls_deleted_files ls) (delete k (ls_added_files ls)))) =
          added_list (mkLS (ls_deleted_files ls) (delete k (ls_added_files ls)))).
      { apply filter_id. intros f (n & Hl)%added_list_lookup. simpl in Hl. apply lookup_delete_Some in Hl as [Hne Hl].
        apply Hk in Hl. unfold ref_number in Hl. congruence. }
      destruct ls as [d m]. simpl in *. destruct (m !! k) as [g|] eqn:Eg.
      * rewrite (added_list_delete d m k g Eg), filter_cons, decide_False, Hrest; [done|].
        apply Hk in Eg. unfold ref_number in Eg. tauto.
      * by rewrite delete_id in Hrest |- * by done; rewrite Hrest.
  - by apply NoDup_fmap_filter.
  - intros n f [Hne Hl]%lookup_delete_Some Hd. apply (Hv n f Hl). set_solver.
Qed.

Lemma level_rel_add b ls files m f :
  level_rel b ls files -> fr_meta f = m ->
  NoDup (numbers (files ++ [m])) ->
  (if f_is_nvm_level0 m then vst_is_nvmcf base = true else file_number m ∉ numbers (fr_meta <$> b)) ->
  level_rel b (mkLS (if negb (f_is_nvm_level0 m) then ls_deleted_files ls ∖ {[file_number m]} else ls_deleted_files ls)
                 (<[file_number m := f]> (ls_added_files ls))) (files ++ [m]) /\
  ls_added_files ls !! file_number m = None.
Proof.
  intros [Hk Hf Hn Hv] <- Hnd Hnew. set (m := fr_meta f) in *. destruct ls as [d mp]. simpl in *.
  assert (Hnone : mp !! file_number m = None).
  { destruct (mp !! file_number m) as [g|] eqn:Eg; [|done]. exfalso.
    unfold numbers in Hnd. rewrite fmap_app in Hnd. apply NoDup_app in Hnd as (_ & Hd & _).
    apply (Hd (file_number m)); [|left]. apply list_elem_of_fmap. exists (fr_meta g).
    split; [symmetry; apply (Hk _ _ Eg)|]. rewrite Hf. apply list_elem_of_fmap. exists g. split; [done|].
    apply elem_of_app. right. apply added_list_lookup. eauto. }
  split; [|done]. constructor; simpl.
  - intros n g. rewrite lookup_insert_Some. intros [[<- <-]|[_ Hg]]; [done|by apply Hk].
  - rewrite added_list_insert by done. rewrite Hf, !fmap_app, fmap_cons, <- app_assoc.
    apply Permutation_app; [|by rewrite Permutation_app_comm].
    apply reflexive_eq. f_equal. apply filter_ext_in. intros g Hg.
    destruct (f_is_nvm_level0 m); simpl; [done|].
    assert (ref_number g <> file_number m); [|set_solver].
    intros E. apply Hnew. unfold numbers. rewrite <- list_fmap_compose. apply list_elem_of_fmap.
    by exists g.
  - done.
  - intros n g. rewrite lookup_insert_Some. intros [[<- <-]|[Hne Hg]] Hd.
    + fold m. destruct (f_is_nvm_level0 m); [done|]. simpl in Hd. set_solver.
    + apply (Hv n g Hg). destruct (f_is_nvm_level0 m); simpl in Hd; set_solver.
Qed.

Lemma deletes_found rep b ls files l k :
  base_vstorage_ rep = base -> num_levels_ rep = len (vst_files base) -> len (levels_ rep) = len (vst_files base) ->
  0 <= l < len (vst_files base) ->
  vst_files base !z l = Some b -> levels_ rep !z l = Some (mkLS ({[k]} ∪ ls_deleted_files ls) (ls_added_files ls)) ->
  level_rel b ls files -> k ∈ numbers files ->
  CheckConsistencyForDeletes rep k l = Some true.
Proof.
  intros Hb Hn Hlen Hl Hbl Hll [Hk Hf _ _] Hin. unfold CheckConsistencyForDeletes. rewrite Hb, Hn.
  assert (Hadd : forall i, 0 <= i < len (vst_files base) -> exists x, is_added rep k i = Some x).
  { intros i Hi. unfold is_added. rewrite <- Hlen in Hi. destruct (zget_is_Some _ _ Hi) as [x ->]. by eexists. }
  rewrite (fold_opt_or _ (fun i => match vst_files base !z i with
    Some fs => bool_decide (k ∈ ref_numbers fs) | None => false end)); cycle 1.
  { intros x i Hi%elem_of_upto. by destruct (zget_is_Some _ _ Hi) as [fs ->]. }
  simpl. set (found := existsb _ _).
  destruct (fold_opt_ok (fun found i => if (found : bool) then Some true else is_added rep k i)
    (fun _ s => found = true -> s = true) found (filter (fun i => l < i) (upto (len (vst_files base)))))
    as (s & -> & Hs); [done| |].
  { intros pre i s Hp Hs. destruct s; [by eexists|]. destruct (Hadd i) as [x Hx].
    - apply elem_of_upto. eapply list_elem_of_filter, elem_of_prefix; [|done]. apply elem_of_app. right. left.
    - exists x. split; [done|]. intros Hf'. by apply Hs in Hf'. }
  simpl. destruct s; [done|]. unfold is_added. rewrite Hll. simpl. f_equal. apply bool_decide_eq_true.
  unfold numbers in Hin. rewrite Hf, <- list_fmap_compose in Hin.
  apply list_elem_of_fmap in Hin as (f & -> & [Hfb|Hfa]%elem_of_app).
  - exfalso. assert (found = true); [|by specialize (Hs ltac:(done))].
    apply existsb_exists. exists l. split; [by apply list_elem_of_In, elem_of_upto|]. rewrite Hbl.
    apply bool_decide_eq_true, list_elem_of_fmap. exists f. by apply list_elem_of_filter in Hfb as [_ Hfb].
  - apply added_list_lookup in Hfa as [n Hfa]. pose proof (Hk _ _ Hfa) as <-. by eexists.
Qed.

(** One level of the builder changes with its files. *)
Lemma rep_ok_set rep cur cur' l ls' :
  rep_ok rep cur -> 0 <= l < len (vst_files base) ->
  (forall b, vst_files base !z l = Some b -> level_rel b ls' (cur' l)) ->
  (forall l', l' <> l -> cur' l' = cur l') ->
  rep_ok (set_levels (<[Z.to_nat l := ls']> (levels_ rep)) rep) cur'.
Proof.
  intros [Hb Hn Hlen Hlev Hinv] Hl Hrel Hsame. destruct rep as [base' n lv inv bad]. simpl in *.
  constructor; simpl; [done|done|by rewrite zlen_insert| |done]. intros l' Hl'.
  destruct (Hlev l' Hl') as (b & ls & Hbl & Hll & Hr). destruct (decide (l' = l)) as [->|Hne].
  - exists b, ls'. split_and!; [done| |by apply Hrel]. by rewrite zget_insert, Z.eqb_refl by lia.
  - exists b, ls. split_and!; [done| |by rewrite Hsame]. rewrite zget_insert by lia.
    by destruct (Z.eqb_spec l l').
Qed.

Lemma rep_files_set rep l ls ls' :
  levels_ rep !z l = Some ls -> exists rest,
  rep_files rep ≡ₚ added_list ls ++ rest /\
  rep_files (set_levels (<[Z.to_nat l := ls']> (levels_ rep)) rep) ≡ₚ added_list ls' ++ rest.
Proof.
  intros [_ Hl]%zget_Some. destruct (bind_split added_list _ _ _ Hl) as (rest & H1 & H2).
  exists rest. destruct rep. split; [done|apply H2].
Qed.

#[local] Arguments set_levels : simpl never.

Definition delete_from cur (x : Z * Z) : Z -> list FileMetaData :=
  fun l => if l =? x.1 then filter (fun f => file_number f <> x.2) (cur l) else cur l.

Lemma delete_file_ok st rep cur R l k :
  rep_ok rep cur -> counts st (rep_files rep ++ R) ->
  0 <= l < len (vst_files base) -> k ∈ numbers (cur l) ->
  exists st' rep', delete_file (st, rep) (l, k) = Some (st', rep') /\
    rep_ok rep' (delete_from cur (l, k)) /\ counts st' (rep_files rep' ++ R).
Proof.
  intros Hok Hc Hl Hk. pose proof Hok as [Hb Hn Hlen Hlev Hinv].
  destruct (Hlev l Hl) as (b & ls & Hbl & Hll & Hr).
  set (ls1 := mkLS ({[k]} ∪ ls_deleted_files ls) (ls_added_files ls)).
  set (ls2 := mkLS ({[k]} ∪ ls_deleted_files ls) (delete k (ls_added_files ls))).
  assert (Hok2 : rep_ok (set_levels (<[Z.to_nat l := ls2]> (levels_ rep)) rep) (delete_from cur (l, k))).
  { apply (rep_ok_set rep cur); [done|done| |].
    - intros b' Hb'. rewrite Hbl in Hb'. injection Hb' as <-. unfold delete_from. simpl. rewrite Z.eqb_refl.
      by apply level_rel_delete.
    - intros l' Hne. unfold delete_from. simpl. by destruct (Z.eqb_spec l' l). }
  destruct (rep_files_set rep l ls ls2 Hll) as (rest & Hr1 & Hr2).
  unfold delete_file. rewrite Hn. destruct (Z.ltb_spec l (len (vst_files base))); [|lia].
  rewrite Hll. simpl. rewrite zset_in_range by lia. simpl.
  assert (Hfound : CheckConsistencyForDeletes (set_levels (<[Z.to_nat l:=ls1]> (levels_ rep)) rep) k l = Some true).
  { eapply deletes_found; unfold set_levels; simpl; try done; [by rewrite zlen_insert|].
    by rewrite zget_insert, Z.eqb_refl by lia. }
  fold ls1. rewrite Hfound. simpl. destruct (ls_added_files ls !! k) as [g|] eqn:Eg.
  - destruct ls as [d m]. simpl in *.
    assert (Hc' : counts st (g :: rep_files (set_levels (<[Z.to_nat l := ls2]> (levels_ rep)) rep) ++ R)).
    { eapply counts_proper; [|exact Hc]. rewrite Hr1, Hr2. by rewrite (added_list_delete d m k g Eg). }
    apply counts_unref in Hc' as (st' & -> & Hc'). unfold set_levels at 1. simpl.
    rewrite zset_in_range by (rewrite zlen_insert; lia). rewrite list_insert_insert_eq. simpl. fold ls2. eauto.
  - assert (ls1 = ls2) as -> by (unfold ls1, ls2; by rewrite delete_id).
    do 2 eexists. split; [done|]. split; [done|]. rewrite Hr2. rewrite Hr1 in Hc.
    unfold ls2. by rewrite delete_id.
Qed.

Definition add_to cur (x : Z * FileMetaData) : Z -> list FileMetaData :=
  fun l => if l =? x.1 then cur l ++ [x.2] else cur l.

Lemma add_file_ok st rep cur R l m :
  rep_ok rep cur -> counts st (rep_files rep ++ R) ->
  0 <= l < len (vst_files base) -> NoDup (numbers (cur l ++ [m])) ->
  (if f_is_nvm_level0 m then vst_is_nvmcf base = true else file_number m ∉ numbers (level_metas base l)) ->
  exists st' rep', add_file (st, rep) (l, m) = Some (st', rep') /\
    rep_ok rep' (add_to cur (l, m)) /\ counts st' (rep_files rep' ++ R).
Proof.
  intros Hok Hc Hl Hnd Hnew. pose proof Hok as [Hb Hn Hlen Hlev Hinv].
  destruct (Hlev l Hl) as (b & ls & Hbl & Hll & Hr). unfold level_metas in Hnew. rewrite Hbl in Hnew.
  destruct (level_rel_add b ls (cur l) m (new_FileMetaData st m).2 Hr eq_refl Hnd Hnew) as [Hrel Hnone].
  destruct (rep_files_set rep l ls
    (mkLS (if negb (f_is_nvm_level0 m) then ls_deleted_files ls ∖ {[file_number m]} else ls_deleted_files ls)
          (<[file_number m := (new_FileMetaData st m).2]> (ls_added_files ls))) Hll) as (rest & Hr1 & Hr2).
  unfold add_file. rewrite Hn. destruct (Z.ltb_spec l (len (vst_files base))); [|lia].
  destruct (new_FileMetaData st m) as [st1 f] eqn:Enew. simpl in *. rewrite Hll. simpl. rewrite Hnone.
  rewrite bool_decide_eq_false_2 by (by intros [? ?]). rewrite zset_in_range by lia. simpl.
  do 2 eexists. split; [done|]. split.
  - apply (rep_ok_set rep cur); [done|done| |].
    + intros b' Hb'. rewrite Hbl in Hb'. injection Hb' as <-. unfold add_to. simpl. by rewrite Z.eqb_refl.
    + intros l' Hne. unfold add_to. simpl. by destruct (Z.eqb_spec l' l).
  - apply (counts_new st m) in Hc. rewrite Enew in Hc. simpl in Hc. eapply counts_proper; [|exact Hc].
    rewrite Hr2, Hr1. destruct ls as [d mp]. simpl in *. rewrite (added_list_insert _ mp) by done.
    destruct (f_is_nvm_level0 m); done.
Qed.

Lemma rep_ok_ext rep cur cur' : (forall l, cur l = cur' l) -> rep_ok rep cur -> rep_ok rep cur'.
Proof.
  intros He [Hb Hn Hlen Hlev Hinv]. constructor; [done..| |done]. intros l Hl.
  destruct (Hlev l Hl) as (b & ls & H1 & H2 & H3). exists b, ls. by rewrite <- He.
Qed.

(** The builder and its references after part of an edit. *)
Definition builds R cur (s : FileStore * Rep) : Prop := rep_ok s.2 cur /\ counts s.1 (rep_files s.2 ++ R).

Lemma delete_files_ok s cur R (D : list (Z * Z)) :
  builds R cur s -> NoDup D ->
  (forall l k, (l, k) ∈ D -> 0 <= l < len (vst_files base) /\ k ∈ numbers (cur l)) ->
  exists s', fold_opt delete_file s D = Some s' /\
    builds R (fun l => undeleted D l (cur l)) s'.
Proof.
  intros Hs Hnd HD.
  apply (fold_opt_ok _ (fun pre => builds R (fun l => undeleted pre l (cur l)))).
  - destruct Hs as [H1 H2]. split; [|done]. eapply rep_ok_ext; [|done]. intros l. symmetry.
    apply filter_id. intros f _. apply not_elem_of_nil.
  - intros pre [l k] [st rep] [suf ->] [Hr Hc]. simpl in Hr, Hc. destruct (HD l k) as [Hl Hk]; [set_solver|].
    assert (Hk' : k ∈ numbers (undeleted pre l (cur l))).
    { unfold numbers in *. apply list_elem_of_fmap in Hk as (f & -> & Hf). apply list_elem_of_fmap.
      exists f. split; [done|]. apply list_elem_of_filter. split; [|done].
      rewrite <- app_assoc in Hnd. apply NoDup_app in Hnd as (_ & Hd & _). intros Hp. apply (Hd _ Hp). left. }
    destruct (delete_file_ok st rep _ R l k Hr Hc Hl Hk') as (st' & rep' & -> & Hr' & Hc').
    eexists. split; [done|]. split; [|done]. eapply rep_ok_ext; [|done]. intros l'. unfold delete_from, undeleted. simpl.
    destruct (Z.eqb_spec l' l) as [->|Hne]; rewrite ?list_filter_filter; apply list_filter_iff; intros f;
      rewrite not_elem_of_app, list_elem_of_singleton; [|naive_solver].
    split; intros [? ?]; split; try done; congruence.
Qed.

Lemma add_files_ok s cur R (N : list (Z * FileMetaData)) :
  builds R cur s ->
  (forall l f, (l, f) ∈ N -> 0 <= l < len (vst_files base) /\
    if f_is_nvm_level0 f then vst_is_nvmcf base = true else file_number f ∉ numbers (level_metas base l)) ->
  (forall l, NoDup (numbers (cur l ++ new_in N l))) ->
  exists s', fold_opt add_file s N = Some s' /\
    builds R (fun l => cur l ++ new_in N l) s'.
Proof.
  intros Hs HN Hnd.
  apply (fold_opt_ok _ (fun pre => builds R (fun l => cur l ++ new_in pre l))).
  - destruct Hs as [H1 H2]. split; [|done]. eapply rep_ok_ext; [|done]. intros l. by rewrite app_nil_r.
  - intros pre [l m] [st rep] [suf ->] [Hr Hc]. simpl in Hr, Hc. destruct (HN l m) as [Hl Hm]; [set_solver|].
    assert (Hone : new_in [(l, m)] l = [m]).
    { unfold new_in. by rewrite filter_cons, decide_True by done. }
    destruct (add_file_ok st rep _ R l m Hr Hc Hl) as (st' & rep' & -> & Hr' & Hc'); [|done|].
    { specialize (Hnd l). unfold new_in in *. rewrite !filter_app, !fmap_app, Hone in Hnd. unfold numbers in *.
      rewrite !fmap_app in Hnd. rewrite !fmap_app. rewrite !app_assoc in Hnd. by apply NoDup_app in Hnd as [Hnd _]. }
    eexists. split; [done|]. split; [|done]. eapply rep_ok_ext; [|done]. intros l'. unfold add_to. simpl.
    unfold new_in in *. rewrite filter_app, fmap_app. destruct (Z.eqb_spec l' l) as [->|Hne].
    + by rewrite Hone, app_assoc.
    + rewrite filter_cons, decide_False by (simpl; congruence). simpl. by rewrite app_nil_r.
Qed.

Lemma Apply_ok s cur R e :
  builds R cur s -> legal_edit base cur e ->
  exists s', Apply icmp s e = Some s' /\ builds R (edit_levels cur e) s'.
Proof using Hbase Laws.
  intros Hs [Hset Hdel Hlev Hnew Hnd]. unfold Apply. destruct Hs as [Hr Hc]. pose proof Hr as [Hb Hn _ _ _].
  rewrite Hb, Hn, (CheckConsistency_ok base) by done. simpl.
  destruct (delete_files_ok s cur R (ve_deleted_files e)) as (s1 & -> & H1); [done..|]. simpl.
  apply add_files_ok; [done| |done]. intros l f Hf. split; [by eapply Hlev|by apply Hnew].
Qed.

Lemma Apply_all_ok s cur R edits :
  builds R cur s -> legal_edits base cur edits ->
  exists s', fold_opt (Apply icmp) s edits = Some s' /\ builds R (foldl edit_levels cur edits) s'.
Proof using Hbase Laws.
  revert s cur. induction edits as [|e edits IH]; intros s cur Hs; simpl; [by eexists|]. intros [He Hes].
  destruct (Apply_ok s cur R e Hs He) as (s1 & -> & H1). simpl. by apply IH.
Qed.

Lemma Rep_make_ok st R :
  counts st R -> (forall l, NoDup (numbers (level_metas base l))) ->
  builds R (level_metas base) (st, Rep_make base).
Proof.
  intros Hc Hnd. assert (He : rep_files (Rep_make base) = []).
  { unfold rep_files, Rep_make. cbn [levels_]. induction (length _) as [|n IH]; [done|].
    transitivity (added_list (mkLS ∅ ∅) ++ (replicate n (mkLS ∅ ∅) ≫= added_list)); [done|].
    rewrite IH. unfold added_list. simpl. by rewrite map_to_list_empty. }
  split; simpl; [|by rewrite He]. constructor; simpl; [done|done|unfold zlen; by rewrite length_replicate| |done].
  intros l Hl. destruct (zget_is_Some (vst_files base) l Hl) as [b Hb].
  exists b, (mkLS ∅ ∅). split_and!; [done| |].
  - apply zget_Some. split; [lia|]. apply lookup_replicate. unfold zlen in Hl. split; [done|lia].
  - specialize (Hnd l). unfold level_metas in *. rewrite Hb in Hnd |- *. constructor; simpl; [done| |done|done].
    unfold added_list. simpl. rewrite map_to_list_empty, app_nil_r, filter_id; [done|]. intros f _. set_solver.
Qed.

(** *** Saving *)

Lemma adjacent_sorted {A} (ok : A -> A -> bool) (Q : A -> A -> Prop) l :
  Sorted Q l -> (forall a b, Q a b -> ok a b = true) -> adjacent ok l = true.
Proof.
  intros Hs Hok. induction Hs as [|x l Hl IH Hx]; [done|]. simpl. destruct l as [|y l]; [done|].
  rewrite IH, andb_true_r. apply Hok. by inversion Hx.
Qed.

Lemma adjacent_app {A} (ok : A -> A -> bool) l1 x y l2 :
  adjacent ok (l1 ++ x :: y :: l2) = true -> ok x y = true.
Proof.
  induction l1 as [|z l1 IH]; simpl; [intros H; by apply andb_true_iff in H as [? _]|].
  destruct (l1 ++ x :: y :: l2) as [|z' l'] eqn:E; [by destruct l1|]. intros H. apply andb_true_iff in H as [_ H]. auto.
Qed.

(** Whether [MaybeAddFile] adds the file. *)
Definition is_kept (ls : LevelState) (x : FileRef * bool) : Prop :=
  ref_number x.1 ∈ ls_deleted_files ls -> x.2 = true /\ f_is_nvm_level0 (fr_meta x.1) = true.

#[local] Instance is_kept_dec ls x : Decision (is_kept ls x).
Proof. unfold is_kept. apply _. Defined.

Definition kept_refs (ls : LevelState) (calls : list (FileRef * bool)) : list FileRef :=
  (filter (is_kept ls) calls).*1.

Lemma MaybeAddFile_kept ls l s x :
  MaybeAddFile icmp ls l s x = if decide (is_kept ls x) then VStorage_AddFile icmp s.1 s.2 l x.1 else Some s.
Proof.
  destruct (decide (is_kept ls x)) as [Hk|Hk]; destruct x as [f tag]; unfold MaybeAddFile, is_kept in *; simpl in *;
    case_bool_decide; destruct tag, (f_is_nvm_level0 (fr_meta f)); simpl; naive_solver.
Qed.

Lemma merge_calls_kept b ls files l :
  level_rel b ls files ->
  fr_meta <$> kept_refs ls (merge_calls icmp l (vst_is_nvmcf base) b (sort_refs icmp l (added_list ls))) ≡ₚ files.
Proof.
  intros [Hk Hfiles _ Hv]. rewrite Hfiles. apply fmap_Permutation. unfold kept_refs, merge_calls.
  rewrite merge_Permutation, filter_app, fmap_app, !filter_fmap, <- !list_fmap_compose.
  assert (Hid : forall (t : bool) (q : list FileRef), (fst ∘ (., t)) <$> q = q).
  { intros t q. rewrite <- (list_fmap_id q) at 2. by apply list_fmap_ext. }
  rewrite !Hid. apply Permutation_app.
  - apply reflexive_eq, filter_ext_in. intros f _. unfold is_kept. simpl. naive_solver.
  - unfold sort_refs. rewrite merge_sort_Permutation, filter_id; [done|].
    intros f (n & Hf)%added_list_lookup Hd. simpl in *. rewrite (Hk _ _ Hf) in Hd.
    by destruct (Hv _ _ Hf Hd) as [-> ->].
Qed.

Lemma merge_calls_sorted b ls l :
  StronglySorted (file_le icmp l) (fr_meta <$> b) ->
  StronglySorted (file_le icmp l)
    (fr_meta <$> kept_refs ls (merge_calls icmp l (vst_is_nvmcf base) b (sort_refs icmp l (added_list ls)))).
Proof using Laws.
  intros Hb. unfold kept_refs. rewrite <- list_fmap_compose.
  set (Q := fun x y : FileRef * bool => file_le icmp l (fr_meta x.1) (fr_meta y.1)).
  set (Q' := fun x y : FileRef => file_le icmp l (fr_meta x) (fr_meta y)).
  assert (Transitive Q) by (intros x y z; apply file_le_trans; apply _).
  assert (Total Q) by (intros x y; apply file_le_total; apply _).
  assert (Transitive Q') by (intros x y z; apply file_le_trans; apply _).
  assert (Total Q') by (intros x y; apply file_le_total; apply _).
  apply (StronglySorted_fmap _ Q); [done|]. apply StronglySorted_filter, Sorted_StronglySorted; [done|].
  unfold merge_calls. apply Sorted_list_merge; [done| |].
  - apply StronglySorted_Sorted. apply (StronglySorted_fmap _ Q'); [done|].
    by apply StronglySorted_fmap_inv in Hb.
  - apply (Sorted_fmap _ Q'); [done|]. apply Sorted_merge_sort. done.
Qed.

(** The references a version holds. *)
Definition version_refs (v : VStorage) : list FileRef := vst_files v ≫= id.

Definition empty_vstorage : VStorage := mkVSt (replicate (length (vst_files base)) []) (vst_is_nvmcf base).

Lemma kept_snoc ls pre x :
  kept_refs ls (pre ++ [x]) = kept_refs ls pre ++ (if decide (is_kept ls x) then [x.1] else []).
Proof. unfold kept_refs. rewrite filter_app, filter_cons, fmap_app. by case_decide. Qed.

(** The overlap test of [AddFile] passes for the files of a consistent level. *)
Lemma no_overlap l pre f suf nvm :
  check_level icmp nvm l (fr_meta <$> (pre ++ f :: suf)) = true ->
  match last pre with
  | Some f2 => (0 <? l) && (0 <=? Compare icmp (f_largest (fr_meta f2)) (f_smallest (fr_meta f)))
  | None => false
  end = false.
Proof.
  intros Hc. destruct (last pre) as [f2|] eqn:El; [|done]. destruct (Z.ltb_spec 0 l); [|done]. simpl.
  apply last_Some in El as [p ->]. unfold check_level in Hc. destruct (Z.eqb_spec l 0); [lia|].
  rewrite andb_false_r, <- app_assoc, fmap_app in Hc. simpl in Hc. apply adjacent_app in Hc.
  unfold check_level_non0 in Hc. apply andb_true_iff in Hc as [_ Hc]. by apply negb_true_iff in Hc.
Qed.

Section SaveLevel.
Context (rep : Rep) (cur : Z -> list FileMetaData) (R : list FileRef) (l : Z).
Context (b : list FileRef) (ls : LevelState) (fs : list (list FileRef)).
Hypothesis (Hrel : level_rel b ls (cur l)) (Hsorted : StronglySorted (file_le icmp l) (fr_meta <$> b)).
Hypothesis (Hcheck : check_level icmp (vst_is_nvmcf base) l (sort_files icmp l (cur l)) = true).
Hypothesis (Hroots : forall f, f ∈ b ++ added_list ls -> f ∈ R) (Hfs : fs !z l = Some []).

Let calls := merge_calls icmp l (vst_is_nvmcf base) b (sort_refs icmp l (added_list ls)).

Lemma saved_files : fr_meta <$> kept_refs ls calls = sort_files icmp l (cur l).
Proof using Hrel Hsorted Laws.
  apply sort_files_unique; [done|by apply merge_calls_sorted|by apply merge_calls_kept|]. by destruct Hrel.
Qed.

Lemma calls_rooted x : x ∈ calls -> x.1 ∈ R.
Proof using Hroots.
  unfold calls, merge_calls, sort_refs. rewrite merge_Permutation. intros [Hx|Hx]%elem_of_app.
  - apply list_elem_of_fmap in Hx as (f & -> & Hf). apply Hroots, elem_of_app. by left.
  - apply list_elem_of_fmap in Hx as (f & -> & Hf). rewrite merge_sort_Permutation in Hf.
    apply Hroots, elem_of_app. by right.
Qed.

(** What the calls made so far have put in the level. *)
Definition saved (pre : list (FileRef * bool)) (s : FileStore * VStorage) : Prop :=
  s.2 = mkVSt (<[Z.to_nat l := kept_refs ls pre]> fs) (vst_is_nvmcf base) /\ counts s.1 (kept_refs ls pre ++ R).

Lemma MaybeAddFile_ok pre x s :
  pre ++ [x] `prefix_of` calls -> saved pre s ->
  exists s', MaybeAddFile icmp ls l s x = Some s' /\ saved (pre ++ [x]) s'.
Proof using Hrel Hsorted Hcheck Hroots Hfs Laws.
  intros [suf Hp] [Hv Hc]. rewrite MaybeAddFile_kept. unfold saved. rewrite kept_snoc. case_decide as Hk.
  2: { exists s. by rewrite app_nil_r. }
  assert (Hl : 0 <= l < len fs) by (by eapply zget_range).
  destruct (counts_ref s.1 x.1 (kept_refs ls pre ++ R) Hc) as (r & Hr & Hc').
  { apply elem_of_app. right. apply calls_rooted. rewrite Hp. apply elem_of_app. left. apply elem_of_app. right. left. }
  unfold VStorage_AddFile. rewrite Hv. simpl. rewrite zget_insert, Z.eqb_refl by lia. simpl.
  rewrite (no_overlap l _ _ (kept_refs ls suf) (vst_is_nvmcf base)).
  2: { rewrite <- Hcheck, <- saved_files. f_equal. f_equal. rewrite Hp. unfold kept_refs at 3.
       rewrite !filter_app, filter_cons, decide_True by done. rewrite !fmap_app. by rewrite <- app_assoc. }
  rewrite Hr. simpl. rewrite zset_in_range by (rewrite zlen_insert; lia). simpl.
  eexists. split; [done|]. simpl. rewrite list_insert_insert_eq. split; [done|].
  eapply counts_proper; [|exact Hc']. rewrite <- app_assoc. simpl. by rewrite Permutation_middle.
Qed.

Lemma save_level_ok st :
  base_vstorage_ rep = base -> vst_files base !z l = Some b -> levels_ rep !z l = Some ls -> counts st R ->
  exists st' out, save_level icmp rep (st, mkVSt fs (vst_is_nvmcf base)) l =
      Some (st', mkVSt (<[Z.to_nat l := out]> fs) (vst_is_nvmcf base)) /\
    fr_meta <$> out = sort_files icmp l (cur l) /\ counts st' (out ++ R).
Proof using Hrel Hsorted Hcheck Hroots Hfs Laws.
  intros Hb Hbl Hll Hc. unfold save_level. rewrite Hb, Hbl, Hll. simpl.
  assert (Hadj : (0 <? l) && negb (adjacent (fun a c => Compare icmp (f_smallest (fr_meta a)) (f_smallest (fr_meta c)) <=? 0)
    (sort_refs icmp l (added_list ls))) = false).
  { destruct (Z.ltb_spec 0 l); [|done]. simpl. apply negb_false_iff.
    eapply adjacent_sorted; [eapply Sorted_merge_sort|]; [intros x y; apply file_le_total; apply _|].
    intros x y Hxy. simpl in Hxy. apply file_le_nonzero in Hxy; [|done|lia]. apply Z.leb_le. lia. }
  rewrite Hadj. destruct (fold_opt_ok (MaybeAddFile icmp ls l) saved (st, mkVSt fs (vst_is_nvmcf base)) calls)
    as ([st' v'] & Hf & [Hv Hc']).
  - split; [|done]. simpl. f_equal. apply zget_Some in Hfs as [_ Hfs']. by rewrite list_insert_id.
  - intros pre x s. apply MaybeAddFile_ok.
  - simpl in *. subst v'. exists st', (kept_refs ls calls). split_and!; [exact Hf|apply saved_files|done].
Qed.
End SaveLevel.

Definition sorted_levels (v : VStorage) : Prop :=
  forall l, StronglySorted (file_le icmp l) (level_metas v l).

(** The version saved up to some level. *)
Record saving (cur : Z -> list FileMetaData) (R : list FileRef) (pre : list Z) (s : FileStore * VStorage) : Prop := {
  sv_len : len (vst_files s.2) = len (vst_files base);
  sv_nvm : vst_is_nvmcf s.2 = vst_is_nvmcf base;
  sv_done l : l ∈ pre -> level_metas s.2 l = sort_files icmp l (cur l);
  sv_rest l : l ∉ pre -> 0 <= l < len (vst_files base) -> vst_files s.2 !z l = Some [];
  sv_counts : counts s.1 (version_refs s.2 ++ R);
}.

Lemma saving_step rep cur R pre l s :
  rep_ok rep cur -> sorted_levels base -> consistent base (fun l => sort_files icmp l (cur l)) icmp ->
  (forall f, f ∈ version_refs base ++ rep_files rep -> f ∈ R) ->
  0 <= l < len (vst_files base) -> l ∉ pre -> saving cur R pre s ->
  exists s', save_level icmp rep s l = Some s' /\ saving cur R (pre ++ [l]) s'.
Proof using Laws.
  intros [Hb Hn Hlen Hlev Hinv] Hsort Hcons Hroots Hl Hpre [H1 H2 H3 H4 H5].
  destruct (Hlev l Hl) as (b & ls & Hbl & Hll & Hrel). destruct s as [st [fs nvm]]. simpl in *. subst nvm.
  pose proof (H4 l Hpre Hl) as Hfs. specialize (Hsort l). unfold level_metas in Hsort. rewrite Hbl in Hsort.
  assert (Hin : forall f, f ∈ b ++ added_list ls -> f ∈ version_refs (mkVSt fs (vst_is_nvmcf base)) ++ R).
  { intros f Hf. apply elem_of_app. right. apply Hroots. apply zget_Some in Hbl as [_ Hbl].
    apply zget_Some in Hll as [_ Hll]. unfold version_refs, rep_files. apply elem_of_app.
    apply elem_of_app in Hf as [Hf|Hf]; [left|right]; apply list_elem_of_bind;
      eexists; (split; [exact Hf|by eapply list_elem_of_lookup_2]). }
  destruct (save_level_ok rep cur (version_refs (mkVSt fs (vst_is_nvmcf base)) ++ R) l b ls fs
    Hrel Hsort (Hcons l Hl) Hin Hfs st Hb Hbl Hll H5) as (st' & out & Hs & Hout & Hc).
  eexists. split; [exact Hs|]. constructor; simpl.
  - by rewrite zlen_insert.
  - done.
  - intros l' Hl'. unfold level_metas. simpl.
    destruct (decide (l' = l)) as [->|Hne]; [by rewrite zget_insert, Z.eqb_refl by lia|].
    apply elem_of_app in Hl' as [Hl'|Hl']; [|by apply list_elem_of_singleton in Hl'].
    rewrite <- (H3 l' Hl'). unfold level_metas. simpl. destruct (decide (0 <= l')) as [Hpos|Hneg].
    + rewrite zget_insert by lia. by destruct (Z.eqb_spec l l').
    + unfold zget. by destruct (Z.leb_spec 0 l'); [lia|].
  - intros l' [Hne1 Hne2]%not_elem_of_app Hl'. rewrite list_elem_of_singleton in Hne2.
    rewrite zget_insert by lia. destruct (Z.eqb_spec l l'); [congruence|by apply H4].
  - apply zget_Some in Hfs as [_ Hfs]. destruct (bind_split id fs _ _ Hfs) as (rest & Hr1 & Hr2).
    unfold version_refs in *. simpl in *. rewrite Hr1 in Hc. rewrite Hr2. by rewrite <- app_assoc.
Qed.

Lemma SaveTo_ok st rep cur R :
  rep_ok rep cur -> sorted_levels base -> consistent base (fun l => sort_files icmp l (cur l)) icmp ->
  (forall f, f ∈ version_refs base ++ rep_files rep -> f ∈ R) -> counts st R ->
  exists st' v, SaveTo icmp st rep empty_vstorage = Some (st', v) /\ saving cur R (upto (len (vst_files base))) (st', v).
Proof using Laws Hbase.
  intros Hrep Hsort Hcons Hroots Hc. pose proof Hrep as [Hb Hn _ _ _].
  assert (Hget : forall l, 0 <= l < len (vst_files base) -> vst_files empty_vstorage !z l = Some []).
  { intros l Hl. apply zget_Some. split; [lia|]. apply lookup_replicate. split; [done|]. unfold zlen in Hl. lia. }
  assert (Hel : len (vst_files empty_vstorage) = len (vst_files base)).
  { unfold zlen. simpl. by rewrite length_replicate. }
  unfold SaveTo. rewrite Hb, Hn, (CheckConsistency_ok base), (CheckConsistency_ok empty_vstorage); [|done| |done|done].
  2: { intros l Hl. rewrite Hel in Hl. unfold level_metas. rewrite (Hget l Hl). unfold check_level. by destruct (_ && _). }
  simpl. destruct (fold_opt_ok (save_level icmp rep) (saving cur R) (st, empty_vstorage) (upto (len (vst_files base))))
    as ([st' v] & -> & Hv).
  - constructor; simpl; [done|done|intros l Hl; by apply not_elem_of_nil in Hl|intros l _; apply Hget|].
    assert (version_refs empty_vstorage = []) as ->; [|done]. unfold version_refs, empty_vstorage. simpl.
    by induction (length _).
  - intros pre l s [suf Hp] Hs. pose proof (NoDup_upto (len (vst_files base))) as Hnd. rewrite Hp in Hnd.
    apply (saving_step rep); [done..| | |done].
    + apply elem_of_upto. rewrite Hp. apply elem_of_app. left. apply elem_of_app. right. left.
    + rewrite <- app_assoc in Hnd. apply NoDup_app in Hnd as (_ & Hd & _). intros Hl. apply (Hd l Hl). left.
  - simpl. pose proof Hv as [H1 H2 H3 _ _]. simpl in *. rewrite (CheckConsistency_ok v) by (try done; intros l Hl;
      rewrite H1 in Hl; rewrite H2, H3 by (by apply elem_of_upto); by apply Hcons). simpl. eauto.
Qed.
End BuildOk.

Section Build.
Context (icmp : Comparator) {Laws : ComparatorLaws icmp}.

(** A version the builder can start from. *)
Record storage_ok (v : VStorage) : Prop := {
  so_check : consistent v (level_metas v) icmp;
  so_numbers l : NoDup (numbers (level_metas v l));
  so_sorted : sorted_levels icmp v;
}.

Lemma level_metas_out v l : ~ (0 <= l < len (vst_files v)) -> level_metas v l = [].
Proof. intros Hl. unfold level_metas. by apply zget_None in Hl as ->. Qed.

Lemma edits_numbers base cur edits l :
  (forall l, NoDup (numbers (cur l))) -> legal_edits base cur edits -> NoDup (numbers (foldl edit_levels cur edits l)).
Proof.
  revert cur. induction edits as [|e edits IH]; intros cur Hc; simpl; [done|]. intros [He Hes].
  apply IH; [|done]. intros l'. apply (le_nodup _ _ _ He).
Qed.

Lemma sorted_storage_ok base v (cur : Z -> list FileMetaData) :
  len (vst_files v) = len (vst_files base) -> vst_is_nvmcf v = vst_is_nvmcf base ->
  (forall l, 0 <= l < len (vst_files base) -> level_metas v l = sort_files icmp l (cur l)) ->
  (forall l, NoDup (numbers (cur l))) -> consistent base (fun l => sort_files icmp l (cur l)) icmp ->
  storage_ok v.
Proof using Laws.
  intros Hlen Hnvm Hv Hnd Hc. constructor.
  - intros l Hl. rewrite Hlen in Hl. rewrite Hnvm, Hv by done. by apply Hc.
  - intros l. destruct (decide (0 <= l < len (vst_files base))) as [Hl|Hl].
    + rewrite Hv by done. unfold numbers, sort_files. rewrite merge_sort_Permutation. apply Hnd.
    + rewrite level_metas_out by (by rewrite Hlen). constructor.
  - intros l. destruct (decide (0 <= l < len (vst_files base))) as [Hl|Hl].
    + rewrite Hv by done. apply StronglySorted_merge_sort; apply _.
    + rewrite level_metas_out by (by rewrite Hlen). constructor.
Qed.

Lemma apply_and_save_ok st base edits R :
  storage_ok base -> (forall f, f ∈ version_refs base -> f ∈ R) -> counts st R ->
  legal_edits base (level_metas base) edits ->
  let cur := foldl edit_levels (level_metas base) edits in
  consistent base (fun l => sort_files icmp l (cur l)) icmp ->
  exists st' rep v, apply_and_save icmp st base edits (empty_vstorage base) = Some (st', rep, v) /\
    len (vst_files v) = len (vst_files base) /\ vst_is_nvmcf v = vst_is_nvmcf base /\
    (forall l, 0 <= l < len (vst_files base) -> level_metas v l = sort_files icmp l (cur l)) /\
    rep_ok base rep cur /\ counts st' (version_refs v ++ rep_files rep ++ R).
Proof using Laws.
  intros [Hcheck Hnum Hsort] Hroots Hc Hlegal cur Hcons. unfold apply_and_save.
  destruct (Apply_all_ok icmp base Hcheck (st, Rep_make base) (level_metas base) R edits) as ([st1 rep] & -> & Hrep & Hc1);
    [by eapply Rep_make_ok|done|]. simpl in *.
  destruct (SaveTo_ok icmp base Hcheck st1 rep cur (rep_files rep ++ R)) as (st2 & v & -> & [H1 H2 H3 _ H5]); try done.
  { intros f [Hf|Hf]%elem_of_app; apply elem_of_app; [right; by apply Hroots|by left]. }
  simpl in *. exists st2, rep, v. split_and!; try done. intros l Hl. apply H3. by apply elem_of_upto.
Qed.

Lemma Rep_destroy_ok st rep R : counts st (rep_files rep ++ R) -> exists st', Rep_destroy st rep = Some st' /\ counts st' R.
Proof. apply counts_unref_all. Qed.

(** C7. A builder computes exactly the version its edits describe: for edits that
    respect the files of the levels, applying them to a base version and saving runs
    through every consistency check; each level of the new version is the sorted list of
    the base files the edits leave and the files they add (also when a level-0 NVM table
    is deleted and added again under its number); and when the builder is destroyed the
    reference count of every file is the number of versions that list it. *)
Theorem version_builder_exact st base edits R :
  storage_ok base -> (forall f, f ∈ version_refs base -> f ∈ R) -> counts st R ->
  legal_edits base (level_metas base) edits ->
  let cur := foldl edit_levels (level_metas base) edits in
  consistent base (fun l => sort_files icmp l (cur l)) icmp ->
  exists st1 rep v st2, apply_and_save icmp st base edits (empty_vstorage base) = Some (st1, rep, v) /\
    Rep_destroy st1 rep = Some st2 /\
    (forall l, 0 <= l < len (vst_files base) -> level_metas v l = sort_files icmp l (cur l)) /\
    counts st2 (version_refs v ++ R).
Proof using Laws.
  intros Hb Hroots Hc Hl cur Hcons.
  destruct (apply_and_save_ok st base edits R Hb Hroots Hc Hl Hcons) as (st1 & rep & v & H1 & _ & _ & H3 & _ & H4).
  destruct (Rep_destroy_ok st1 rep (version_refs v ++ R)) as (st2 & Hd & H5); [by rewrite Permutation_app_swap_app|].
  exists st1, rep, v, st2. auto.
Qed.
End Build.

(** ** A small instance *)

(** A table in NVM level 0, some of whose first keys are gone. *)
Definition sample_nvm_table (first : Z) : FileMetaData :=
  new_file (FileDescriptor_make 5 0 100 3 7) [] [] false true first 0 4 0 0 0.

Definition sample_base : VStorage := mkVSt [[mkRef 0 (sample_nvm_table 0)]; []] true.

Definition sample_edit : VersionEdit :=
  AddFileMeta 0 (sample_nvm_table 2) (DeleteFile 0 5 VersionEdit_Clear).

Lemma version_builder_exact_witness :
  exists st1 rep v st2, apply_and_save (InternalKeyComparator BytewiseComparator) (mkStore {[0%nat := 1]} 1)
      sample_base [sample_edit] (empty_vstorage sample_base) = Some (st1, rep, v) /\
    level_metas v 0 = [sample_nvm_table 2] /\
    counts st2 (version_refs v ++ [mkRef 0 (sample_nvm_table 0)]).
Proof.
  assert (Hlv : forall l, 0 <= l < 2 -> l = 0 \/ l = 1) by lia.
  assert (Hout : forall l, l <> 0 -> level_metas sample_base l = []).
  { intros l Hl. unfold level_metas. destruct (vst_files sample_base !z l) eqn:E; [|done].
    pose proof (zget_range _ _ _ E) as Hr. change (len (vst_files sample_base)) with 2 in Hr.
    destruct (Hlv l Hr); [done|]. subst l. by injection E as <-. }
  destruct (version_builder_exact (InternalKeyComparator BytewiseComparator) (mkStore {[0%nat := 1]} 1) sample_base
    [sample_edit] [mkRef 0 (sample_nvm_table 0)]) as (st1 & rep & v & st2 & H1 & _ & H2 & H3).
  - constructor.
    + intros l Hl. by destruct (Hlv l Hl) as [->| ->].
    + intros l. destruct (decide (l = 0)) as [->|Hl]; [by apply (bool_decide_unpack _)|]. rewrite Hout by done. constructor.
    + intros l. destruct (decide (l = 0)) as [->|Hl]; [repeat constructor|]. rewrite Hout by done. constructor.
  - done.
  - constructor; [|intros f Hf; apply list_elem_of_singleton in Hf as ->; simpl; lia|].
    2: { intros f g Hf Hg _. apply list_elem_of_singleton in Hf as ->, Hg as ->. done. }
    intros id. unfold occurrences. rewrite filter_cons. simpl. case_decide; subst; [done|]. by rewrite lookup_singleton_ne.
  - split; [|done]. constructor.
    + by apply (bool_decide_unpack _).
    + intros l k Hk. apply list_elem_of_singleton in Hk as [= -> ->]. split; [done|]. by apply (bool_decide_unpack _).
    + intros l f Hf. apply list_elem_of_singleton in Hf as [= -> ->]. done.
    + intros l f Hf. apply list_elem_of_singleton in Hf as [= -> ->]. done.
    + intros l. destruct (decide (l = 0)) as [->|Hl]; [by apply (bool_decide_unpack _)|]. rewrite Hout by done.
      unfold edit_level, new_in. simpl. rewrite filter_cons, decide_False by (simpl; congruence). constructor.
  - intros l Hl. destruct (Hlv l Hl) as [->| ->]; vm_compute; done.
  - exists st1, rep, v, st2. split_and!; [exact H1|rewrite H2 by (vm_compute; done); vm_compute; done|exact H3].
Defined.
