(* ===== verification/FilePicker.v ===== *)
(** * The file picker of a lookup (class FilePicker of db/version_set.cc)

    [Version::Get] asks the picker for one file after the other: the tables of level 0
    that may hold the key from newest to oldest, unless they are kept in NVM, and then
    at each level the file that may hold it, found by a binary search whose range the
    index of the level above narrows. *)

From S2P Require Import Prelude Coding Comparator DbFormat VersionEdit VersionStorage FileIndexer VersionBuilder.

Record FilePicker := mkFP {
  curr_level_ : Z;
  hit_file_level_ : Z;
  search_left_bound_ : Z;
  search_right_bound_ : Z;
  search_ended_ : bool;
  is_hit_file_last_in_level_ : bool;
  curr_file_level_ : list FileMetaData;
  curr_index_in_curr_level_ : Z;
  start_index_in_curr_level_ : Z;
  prev_file_ : option FileMetaData;
}.

Definition fp_level (level : Z) (p : FilePicker) : FilePicker :=
  mkFP level (hit_file_level_ p) (search_left_bound_ p) (search_right_bound_ p) (search_ended_ p)
    (is_hit_file_last_in_level_ p) (curr_file_level_ p) (curr_index_in_curr_level_ p) (start_index_in_curr_level_ p) (prev_file_ p).
Definition fp_bounds (l r : Z) (p : FilePicker) : FilePicker :=
  mkFP (curr_level_ p) (hit_file_level_ p) l r (search_ended_ p)
    (is_hit_file_last_in_level_ p) (curr_file_level_ p) (curr_index_in_curr_level_ p) (start_index_in_curr_level_ p) (prev_file_ p).
Definition fp_ended (b : bool) (p : FilePicker) : FilePicker :=
  mkFP (curr_level_ p) (hit_file_level_ p) (search_left_bound_ p) (search_right_bound_ p) b
    (is_hit_file_last_in_level_ p) (curr_file_level_ p) (curr_index_in_curr_level_ p) (start_index_in_curr_level_ p) (prev_file_ p).
Definition fp_files (files : list FileMetaData) (p : FilePicker) : FilePicker :=
  mkFP (curr_level_ p) (hit_file_level_ p) (search_left_bound_ p) (search_right_bound_ p) (search_ended_ p)
    (is_hit_file_last_in_level_ p) files (curr_index_in_curr_level_ p) (start_index_in_curr_level_ p) (prev_file_ p).
(** A level is entered: [prev_file_] is cleared. *)
Definition fp_start (i : Z) (p : FilePicker) : FilePicker :=
  mkFP (curr_level_ p) (hit_file_level_ p) (search_left_bound_ p) (search_right_bound_ p) (search_ended_ p)
    (is_hit_file_last_in_level_ p) (curr_file_level_ p) i i None.
Definition fp_index (i : Z) (p : FilePicker) : FilePicker :=
  mkFP (curr_level_ p) (hit_file_level_ p) (search_left_bound_ p) (search_right_bound_ p) (search_ended_ p)
    (is_hit_file_last_in_level_ p) (curr_file_level_ p) i (start_index_in_curr_level_ p) (prev_file_ p).
Definition fp_prev (f : FileMetaData) (p : FilePicker) : FilePicker :=
  mkFP (curr_level_ p) (hit_file_level_ p) (search_left_bound_ p) (search_right_bound_ p) (search_ended_ p)
    (is_hit_file_last_in_level_ p) (curr_file_level_ p) (curr_index_in_curr_level_ p) (start_index_in_curr_level_ p) (Some f).
Definition fp_hit (p : FilePicker) : FilePicker :=
  mkFP (curr_level_ p) (curr_level_ p) (search_left_bound_ p) (search_right_bound_ p) (search_ended_ p)
    (curr_index_in_curr_level_ p =? len (curr_file_level_ p) - 1) (curr_file_level_ p) (curr_index_in_curr_level_ p)
    (start_index_in_curr_level_ p) (prev_file_ p).

(** Whether the tables of level 0 are kept in NVM. *)
Definition level0_in_nvm (fs0 : list FileMetaData) : bool := match fs0 with f :: _ => f_is_nvm_level0 f | [] => false end.

Section Picker.
Context (ucmp : Comparator) (levels : list (list FileMetaData)) (num_levels_ : Z) (file_indexer_ : FileIndexer).
Context (user_key_ ikey_ : bytes).

(** The loop of [PrepareNextLevel]; [None] for a failed assertion. *)
Fixpoint PrepareNextLevel_loop (fuel : nat) (p : FilePicker) : option (bool * FilePicker) :=
  if curr_level_ p <? num_levels_ then
    match fuel with
    | O => None
    | S fuel =>
        files ← levels !z curr_level_ p;
        let p := fp_files files p in
        let next := fp_level (wrap32 (curr_level_ p + 1)) (fp_bounds 0 kLevelMaxIndex p) in
        if len files =? 0 then
          if (search_left_bound_ p =? 0) && ((search_right_bound_ p =? -1) || (search_right_bound_ p =? kLevelMaxIndex))
          then PrepareNextLevel_loop fuel next else None
        else if curr_level_ p =? 0 then Some (true, fp_start 0 p)
        else if search_left_bound_ p <=? search_right_bound_ p then
          let right := if search_right_bound_ p =? kLevelMaxIndex then i32 (len files) - 1 else search_right_bound_ p in
          start_index ← FindFileInRange ucmp files ikey_ (wrap32 (search_left_bound_ p)) (wrap32 (right + 1));
          if start_index =? right + 1 then PrepareNextLevel_loop fuel next
          else Some (true, fp_start start_index (fp_bounds (search_left_bound_ p) right p))
        else PrepareNextLevel_loop fuel next
    end
  else Some (false, p).

Definition PrepareNextLevel (p : FilePicker) : option (bool * FilePicker) :=
  PrepareNextLevel_loop (Z.to_nat num_levels_) (fp_level (wrap32 (curr_level_ p + 1)) p).

(** [search_ended_ = !PrepareNextLevel()]. *)
Definition search_next_level (p : FilePicker) : option FilePicker :=
  '(more, p) ← PrepareNextLevel p; Some (fp_ended (negb more) p).

Definition FilePicker_make : option FilePicker :=
  level0 ← levels !z 0;
  let curr_level := if level0_in_nvm level0 then 0 else wrap32 (-1) in
  search_next_level (mkFP curr_level (wrap32 (-1)) 0 kLevelMaxIndex false false [] 0 0 None).

(** The debug check that the files of a level are handed out in their order. *)
Definition files_sorted_check (f : FileMetaData) (p : FilePicker) : bool :=
  match prev_file_ p with
  | None => true
  | Some prev =>
      if negb (curr_level_ p =? 0) then Compare (InternalKeyComparator ucmp) (f_largest prev) (f_smallest f) <? 0
      else (0 <? curr_index_in_curr_level_ p) &&
           match levels !z 0 ≫= fun fs => fs !z curr_index_in_curr_level_ p, levels !z 0 ≫= fun fs => fs !z (curr_index_in_curr_level_ p - 1) with
           | Some g, Some before => negb (NewestFirstBySeqNo g before)
           | _, _ => false
           end
  end.

(** The file [f] is handed out. *)
Definition return_file (f : FileMetaData) (cmp_largest : Z) (p : FilePicker) : option (option FileMetaData * FilePicker) :=
  if negb (files_sorted_check f p) then None else
  let p := fp_prev f p in
  if (0 <? curr_level_ p) && (cmp_largest <? 0)
  then p ← search_next_level p; Some (Some f, p)
  else Some (Some f, fp_index (wrap32 (curr_index_in_curr_level_ p + 1)) p).

Fixpoint GetNextFile (fuel : nat) (p : FilePicker) : option (option FileMetaData * FilePicker) :=
  if search_ended_ p then Some (None, p)
  else
    match fuel with
    | O => None
    | S fuel =>
        if curr_index_in_curr_level_ p <? len (curr_file_level_ p) then
          f ← curr_file_level_ p !z curr_index_in_curr_level_ p;
          let p := fp_hit p in
          if (1 <? num_levels_) || (3 <? len (curr_file_level_ p)) then
            if negb ((curr_level_ p =? 0) || (curr_index_in_curr_level_ p =? start_index_in_curr_level_ p) ||
                     (Compare ucmp user_key_ (ExtractUserKey (f_smallest f)) <=? 0)) then None
            else
              let cmp_smallest := Compare ucmp user_key_ (ExtractUserKey (f_smallest f)) in
              let cmp_largest := if 0 <=? cmp_smallest then Compare ucmp user_key_ (ExtractUserKey (f_largest f)) else -1 in
              p ← (if 0 <? curr_level_ p
                   then '(l, r) ← GetNextLevelIndex file_indexer_ (curr_level_ p) (curr_index_in_curr_level_ p) cmp_smallest cmp_largest;
                        Some (fp_bounds l r p)
                   else Some p);
              if (cmp_smallest <? 0) || (0 <? cmp_largest) then
                if curr_level_ p =? 0 then GetNextFile fuel (fp_index (wrap32 (curr_index_in_curr_level_ p + 1)) p)
                else p ← search_next_level p; GetNextFile fuel p
              else return_file f cmp_largest p
          else return_file f (-1) p
        else p ← search_next_level p; GetNextFile fuel p
    end.

(** The rounds one call makes at most: the files of level 0 and the levels. *)
Definition picker_fuel : nat := length (default [] (levels !z 0)) + Z.to_nat num_levels_.

(** The loop of [Version::Get] when no file ends it: the files with their levels. *)
Fixpoint pick_files (fuel : nat) (p : FilePicker) : option (list (Z * FileMetaData)) :=
  '(r, p) ← GetNextFile picker_fuel p;
  match r with
  | None => Some []
  | Some f =>
      match fuel with
      | O => None
      | S fuel => rest ← pick_files fuel p; Some ((hit_file_level_ p, f) :: rest)
      end
  end.
End Picker.

(** ** The files a lookup needs *)

Section PickerOk.
Context (ucmp : Comparator) {Laws : ComparatorLaws ucmp}.
Context (levels : list (list FileMetaData)) (n : Z) (x : FileIndexer) (ikey : bytes).
Hypothesis (Hlv : levels_ok ucmp n levels) (Hidx : index_ok ucmp x n levels) (Hn : n < 2 ^ 31).
Hypothesis (Hlen0 : forall fs, levels !z 0 = Some fs -> len fs < 2 ^ 31).
Hypothesis (Hnew : forall fs, levels !z 0 = Some fs -> level0_in_nvm fs = false -> adjacent NewestFirstBySeqNo fs = true).

Abbreviation icmp := (InternalKeyComparator ucmp).
Abbreviation k := (ExtractUserKey ikey).

#[local] Instance holds_key_dec u f : Decision (holds_key ucmp u f).
Proof. unfold holds_key. apply _. Defined.

(** A file of a lower level can hold a version of the key that the lookup may see. *)
Definition wanted (f : FileMetaData) : Prop := holds_key ucmp k f /\ 0 <= Compare icmp (f_largest f) ikey.

#[local] Instance wanted_dec f : Decision (wanted f).
Proof. unfold wanted. apply _. Defined.

Definition level_files (level : Z) : list (Z * FileMetaData) :=
  (level,.) <$> filter wanted (default [] (levels !z level)).

(** The files of the levels from [level] on. *)
Definition files_from (level : Z) : list (Z * FileMetaData) :=
  mjoin (level_files <$> (Z.add level <$> upto (n - level))).

Lemma files_from_end level : n <= level -> files_from level = [].
Proof using Type. intros H. unfold files_from, upto. by replace (Z.to_nat (n - level)) with O by lia. Qed.

Lemma files_from_step level : level < n -> files_from level = level_files level ++ files_from (level + 1).
Proof using Type.
  intros H. unfold files_from, upto. replace (Z.to_nat (n - level)) with (S (Z.to_nat (n - (level + 1)))) by lia.
  cbn [seq fmap list_fmap mjoin list_join]. f_equal; [f_equal; lia|]. do 2 f_equal. rewrite <- fmap_S_seq, <- !list_fmap_compose.
  apply list_fmap_ext. intros i y _. simpl. lia.
Qed.

(** ** One level *)

Section Level.
Context (fs : list FileMetaData) (Hd : user_disjoint ucmp fs) (Hl : len fs < 2 ^ 31).

Lemma level_monotone i j f g :
  fs !z i = Some f -> fs !z j = Some g -> i <= j -> Compare icmp (f_largest g) ikey < 0 -> Compare icmp (f_largest f) ikey < 0.
Proof using Laws Hd.
  intros Hf Hg Hij Hlt. destruct (Z.eq_dec i j) as [->|Hne]; [assert (f = g) as -> by congruence; done|].
  apply (cmp_lt_trans icmp _ (f_largest g)); [|done]. apply icmp_lt_user.
  exact (disjoint_largest ucmp fs Hd i j f g Hf Hg ltac:(lia)).
Qed.

Lemma not_wanted f : Compare icmp (f_largest f) ikey < 0 -> ~ wanted f.
Proof using Type. intros H [_ H']. lia. Qed.

(** Past the first file that ends at or after the key no file holds it. *)
Lemma later_not_wanted i j f g :
  fs !z i = Some f -> fs !z j = Some g -> i < j -> 0 <= Compare icmp (f_largest f) ikey -> Compare ucmp k (user_smallest g) < 0.
Proof using Laws Hd.
  intros Hf Hg Hij Hge. apply (cmp_le_lt_trans ucmp _ (user_largest f)); [|by apply (user_disjoint_next ucmp fs i j)].
  apply icmp_le_user. by apply (cmp_le_ge icmp).
Qed.

Lemma wanted_at i f :
  fs !z i = Some f -> 0 <= Compare icmp (f_largest f) ikey ->
  (forall j g, fs !z j = Some g -> j < i -> Compare icmp (f_largest g) ikey < 0) ->
  filter wanted fs = if Compare ucmp k (user_smallest f) <? 0 then [] else [f].
Proof using Laws Hd.
  intros Hf Hge Hbefore. pose proof Hf as [Hi Hlk]%zget_Some. rewrite <- (take_drop_middle fs (Z.to_nat i) f Hlk).
  rewrite filter_app, filter_cons. rewrite (filter_none _ (take _ _)), (filter_none _ (drop _ _)).
  - simpl. destruct (Z.ltb_spec (Compare ucmp k (user_smallest f)) 0) as [Hlt|Hsm]; case_decide as Hw; try done.
    + destruct Hw as [[Hs _] _]. apply (cmp_lt_gt ucmp) in Hlt. lia.
    + destruct Hw. split; [|done]. split; [by apply (cmp_le_ge ucmp)|]. apply icmp_le_user. by apply (cmp_le_ge icmp).
  - intros g (j & Hg)%list_elem_of_lookup [[Hs _] _]. rewrite lookup_drop in Hg.
    assert (Hgz : fs !z (i + 1 + Z.of_nat j) = Some g) by (apply zget_Some; split; [lia|]; rewrite <- Hg; f_equal; lia).
    pose proof (later_not_wanted i _ f g Hf Hgz ltac:(lia) Hge) as Hlt. apply (cmp_lt_gt ucmp) in Hlt. lia.
  - intros g (j & [Hg Hj]%lookup_take_Some)%list_elem_of_lookup. apply not_wanted, (Hbefore (Z.of_nat j)); [by rewrite zget_nat|lia].
Qed.

(** The search between two bounds. *)
Lemma search_ok l r :
  bounds_ok ucmp fs k l r -> l <= r ->
  exists i, FindFileInRange ucmp fs ikey (wrap32 l) (wrap32 (r + 1)) = Some i /\
    (i = r + 1 /\ filter wanted fs = [] \/
     exists f, i <> r + 1 /\ fs !z i = Some f /\ 0 <= Compare icmp (f_largest f) ikey /\
       forall j g, fs !z j = Some g -> j < i -> Compare icmp (f_largest g) ikey < 0).
Proof using Laws Hd Hl.
  intros [Hb1 Hb2 Hb3 Hb4] Hle. unfold FindFileInRange. rewrite !wrap_id by lia.
  destruct (lower_bound_ok ucmp fs ikey (Z.to_nat (r + 1 - l)) l (r + 1 - l)) as (i & Hi & Hr & Hlo & Hhi);
    [intros i j f g Hf Hg Hij; by apply (level_monotone i j f g)|lia|lia|lia|lia|].
  exists i. split; [done|].
  assert (Hbefore : forall j g, fs !z j = Some g -> j < i -> Compare icmp (f_largest g) ikey < 0).
  { intros j g Hg Hj. destruct (Z.lt_ge_cases j l) as [Hjl|]; [|by apply (Hlo j)].
    by apply icmp_lt_user, (Hb3 j). }
  destruct (Z.eq_dec i (r + 1)) as [->|Hne].
  - left. split; [done|]. apply filter_none. intros g (j & Hg)%list_elem_of_lookup Hw. rewrite <- zget_nat in Hg.
    destruct (Z.lt_ge_cases (Z.of_nat j) (r + 1)) as [Hj|Hj]; [by destruct (not_wanted g (Hbefore _ _ Hg Hj))|].
    destruct Hw as [[Hs _] _]. pose proof (Hb4 _ _ Hg ltac:(lia)) as Hlt. apply (cmp_lt_gt ucmp) in Hlt. lia.
  - right. destruct (zget_is_Some fs i ltac:(lia)) as [f Hf]. exists f. split_and!; [done|done| |done]. apply (Hhi i f Hf). lia.
Qed.

Lemma bounds_none l r : bounds_ok ucmp fs k l r -> r < l -> filter wanted fs = [].
Proof using Laws.
  intros [Hb1 Hb2 Hb3 Hb4] Hlt. apply filter_none. intros g (j & Hg)%list_elem_of_lookup [[Hs Hlg] _]. rewrite <- zget_nat in Hg.
  destruct (Z.lt_ge_cases (Z.of_nat j) l) as [Hj|Hj].
  - pose proof (Hb3 _ _ Hg Hj) as H. apply (cmp_lt_gt ucmp) in H. lia.
  - pose proof (Hb4 _ _ Hg ltac:(lia)) as H. apply (cmp_lt_gt ucmp) in H. lia.
Qed.

Lemma bounds_all : bounds_ok ucmp fs k 0 (len fs - 1).
Proof using Type. pose proof (zlen_nonneg fs). constructor; [lia|lia|intros j f Hf%zget_range; lia..]. Qed.
End Level.

(** ** The states of a search *)

(** The bounds with which [level] is searched. *)
Definition bounds_at (level : Z) (p : FilePicker) : Prop :=
  search_left_bound_ p = 0 /\ search_right_bound_ p = kLevelMaxIndex \/
  exists fs, levels !z level = Some fs /\ bounds_ok ucmp fs k (search_left_bound_ p) (search_right_bound_ p).

(** The picker stands at the first file of [level] that ends at or after the key. *)
Record at_file (p : FilePicker) (level : Z) (fs : list FileMetaData) (i : Z) (f : FileMetaData) : Prop := {
  af_level : curr_level_ p = level /\ 1 <= level < n;
  af_files : levels !z level = Some fs /\ curr_file_level_ p = fs;
  af_index : curr_index_in_curr_level_ p = i /\ start_index_in_curr_level_ p = i;
  af_prev : prev_file_ p = None;
  af_file : fs !z i = Some f;
  af_largest : 0 <= Compare icmp (f_largest f) ikey;
  af_before j g : fs !z j = Some g -> j < i -> Compare icmp (f_largest g) ikey < 0;
}.

Definition at_file_todo (level : Z) (f : FileMetaData) : list (Z * FileMetaData) :=
  ((level,.) <$> if Compare ucmp k (user_smallest f) <? 0 then [] else [f]) ++ files_from (level + 1).

(** What is found from [level] on: a file to look at, or nothing more. *)
Definition prepared (level : Z) (more : bool) (p : FilePicker) : Prop :=
  if more then exists level' fs i f, level <= level' /\ at_file p level' fs i f /\ files_from level = at_file_todo level' f
  else files_from level = [].

Lemma lower_level level fs : 1 <= level -> levels !z level = Some fs -> user_disjoint ucmp fs /\ len fs < 2 ^ 31.
Proof using Hlv. intros Hl Hf. destruct Hlv as [_ H]. by apply (H level). Qed.

Lemma files_from_skip level fs :
  level < n -> levels !z level = Some fs -> filter wanted fs = [] -> files_from level = files_from (level + 1).
Proof using Type. intros Hl Hf Hw. rewrite files_from_step by done. unfold level_files. rewrite Hf. simpl. by rewrite Hw. Qed.

Lemma files_from_at level fs i f :
  1 <= level < n -> levels !z level = Some fs -> fs !z i = Some f -> 0 <= Compare icmp (f_largest f) ikey ->
  (forall j g, fs !z j = Some g -> j < i -> Compare icmp (f_largest g) ikey < 0) ->
  files_from level = at_file_todo level f.
Proof using Laws Hlv.
  intros Hl Hf Hi Hge Hb. rewrite files_from_step by lia. unfold level_files, at_file_todo. rewrite Hf. simpl.
  by rewrite (wanted_at fs (proj1 (lower_level level fs ltac:(lia) Hf)) i f).
Qed.

(** The right bound a search uses. *)
Lemma bounds_at_right p fs :
  levels !z curr_level_ p = Some fs -> len fs < 2 ^ 31 -> bounds_at (curr_level_ p) p ->
  exists r, bounds_ok ucmp fs k (search_left_bound_ p) r /\
    (if search_right_bound_ p =? kLevelMaxIndex then i32 (len fs) - 1 else search_right_bound_ p) = r /\
    (search_left_bound_ p <= search_right_bound_ p -> search_left_bound_ p <= r \/ fs = []).
Proof using Type.
  intros Hfs Hlf. pose proof (zlen_nonneg fs). intros [[Hl0 Hr0]|(fs' & Hfs' & Hb')].
  - rewrite Hr0, Hl0, Z.eqb_refl, i32_id by lia. exists (len fs - 1). split_and!; [apply bounds_all|done|]. intros _.
    destruct (Z.eq_dec (len fs) 0) as [->%zlen_zero|]; [by right|left; lia].
  - rewrite Hfs in Hfs'. injection Hfs' as <-. exists (search_right_bound_ p). pose proof (bo_right _ _ _ _ _ Hb').
    split_and!; [done| |by left]. unfold kLevelMaxIndex. by destruct (Z.eqb_spec (search_right_bound_ p) 2147483647); [lia|].
Qed.

Lemma PrepareNextLevel_loop_ok fuel p :
  1 <= curr_level_ p <= n -> (curr_level_ p < n -> bounds_at (curr_level_ p) p) -> n - curr_level_ p <= Z.of_nat fuel ->
  exists more p', PrepareNextLevel_loop ucmp levels n ikey fuel p = Some (more, p') /\
    hit_file_level_ p' = hit_file_level_ p /\ prepared (curr_level_ p) more p'.
Proof using Laws Hlv Hn.
  revert p. induction fuel as [|fuel IH]; intros p Hl Hb Hf; simpl.
  all: destruct (Z.ltb_spec (curr_level_ p) n) as [Hlt|Hge]; [|exists false, p; split_and!; [done|done|by apply files_from_end]].
  { lia. }
  specialize (Hb Hlt). destruct Hlv as [Hlen _]. destruct (zget_is_Some levels (curr_level_ p) ltac:(lia)) as [fs Hfs]. rewrite Hfs. cbn [mbind option_bind].
  destruct (lower_level _ _ (proj1 Hl) Hfs) as [Hd Hlf]. rewrite wrap_id by lia.
  set (next := fp_level _ _).
  assert (Hskip : filter wanted fs = [] -> exists more p', PrepareNextLevel_loop ucmp levels n ikey fuel next = Some (more, p') /\
    hit_file_level_ p' = hit_file_level_ p /\ prepared (curr_level_ p) more p').
  { intros Hw. destruct (IH next) as (more & p' & H1 & H2 & H3); [simpl; lia|by intros _; left|simpl; lia|].
    exists more, p'. split_and!; [done|done|]. unfold prepared in *. rewrite (files_from_skip _ fs) by done. simpl in H3.
    destruct more; [|done]. destruct H3 as (l' & fs' & i & f & ? & ?). exists l', fs', i, f. split; [lia|done]. }
  destruct (bounds_at_right p fs Hfs Hlf Hb) as (r & Hbo & Hr & Hle). destruct (Z.eqb_spec (len fs) 0) as [Hz%zlen_zero|Hz].
  - assert (Hc : (search_left_bound_ p =? 0) && ((search_right_bound_ p =? -1) || (search_right_bound_ p =? kLevelMaxIndex)) = true).
    { destruct Hb as [[-> ->]|(fs' & Hfs' & [B1 B2 _ _])]; [done|]. rewrite Hfs in Hfs'. injection Hfs' as <-. rewrite Hz in B2.
      unfold zlen in B2. simpl in B2. assert (search_left_bound_ p = 0) as -> by lia. by assert (search_right_bound_ p = -1) as -> by lia. }
    simpl. rewrite Hc. apply Hskip. by rewrite Hz.
  - simpl. destruct (Z.eqb_spec (curr_level_ p) 0); [lia|].
    destruct (Z.leb_spec (search_left_bound_ p) (search_right_bound_ p)) as [Hlr|Hlr].
    + destruct (Hle Hlr) as [Hlr'|E]; [|by destruct Hz; rewrite E]. rewrite Hr.
      destruct (search_ok fs Hd Hlf _ _ Hbo Hlr') as (i & -> & Hi). cbn [mbind option_bind].
      destruct Hi as [[-> Hw]|(f & Hne & Hf1 & Hf2 & Hf3)]; [rewrite Z.eqb_refl; by apply Hskip|].
      destruct (Z.eqb_spec i (r + 1)); [done|]. eexists _, _. split; [done|]. split; [done|].
      exists (curr_level_ p), fs, i, f. split_and!; [lia|constructor; simpl; try done; lia|eapply files_from_at; (done || lia)].
    + apply Hskip. apply (bounds_none fs _ _ Hbo).
      destruct Hb as [[H1 H2]|_]; [rewrite H1, H2 in Hlr; unfold kLevelMaxIndex in Hlr; lia|].
      rewrite <- Hr. destruct (Z.eqb_spec (search_right_bound_ p) kLevelMaxIndex) as [E|]; [|done].
      rewrite E in Hlr. unfold kLevelMaxIndex in *. pose proof (bo_left _ _ _ _ _ Hbo). pose proof (bo_right _ _ _ _ _ Hbo). lia.
Qed.

(** Level 0 is searched file by file; the boundaries are looked at unless there is
    nothing else to search. *)
Definition level0_rest (fs rest : list FileMetaData) : list FileMetaData :=
  if (1 <? n) || (3 <? len fs) then filter (holds_key ucmp k) rest else rest.

(** A picker and the files it has yet to hand out. *)
Inductive fp_at (p : FilePicker) : list (Z * FileMetaData) -> Prop :=
| at_end : search_ended_ p = true -> fp_at p []
| at_start level fs i f :
    search_ended_ p = false -> at_file p level fs i f -> fp_at p (at_file_todo level f)
| at_next level fs i f :
    search_ended_ p = false -> curr_level_ p = level -> 1 <= level < n -> levels !z level = Some fs -> curr_file_level_ p = fs ->
    fs !z i = Some f -> Compare ucmp k (user_largest f) = 0 -> curr_index_in_curr_level_ p = i + 1 ->
    (level + 1 < n -> bounds_at (level + 1) p) -> fp_at p (files_from (level + 1))
| at_zero fs i :
    level0_in_nvm fs = false -> (prev_file_ p <> None -> 0 < i) -> search_ended_ p = false -> curr_level_ p = 0 -> levels !z 0 = Some fs -> curr_file_level_ p = fs ->
    curr_index_in_curr_level_ p = i -> 0 <= i <= len fs -> bounds_at 1 p ->
    fp_at p (((0,.) <$> level0_rest fs (drop (Z.to_nat i) fs)) ++ files_from 1).

(** The rounds left before the search ends. *)
Definition rounds (p : FilePicker) : Z :=
  if search_ended_ p then 0
  else n - curr_level_ p + (if curr_level_ p =? 0 then len (curr_file_level_ p) - curr_index_in_curr_level_ p else 0).

Lemma search_next_level_ok p level :
  curr_level_ p = level -> 0 <= level < n -> (level + 1 < n -> bounds_at (level + 1) p) ->
  exists p', search_next_level ucmp levels n ikey p = Some p' /\ hit_file_level_ p' = hit_file_level_ p /\
    fp_at p' (files_from (level + 1)) /\ rounds p' < n - level.
Proof using Laws Hlv Hn.
  intros Hl Hr Hb. unfold search_next_level, PrepareNextLevel. rewrite Hl, wrap_id by lia.
  destruct (PrepareNextLevel_loop_ok (Z.to_nat n) (fp_level (level + 1) p)) as (more & p' & -> & Hh & Hp); [simpl; lia| |simpl; lia|].
  { simpl. intros Hlt. destruct (Hb Hlt) as [[]|(fs & ? & ?)]; [by left|right]. by exists fs. }
  cbn [mbind option_bind]. eexists. split; [done|]. split; [exact Hh|]. simpl in Hp. destruct more; simpl in *.
  - destruct Hp as (l' & fs & i & f & Hle & Haf & ->). split.
    + by eapply at_start; [|destruct Haf; constructor].
    + unfold rounds. simpl. destruct Haf as [[-> ?] _ _ _ _ _ _]. destruct (Z.eqb_spec l' 0); lia.
  - rewrite Hp. split; [by apply at_end|]. unfold rounds. simpl. lia.
Qed.

(** The first file of [level] to look at. *)
Lemma visit_file p level fs i f :
  curr_level_ p = level -> 1 <= level < n -> levels !z level = Some fs -> fs !z i = Some f ->
  (forall g, fs !z (i - 1) = Some g -> Compare ucmp (user_largest g) k <= 0) ->
  exists l r, GetNextLevelIndex x level i (cmp_smallest ucmp k f) (cmp_largest ucmp k f) = Some (l, r) /\
    (level + 1 < n -> forall q, search_left_bound_ q = l -> search_right_bound_ q = r -> bounds_at (level + 1) q).
Proof using Laws Hlv Hidx.
  intros Hl Hr Hfs Hf Hprev. destruct (GetNextLevelIndex_ok ucmp x n levels level fs i f k Hlv Hidx Hr Hfs Hf Hprev) as (l & r & Hg & Hb).
  exists l, r. split; [done|]. intros Hlt q H1 H2. right. destruct Hlv as [Hlen _].
  destruct (zget_is_Some levels (level + 1) ltac:(lia)) as [lower Hlo]. exists lower. rewrite H1, H2. split; [done|]. apply Hb; [lia|done].
Qed.

(** The result of one call: the next file with its level, or the end. *)
Definition handed_out (todo : list (Z * FileMetaData)) (r : option FileMetaData) (p : FilePicker) : Prop :=
  match todo with
  | [] => r = None
  | (level, f) :: rest => r = Some f /\ hit_file_level_ p = level /\ fp_at p rest
  end.

Abbreviation next_file := (GetNextFile ucmp levels n x k ikey).

Lemma at_file_prev p level fs i f g :
  at_file p level fs i f -> fs !z (i - 1) = Some g -> Compare ucmp (user_largest g) k <= 0.
Proof using Type. intros [] Hg. apply icmp_le_user. pose proof (af_before0 (i - 1) g Hg ltac:(lia)). lia. Qed.

Lemma adjacent_next ok l i (g f : FileMetaData) : adjacent ok l = true -> l !z (i - 1) = Some g -> l !z i = Some f -> ok g f = true.
Proof using Type.
  intros Ha [H0 Hg]%zget_Some [_ Hf]%zget_Some. replace (Z.to_nat i) with (S (Z.to_nat (i - 1))) in Hf by lia.
  revert l Ha Hg Hf. induction (Z.to_nat (i - 1)) as [|m IH]; intros [|a [|b l]] Ha Hg Hf; try done.
  - simpl in *. injection Hg as ->. injection Hf as ->. by apply andb_prop in Ha as [? _].
  - apply (IH (b :: l)); [by apply andb_prop in Ha as [_ ?]|done|done].
Qed.

Lemma newest_first_asym g f : NewestFirstBySeqNo g f = true -> NewestFirstBySeqNo f g = false.
Proof using Type. unfold NewestFirstBySeqNo. repeat case_match; lia. Qed.

Lemma level0_check p fs i f :
  level0_in_nvm fs = false -> curr_level_ p = 0 -> levels !z 0 = Some fs -> curr_index_in_curr_level_ p = i -> fs !z i = Some f ->
  (prev_file_ p <> None -> 0 < i) -> files_sorted_check ucmp levels f p = true.
Proof using Hnew.
  intros Hnv Hl Hfs Hi Hf Hpv. unfold files_sorted_check. destruct (prev_file_ p) as [prev|]; [|done]. specialize (Hpv ltac:(done)).
  rewrite Hl, Hi, Hfs. cbn [negb Z.eqb mbind option_bind]. rewrite Hf. pose proof (zget_range _ _ _ Hf).
  destruct (zget_is_Some fs (i - 1) ltac:(lia)) as [g Hg]. rewrite Hg, (newest_first_asym g f) by (by apply (adjacent_next _ fs i); [apply Hnew| |]).
  by destruct (Z.ltb_spec 0 i); [|lia].
Qed.

Section Step.
Context (fuel : nat).
Hypothesis (IH : forall p todo, fp_at p todo -> rounds p <= Z.of_nat fuel ->
  exists r p', next_file fuel p = Some (r, p') /\ handed_out todo r p').

(** The search goes on in the next level. *)
Lemma step_next_level p level :
  curr_level_ p = level -> 0 <= level < n -> (level + 1 < n -> bounds_at (level + 1) p) -> n - level <= Z.of_nat (S fuel) ->
  exists r p', (q ← search_next_level ucmp levels n ikey p; next_file fuel q) = Some (r, p') /\
    handed_out (files_from (level + 1)) r p'.
Proof using Laws Hlv Hn IH.
  intros Hl Hr Hb Hf. destruct (search_next_level_ok p level Hl Hr Hb) as (q & -> & _ & Hq & Hm). cbn [mbind option_bind].
  apply IH; [done|lia].
Qed.

Lemma step_start p level fs i f :
  search_ended_ p = false -> at_file p level fs i f -> n - level <= Z.of_nat (S fuel) ->
  exists r p', next_file (S fuel) p = Some (r, p') /\ handed_out (at_file_todo level f) r p'.
Proof using Laws Hlv Hidx Hn IH.
  intros He Haf Hfuel. pose proof (fun g => at_file_prev p level fs i f g Haf) as Hprev.
  destruct Haf as [[Hl Hr] [Hfs Hcf] [Hi Hst] Hpv Hf Hge Hb]. pose proof (zget_range _ _ _ Hf) as Hrng.
  destruct (visit_file p level fs i f Hl Hr Hfs Hf Hprev) as (l & r & Hg & Hbn).
  destruct p as [cl hl lb rb en la cf ci si pv]. simpl in *. subst cl cf ci si en pv.
  destruct (Z.ltb_spec i (len fs)); [|lia]. rewrite Hf. cbn [mbind option_bind]. destruct (Z.ltb_spec 1 n); [|lia].
  rewrite Z.eqb_refl, orb_true_r. cbn [orb negb]. destruct (Z.ltb_spec 0 level); [|lia].
  fold (user_smallest f) (user_largest f). fold (cmp_smallest ucmp k f). fold (cmp_largest ucmp k f).
  rewrite Hg. cbn [mbind option_bind].
  assert (Hcl : cmp_largest ucmp k f <= 0).
  { unfold cmp_largest. destruct (0 <=? _); [|lia]. apply icmp_le_user. by apply (cmp_le_ge icmp). }
  destruct (Z.ltb_spec 0 (cmp_largest ucmp k f)); [lia|]. rewrite orb_false_r. unfold at_file_todo. fold (cmp_smallest ucmp k f).
  set (q := fp_bounds l r _). destruct (Z.ltb_spec (cmp_smallest ucmp k f) 0) as [Hlt|Hsm].
  - change (curr_level_ q) with level. destruct (Z.eqb_spec level 0); [lia|].
    apply (step_next_level q level); [done|lia|intros Hlt'; by apply Hbn|done].
  - unfold return_file. cbn [files_sorted_check prev_file_ q negb]. change (curr_level_ (fp_prev f q)) with level. destruct (Z.ltb_spec 0 level); [|lia].
    cbn [andb fmap list_fmap app]. destruct (Z.ltb_spec (cmp_largest ucmp k f) 0) as [Hcl'|Hcl'].
    + destruct (search_next_level_ok (fp_prev f q) level) as (q' & -> & Hq2 & Hq3 & _); [done|lia|intros; by apply Hbn|].
      cbn [mbind option_bind]. eexists _, _. split; [done|]. split_and!; [done|by rewrite Hq2|done].
    + eexists _, _. split; [done|]. split_and!; [done|done|]. destruct (lower_level level fs ltac:(lia) Hfs) as [_ Hlen].
      eapply (at_next _ level fs i f); try done.
      * unfold cmp_largest in Hcl, Hcl'. destruct (Z.leb_spec 0 (cmp_smallest ucmp k f)); [|lia]. lia.
      * simpl. rewrite wrap_id by lia. done.
      * intros Hlt. by apply Hbn.
Qed.

(** After the file that ends with the key. *)
Lemma step_next p level fs i f :
  search_ended_ p = false -> curr_level_ p = level -> 1 <= level < n -> levels !z level = Some fs -> curr_file_level_ p = fs ->
  fs !z i = Some f -> Compare ucmp k (user_largest f) = 0 -> curr_index_in_curr_level_ p = i + 1 ->
  (level + 1 < n -> bounds_at (level + 1) p) -> n - level <= Z.of_nat (S fuel) ->
  exists r p', next_file (S fuel) p = Some (r, p') /\ handed_out (files_from (level + 1)) r p'.
Proof using Laws Hlv Hidx Hn IH.
  intros He Hl Hr Hfs Hcf Hf Heq Hi Hb Hfuel. destruct p as [cl hl lb rb en la cf ci si pv]. simpl in *. subst cl cf ci en.
  destruct (Z.ltb_spec (i + 1) (len fs)) as [Hlt|Hge]; [|by apply step_next_level; [|lia| |]].
  pose proof (zget_range _ _ _ Hf) as Hrng. destruct (zget_is_Some fs (i + 1) ltac:(lia)) as [g Hg]. rewrite Hg. cbn [mbind option_bind].
  destruct (lower_level level fs ltac:(lia) Hfs) as [Hd Hlen].
  assert (Hsm : cmp_smallest ucmp k g < 0).
  { apply (cmp_le_lt_trans ucmp _ (user_largest f)); [lia|]. apply (user_disjoint_next ucmp fs i (i + 1)); (done || lia). }
  destruct (visit_file (mkFP level hl lb rb false la fs (i + 1) si pv) level fs (i + 1) g) as (l & r & Hgn & Hbn); try done.
  { intros h Hh. replace (i + 1 - 1) with i in Hh by lia. assert (h = f) as -> by congruence. apply (cmp_eq_sym ucmp) in Heq. lia. }
  destruct (Z.ltb_spec 1 n); [|lia]. cbn [orb]. fold (user_smallest g) (user_largest g).
  fold (cmp_smallest ucmp k g). fold (cmp_largest ucmp k g).
  destruct (Z.leb_spec (cmp_smallest ucmp k g) 0); [|lia]. rewrite orb_true_r. cbn [negb].
  destruct (Z.ltb_spec 0 level); [|lia]. rewrite Hgn. cbn [mbind option_bind].
  destruct (Z.ltb_spec (cmp_smallest ucmp k g) 0); [|lia]. cbn [orb]. set (q := fp_bounds l r _).
  change (curr_level_ q) with level. destruct (Z.eqb_spec level 0); [lia|].
  apply (step_next_level q level); [done|lia|intros Hlt'; by apply Hbn|done].
Qed.

Lemma level0_rest_cons fs f rest :
  level0_rest fs (f :: rest) =
    if ((1 <? n) || (3 <? len fs)) && ((cmp_smallest ucmp k f <? 0) || (0 <? cmp_largest ucmp k f))
    then level0_rest fs rest else f :: level0_rest fs rest.
Proof using Laws.
  unfold level0_rest. destruct (_ || _); [|done]. cbn [andb]. rewrite filter_cons. unfold cmp_largest, cmp_smallest.
  assert (Hk : holds_key ucmp k f <-> 0 <= Compare ucmp k (user_smallest f) /\ Compare ucmp k (user_largest f) <= 0).
  { unfold holds_key. by rewrite (cmp_le_ge ucmp (user_smallest f) k). }
  destruct (Z.ltb_spec (Compare ucmp k (user_smallest f)) 0) as [H1|H1]; cbn [orb].
  - rewrite decide_False by (rewrite Hk; lia). done.
  - destruct (Z.leb_spec 0 (Compare ucmp k (user_smallest f))); [|lia].
    destruct (Z.ltb_spec 0 (Compare ucmp k (user_largest f))); [rewrite decide_False by (rewrite Hk; lia)|rewrite decide_True by (rewrite Hk; lia)]; done.
Qed.

Lemma step_zero p fs i :
  level0_in_nvm fs = false -> (prev_file_ p <> None -> 0 < i) -> search_ended_ p = false -> curr_level_ p = 0 -> levels !z 0 = Some fs -> curr_file_level_ p = fs ->
  curr_index_in_curr_level_ p = i -> 0 <= i <= len fs -> bounds_at 1 p -> n + (len fs - i) <= Z.of_nat (S fuel) ->
  exists r p', next_file (S fuel) p = Some (r, p') /\
    handed_out (((0,.) <$> level0_rest fs (drop (Z.to_nat i) fs)) ++ files_from 1) r p'.
Proof using All.
  intros Hnv Hpv He Hl Hfs Hcf Hi Hr Hb Hfuel. destruct p as [cl hl lb rb en la cf ci si pv]. simpl in *. subst cl cf ci en.
  pose proof (Hlen0 fs Hfs) as Hlf. destruct Hlv as [Hnn _]. destruct (Z.ltb_spec i (len fs)) as [Hlt|Hge].
  2: { rewrite drop_ge by zlia. replace (level0_rest fs []) with (@nil FileMetaData) by (unfold level0_rest; by destruct (_ || _)).
       apply (step_next_level (mkFP 0 hl lb rb false la fs i si pv) 0); [done|lia|done|lia]. }
  destruct (zget_is_Some fs i ltac:(lia)) as [f Hf]. rewrite Hf. cbn [mbind option_bind].
  pose proof Hf as [_ Hlk]%zget_Some. rewrite (drop_S _ _ _ Hlk), level0_rest_cons.
  replace (S (Z.to_nat i)) with (Z.to_nat (i + 1)) by lia.
  fold (user_smallest f) (user_largest f). fold (cmp_smallest ucmp k f). fold (cmp_largest ucmp k f).
  set (q := fp_hit _). assert (Hnext : fp_at (fp_index (wrap32 (i + 1)) q) (((0,.) <$> level0_rest fs (drop (Z.to_nat (i + 1)) fs)) ++ files_from 1)).
  { rewrite wrap_id by lia. eapply at_zero; try done; cbn; lia. }
  assert (Hret : forall c, exists r p', return_file ucmp levels n ikey f c q = Some (r, p') /\
    handed_out ((0, f) :: ((0,.) <$> level0_rest fs (drop (Z.to_nat (i + 1)) fs)) ++ files_from 1) r p').
  { intros c. unfold return_file. rewrite (level0_check q fs i f); try done. cbn. eexists _, _. split; [done|]. split_and!; [done|done|].
    rewrite wrap_id by lia. eapply at_zero; try done; cbn; lia. }
  destruct ((1 <? n) || (3 <? len fs)); cbn [andb]; [|apply Hret].
  destruct ((cmp_smallest ucmp k f <? 0) || (0 <? cmp_largest ucmp k f)).
  - apply (IH _ _ Hnext). unfold rounds. simpl. rewrite wrap_id by lia. lia.
  - apply Hret.
Qed.
End Step.

Lemma GetNextFile_ok fuel p todo :
  fp_at p todo -> rounds p <= Z.of_nat fuel -> exists r p', next_file fuel p = Some (r, p') /\ handed_out todo r p'.
Proof using All.
  revert p todo. induction fuel as [|fuel IH]; intros p todo Hat Hm; destruct Hat as [He|level fs i f He Haf|level fs i f He Hl Hr Hfs Hcf Hf Heq Hi Hb|fs i Hnv Hpv He Hl Hfs Hcf Hi Hr Hb];
    unfold rounds in Hm; rewrite He in Hm.
  1, 5: simpl; rewrite He; by eexists _, _.
  - destruct Haf as [[Hl Hr] _ _ _ _ _ _]. rewrite Hl in Hm. destruct (Z.eqb_spec level 0); lia.
  - rewrite Hl in Hm. destruct (Z.eqb_spec level 0); lia.
  - rewrite Hl, Hcf, Hi in Hm. destruct Hlv as [Hnn _]. simpl in Hm. lia.
  - eapply step_start; [done|done|exact Haf|]. destruct Haf as [[Hl Hr] _ _ _ _ _ _]. rewrite Hl in Hm. destruct (Z.eqb_spec level 0); lia.
  - eapply step_next; try done. rewrite Hl in Hm. destruct (Z.eqb_spec level 0); lia.
  - eapply step_zero; try done. rewrite Hl, Hcf, Hi in Hm. simpl in Hm. lia.
Qed.

Lemma rounds_bound p todo : fp_at p todo -> rounds p <= Z.of_nat (picker_fuel levels n).
Proof using Hlv.
  destruct Hlv as [Hnn _]. unfold rounds, picker_fuel.
  intros [He|level fs i f He [[Hl Hr] _ _ _ _ _ _]|level fs i f He Hl Hr _ _ _ _ _ _|fs i _ _ He Hl Hfs Hcf Hi Hr _]; rewrite He; [lia|..].
  - rewrite Hl. destruct (Z.eqb_spec level 0); lia.
  - rewrite Hl. destruct (Z.eqb_spec level 0); lia.
  - rewrite Hl, Hcf, Hi, Hfs. unfold zlen in *. simpl. lia.
Qed.

Lemma pick_files_ok fuel p todo :
  fp_at p todo -> (length todo <= fuel)%nat -> pick_files ucmp levels n x k ikey fuel p = Some todo.
Proof using All.
  revert p todo. induction fuel as [|fuel IH]; intros p todo Hp Hf;
    destruct (GetNextFile_ok (picker_fuel levels n) p todo Hp (rounds_bound p todo Hp)) as (r & p' & Hg & Hh);
    cbn [pick_files]; rewrite Hg; cbn [mbind option_bind]; destruct todo as [|[level f] rest]; simpl in Hf, Hh; try lia.
  1, 2: by rewrite Hh.
  destruct Hh as (-> & -> & Hp'). rewrite (IH p' rest Hp') by lia. done.
Qed.

(** The files of a lookup, in the order they are handed out. *)
Definition lookup_files (fs0 : list FileMetaData) : list (Z * FileMetaData) :=
  ((0,.) <$> (if level0_in_nvm fs0 then [] else level0_rest fs0 fs0)) ++ files_from 1.

Lemma FilePicker_make_ok fs0 :
  levels !z 0 = Some fs0 -> exists p, FilePicker_make ucmp levels n ikey = Some p /\ fp_at p (lookup_files fs0).
Proof using All.
  intros H0. unfold FilePicker_make, lookup_files. rewrite H0. cbn [mbind option_bind]. destruct Hlv as [Hnn _].
  destruct (level0_in_nvm fs0) eqn:Hnv.
  { destruct (search_next_level_ok (mkFP 0 (wrap32 (-1)) 0 kLevelMaxIndex false false [] 0 0 None) 0) as (p & -> & _ & Hp & _);
      [done|lia|by intros _; left|]. by exists p. }
  unfold search_next_level, PrepareNextLevel. cbn [fp_level curr_level_]. change (wrap32 (wrap32 (-1) + 1)) with 0.
  destruct (Z.to_nat n) as [|fuel] eqn:En; [lia|]. cbn [PrepareNextLevel_loop fp_level curr_level_]. destruct (Z.ltb_spec 0 n); [|lia].
  rewrite H0. cbn [mbind option_bind]. destruct (Z.eqb_spec (len fs0) 0) as [->%zlen_zero|Hz].
  - simpl. change (wrap32 (0 + 1)) with 1. match goal with |- context [PrepareNextLevel_loop _ _ _ _ fuel ?q] =>
      destruct (PrepareNextLevel_loop_ok fuel q) as (more & p & -> & _ & Hpr) end; [simpl; lia|by intros _; left|simpl; lia|].
    cbn [mbind option_bind]. eexists. split; [done|].
    replace (level0_rest [] []) with (@nil FileMetaData) by (unfold level0_rest; by destruct (_ || _)).
    simpl in *. destruct more; simpl.
    + destruct Hpr as (l' & fs & i & f & _ & Haf & ->). by eapply at_start; [|destruct Haf; constructor].
    + rewrite Hpr. by apply at_end.
  - cbn. eexists. split; [done|]. change fs0 with (drop (Z.to_nat 0) fs0) at 3. eapply at_zero; try done; [pose proof (zlen_nonneg fs0); lia|by left].
Qed.
End PickerOk.

(** ** Correctness of the picker *)

Section PickerClaims.
Context (ucmp : Comparator) {Laws : ComparatorLaws ucmp}.

(** C13. A lookup visits exactly the files it needs, in the right order.  In a version whose levels from level 1 on are sorted
    and share no user key between two files, and whose level 0 is sorted newest first unless it is kept in NVM, and with the
    index of its levels, the picker hands out the level-0 tables whose boundaries enclose the key, newest first (none when
    level 0 is kept in NVM, all of them when there are at most three and no other level), and then level by level every file
    whose boundaries enclose the key and whose largest internal key is not before the lookup's version of it, although each
    level but the first is searched only within the bounds the level above gives.  No assertion fails, the debug checks of the
    order of the files included, and the search ends. *)
Theorem file_picker_exact levels n ikey fs0 :
  levels_ok ucmp n levels -> n < 2 ^ 31 -> levels !z 0 = Some fs0 -> len fs0 < 2 ^ 31 ->
  (level0_in_nvm fs0 = false -> adjacent NewestFirstBySeqNo fs0 = true) ->
  let todo := lookup_files ucmp levels n ikey fs0 in
  exists x p, UpdateIndex ucmp n levels = Some x /\ FilePicker_make ucmp levels n ikey = Some p /\
    pick_files ucmp levels n x (ExtractUserKey ikey) ikey (length todo) p = Some todo.
Proof.
  intros Hlv Hn H0 Hl0 Hnw todo. destruct (UpdateIndex_ok ucmp n levels Hlv) as (x & Hx & Hidx).
  assert (Hlen0 : forall fs, levels !z 0 = Some fs -> len fs < 2 ^ 31) by (intros fs Hfs; congruence).
  assert (Hnew : forall fs, levels !z 0 = Some fs -> level0_in_nvm fs = false -> adjacent NewestFirstBySeqNo fs = true) by (intros fs Hfs; rewrite H0 in Hfs; by injection Hfs as <-).
  destruct (FilePicker_make_ok ucmp levels n x ikey Hlv Hidx Hn Hlen0 Hnew fs0 H0) as (p & Hp & Hat).
  exists x, p. split_and!; [done|done|]. by apply pick_files_ok.
Qed.
End PickerClaims.

(** Two tables of level 0 enclose the key, and one file of each level below. *)
Definition picker_level0 : list FileMetaData := [sample_file 12 Byte.x61 Byte.x7a; sample_file 11 Byte.x61 Byte.x62; sample_file 10 Byte.x63 Byte.x7a].
Definition picker_levels : list (list FileMetaData) := [picker_level0; sample_upper; sample_level].

Lemma picker_levels_ok : levels_ok BytewiseComparator 3 picker_levels.
Proof.
  destruct sample_levels_ok as [_ H]. split; [by vm_compute|]. intros level fs Hl Hf. apply (H level fs Hl).
  unfold picker_levels in Hf. apply zget_Some in Hf as [H0 Hf]. apply zget_Some. split; [done|]. by destruct (Z.to_nat level) eqn:E; [lia|].
Qed.

Lemma file_picker_exact_witness :
  exists x p, UpdateIndex BytewiseComparator 3 picker_levels = Some x /\
    FilePicker_make BytewiseComparator picker_levels 3 (boundary_key Byte.x66) = Some p /\
    pick_files BytewiseComparator picker_levels 3 x [Byte.x66] (boundary_key Byte.x66) 4 p =
      Some [(0, sample_file 12 Byte.x61 Byte.x7a); (0, sample_file 10 Byte.x63 Byte.x7a);
            (1, sample_file 9 Byte.x64 Byte.x69); (2, sample_file 2 Byte.x65 Byte.x67)].
Proof.
  destruct (file_picker_exact BytewiseComparator picker_levels 3 (boundary_key Byte.x66) picker_level0) as (x & p & Hx & Hp & H).
  - apply picker_levels_ok.
  - by vm_compute.
  - reflexivity.
  - by vm_compute.
  - intros _. by vm_compute.
  - exists x, p. split; [exact Hx|]. split; [exact Hp|]. exact H.
Defined.

(** ** A user key that fills a file *)

Definition shared_file (number : Z) (lo : byte) (lo_seq : Z) (hi : byte) (hi_seq : Z) : FileMetaData :=
  new_file (FileDescriptor_make number 0 100 0 9) (AppendInternalKey [] (mkParsed [lo] lo_seq kTypeValue))
    (AppendInternalKey [] (mkParsed [hi] hi_seq kTypeValue)) false false 0 (-1) 0 0 0 0.

(** The versions of the key "k" are spread over the end of one file and all of the
    next; the oldest one is in the level below. *)
Definition shared_upper : list FileMetaData :=
  [shared_file 1 Byte.x61 9 Byte.x6b 5; shared_file 2 Byte.x6b 4 Byte.x6b 1; shared_file 3 Byte.x6d 9 Byte.x7a 9].
Definition shared_lower : list FileMetaData := [shared_file 4 Byte.x6a 0 Byte.x6b 0].

(** The index presumes that no two files of a level end with the same user key.
    When the versions of one key fill a whole file, which the order of a level allows,
    the left bound of that file skips the file below that ends with the same key, and a
    lookup of the oldest version does not visit the only file that holds it. *)
Theorem file_picker_misses_shared_key :
  let levels := [[]; shared_upper; shared_lower] in
  let ikey := AppendInternalKey [] (mkParsed [Byte.x6b] 0 kTypeValue) in
  level_sorted BytewiseComparator shared_upper /\
  (exists f, shared_lower = [f] /\ wanted BytewiseComparator ikey f) /\
  exists x p, UpdateIndex BytewiseComparator 3 levels = Some x /\
    FilePicker_make BytewiseComparator levels 3 ikey = Some p /\
    pick_files BytewiseComparator levels 3 x [Byte.x6b] ikey 3 p = Some [].
Proof.
  split; [|split].
  - split; intros i; [intros f [_ Hf]%zget_Some|intros j f g [H0 Hf]%zget_Some [H1 Hg]%zget_Some Hij].
    + destruct (Z.to_nat i) as [|[|[|m]]]; simpl in Hf; try done; injection Hf as <-; by vm_compute.
    + destruct (Z.to_nat i) as [|[|[|m]]] eqn:E; simpl in Hf; try done; injection Hf as <-;
        (destruct (Z.to_nat j) as [|[|[|m]]] eqn:E'; simpl in Hg; try done; injection Hg as <-; try lia; by vm_compute).
  - eexists. split; [reflexivity|]. split; [split|]; by vm_compute.
  - eexists _, _. split; [vm_compute; reflexivity|]. split; [vm_compute; reflexivity|]. vm_compute. reflexivity.
Qed.
