(* ===== verification/Manifest.v ===== *)
(** * The manifest (VersionSet::WriteSnapshot, ProcessManifestWrites, ApplyOneVersionEdit and Recover of db/version_set.cc)

    The manifest is a log of version edits.  A new manifest starts with a snapshot of
    every column family; each change of a version appends its edits; recovery reads the
    log, applies the edits to a builder per column family and saves the versions. *)

From S2P Require Import Prelude Coding Comparator DbFormat VersionEdit SstableMeta VersionBuilder Crc32c LogWriter LogReader LogRoundtrip.

#[export] Instance byte_eq_decision : EqDecision Byte.byte := Byte.byte_eq_dec.

(** ** Writing *)

(** The edits of a batch are encoded and appended one by one. *)
Fixpoint write_edits (w : Writer) (edits : list VersionEdit) : option (bool * Writer) :=
  match edits with
  | [] => Some (true, w)
  | e :: edits =>
      match EncodeTo e [] with
      | None => Some (false, w)
      | Some record =>
          '(s, w) ← AddRecord w record;
          if s : bool then write_edits w edits else Some (false, w)
      end
  end.

(** What a snapshot reads of a column family. *)
Record CfSnapshot := mkCfSnapshot {
  sn_dropped : bool;
  sn_id : Z;
  sn_name : bytes;
  sn_comparator : bytes;
  sn_files : list (list FileMetaData);
  sn_log_number : Z
}.

Definition snapshot_info (c : CfSnapshot) : VersionEdit :=
  SetComparatorName (sn_comparator c)
    (if negb (sn_id c =? 0) then SetColumnFamily (sn_id c) (AddColumnFamily (sn_name c) VersionEdit_Clear) else VersionEdit_Clear).

Definition snapshot_add (level : Z) (e : VersionEdit) (f : FileMetaData) : VersionEdit :=
  AddFile level (GetNumber (f_fd f)) (GetPathId (f_fd f)) (GetFileSize (f_fd f)) (f_smallest f) (f_largest f)
    (smallest_seqno (f_fd f)) (largest_seqno (f_fd f)) (f_marked_for_compaction f) (f_is_nvm_level0 f)
    (f_first_key_index f) (f_nvm_sstable_index f) (f_keys_num f) (f_key_point_filenum f) (f_raw_file_size f) (f_nvm_meta_size f) e.

Definition snapshot_files (c : CfSnapshot) : option VersionEdit :=
  e ← fold_opt (fun e level => files ← sn_files c !z level; Some (foldl (snapshot_add level) e files))
        (SetColumnFamily (sn_id c) VersionEdit_Clear) (upto (len (sn_files c)));
  Some (SetLogNumber (sn_log_number c) e).

Definition snapshot_cf (sw : bool * Writer) (c : CfSnapshot) : option (bool * Writer) :=
  let '(s, w) := sw in
  if negb s || sn_dropped c then Some (s, w) else
  '(s, w) ← write_edits w [snapshot_info c];
  if negb s then Some (false, w) else
  files ← snapshot_files c;
  write_edits w [files].

Definition WriteSnapshot (w : Writer) (cfs : list CfSnapshot) : option (bool * Writer) := fold_opt snapshot_cf (true, w) cfs.

(** A new manifest: the snapshot, then the edits of the batch. *)
Definition write_descriptor (w : Writer) (cfs : list CfSnapshot) (edits : list VersionEdit) : option (bool * Writer) :=
  '(s, w) ← WriteSnapshot w cfs;
  if s : bool then write_edits w edits else Some (false, w).

(** ** Applying the edits read back *)

(** The options of a column family recovery reads. *)
Record CfOptions := mkCfOptions {
  co_icmp : Comparator;
  co_comparator : bytes;
  co_num_levels : nat;
  co_is_nvmcf : bool
}.

(** A column family in the set, and its builder. *)
Record ColumnFamily := mkCf {
  cf_name : bytes;
  cf_options : CfOptions;
  cf_log_number : Z;
  cf_builder : Rep
}.

Record Recovery := mkRecovery {
  rv_store : FileStore;
  rv_cfs : gmap Z ColumnFamily;
  rv_not_found : gmap Z bytes;
  rv_have_log_number : bool;
  rv_previous_log_number : option Z;
  rv_next_file : option Z;
  rv_last_sequence : option Z;
  rv_min_log_number_to_keep : Z;
  rv_max_column_family : Z;
  rv_set_max : Z
}.

Definition rv_set_cfs (st : FileStore) (cfs : gmap Z ColumnFamily) (not_found : gmap Z bytes) (max : Z)
    '(mkRecovery _ _ _ hl pl nf ls ml mc _) :=
  mkRecovery st cfs not_found hl pl nf ls ml mc max.

(** [name_to_options.find]. *)
Definition find_options (name_to_options : list (bytes * CfOptions)) (name : bytes) : option CfOptions :=
  snd <$> (snd <$> list_find (fun x => x.1 = name) name_to_options).

Definition empty_version (o : CfOptions) : VStorage := mkVSt (replicate (co_num_levels o) []) (co_is_nvmcf o).

(** A column family with an empty current version, and the builder on it. *)
Definition CreateColumnFamily (o : CfOptions) (id : Z) (name : bytes) (log_number : Z) (rv : Recovery) : option Recovery :=
  if bool_decide (map_Exists (fun _ c => cf_name c = name) (rv_cfs rv)) then None else
  Some (rv_set_cfs (rv_store rv) (<[id := mkCf name o log_number (Rep_make (empty_version o))]> (rv_cfs rv)) (rv_not_found rv)
          (Z.max (rv_set_max rv) id) rv).

(** The end of [ApplyOneVersionEdit]: the numbers of the edit; [cfd] is the column family the edit was for, if it is open. *)
Definition note_numbers (e : VersionEdit) '(mkRecovery st cfs nfd hl pl nf ls ml mc sm) : Recovery :=
  let or_old := fun (x : option Z) old => match x with Some _ => x | None => old end in
  mkRecovery st cfs nfd hl (or_old (ve_prev_log_number e) pl) (or_old (ve_next_file_number e) nf) (or_old (ve_last_sequence e) ls)
    (match ve_min_log_number_to_keep e with Some x => Z.max ml x | None => ml end)
    (default mc (ve_max_column_family e)) sm.

Definition note_cfd (e : VersionEdit) (cfd : option Z) (rv : Recovery) : string + Recovery :=
  match id ← cfd; c ← rv_cfs rv !! id; Some (id, c) with
  | None => inr (note_numbers e rv)
  | Some (id, c) =>
      let rv := match ve_log_number e with
        | Some n => if n <? cf_log_number c then rv else
            let '(mkRecovery st cfs nfd _ pl nf ls ml mc sm) := rv in
            mkRecovery st (<[id := mkCf (cf_name c) (cf_options c) n (cf_builder c)]> cfs) nfd true pl nf ls ml mc sm
        | None => rv
        end in
      match ve_comparator e with
      | Some n => if bool_decide (n = co_comparator (cf_options c)) then inr (note_numbers e rv)
                  else inl "does not match existing comparator"
      | None => inr (note_numbers e rv)
      end
  end.

(** [None] is a failed assertion; [inl] is a status that is not ok. *)
Definition ApplyOneVersionEdit (name_to_options : list (bytes * CfOptions)) (rv : Recovery) (e : VersionEdit) :
    option (string + Recovery) :=
  let id := ve_column_family e in
  let cf_in_not_found := bool_decide (is_Some (rv_not_found rv !! id)) in
  let cf_in_builders := bool_decide (is_Some (rv_cfs rv !! id)) in
  if cf_in_not_found && cf_in_builders then None else
  match ve_column_family_add e with
  | Some name =>
      if cf_in_builders || cf_in_not_found then Some (inl "Manifest adding the same column family twice") else
      match find_options name_to_options name with
      | None => Some (note_cfd e None (rv_set_cfs (rv_store rv) (rv_cfs rv) (<[id := name]> (rv_not_found rv)) (rv_set_max rv) rv))
      | Some o =>
          rv ← CreateColumnFamily o id name (default 0 (ve_log_number e)) rv;
          Some (note_cfd e (Some id) rv)
      end
  | None =>
      if ve_column_family_drop e then
        match rv_cfs rv !! id with
        | Some c =>
            st ← Rep_destroy (rv_store rv) (cf_builder c);
            Some (note_cfd e None (rv_set_cfs st (delete id (rv_cfs rv)) (rv_not_found rv) (rv_set_max rv) rv))
        | None =>
            if cf_in_not_found
            then Some (note_cfd e None (rv_set_cfs (rv_store rv) (rv_cfs rv) (delete id (rv_not_found rv)) (rv_set_max rv) rv))
            else Some (inl "Manifest - dropping non-existing column family")
        end
      else if negb cf_in_not_found then
        match rv_cfs rv !! id with
        | None => Some (inl "Manifest record referencing unknown column family")
        | Some c =>
            '(st, rep) ← Apply (co_icmp (cf_options c)) (rv_store rv, cf_builder c) e;
            let c := mkCf (cf_name c) (cf_options c) (cf_log_number c) rep in
            Some (note_cfd e (Some id) (rv_set_cfs st (<[id := c]> (rv_cfs rv)) (rv_not_found rv) (rv_set_max rv) rv))
        end
      else Some (note_cfd e None rv)
  end.

(** Edits one after the other, up to the first that fails. *)
Fixpoint apply_edits (name_to_options : list (bytes * CfOptions)) (rv : Recovery) (edits : list VersionEdit) :
    option (string + Recovery) :=
  match edits with
  | [] => Some (inr rv)
  | e :: edits =>
      res ← ApplyOneVersionEdit name_to_options rv e;
      match res with inl m => Some (inl m) | inr rv => apply_edits name_to_options rv edits end
  end.

(** ** Recovery *)

(** [replay_buffer] and [num_entries_decoded]: the size of an atomic group, 0 outside of one, and its edits so far. *)
Record Replay := mkReplay { rp_size : Z; rp_edits : list VersionEdit }.

Definition rp_none : Replay := mkReplay 0 [].

(** The body of the loop of [Recover] for an edit. *)
Definition replay_edit (name_to_options : list (bytes * CfOptions)) (rp : Replay) (rv : Recovery) (e : VersionEdit) :
    option (string + Replay * Recovery) :=
  match ve_atomic_group e with
  | Some remaining_entries =>
      let size := if rp_size rp =? 0 then wrap32 (remaining_entries + 1) else rp_size rp in
      let num_entries_decoded := len (rp_edits rp) + 1 in
      if negb (num_entries_decoded + remaining_entries =? wrap32 size) then Some (inl "corrupted atomic group") else
      let edits := rp_edits rp ++ [e] in
      if num_entries_decoded =? size then
        res ← apply_edits name_to_options rv edits;
        Some (match res with inl m => inl m | inr rv => inr (rp_none, rv) end)
      else Some (inr (mkReplay size edits, rv))
  | None =>
      if negb (rp_size rp =? 0) then Some (inl "corrupted atomic group") else
      res ← ApplyOneVersionEdit name_to_options rv e;
      Some (match res with inl m => inl m | inr rv => inr (rp, rv) end)
  end.

(** [reporter.status]. *)
Definition reader_ok (r : Reader) : bool := match reporter_ r with Some (_ :: _) => false | _ => true end.

Fixpoint Recover_loop (fuel : nat) (name_to_options : list (bytes * CfOptions)) (r : Reader) (rp : Replay) (rv : Recovery) :
    option (string + Recovery) :=
  match fuel with
  | O => None
  | S fuel =>
      '(record, r) ← ReadRecord kTolerateCorruptedTailRecords r;
      if negb (reader_ok r) then Some (inl "Corruption") else
      match record with
      | None => Some (inr rv)
      | Some record =>
          match DecodeFrom record with
          | inl m => Some (inl m)
          | inr e =>
              res ← replay_edit name_to_options rp rv e;
              match res with inl m => Some (inl m) | inr (rp, rv) => Recover_loop fuel name_to_options r rp rv end
          end
      end
  end.

Definition kDefaultColumnFamilyName : bytes := [Byte.x64; Byte.x65; Byte.x66; Byte.x61; Byte.x75; Byte.x6c; Byte.x74].

Definition Recovery_make : Recovery := mkRecovery (mkStore ∅ 0) ∅ ∅ false None None None 0 0 0.

(** What the version set holds after recovery. *)
Record Recovered := mkRecovered {
  rd_store : FileStore;
  rd_versions : list (Z * VStorage);
  rd_log_numbers : list (Z * Z);
  rd_next_file_number : Z;
  rd_last_sequence : Z;
  rd_prev_log_number : Z;
  rd_min_log_number_to_keep : Z;
  rd_max_column_family : Z
}.

(** The versions of the column families; a builder has nothing left once it is deleted. *)
Definition save_versions (st : FileStore) (cfs : list (Z * ColumnFamily)) : option (FileStore * list (Z * VStorage)) :=
  s ← fold_opt (fun '(st, vs) '(id, c) =>
         '(st, v) ← SaveTo (co_icmp (cf_options c)) st (cf_builder c) (empty_version (cf_options c));
         Some (st, vs ++ [(id, v)])) (st, []) cfs;
  st ← fold_opt (fun st '(_, c) => Rep_destroy st (cf_builder c)) s.1 cfs;
  Some (st, s.2).

Definition recover_end (read_only : bool) (rv : Recovery) : option (string + Recovered) :=
  match rv_next_file rv, rv_last_sequence rv with
  | None, _ => Some (inl "no meta-nextfile entry in descriptor")
  | Some next_file, last_sequence =>
      if negb (rv_have_log_number rv) then Some (inl "no meta-lognumber entry in descriptor") else
      match last_sequence with
      | None => Some (inl "no last-sequence-number entry in descriptor")
      | Some last_sequence =>
          let cfs := map_to_list (rv_cfs rv) in
          if negb read_only && negb (bool_decide (rv_not_found rv = ∅))
          then Some (inl "You have to open all column families.") else
          if negb (forallb (fun x => CheckConsistencyForNumLevels (cf_builder x.2)) cfs)
          then Some (inl "db has more levels than options.num_levels") else
          '(st, versions) ← save_versions (rv_store rv) cfs;
          Some (inr (mkRecovered st versions (prod_map id cf_log_number <$> cfs) (wrap64 (next_file + 1)) last_sequence
                       (default 0 (rv_previous_log_number rv)) (rv_min_log_number_to_keep rv)
                       (Z.max (rv_set_max rv) (rv_max_column_family rv))))
      end
  end.

Definition Recover (name_to_options : list (bytes * CfOptions)) (read_only : bool) (file : SequentialFile) :
    option (string + Recovered) :=
  match find_options name_to_options kDefaultColumnFamilyName with
  | None => Some (inl "Default column family not specified")
  | Some o =>
      rv ← CreateColumnFamily o 0 kDefaultColumnFamilyName 0 Recovery_make;
      let r := Reader_make file (Some []) true 0 false in
      res ← Recover_loop (remaining_bytes r + 1) name_to_options r rp_none rv;
      match res with inl m => Some (inl m) | inr rv => recover_end read_only rv end
  end.

(** ** Atomic groups *)

(** The edits that are applied together: one that is in no group, or a whole group. *)
Definition group_ok (g : list VersionEdit) : Prop :=
  (exists e, g = [e] /\ ve_atomic_group e = None) \/
  (g <> [] /\ len g < 2 ^ 32 /\ forall i e, g !! i = Some e -> ve_atomic_group e = Some (len g - 1 - Z.of_nat i)).

(** The edits read so far. *)
Fixpoint replay_edits (name_to_options : list (bytes * CfOptions)) (rp : Replay) (rv : Recovery) (edits : list VersionEdit) :
    option (string + Replay * Recovery) :=
  match edits with
  | [] => Some (inr (rp, rv))
  | e :: edits =>
      res ← replay_edit name_to_options rp rv e;
      match res with inl m => Some (inl m) | inr (rp, rv) => replay_edits name_to_options rp rv edits end
  end.

Section Replay.
Context (opts : list (bytes * CfOptions)).
Implicit Types (rv : Recovery) (g edits : list VersionEdit).

(** The state without the group that was being read. *)
Definition replayed (res : string + Replay * Recovery) : string + Recovery :=
  match res with inl m => inl m | inr (_, rv) => inr rv end.

Lemma apply_edits_app rv edits1 edits2 :
  apply_edits opts rv (edits1 ++ edits2) =
  res ← apply_edits opts rv edits1; match res with inl m => Some (inl m) | inr rv => apply_edits opts rv edits2 end.
Proof.
  revert rv. induction edits1 as [|e edits1 IH]; intros rv; [done|]. cbn [app apply_edits].
  destruct (ApplyOneVersionEdit opts rv e) as [[m|rv1]|]; cbn; [done|apply IH|done].
Qed.

Lemma replay_edits_app rp rv edits1 edits2 :
  replay_edits opts rp rv (edits1 ++ edits2) =
  res ← replay_edits opts rp rv edits1; match res with inl m => Some (inl m) | inr (rp, rv) => replay_edits opts rp rv edits2 end.
Proof.
  revert rp rv. induction edits1 as [|e edits1 IH]; intros rp rv; [done|]. cbn [app replay_edits].
  destruct (replay_edit opts rp rv e) as [[m|[rp1 rv1]]|]; cbn; [done|apply IH|done].
Qed.

(** A group is kept back until it is complete. *)
Definition part g (i : nat) : Replay := if i is 0%nat then rp_none else mkReplay (len g) (take i g).

Lemma replay_step g rv i e :
  len g < 2 ^ 32 -> (forall i e, g !! i = Some e -> ve_atomic_group e = Some (len g - 1 - Z.of_nat i)) -> g !! i = Some e ->
  replay_edit opts (part g i) rv e =
    if decide (S i = length g)
    then res ← apply_edits opts rv g; Some (match res with inl m => inl m | inr rv => inr (rp_none, rv) end)
    else Some (inr (part g (S i), rv)).
Proof.
  intros H32 Hg He. pose proof (lookup_lt_Some _ _ _ He) as Hi. unfold replay_edit. rewrite (Hg _ _ He).
  assert (Hlen : len (take i g) = Z.of_nat i) by (unfold zlen; rewrite length_take; lia).
  assert (Hrp : rp_edits (part g i) = take i g) by (by destruct i).
  assert (Hsz : (if rp_size (part g i) =? 0 then wrap32 (len g - 1 - Z.of_nat i + 1) else rp_size (part g i)) = len g).
  { destruct i; cbn [part rp_size rp_none].
    - rewrite Z.eqb_refl, wrap_id; [lia|]. pose proof (zlen_nonneg g). lia.
    - destruct (Z.eqb_spec (len g) 0); [zlia|done]. }
  rewrite Hsz, Hrp, Hlen, wrap_id by (unfold zlen in *; lia). rewrite (proj2 (Z.eqb_eq _ _)) by lia. cbn [negb].
  rewrite <- (take_S_r _ _ _ He). case_decide as Hend.
  - rewrite (proj2 (Z.eqb_eq _ _)), take_ge by zlia. by destruct (apply_edits opts rv g) as [[m|rv1]|].
  - by rewrite (proj2 (Z.eqb_neq _ _)) by zlia.
Qed.

Lemma replay_part g rv i : group_ok g -> (i < length g)%nat -> replay_edits opts rp_none rv (take i g) = Some (inr (part g i, rv)).
Proof.
  intros [(e & -> & He)|(Hne & H32 & Hg)] Hi; [simpl in Hi; by assert (i = 0)%nat as -> by lia|].
  induction i as [|i IH]; [done|]. destruct (lookup_lt_is_Some_2 g i) as [e He]; [lia|].
  rewrite (take_S_r _ _ _ He), replay_edits_app, IH by lia. cbn [mbind option_bind replay_edits].
  by rewrite (replay_step g rv i e H32 Hg He), decide_False by lia.
Qed.

Lemma replay_group g rv :
  group_ok g -> replay_edits opts rp_none rv g =
    res ← apply_edits opts rv g; Some (match res with inl m => inl m | inr rv => inr (rp_none, rv) end).
Proof.
  intros Hok. pose proof Hok as [(e & -> & He)|(Hne & H32 & Hg)].
  - cbn [replay_edits apply_edits]. unfold replay_edit. rewrite He. cbn [rp_size rp_none Z.eqb negb].
    by destruct (ApplyOneVersionEdit opts rv e) as [[m|rv1]|].
  - assert (Hpos : (0 < length g)%nat) by (destruct g; [done|simpl; lia]). set (i := (length g - 1)%nat).
    destruct (lookup_lt_is_Some_2 g i) as [e He]; [lia|].
    assert (Hsplit : g = take i g ++ [e]) by (rewrite <- (take_S_r _ _ _ He); symmetry; apply take_ge; lia).
    rewrite Hsplit at 1. rewrite replay_edits_app, replay_part by (done || lia). cbn [mbind option_bind replay_edits].
    rewrite (replay_step g rv i e H32 Hg He), decide_True by lia. by destruct (apply_edits opts rv g) as [[m|rv1]|].
Qed.

Lemma replay_groups gs rv tl :
  Forall group_ok gs -> tl = [] \/ (exists g i, group_ok g /\ (i < length g)%nat /\ tl = take i g) ->
  replayed <$> replay_edits opts rp_none rv (mjoin gs ++ tl) = apply_edits opts rv (mjoin gs).
Proof.
  intros Hgs Htl. revert rv. induction Hgs as [|g1 gs Hg1 Hgs IH]; intros rv.
  { destruct Htl as [->|(g & i & Hg & Hi & ->)]; [done|]. cbn. by rewrite replay_part. }
  cbn [mjoin list_join]. rewrite <- app_assoc, replay_edits_app, apply_edits_app, replay_group by done.
  destruct (apply_edits opts rv g1) as [[m|rv1]|]; cbn [mbind option_bind]; [done|apply IH|done].
Qed.
End Replay.

(** ** A manifest cut anywhere *)

(** A manifest with these edits, and whether they were all accepted. *)
Definition write_manifest (faults : list (option nat)) (edits : list VersionEdit) : option (bool * bytes) :=
  w ← Writer_make (mkLogFile [] faults) 0 false false;
  '(s, w) ← write_edits w edits;
  Some (s, lf_data (dest_ w)).

(** The bytes of a manifest without failures. *)
Definition manifest_of (edits : list VersionEdit) : bytes :=
  match write_manifest [] edits with Some (_, D) => D | None => [] end.

Definition encodes (e : VersionEdit) (record : bytes) : Prop := EncodeTo e [] = Some record.

Lemma write_edits_records w edits records : Forall2 encodes edits records -> write_edits w edits = AddRecords w records.
Proof.
  intros H. revert w. induction H as [|e record edits records He Hes IH]; intros w; [done|]. cbn [write_edits AddRecords].
  rewrite He. destruct (AddRecord w record) as [[[] w1]|]; cbn; [apply IH|done|done].
Qed.

Lemma write_manifest_records faults edits records :
  Forall2 encodes edits records -> write_manifest faults edits = write_log false 0 false faults records.
Proof. intros H. unfold write_manifest, write_log. destruct (Writer_make _ _ _ _) as [w|]; [|done]. cbn. by rewrite (write_edits_records w edits records H). Qed.

Lemma log_of_manual number records s D : write_log false number false [] records = Some (s, D) -> D = log_of false number records.
Proof.
  intros E. destruct (layout_total false 0 records) as (css & off' & Hl); [unfold kBlockSize; lia|].
  destruct (write_log_layout false number false [] records css off' Hl) as (s' & k & E' & Hs & Hf).
  rewrite (log_of_layout _ _ _ _ _ Hl). rewrite E in E'. injection E' as -> ->. by apply Hs, Hf.
Qed.

Lemma manifest_of_records edits records : Forall2 encodes edits records -> manifest_of edits = log_of false 0 records.
Proof.
  intros H. unfold manifest_of. rewrite (write_manifest_records [] edits records H).
  destruct (layout_total false 0 records) as (css & off' & Hl); [unfold kBlockSize; lia|].
  destruct (write_log_layout false 0 false [] records css off' Hl) as (s' & k & E' & Hs & Hf).
  rewrite E'. by apply log_of_manual in E'.
Qed.

Lemma log_of_mono number records a b :
  (a <= b)%nat -> (length (log_of false number (take a records)) <= length (log_of false number (take b records)))%nat.
Proof.
  intros Hab. destruct (layout_total false 0 records) as (css & off' & Hl); [unfold kBlockSize; lia|].
  destruct (layout_take _ _ _ _ _ a Hl) as [oa Ha]. destruct (layout_take _ _ _ _ _ b Hl) as [ob Hb].
  rewrite (log_of_layout _ _ _ _ _ Ha), (log_of_layout _ _ _ _ _ Hb). replace a with (a `min` b)%nat by lia. rewrite <- take_take.
  rewrite <- (take_drop a (take b css)) at 2. unfold log_bytes. rewrite bind_app, length_app. lia.
Qed.

(** The reading loop on a log of edits. *)
Lemma Recover_loop_yields opts records edits r r' rp rv fuel :
  yields (Some []) kTolerateCorruptedTailRecords records r r' -> reporter_ r' = Some [] ->
  Forall2 (fun record e => DecodeFrom record = inr e) records edits -> (length records < fuel)%nat ->
  Recover_loop fuel opts r rp rv = replayed <$> replay_edits opts rp rv edits.
Proof.
  intros Hy Hrep. revert edits rp rv fuel. induction Hy as [r r' E|record records r r1 r' E Hr1 Hy IH]; intros edits rp rv fuel Hd Hf;
    (destruct fuel as [|fuel]; [simpl in Hf; lia|]); cbn [Recover_loop]; rewrite E; cbn [mbind option_bind]; unfold reader_ok.
  - apply Forall2_nil_inv_l in Hd as ->. by rewrite Hrep.
  - apply Forall2_cons_inv_l in Hd as (e & edits' & He & Hd & ->). rewrite Hr1, He. cbn [negb replay_edits].
    destruct (replay_edit opts rp rv e) as [[m|[rp1 rv1]]|]; cbn [mbind option_bind]; [done| |done].
    rewrite (IH Hrep edits' rp1 rv1) by (done || (simpl in Hf; lia)). by destruct (replay_edits opts rp1 rv1 edits') as [[m|[rp2 rv2]]|].
Qed.

Lemma mjoin_cons {A} (g : list A) gs : mjoin (g :: gs) = g ++ mjoin gs.
Proof. done. Qed.

Lemma split_groups {A} (gs : list (list A)) j :
  Forall (fun g => g <> []) gs -> (j <= length (mjoin gs))%nat ->
  exists k i, take j (mjoin gs) = mjoin (take k gs) ++ take i (default [] (gs !! k)) /\ (k <= length gs)%nat /\
    (length (mjoin (take k gs)) <= j)%nat /\
    ((k < length gs)%nat -> (i < length (default [] (gs !! k)))%nat /\ (j < length (mjoin (take (S k) gs)))%nat).
Proof.
  intros H. revert j. induction H as [|g gs Hg Hgs IH]; intros j Hj.
  { exists 0%nat, 0%nat. simpl in *. split_and!; try lia. by assert (j = 0)%nat as -> by lia. }
  rewrite mjoin_cons in *. rewrite length_app in Hj. destruct (Nat.lt_ge_cases j (length g)) as [Hlt|Hge].
  - exists 0%nat, j. cbn. rewrite take_app_le by lia. split_and!; try lia; [done|]. intros _. rewrite app_nil_r. lia.
  - destruct (IH (j - length g)%nat) as (k & i & E & Hk & Hin & Hout); [lia|]. exists (S k), i.
    change (take (S k) (g :: gs)) with (g :: take k gs). change (take (S (S k)) (g :: gs)) with (g :: take (S k) gs).
    change ((g :: gs) !! S k) with (gs !! k). rewrite !mjoin_cons, !length_app, take_app_ge, E, <- app_assoc by lia. split_and!; [done|simpl; lia|lia|].
    intros Hlt. destruct Hout as [Hi Hlen]; [simpl in Hlt; lia|]. split; [done|lia].
Qed.

Lemma group_ok_saved g : group_ok g -> group_ok (saved_edit <$> g).
Proof.
  intros [(e & -> & He)|(Hne & H32 & Hg)]; [left; by exists (saved_edit e)|right]. unfold zlen in *. rewrite length_fmap.
  split_and!; [by destruct g|done|]. intros i e. rewrite list_lookup_fmap. destruct (g !! i) as [e'|] eqn:E; intros [= <-]. exact (Hg _ _ E).
Qed.

Lemma group_nonempty g : group_ok g -> g <> [].
Proof. intros [(e & -> & _)|[Hne _]]; done. Qed.

Lemma mjoin_take {A} (gs : list (list A)) k : exists j, mjoin (take k gs) = take j (mjoin gs) /\ j = length (mjoin (take k gs)).
Proof.
  exists (length (mjoin (take k gs))). split; [|done]. rewrite <- (take_drop k gs) at 3.
  assert (Happ : forall a b : list (list A), mjoin (a ++ b) = mjoin a ++ mjoin b) by (intros a b; by rewrite join_app).
  by rewrite Happ, take_app_length.
Qed.

Lemma fmap_mjoin {A B} (f : A -> B) (gs : list (list A)) : f <$> mjoin gs = mjoin ((fun g => f <$> g) <$> gs).
Proof. induction gs as [|g gs IH]; [done|]. rewrite mjoin_cons, fmap_app, IH. done. Qed.

Lemma decode_all edits records :
  Forall edit_wf edits -> Forall2 encodes edits records ->
  Forall2 (fun record e => DecodeFrom record = inr e) records (saved_edit <$> edits).
Proof.
  intros Hw H. induction H as [|e record edits records He Hes IH]; [constructor|]. apply Forall_cons in Hw as [He1 Hw].
  constructor; [by apply DecodeFrom_EncodeTo|by apply IH].
Qed.

Lemma encodable edits : Forall (fun e => is_Some (EncodeTo e [])) edits -> exists records, Forall2 encodes edits records.
Proof.
  induction 1 as [|e edits [record He] Hes [records IH]]; [by exists []|]. exists (record :: records). by constructor.
Qed.

(** Groups of edits, their records, and what is left of the manifest. *)
Lemma recover_cut_manifest opts rv groups records n :
  Forall group_ok groups -> Forall edit_wf (mjoin groups) -> Forall2 encodes (mjoin groups) records ->
  let r := open_log true 0 (take n (log_of false 0 records)) in
  exists k, Recover_loop (remaining_bytes r + 1) opts r rp_none rv = apply_edits opts rv (saved_edit <$> mjoin (take k groups)) /\
    (k <= length groups)%nat /\
    (length (manifest_of (mjoin (take k groups))) <= length (take n (log_of false 0 records)))%nat /\
    ((k < length groups)%nat -> (length (take n (log_of false 0 records)) < length (manifest_of (mjoin (take (S k) groups))))%nat).
Proof.
  intros Hg Hwf Henc r. destruct (layout_total false 0 records) as (css & off' & Hl); [unfold kBlockSize; lia|].
  destruct (read_cut_log false 0 records kTolerateCorruptedTailRecords true n css off' ltac:(done) Hl) as (j & r' & _ & Hy & Hj & Hjx & Hin & Hout & Hrep).
  fold r in Hy. pose proof (Forall2_length _ _ _ Henc) as Hlen.
  destruct (split_groups groups j) as (k & i & Hsplit & Hk & Hkin & Hkout);
    [eapply Forall_impl; [exact Hg|apply group_nonempty]|lia|].
  assert (Hsize : forall k', manifest_of (mjoin (take k' groups)) = log_of false 0 (take (length (mjoin (take k' groups))) records)).
  { intros k'. apply manifest_of_records. destruct (mjoin_take groups k') as (j' & E & Hj'). rewrite <- Hj', E. by apply Forall2_take. }
  exists k. rewrite !Hsize. split_and!; [|done| |].
  - rewrite (Recover_loop_yields opts (take j records) (saved_edit <$> take j (mjoin groups)) r r' rp_none rv _ Hy (Hrep ltac:(by left))).
    2: { apply decode_all; [by apply Forall_take|by apply Forall2_take]. }
    2: { unfold r, open_log, Reader_make, remaining_bytes. simpl. rewrite length_take. lia. }
    rewrite Hsplit, fmap_app, !fmap_mjoin. apply replay_groups.
    + apply Forall_fmap, Forall_take. eapply Forall_impl; [exact Hg|]. intros g. apply group_ok_saved.
    + destruct (groups !! k) as [g|] eqn:E; [right|left; cbn; by rewrite take_nil]. pose proof (lookup_lt_Some _ _ _ E) as Hlt.
      destruct (Hkout Hlt) as [Hi _]. exists (saved_edit <$> g), i. rewrite length_fmap, <- fmap_take. split_and!; [|done|done].
      eapply group_ok_saved, Forall_lookup_1; [exact Hg|exact E].
  - pose proof (log_of_mono 0 records _ j Hkin). lia.
  - intros Hlt. destruct (Hkout Hlt) as [_ Hlt']. destruct (mjoin_take groups (S k)) as (j' & E & Hj').
    assert (Hj2 : (j' <= length (mjoin groups))%nat) by (rewrite Hj', E, length_take; lia).
    pose proof (log_of_mono 0 records (S j) j' ltac:(lia)) as Hm. rewrite <- Hj'. specialize (Hout ltac:(lia)). lia.
Qed.

Lemma recover_written_manifest opts rv faults groups n :
  Forall group_ok groups -> Forall edit_wf (mjoin groups) -> Forall (fun e => is_Some (EncodeTo e [])) (mjoin groups) ->
  exists s D k, write_manifest faults (mjoin groups) = Some (s, D) /\
    (let r := Reader_make (mkSeqFile (take n D) 0 []) (Some []) true 0 false in
     Recover_loop (remaining_bytes r + 1) opts r rp_none rv = apply_edits opts rv (saved_edit <$> mjoin (take k groups))) /\
    (k <= length groups)%nat /\
    (length (manifest_of (mjoin (take k groups))) <= length (take n D))%nat /\
    ((k < length groups)%nat -> (length (take n D) < length (manifest_of (mjoin (take (S k) groups))))%nat).
Proof.
  intros Hg Hwf Henc.
  destruct (encodable _ Henc) as [records Hrec]. rewrite (write_manifest_records faults _ _ Hrec).
  destruct (layout_total false 0 records) as (css & off' & Hl); [unfold kBlockSize; lia|].
  destruct (write_log_layout false 0 false faults records css off' Hl) as (s & j & Ew & _ & _). rewrite <- (log_of_layout _ _ _ _ _ Hl) in Ew.
  destruct (recover_cut_manifest opts rv groups records (n `min` j) Hg Hwf Hrec) as (k & E & Hk & Hin & Hout).
  exists s, (take j (log_of false 0 records)), k. rewrite take_take. done.
Qed.

(** C9. A manifest is recovered up to whole groups of edits: whatever calls of the file fail while the edits are written and
    wherever the file is cut, the loop of [Recover] has the effect of applying the edits of the first groups, of those that
    are whole in the file, all of them and in order.  An atomic group of which a part is missing has no effect, and the
    damage at the end is not an error. *)
Theorem manifest_crash_recovery opts rv faults groups n :
  Forall group_ok groups -> Forall edit_wf (mjoin groups) -> Forall (fun e => is_Some (EncodeTo e [])) (mjoin groups) ->
  exists s D k, write_manifest faults (mjoin groups) = Some (s, D) /\
    (let r := Reader_make (mkSeqFile (take n D) 0 []) (Some []) true 0 false in
     Recover_loop (remaining_bytes r + 1) opts r rp_none rv = apply_edits opts rv (saved_edit <$> mjoin (take k groups))) /\
    (k <= length groups)%nat /\
    (length (manifest_of (mjoin (take k groups))) <= length (take n D))%nat /\
    ((k < length groups)%nat -> (length (take n D) < length (manifest_of (mjoin (take (S k) groups))))%nat).
Proof. apply recover_written_manifest. Qed.

(** A manifest with an edit and a group of two. *)
Definition sample_groups : list (list VersionEdit) :=
  [[SetLogNumber 3 (SetNextFile 10 (SetLastSequence 7 VersionEdit_Clear))];
   [MarkAtomicGroup 1 (DeleteFile 0 4 VersionEdit_Clear); MarkAtomicGroup 0 (SetLastSequence 9 VersionEdit_Clear)]].

Lemma manifest_crash_recovery_witness :
  exists s D k, write_manifest [None; Some 3%nat] (mjoin sample_groups) = Some (s, D) /\
    (let r := Reader_make (mkSeqFile (take 40 D) 0 []) (Some []) true 0 false in
     Recover_loop (remaining_bytes r + 1) [] r rp_none Recovery_make =
     apply_edits [] Recovery_make (saved_edit <$> mjoin (take k sample_groups))) /\ (k <= 2)%nat.
Proof.
  destruct (manifest_crash_recovery [] Recovery_make [None; Some 3%nat] sample_groups 40) as (s & D & k & H1 & H2 & H3 & _).
  - constructor; [left; by eexists|]. constructor; [|constructor]. right. split_and!; [done|done|].
    intros [|[|i]] e [= <-]; done.
  - repeat (apply Forall_cons; split); try apply Forall_nil_2; constructor; cbn;
      repeat first [apply SSorted_cons | apply SSorted_nil | apply Forall_cons_2 | apply Forall_nil_2];
      try (by vm_compute); try (split; by vm_compute).
  - repeat (apply Forall_cons; split); try apply Forall_nil_2; vm_compute; by eexists.
  - by exists s, D, k.
Defined.
