(* ===== verification/GroupCommit.v ===== *)
(** * Group commit of version edits (VersionSet::ProcessManifestWrites of db/version_set.cc)

    The writer at the front of the queue writes the edits of all the writers behind it, up
    to one that adds or drops a column family.  Writers whose column family was dropped
    meanwhile are left out, and the atomic groups they were part of are renumbered. *)

From S2P Require Import Prelude Coding Comparator DbFormat VersionEdit SstableMeta VersionBuilder Crc32c LogWriter LogReader LogRoundtrip Manifest.

(** ** Model *)

(** A [ManifestWriter]: whether its column family is dropped, the log number of the column family, the edits. *)
Record ManifestWriter := mkMW {
  mw_dropped : bool;
  mw_log_number : Z;
  mw_edit_list : list VersionEdit
}.

(** What the edits are given of the version set. *)
Record SetNumbers := mkNumbers {
  sn_prev_log_number : Z;
  sn_next_file_number : Z;
  sn_last_sequence : Z
}.

Definition IsColumnFamilyManipulation (e : VersionEdit) : bool :=
  bool_decide (is_Some (ve_column_family_add e)) || ve_column_family_drop e.

(** [edit_list.front()] of an empty list is undefined. *)
Definition is_manipulation (w : ManifestWriter) : option bool := e ← head (mw_edit_list w); Some (IsColumnFamilyManipulation e).

Definition LogAndApplyCFHelper (n : SetNumbers) (max_column_family : Z) (e : VersionEdit) : VersionEdit :=
  let e := SetLastSequence (sn_last_sequence n) (SetNextFile (sn_next_file_number n) e) in
  if ve_column_family_drop e then SetMaxColumnFamily max_column_family e else e.

(** Without the application to the builder; [None] is a failed assertion. *)
Definition LogAndApplyHelper (n : SetNumbers) (log_number : Z) (e : VersionEdit) : option VersionEdit :=
  let ok := match ve_log_number e with Some x => (log_number <=? x) && (x <? sn_next_file_number n) | None => true end in
  if negb (negb (IsColumnFamilyManipulation e) && ok) then None else
  let e := if ve_prev_log_number e is Some _ then e else SetPrevLogNumber (sn_prev_log_number n) e in
  Some (SetLastSequence (sn_last_sequence n) (SetNextFile (sn_next_file_number n) e)).

(** The batch and [group_start]; [None] is the largest [size_t]. *)
Record Batch := mkBatch { ba_edits : list VersionEdit; ba_start : option nat }.

Definition remaining_of (e : option VersionEdit) : option Z := e ≫= ve_atomic_group.

Definition push_edit (n : SetNumbers) (log_number : Z) (b : Batch) (e : VersionEdit) : option Batch :=
  let start :=
    match ve_atomic_group e with
    | Some _ => match remaining_of (last (ba_edits b)) with
                | None | Some 0 => Some (length (ba_edits b))
                | Some _ => ba_start b
                end
    | None => None
    end in
  e ← LogAndApplyHelper n log_number e;
  Some (mkBatch (ba_edits b ++ [e]) start).

(** How many edits of a dropped writer belong to the group that is open. *)
Fixpoint count_group (edits : list VersionEdit) : nat :=
  match edits with
  | [] => 0
  | e :: edits =>
      match ve_atomic_group e with
      | None => 0
      | Some 0 => 1
      | Some _ => S (count_group edits)
      end
  end.

Definition sub_remaining (k : Z) '(mkEdit l c lg pl nf ls mc ml df nw cf ca cd ag) :=
  mkEdit l c lg pl nf ls mc ml df nw cf ca cd ((fun r => wrap32 (r - k)) <$> ag).

Definition skip_writer (b : Batch) (w : ManifestWriter) : option Batch :=
  match remaining_of (last (ba_edits b)) with
  | Some r =>
      if 0 <? r then
        start ← ba_start b;
        if negb (start <? length (ba_edits b))%nat then None else
        let k := Z.of_nat (count_group (mw_edit_list w)) in
        if negb (wrap32 k <=? r) then None else
        Some (mkBatch (take start (ba_edits b) ++ (sub_remaining (wrap32 k) <$> drop start (ba_edits b))) (ba_start b))
      else Some b
  | None => Some b
  end.

(** The loop over the queue; the result is the batch and the writers that are not part of it. *)
Fixpoint batch_loop (n : SetNumbers) (b : Batch) (ws : list ManifestWriter) : option (Batch * list ManifestWriter) :=
  match ws with
  | [] => Some (b, [])
  | w :: ws' =>
      m ← is_manipulation w;
      if m : bool then Some (b, ws) else
      b ← (if mw_dropped w then skip_writer b w else fold_opt (push_edit n (mw_log_number w)) b (mw_edit_list w));
      batch_loop n b ws'
  end.

Definition batch_edits (n : SetNumbers) (max_column_family : Z) (ws : list ManifestWriter) : option (list VersionEdit * list ManifestWriter) :=
  match ws with
  | [] => None
  | w :: ws' =>
      e ← head (mw_edit_list w);
      if IsColumnFamilyManipulation e then Some ([LogAndApplyCFHelper n max_column_family e], ws')
      else '(b, rest) ← batch_loop n (mkBatch [] None) ws; Some (ba_edits b, rest)
  end.

(** ** Calls of LogAndApply *)

(** What an edit becomes when it is added to the batch. *)
Definition numbered (n : SetNumbers) (e : VersionEdit) : VersionEdit :=
  SetLastSequence (sn_last_sequence n) (SetNextFile (sn_next_file_number n)
    (if ve_prev_log_number e is Some _ then e else SetPrevLogNumber (sn_prev_log_number n) e)).

(** The edit but for its place in a group. *)
Definition ungrouped '(mkEdit l c lg pl nf ls mc ml df nw cf ca cd _) : VersionEdit :=
  mkEdit l c lg pl nf ls mc ml df nw cf ca cd None.

(** A part of a group, [r] edits before its end. *)
Definition group_from (r : Z) (edits : list VersionEdit) : Prop :=
  forall i e, edits !! i = Some e -> ve_atomic_group e = Some (r - 1 - Z.of_nat i).

Definition log_number_ok (n : SetNumbers) (w : ManifestWriter) (e : VersionEdit) : Prop :=
  match ve_log_number e with Some x => mw_log_number w <= x < sn_next_file_number n | None => True end.

Definition edits_of (ws : list ManifestWriter) : list VersionEdit := ws ≫= mw_edit_list.

(** The edits of the writers whose column family is there. *)
Definition live_edits (n : SetNumbers) (ws : list ManifestWriter) : list VersionEdit :=
  ws ≫= (fun w => if mw_dropped w then [] else (fun e => ungrouped (numbered n e)) <$> mw_edit_list w).

Definition in_group (ws : list ManifestWriter) : Prop := len (edits_of ws) < 2 ^ 32 /\ group_from (len (edits_of ws)) (edits_of ws).

Definition writer_ok (n : SetNumbers) (w : ManifestWriter) : Prop :=
  mw_edit_list w <> [] /\ Forall (fun e => IsColumnFamilyManipulation e = false) (mw_edit_list w) /\
  (mw_dropped w = false -> Forall (log_number_ok n w) (mw_edit_list w)).

(** The writers of one call: its edits are all in no group, or they are one group. *)
Definition commit_ok (n : SetNumbers) (ws : list ManifestWriter) : Prop :=
  Forall (writer_ok n) ws /\ (Forall (fun e => ve_atomic_group e = None) (edits_of ws) \/ in_group ws).

(** What the batch has of one call: all its edits, in one group if they were in one. *)
Definition commit_groups (n : SetNumbers) (ws : list ManifestWriter) (gs : list (list VersionEdit)) : Prop :=
  ungrouped <$> mjoin gs = live_edits n ws /\ Forall group_ok gs /\ (in_group ws -> (length gs <= 1)%nat).

Lemma group_from_cons r e edits : group_from r (e :: edits) <-> ve_atomic_group e = Some (r - 1) /\ group_from (r - 1) edits.
Proof.
  split.
  - intros H. split; [rewrite (H 0%nat e) by done; f_equal; lia|]. intros i x Hx. rewrite (H (S i) x Hx). f_equal. lia.
  - intros [H1 H2] [|i] x Hx; [injection Hx as <-; rewrite H1; f_equal; lia|]. rewrite (H2 i x Hx). f_equal. lia.
Qed.

Lemma group_from_app r es1 es2 : group_from r (es1 ++ es2) <-> group_from r es1 /\ group_from (r - len es1) es2.
Proof.
  revert r. induction es1 as [|e es1 IH]; intros r.
  - replace (r - len []) with r by (unfold zlen; simpl; lia). split; [split; [by intros i|done]|by intros [_ H]].
  - cbn [app]. rewrite !group_from_cons, IH. replace (r - 1 - len es1) with (r - len (e :: es1)) by (rewrite zlen_cons; lia). tauto.
Qed.

Lemma group_from_last r edits : edits <> [] -> group_from r edits -> remaining_of (last edits) = Some (r - len edits).
Proof.
  intros Hne H. destruct (last edits) as [e|] eqn:E; [|by apply last_None in E]. rewrite last_lookup in E. simpl.
  rewrite (H _ _ E). f_equal. destruct edits; [done|]. unfold zlen. simpl length in *. lia.
Qed.

Lemma helper_ok n w e : IsColumnFamilyManipulation e = false -> log_number_ok n w e ->
  LogAndApplyHelper n (mw_log_number w) e = Some (numbered n e).
Proof.
  intros Hm Hl. unfold LogAndApplyHelper. rewrite Hm. unfold log_number_ok in Hl.
  destruct (ve_log_number e) as [x|]; [|done]. rewrite (proj2 (Z.leb_le _ _)), (proj2 (Z.ltb_lt _ _)) by lia. done.
Qed.

Lemma numbered_group n e : ve_atomic_group (numbered n e) = ve_atomic_group e.
Proof. by destruct e as [???[]]. Qed.

Lemma sub_remaining_ungrouped k e : ungrouped (sub_remaining k e) = ungrouped e.
Proof. by destruct e. Qed.

Lemma count_group_all r edits : group_from r edits -> len edits <= r -> count_group edits = length edits.
Proof.
  revert r. induction edits as [|e edits IH]; intros r; [done|]. rewrite group_from_cons, zlen_cons. intros [He Hes] Hlen. simpl.
  rewrite He. destruct (Z.eq_dec r 1) as [->|Hr].
  - destruct edits as [|e2 edits]; [done|]. rewrite zlen_cons in Hlen. pose proof (zlen_nonneg edits). lia.
  - pose proof (zlen_nonneg edits). rewrite (IH (r - 1)) by (done || lia). destruct (r - 1) eqn:E; [lia|done|lia].
Qed.

(** ** The loop keeps groups whole *)

(** No group is open at the end of the batch. *)
Definition closed (edits : list VersionEdit) : Prop :=
  remaining_of (last edits) = None \/ remaining_of (last edits) = Some 0.

(** The batch [E] with a part [op] of a group of which [rem] edits are still to come. *)
Record open_batch (E op : list VersionEdit) (rem : Z) (b : Batch) : Prop := {
  ob_edits : ba_edits b = E ++ op;
  ob_closed : closed E;
  ob_from : group_from (len op + rem) op;
  ob_bound : 0 <= rem /\ len op + rem < 2 ^ 32;
  ob_start : op <> [] -> ba_start b = Some (length E)
}.

Lemma last_app_ne {A} (l1 l2 : list A) : l2 <> [] -> last (l1 ++ l2) = last l2.
Proof. intros H. rewrite last_app. destruct (last l2) eqn:E; [done|by apply last_None in E]. Qed.

Lemma open_last op rem : op <> [] -> group_from (len op + rem) op -> remaining_of (last op) = Some rem.
Proof. intros Hne H. rewrite (group_from_last _ op Hne H). f_equal. lia. Qed.

Lemma push_open n w E op rem b e :
  open_batch E op rem b -> ve_atomic_group e = Some (rem - 1) -> 0 < rem ->
  IsColumnFamilyManipulation e = false -> log_number_ok n w e ->
  exists b', push_edit n (mw_log_number w) b e = Some b' /\ open_batch E (op ++ [numbered n e]) (rem - 1) b'.
Proof.
  intros [He Hc Hf Hb Hs] Hg Hrem Hm Hl. unfold push_edit. rewrite Hg, (helper_ok n w e Hm Hl), He. cbn [mbind option_bind].
  eexists. split; [done|].
  assert (Hlen : len (op ++ [numbered n e]) = len op + 1) by (rewrite zlen_app; done).
  constructor; cbn [ba_edits ba_start]; [by rewrite app_assoc|done| |lia|].
  - rewrite Hlen. apply group_from_app. split; [by replace (len op + 1 + (rem - 1)) with (len op + rem) by lia|].
    apply group_from_cons. split; [rewrite numbered_group, Hg; f_equal; lia|by intros i].
  - intros _. destruct (decide (op = [])) as [->|Hop].
    + rewrite app_nil_r. by destruct Hc as [-> | ->].
    + rewrite (last_app_ne E op Hop), (open_last op rem Hop Hf), (Hs Hop). by destruct rem.
Qed.

Lemma push_all_open n w E op rem b edits :
  open_batch E op rem b -> group_from rem edits -> len edits <= rem ->
  Forall (fun e => IsColumnFamilyManipulation e = false) edits -> Forall (log_number_ok n w) edits ->
  exists b', fold_opt (push_edit n (mw_log_number w)) b edits = Some b' /\
    open_batch E (op ++ (numbered n <$> edits)) (rem - len edits) b'.
Proof.
  revert op rem b. induction edits as [|e edits IH]; intros op rem b Hb Hg Hlen Hm Hl.
  { exists b. split; [done|]. cbn. rewrite app_nil_r. by replace (rem - len []) with rem by (unfold zlen; simpl; lia). }
  apply group_from_cons in Hg as [Hge Hg]. rewrite zlen_cons in *. pose proof (zlen_nonneg edits).
  apply Forall_cons in Hm as [Hm1 Hm]. apply Forall_cons in Hl as [Hl1 Hl].
  destruct (push_open n w E op rem b e Hb Hge ltac:(lia) Hm1 Hl1) as (b1 & E1 & Hb1). cbn [fold_opt]. rewrite E1. cbn [mbind option_bind].
  destruct (IH _ _ _ Hb1 Hg ltac:(lia) Hm Hl) as (b2 & E2 & Hb2). exists b2. split; [done|].
  rewrite <- app_assoc in Hb2. by replace (rem - (1 + len edits)) with (rem - 1 - len edits) by lia.
Qed.

Lemma sub_remaining_from k r edits :
  group_from r edits -> r <= 2 ^ 32 -> 0 <= k <= r - len edits -> group_from (r - k) (sub_remaining k <$> edits).
Proof.
  intros H Hr Hk i e. rewrite list_lookup_fmap. destruct (edits !! i) as [x|] eqn:E; intros [= <-].
  pose proof (lookup_lt_Some _ _ _ E) as Hi. specialize (H i x E). destruct x. cbn in *. rewrite H. cbn. f_equal.
  unfold zlen in Hk. rewrite wrap_id by lia. lia.
Qed.

Lemma skip_open E op rem b w :
  open_batch E op rem b -> group_from rem (mw_edit_list w) -> len (mw_edit_list w) <= rem -> mw_edit_list w <> [] ->
  exists b' op', skip_writer b w = Some b' /\ open_batch E op' (rem - len (mw_edit_list w)) b' /\ ungrouped <$> op' = ungrouped <$> op.
Proof.
  intros [He Hc Hf Hb Hs] Hg Hlen Hne. unfold skip_writer. rewrite He. set (k := len (mw_edit_list w)) in *.
  assert (Hk : 0 < k) by (unfold k; destruct (mw_edit_list w); [done|rewrite zlen_cons; pose proof (zlen_nonneg l); lia]).
  destruct (decide (op = [])) as [->|Hop].
  - exists b, []. rewrite app_nil_r in *. split; [by destruct Hc as [-> | ->]|]. split; [|done].
    constructor; [by rewrite app_nil_r|done|by intros i|change (len []) with 0 in *; lia|done].
  - rewrite (last_app_ne E op Hop), (open_last op rem Hop Hf), (Hs Hop). cbn [mbind option_bind].
    rewrite (proj2 (Z.ltb_lt _ _)) by lia. rewrite (proj2 (Nat.ltb_lt _ _)) by (rewrite length_app; destruct op; [done|simpl; lia]).
    pose proof (zlen_nonneg op).
    rewrite (count_group_all rem _ Hg Hlen). change (Z.of_nat (length (mw_edit_list w))) with k. rewrite wrap_id by lia.
    cbn [negb]. rewrite (proj2 (Z.leb_le _ _)) by lia. cbn [negb]. rewrite take_app_length, drop_app_length.
    eexists _, (sub_remaining k <$> op). split; [done|]. split.
    + assert (Hl : len (sub_remaining k <$> op) = len op) by (unfold zlen; by rewrite length_fmap).
      constructor; cbn [ba_edits ba_start]; [done|done| |lia|by intros _].
      rewrite Hl. replace (len op + (rem - k)) with (len op + rem - k) by lia. apply sub_remaining_from; [done|lia|lia].
    + rewrite <- list_fmap_compose. apply list_fmap_ext. intros i x _. apply sub_remaining_ungrouped.
Qed.

Lemma writer_not_manipulation n w : writer_ok n w -> is_manipulation w = Some false.
Proof.
  intros (Hne & Hm & _). unfold is_manipulation. destruct (mw_edit_list w) as [|e edits]; [done|].
  apply Forall_cons in Hm as [Hm _]. cbn. by rewrite Hm.
Qed.

Lemma edits_of_cons w ws : edits_of (w :: ws) = mw_edit_list w ++ edits_of ws.
Proof. done. Qed.

Lemma live_edits_cons n w ws :
  live_edits n (w :: ws) = (if mw_dropped w then [] else (fun e => ungrouped (numbered n e)) <$> mw_edit_list w) ++ live_edits n ws.
Proof. done. Qed.

(** The writers of a group, one after the other. *)
Lemma batch_group n E ws rest : forall op b,
  Forall (writer_ok n) ws -> group_from (len (edits_of ws)) (edits_of ws) -> open_batch E op (len (edits_of ws)) b ->
  exists b' op', batch_loop n b (ws ++ rest) = batch_loop n b' rest /\ open_batch E op' 0 b' /\
    ungrouped <$> op' = (ungrouped <$> op) ++ live_edits n ws.
Proof.
  induction ws as [|w ws IH]; intros op b Hws Hg Hb.
  { exists b, op. by rewrite app_nil_r. }
  apply Forall_cons in Hws as [Hw Hws]. rewrite edits_of_cons, zlen_app in *. apply group_from_app in Hg as [Hg1 Hg2].
  replace (len (mw_edit_list w) + len (edits_of ws) - len (mw_edit_list w)) with (len (edits_of ws)) in Hg2 by lia.
  pose proof (zlen_nonneg (edits_of ws)) as Hnn. cbn [app batch_loop]. rewrite (writer_not_manipulation n w Hw). cbn [mbind option_bind].
  destruct Hw as (Hne & Hm & Hlog). rewrite live_edits_cons. destruct (mw_dropped w).
  - destruct (skip_open E op _ b w Hb Hg1 ltac:(lia) Hne) as (b1 & op1 & -> & Hb1 & Hu). cbn [mbind option_bind].
    replace (len (mw_edit_list w) + len (edits_of ws) - len (mw_edit_list w)) with (len (edits_of ws)) in Hb1 by lia.
    destruct (IH op1 b1 Hws Hg2 Hb1) as (b2 & op2 & H1 & H2 & H3). exists b2, op2. split; [done|]. split; [done|]. by rewrite H3, Hu.
  - destruct (push_all_open n w E op _ b _ Hb Hg1 ltac:(lia) Hm (Hlog eq_refl)) as (b1 & -> & Hb1). cbn [mbind option_bind].
    replace (len (mw_edit_list w) + len (edits_of ws) - len (mw_edit_list w)) with (len (edits_of ws)) in Hb1 by lia.
    destruct (IH _ b1 Hws Hg2 Hb1) as (b2 & op2 & H1 & H2 & H3). exists b2, op2. split; [done|]. split; [done|].
    by rewrite H3, fmap_app, <- app_assoc, <- list_fmap_compose.
Qed.

(** Edits that are in no group. *)
Lemma push_all_single n w edits : forall b,
  Forall (fun e => ve_atomic_group e = None) edits ->
  Forall (fun e => IsColumnFamilyManipulation e = false) edits -> Forall (log_number_ok n w) edits ->
  exists b', fold_opt (push_edit n (mw_log_number w)) b edits = Some b' /\ ba_edits b' = ba_edits b ++ (numbered n <$> edits).
Proof.
  induction edits as [|e edits IH]; intros b Hg Hm Hl; [exists b; cbn; by rewrite app_nil_r|].
  apply Forall_cons in Hg as [Hg1 Hg]. apply Forall_cons in Hm as [Hm1 Hm]. apply Forall_cons in Hl as [Hl1 Hl].
  cbn [fold_opt]. unfold push_edit at 2. rewrite Hg1, (helper_ok n w e Hm1 Hl1). cbn [mbind option_bind].
  destruct (IH (mkBatch (ba_edits b ++ [numbered n e]) None) Hg Hm Hl) as (b' & -> & Hb'). exists b'. split; [done|].
  rewrite Hb'. cbn [ba_edits]. by rewrite <- app_assoc.
Qed.

Lemma closed_snoc E e : ve_atomic_group e = None -> closed (E ++ [e]).
Proof. intros H. left. by rewrite last_snoc. Qed.

Lemma closed_app_single n E edits :
  closed E -> Forall (fun e => ve_atomic_group e = None) edits -> closed (E ++ (numbered n <$> edits)).
Proof.
  intros Hc H. destruct edits as [|e edits _] using rev_ind; [cbn; by rewrite app_nil_r|].
  apply Forall_app in H as [_ H]. apply Forall_cons in H as [H _]. rewrite fmap_app, app_assoc. apply closed_snoc.
  by rewrite numbered_group.
Qed.

Lemma batch_single n ws rest : forall b,
  Forall (writer_ok n) ws -> Forall (fun e => ve_atomic_group e = None) (edits_of ws) -> closed (ba_edits b) ->
  exists b' edits, batch_loop n b (ws ++ rest) = batch_loop n b' rest /\ closed (ba_edits b') /\ ba_edits b' = ba_edits b ++ edits /\
    ungrouped <$> edits = live_edits n ws /\ Forall (fun e => ve_atomic_group e = None) edits.
Proof.
  induction ws as [|w ws IH]; intros b Hws Hg Hc.
  { exists b, []. rewrite app_nil_r. by split_and!. }
  apply Forall_cons in Hws as [Hw Hws]. rewrite edits_of_cons in Hg. apply Forall_app in Hg as [Hg1 Hg2].
  cbn [app batch_loop]. rewrite (writer_not_manipulation n w Hw). cbn [mbind option_bind]. destruct Hw as (Hne & Hm & Hlog).
  rewrite live_edits_cons. destruct (mw_dropped w).
  - assert (skip_writer b w = Some b) as -> by (unfold skip_writer; by destruct Hc as [-> | ->]). cbn [mbind option_bind].
    destruct (IH b Hws Hg2 Hc) as (b2 & es & H). by exists b2, es.
  - destruct (push_all_single n w (mw_edit_list w) b Hg1 Hm (Hlog eq_refl)) as (b1 & -> & Hb1). cbn [mbind option_bind].
    destruct (IH b1 Hws Hg2) as (b2 & es & H1 & H2 & H3 & H4 & H5); [rewrite Hb1; by apply closed_app_single|].
    exists b2, ((numbered n <$> mw_edit_list w) ++ es). split_and!; [done|done| | |].
    + by rewrite H3, Hb1, app_assoc.
    + by rewrite fmap_app, H4, <- list_fmap_compose.
    + apply Forall_app. split; [|done]. apply Forall_fmap. eapply Forall_impl; [exact Hg1|]. intros e He. cbn. by rewrite numbered_group.
Qed.

Lemma singles_ok edits : Forall (fun e => ve_atomic_group e = None) edits -> Forall group_ok ((fun e => [e]) <$> edits) /\
  mjoin ((fun e => [e]) <$> edits) = edits.
Proof.
  induction 1 as [|e edits He Hes [IH1 IH2]]; [by split|]. rewrite fmap_cons, mjoin_cons, IH2. split; [|done].
  constructor; [left; by exists e|done].
Qed.

(** One call of LogAndApply. *)
Lemma batch_commit n ws rest b :
  commit_ok n ws -> closed (ba_edits b) ->
  exists b' gs, batch_loop n b (ws ++ rest) = batch_loop n b' rest /\ closed (ba_edits b') /\ ba_edits b' = ba_edits b ++ mjoin gs /\
    commit_groups n ws gs.
Proof.
  intros [Hws Hg] Hc. destruct (decide (edits_of ws = [])) as [Hnil|Hne].
  { assert (ws = []) as ->. { destruct ws as [|w ws]; [done|]. apply Forall_cons in Hws as [(Hne & _) _].
      rewrite edits_of_cons in Hnil. by apply app_eq_nil in Hnil as [? _]. }
    exists b, []. rewrite app_nil_r. split_and!; try done. split_and!; [done|constructor|]. intros _. simpl. lia. }
  destruct Hg as [Hg|[H32 Hg]].
  - destruct (batch_single n ws rest b Hws Hg Hc) as (b' & es & H1 & H2 & H3 & H4 & H5). destruct (singles_ok es H5) as [Hok Hj].
    exists b', ((fun e => [e]) <$> es). rewrite Hj. split_and!; [done|done|done|]. split_and!; [by rewrite Hj|done|].
    intros [_ Hg']. exfalso. destruct (edits_of ws) as [|e es']; [done|]. apply group_from_cons in Hg' as [Hg' _].
    apply Forall_cons in Hg as [Hg _]. congruence.
  - destruct (batch_group n (ba_edits b) ws rest [] b Hws Hg) as (b' & op & H1 & [He _ Hf Hb Hs] & H3).
    { constructor; [by rewrite app_nil_r|done|by intros i|split; [apply zlen_nonneg|done]|done]. }
    rewrite Z.add_0_r in *. destruct (decide (op = [])) as [->|Hop].
    + exists b', []. rewrite He. split_and!; [done|by rewrite app_nil_r|done|]. split_and!; [done|constructor|]. intros _. simpl. lia.
    + exists b', [op]. rewrite He. change (mjoin [op]) with (op ++ []). rewrite app_nil_r. split_and!; [done| |done|].
      * right. rewrite (last_app_ne _ op Hop), (group_from_last _ op Hop Hf). f_equal. lia.
      * split_and!; [change (mjoin [op]) with (op ++ []); by rewrite app_nil_r|constructor; [right; split_and!; [done|lia|exact Hf]|constructor]|]. intros _. simpl. lia.
Qed.

Lemma batch_commits n commits rest : forall b,
  Forall (commit_ok n) commits -> closed (ba_edits b) ->
  exists b' gss, batch_loop n b (mjoin commits ++ rest) = batch_loop n b' rest /\ ba_edits b' = ba_edits b ++ mjoin (mjoin gss) /\
    Forall2 (commit_groups n) commits gss.
Proof.
  induction commits as [|ws commits IH]; intros b Hc Hb.
  { exists b, []. cbn. rewrite app_nil_r. split_and!; [done|done|constructor]. }
  apply Forall_cons in Hc as [Hws Hc]. rewrite mjoin_cons, <- app_assoc.
  destruct (batch_commit n ws (mjoin commits ++ rest) b Hws Hb) as (b1 & gs & -> & Hb1 & He1 & Hg).
  destruct (IH b1 Hc Hb1) as (b2 & gss & -> & He2 & Hgs). exists b2, (gs :: gss). split_and!; [done| |by constructor].
  by rewrite He2, He1, mjoin_cons, join_app, app_assoc.
Qed.

(** C14. Group commit keeps atomic groups whole.  When the writers in the queue come from calls of [LogAndApply] whose edits are
    in no group or are one group, the front writer's batch has, call by call, all the edits of the writers whose column
    family is not dropped, with the numbers of the version set, and no assertion fails; the edits left of a group are one group
    again, numbered as [Recover] expects, also when writers at its start, in its middle or at its end are left out; and the
    batch ends before a writer that adds or drops a column family. *)
Theorem group_commit_atomic n max_column_family commits rest :
  Forall (commit_ok n) commits -> mjoin commits <> [] ->
  (forall w rest', rest = w :: rest' -> is_manipulation w = Some true) ->
  exists gss, batch_edits n max_column_family (mjoin commits ++ rest) = Some (mjoin (mjoin gss), rest) /\
    Forall2 (commit_groups n) commits gss /\ Forall group_ok (mjoin gss).
Proof.
  intros Hc Hne Hrest. destruct (batch_commits n commits rest (mkBatch [] None) Hc) as (b & gss & Hl & He & Hg); [by left|].
  exists gss. split_and!; [|done|].
  - assert (Hfirst : forall w ws', mjoin commits ++ rest = w :: ws' -> is_manipulation w = Some false).
    { intros w ws' E. destruct (mjoin commits) as [|w0 ws0] eqn:Ej; [done|]. injection E as <- _.
      assert (Hin : w0 ∈ mjoin commits) by (rewrite Ej; left). apply list_elem_of_join in Hin as (ws & Hin & Hws).
      eapply Forall_forall in Hc as [Hc _]; [|exact Hws]. eapply Forall_forall in Hc; [|exact Hin]. by eapply writer_not_manipulation. }
    unfold batch_edits. destruct (mjoin commits ++ rest) as [|w ws'] eqn:Ej; [by apply app_eq_nil in Ej as [? _]|].
    specialize (Hfirst w ws' eq_refl). unfold is_manipulation in Hfirst. destruct (head (mw_edit_list w)) as [e|]; [|done].
    injection Hfirst as Hm. cbn [mbind option_bind]. rewrite Hm, Hl. destruct rest as [|w' rest']; cbn [batch_loop mbind option_bind].
    + by rewrite He.
    + rewrite (Hrest w' rest' eq_refl). cbn [mbind option_bind]. by rewrite He.
  - clear -Hg. induction Hg as [|ws gs commits gss (_ & H & _) _ IH]; [constructor|]. rewrite mjoin_cons. by apply Forall_app.
Qed.

(** A group of three edits whose second writer is dropped, behind an edit in no group. *)
Definition sample_writers : list (list ManifestWriter) :=
  let edit := fun cf => SetColumnFamily cf VersionEdit_Clear in
  [[mkMW false 2 [SetLogNumber 3 (edit 0)]];
   [mkMW false 2 [MarkAtomicGroup 3 (edit 0)]; mkMW true 2 [MarkAtomicGroup 2 (edit 1); MarkAtomicGroup 1 (edit 1)];
    mkMW false 2 [MarkAtomicGroup 0 (edit 2)]]].

Lemma group_commit_atomic_witness :
  exists gss, batch_edits (mkNumbers 0 9 100) 2 (mjoin sample_writers ++ [mkMW false 0 [DropColumnFamily VersionEdit_Clear]]) =
      Some (mjoin (mjoin gss), [mkMW false 0 [DropColumnFamily VersionEdit_Clear]]) /\
    ve_atomic_group <$> mjoin (mjoin gss) = [None; Some 1; Some 0] /\ Forall group_ok (mjoin gss).
Proof.
  destruct (group_commit_atomic (mkNumbers 0 9 100) 2 sample_writers [mkMW false 0 [DropColumnFamily VersionEdit_Clear]])
    as (gss & H1 & H2 & H3).
  - constructor; [|constructor; [|constructor]]; (split; [repeat (apply Forall_cons; split); try apply Forall_nil_2|]).
    all: try (split_and!; [done|repeat (apply Forall_cons; split); by try apply Forall_nil_2|]; intros _;
      repeat (apply Forall_cons; split); try apply Forall_nil_2; vm_compute; intuition congruence).
    + left. repeat (apply Forall_cons; split); by try apply Forall_nil_2.
    + right. split; [done|]. intros [|[|[|[|i]]]] e [= <-]; done.
  - done.
  - by intros w rest' [= <- <-].
  - exists gss. split; [exact H1|]. split; [|exact H3]. clear H2 H3. revert H1.
    generalize (mjoin (mjoin gss)) as es. intros es H1. vm_compute in H1. by injection H1 as <-.
Defined.
