(* ===== verification/Recovery.v ===== *)
(** * The version recovery builds (VersionSet::Recover of db/version_set.cc)

    Recovery applies all the edits of the manifest to one builder on an empty version.
    While the database runs, each edit is applied to the version that is current.  Both
    give the same files, level by level and in the same order. *)

From S2P Require Import Prelude Coding Comparator DbFormat VersionEdit SstableMeta VersionBuilder Crc32c LogWriter LogReader LogRoundtrip Manifest.

(** ** Histories of edits *)

Definition no_files : Z -> list FileMetaData := fun _ => [].

(** The files of the levels after some edits of an empty version. *)
Definition files_after (edits : list VersionEdit) : Z -> list FileMetaData := foldl edit_levels no_files edits.

Section History.
Context (icmp : Comparator) {Laws : ComparatorLaws icmp} (nvm : bool) (levels : Z).
Implicit Types (cur : Z -> list FileMetaData) (e : VersionEdit) (v : VStorage).

(** An edit that fits the files of the levels: what it deletes is there, what it adds is new but for a level-0 NVM table
    that takes the place of its predecessor, and the files of a level above 0 do not overlap afterwards. *)
Record legal_change cur e : Prop := {
  lc_set : NoDup (ve_deleted_files e);
  lc_deleted l k : (l, k) ∈ ve_deleted_files e -> 0 <= l < levels /\ k ∈ numbers (cur l);
  lc_level l f : (l, f) ∈ ve_new_files e -> 0 <= l < levels;
  lc_new l f : (l, f) ∈ ve_new_files e -> if f_is_nvm_level0 f then nvm = true else file_number f ∉ numbers (cur l);
  lc_nodup l : NoDup (numbers (edit_level e l (cur l)));
  lc_check l : 0 <= l < levels -> check_level icmp nvm l (sort_files icmp l (edit_level e l (cur l))) = true
}.

Fixpoint legal_history cur (edits : list VersionEdit) : Prop :=
  match edits with
  | [] => True
  | e :: edits => legal_change cur e /\ legal_history (edit_levels cur e) edits
  end.

Lemma legal_history_app cur es1 es2 :
  legal_history cur (es1 ++ es2) <-> legal_history cur es1 /\ legal_history (foldl edit_levels cur es1) es2.
Proof. revert cur. induction es1 as [|e es1 IH]; intros cur; simpl; [tauto|]. rewrite IH. tauto. Qed.

Definition within cur : Prop := forall l, ~ (0 <= l < levels) -> cur l = [].

Lemma within_edit cur e : within cur -> legal_change cur e -> within (edit_levels cur e).
Proof.
  intros Hc He l Hl. unfold edit_levels, edit_level. rewrite (Hc l Hl). simpl. unfold new_in.
  destruct (filter (fun x => x.1 = l) (ve_new_files e)) as [|[l' f] fs] eqn:E; [done|].
  assert (Hin : (l', f) ∈ filter (fun x => x.1 = l) (ve_new_files e)) by (rewrite E; left).
  apply list_elem_of_filter in Hin as [Hl' Hin]. simpl in Hl'. subst l'. by apply (lc_level _ _ He) in Hin.
Qed.

Lemma edit_level_perm e l fs gs : fs ≡ₚ gs -> edit_level e l fs ≡ₚ edit_level e l gs.
Proof. intros H. unfold edit_level, undeleted. by rewrite H. Qed.

Lemma sort_files_perm l (fs gs : list FileMetaData) : fs ≡ₚ gs -> NoDup (numbers gs) -> sort_files icmp l fs = sort_files icmp l gs.
Proof using Laws.
  intros Hp Hnd. apply sort_files_unique; [done|apply StronglySorted_merge_sort; apply _| |done].
  unfold sort_files. by rewrite merge_sort_Permutation.
Qed.

(** A change of the files is a legal edit of a version that has no other files. *)
Lemma legal_change_edit v cur cur' e :
  len (vst_files v) = levels -> vst_is_nvmcf v = nvm -> (forall l, cur' l ≡ₚ cur l) ->
  (forall l n, n ∈ numbers (level_metas v l) -> n ∈ numbers (cur l)) -> legal_change cur e -> legal_edit v cur' e.
Proof.
  intros Hlen Hnvm Hp Hsub [H1 H2 H3 H4 H5 _]. constructor; [done|..].
  - intros l k Hk. rewrite Hlen. destruct (H2 l k Hk) as [Hl Hin]. split; [done|]. unfold numbers in *. by rewrite Hp.
  - intros l f Hf. rewrite Hlen. by eapply H3.
  - intros l f Hf. specialize (H4 l f Hf). rewrite Hnvm. destruct (f_is_nvm_level0 f); [done|]. intros Hin. by apply H4, Hsub.
  - intros l. unfold numbers. rewrite (edit_level_perm e l _ _ (Hp l)). apply H5.
Qed.

(** The version [v] has these files. *)
Record has_files v cur : Prop := {
  hf_len : len (vst_files v) = levels;
  hf_nvm : vst_is_nvmcf v = nvm;
  hf_files l : level_metas v l = sort_files icmp l (cur l);
  hf_ok : storage_ok icmp v
}.

(** Each edit applied to the version before it. *)
Inductive built : VStorage -> list VersionEdit -> VStorage -> Prop :=
| built_nil v : built v [] v
| built_cons v e edits st R st' rep v1 v2 :
    counts st R -> (forall f, f ∈ version_refs v -> f ∈ R) ->
    apply_and_save icmp st v [e] (empty_vstorage v) = Some (st', rep, v1) ->
    built v1 edits v2 -> built v (e :: edits) v2.

Lemma sort_files_nil l : sort_files icmp l [] = [].
Proof. done. Qed.

Lemma apply_one v cur e st R :
  has_files v cur -> within cur -> legal_change cur e -> counts st R -> (forall f, f ∈ version_refs v -> f ∈ R) ->
  exists st' rep v1, apply_and_save icmp st v [e] (empty_vstorage v) = Some (st', rep, v1) /\ has_files v1 (edit_levels cur e) /\
    counts st' (version_refs v1 ++ rep_files rep ++ R).
Proof using Laws.
  intros [Hlen Hnvm Hfiles Hok] Hw He Hc HR.
  assert (Hp : forall l, level_metas v l ≡ₚ cur l) by (intros l; rewrite Hfiles; apply merge_sort_Permutation).
  assert (Hle : legal_edit v (level_metas v) e).
  { eapply legal_change_edit; [done|done|exact Hp| |exact He]. intros l n Hn. unfold numbers in *. by rewrite <- Hp. }
  assert (Hs : forall l, sort_files icmp l (edit_levels (level_metas v) e l) = sort_files icmp l (edit_levels cur e l)).
  { intros l. apply sort_files_perm; [by apply edit_level_perm|]. apply (lc_nodup _ _ He). }
  assert (Hcons : consistent v (fun l => sort_files icmp l (foldl edit_levels (level_metas v) [e] l)) icmp).
  { intros l Hl. rewrite Hlen in Hl. simpl. rewrite Hs, Hnvm. by apply (lc_check _ _ He). }
  destruct (apply_and_save_ok icmp st v [e] R Hok HR Hc ltac:(split; [done|done]) Hcons) as (st' & rep & v1 & E & Hl1 & Hn1 & Hf1 & _ & Hc1).
  exists st', rep, v1. split; [done|]. split; [|done]. simpl in Hf1.
  assert (Hall : forall l, level_metas v1 l = sort_files icmp l (edit_levels cur e l)).
  { intros l. destruct (decide (0 <= l < len (vst_files v))) as [Hl|Hl]; [by rewrite Hf1, Hs|].
    rewrite level_metas_out by (by rewrite Hl1). rewrite (within_edit cur e Hw He) by (by rewrite <- Hlen). done. }
  constructor; [congruence|congruence|done|].
  apply (sorted_storage_ok icmp v v1 (edit_levels cur e)); [done|done|intros l _; apply Hall|apply (lc_nodup _ _ He)|].
  intros l Hl. rewrite Hnvm. apply (lc_check _ _ He). by rewrite <- Hlen.
Qed.

Lemma built_files v cur edits :
  has_files v cur -> within cur -> legal_history cur edits -> forall st, counts st (version_refs v) ->
  exists v2, built v edits v2 /\ has_files v2 (foldl edit_levels cur edits).
Proof using Laws.
  revert v cur. induction edits as [|e edits IH]; intros v cur Hv Hw Hl st Hc; simpl in *.
  { exists v. split; [constructor|done]. }
  destruct Hl as [He Hl]. destruct (apply_one v cur e st (version_refs v) Hv Hw He Hc) as (st' & rep & v1 & E & Hv1 & Hc1); [done|].
  destruct (Rep_destroy_ok st' rep (version_refs v ++ version_refs v1)) as (st2 & _ & Hc2).
  { eapply counts_proper; [|exact Hc1]. rewrite (Permutation_app_comm (version_refs v1)), <- app_assoc. done. }
  apply counts_unref_all in Hc2 as (st3 & _ & Hc3).
  destruct (IH v1 _ Hv1 (within_edit cur e Hw He) Hl st3 Hc3) as (v2 & Hb & Hv2). exists v2. split; [|done].
  eapply built_cons; [exact Hc|done|exact E|exact Hb].
Qed.

(** Whatever the stores were, the edits give these files. *)
Lemma built_inv v edits v2 : built v edits v2 -> forall cur,
  has_files v cur -> within cur -> legal_history cur edits -> has_files v2 (foldl edit_levels cur edits).
Proof using Laws.
  induction 1 as [v|v e edits st R st' rep v1 v2 Hc HR E Hb IH]; intros cur Hv Hw Hl; simpl in *; [done|].
  destruct Hl as [He Hl]. destruct (apply_one v cur e st R Hv Hw He Hc HR) as (st1 & rep1 & v3 & E1 & Hv1 & _).
  rewrite E in E1. injection E1 as <- <- <-. apply IH; [done|by apply within_edit|done].
Qed.

(** All the edits at once are legal for an empty version. *)
Lemma legal_history_edits v cur edits :
  len (vst_files v) = levels -> vst_is_nvmcf v = nvm -> (forall l, level_metas v l = []) ->
  legal_history cur edits -> legal_edits v cur edits.
Proof.
  intros Hlen Hnvm Hv. revert cur. induction edits as [|e edits IH]; intros cur; simpl; [done|]. intros [He Hl].
  split; [|by apply IH]. eapply legal_change_edit; [done|done|done| |exact He].
  intros l n. rewrite Hv. by intros Hn%elem_of_nil.
Qed.

Lemma legal_history_take cur edits k : legal_history cur edits -> legal_history cur (take k edits).
Proof. rewrite <- (take_drop k edits) at 1. rewrite legal_history_app. tauto. Qed.

(** After a legal history the levels are consistent and no number occurs twice. *)
Lemma legal_history_end cur edits :
  (forall l, 0 <= l < levels -> check_level icmp nvm l (sort_files icmp l (cur l)) = true) -> legal_history cur edits ->
  forall l, 0 <= l < levels -> check_level icmp nvm l (sort_files icmp l (foldl edit_levels cur edits l)) = true.
Proof.
  revert cur. induction edits as [|e edits IH]; intros cur Hc; simpl; [done|]. intros [He Hl].
  apply IH; [|done]. apply (lc_check _ _ He).
Qed.

Lemma legal_history_within cur edits : within cur -> legal_history cur edits -> within (foldl edit_levels cur edits).
Proof.
  revert cur. induction edits as [|e edits IH]; intros cur Hc; simpl; [done|]. intros [He Hl]. apply IH; [by apply within_edit|done].
Qed.
End History.

(** ** The recovered state *)

(** An edit of the default column family, with the name of its comparator if it has one. *)
Definition default_edit (o : CfOptions) (e : VersionEdit) : Prop :=
  ve_column_family e = 0 /\ ve_column_family_add e = None /\ ve_column_family_drop e = false /\
  opt_all (fun n => n = co_comparator o) (ve_comparator e) /\ opt_all u64 (ve_log_number e).

(** The last of each number. *)
Definition noted_numbers (edits : list VersionEdit) (st : FileStore) (cfs : gmap Z ColumnFamily) (have_log : bool) : Recovery :=
  mkRecovery st cfs ∅ have_log (last (omap ve_prev_log_number edits))
    (last (omap ve_next_file_number edits)) (last (omap ve_last_sequence edits))
    (foldl Z.max 0 (omap ve_min_log_number_to_keep edits)) (default 0 (last (omap ve_max_column_family edits))) 0.

(** What recovery knows after some edits of the default column family: the numbers, the largest log number, and the builder. *)
Definition noted (o : CfOptions) (edits : list VersionEdit) (s : FileStore * Rep) : Recovery :=
  noted_numbers edits s.1 {[0 := mkCf kDefaultColumnFamilyName o (foldl Z.max 0 (omap ve_log_number edits)) s.2]}
    (negb (bool_decide (omap ve_log_number edits = []))).

Lemma last_omap_snoc {A B} (f : A -> option B) l x :
  last (omap f (l ++ [x])) = match f x with Some y => Some y | None => last (omap f l) end.
Proof. rewrite omap_app. simpl. destruct (f x); [by rewrite last_snoc|by rewrite app_nil_r]. Qed.

Lemma fold_omap_snoc {A} (f : A -> option Z) l x m :
  foldl Z.max m (omap f (l ++ [x])) = match f x with Some y => Z.max (foldl Z.max m (omap f l)) y | None => foldl Z.max m (omap f l) end.
Proof. rewrite omap_app. simpl. destruct (f x); [by rewrite foldl_app|by rewrite app_nil_r]. Qed.

Lemma note_numbers_snoc edits e st cfs hl :
  note_numbers e (noted_numbers edits st cfs hl) = noted_numbers (edits ++ [e]) st cfs hl.
Proof.
  unfold noted_numbers. rewrite !last_omap_snoc, fold_omap_snoc. unfold note_numbers.
  destruct (ve_prev_log_number e), (ve_next_file_number e), (ve_last_sequence e), (ve_max_column_family e); done.
Qed.

Lemma ApplyOne_noted opts o edits s s' e :
  default_edit o e -> Apply (co_icmp o) s e = Some s' ->
  ApplyOneVersionEdit opts (noted o edits s) e = Some (inr (noted o (edits ++ [e]) s')).
Proof.
  intros (Hcf & Hadd & Hdrop & Hcmp & Hlog) E. destruct s as [st rep], s' as [st' rep'].
  unfold ApplyOneVersionEdit. rewrite Hcf, Hadd, Hdrop. cbn [noted noted_numbers rv_cfs rv_not_found rv_store fst snd].
  rewrite lookup_empty, lookup_singleton_eq. rewrite bool_decide_false by (by intros []). cbn [andb negb cf_options cf_builder].
  rewrite E. cbn [mbind option_bind cf_name cf_options cf_log_number]. rewrite insert_singleton_eq. unfold note_cfd.
  cbn [rv_set_cfs noted noted_numbers rv_cfs mbind option_bind fst snd]. rewrite lookup_singleton_eq.
  cbn [mbind option_bind cf_name cf_options cf_log_number cf_builder].
  assert (Hc : forall A (x y : A), match ve_comparator e with
      | Some n => if bool_decide (n = co_comparator o) then x else y | None => x end = x).
  { intros A x y. destruct (ve_comparator e); [|done]. simpl in Hcmp. by rewrite bool_decide_true. }
  rewrite Hc. f_equal. f_equal. unfold noted. rewrite fold_omap_snoc, <- note_numbers_snoc. f_equal. cbn [fst snd].
  set (M := foldl Z.max 0 (omap ve_log_number edits)).
  assert (Hb : bool_decide (omap ve_log_number (edits ++ [e]) = []) =
    bool_decide (omap ve_log_number edits = []) && bool_decide (ve_log_number e = None)).
  { rewrite omap_app. simpl. destruct (omap ve_log_number edits), (ve_log_number e); done. }
  rewrite Hb. destruct (ve_log_number e) as [n|] eqn:En; simpl in Hlog.
  - rewrite (bool_decide_false (Some n = None)), andb_false_r by done. destruct (Z.ltb_spec n M) as [Hlt|Hge].
    + rewrite Z.max_l by lia. rewrite bool_decide_false; [done|].
      intros Hnil. unfold M in Hlt. rewrite Hnil in Hlt. simpl in Hlt. unfold u64 in Hlog. lia.
    + by rewrite Z.max_r, insert_singleton_eq by lia.
  - by rewrite (bool_decide_true (None = None)), andb_true_r by done.
Qed.

Lemma counts_empty : counts (mkStore ∅ 0) [].
Proof. constructor; [done|by intros f ?%elem_of_nil|by intros f g ?%elem_of_nil]. Qed.

(** [Recover] starts with the default column family. *)
Lemma Recover_run opts o read_only file rv res :
  find_options opts kDefaultColumnFamilyName = Some o ->
  (let r := Reader_make file (Some []) true 0 false in
   Recover_loop (remaining_bytes r + 1) opts r rp_none (noted o [] (mkStore ∅ 0, Rep_make (empty_version o))) = Some (inr rv)) ->
  recover_end read_only rv = res -> Recover opts read_only file = res.
Proof.
  intros Ho Hloop <-. unfold Recover. rewrite Ho.
  assert (CreateColumnFamily o 0 kDefaultColumnFamilyName 0 Recovery_make = Some (noted o [] (mkStore ∅ 0, Rep_make (empty_version o)))) as ->.
  { unfold CreateColumnFamily. rewrite bool_decide_false by (by intros (i & x & Hx & _)). done. }
  cbn [mbind option_bind]. cbn zeta in *. by rewrite Hloop.
Qed.

Section Recovered.
Context (opts : list (bytes * CfOptions)) (o : CfOptions) {Laws : ComparatorLaws (co_icmp o)}.
Notation base := (empty_version o).
Notation levels := (Z.of_nat (co_num_levels o)).

Lemma empty_metas l : level_metas base l = [].
Proof.
  unfold level_metas, empty_version. cbn [vst_files]. destruct (replicate (co_num_levels o) [] !z l) as [fs|] eqn:E; [|done].
  apply zget_Some in E as [_ E]. by apply lookup_replicate in E as [-> _].
Qed.

Lemma empty_len : len (vst_files base) = levels.
Proof. unfold zlen. simpl. by rewrite length_replicate. Qed.

Lemma check_level_nil l : check_level (co_icmp o) (co_is_nvmcf o) l [] = true.
Proof. unfold check_level. by destruct (_ && _). Qed.

Lemma empty_has_files : has_files (co_icmp o) (co_is_nvmcf o) levels base no_files.
Proof.
  constructor; [apply empty_len|done|intros l; apply empty_metas|]. constructor; intros l; rewrite empty_metas; try by constructor.
  intros _. apply check_level_nil.
Qed.

Lemma version_refs_empty : version_refs base = [].
Proof. unfold version_refs, empty_version. cbn [vst_files]. by induction (co_num_levels o). Qed.

Lemma empty_vstorage_empty : empty_vstorage base = base.
Proof. unfold empty_vstorage, empty_version. cbn [vst_files vst_is_nvmcf]. by rewrite length_replicate. Qed.

Lemma empty_builds : builds base [] no_files (mkStore ∅ 0, Rep_make base).
Proof.
  assert (Hcons : consistent base (level_metas base) (co_icmp o)) by (intros l _; rewrite empty_metas; apply check_level_nil).
  destruct (Rep_make_ok (co_icmp o) base Hcons (mkStore ∅ 0) []) as [[H1 H2 H3 H4 H5] Hc]; [apply counts_empty|intros l; rewrite empty_metas; constructor|].
  split; [|done]. constructor; [done|done|done| |done]. intros l Hl. destruct (H4 l Hl) as (b & ls & Hb & Hls & Hrel).
  rewrite empty_metas in Hrel. by exists b, ls.
Qed.

Lemma apply_edits_noted pre edits s cur :
  Forall (default_edit o) edits -> builds base [] cur s -> legal_edits base cur edits ->
  exists s', apply_edits opts (noted o pre s) edits = Some (inr (noted o (pre ++ edits) s')) /\
    builds base [] (foldl edit_levels cur edits) s'.
Proof using Laws.
  intros Hd. revert pre s cur. induction Hd as [|e edits He Hd IH]; intros pre s cur Hs; cbn [legal_edits apply_edits foldl].
  { intros _. exists s. by rewrite app_nil_r. }
  intros [Hle Hl]. destruct (Apply_ok (co_icmp o) base) with (s := s) (cur := cur) (R := @nil FileRef) (e := e) as (s1 & E & Hs1); try done.
  { intros l _. rewrite empty_metas. apply check_level_nil. }
  rewrite (ApplyOne_noted opts o pre s s1 e He E). cbn [mbind option_bind].
  destruct (IH (pre ++ [e]) s1 _ Hs1 Hl) as (s2 & E2 & Hs2). exists s2. rewrite E2, <- app_assoc. done.
Qed.

(** The builder of a recovery is saved and deleted; the files of the version are its only references. *)
Lemma save_version s cur c :
  builds base [] cur s -> consistent base (fun l => sort_files (co_icmp o) l (cur l)) (co_icmp o) ->
  cf_options c = o -> cf_builder c = s.2 ->
  exists st v, save_versions s.1 [(0, c)] = Some (st, [(0, v)]) /\ counts st (version_refs v) /\
    len (vst_files v) = levels /\ forall l, 0 <= l < levels -> level_metas v l = sort_files (co_icmp o) l (cur l).
Proof using Laws.
  intros [Hrep Hc] Hcons Ho Hb. unfold save_versions. cbn [fold_opt]. rewrite Ho, Hb.
  destruct (SaveTo_ok (co_icmp o) base) with (st := s.1) (rep := s.2) (cur := cur) (R := rep_files s.2) as (st & v & E & Hsv).
  { intros l _. rewrite empty_metas. apply check_level_nil. }
  { done. }
  { intros l. rewrite empty_metas. constructor. }
  { done. }
  { rewrite version_refs_empty. done. }
  { by rewrite app_nil_r in Hc. }
  rewrite empty_vstorage_empty in E. rewrite E. cbn [mbind option_bind fst snd app].
  destruct Hsv as [H1 _ H3 _ H5]. simpl in *.
  destruct (Rep_destroy_ok st s.2 (version_refs v)) as (st2 & -> & Hc2); [by rewrite Permutation_app_comm|].
  cbn [mbind option_bind]. exists st2, v. split_and!; [done|done|by etransitivity; [exact H1|apply empty_len]|].
  intros l Hl. apply H3, elem_of_upto. pose proof empty_len as Hlen. simpl in Hlen. by rewrite Hlen.
Qed.

Lemma recover_end_noted ro edits s cur next seq :
  builds base [] cur s -> consistent base (fun l => sort_files (co_icmp o) l (cur l)) (co_icmp o) ->
  last (omap ve_next_file_number edits) = Some next -> last (omap ve_last_sequence edits) = Some seq ->
  omap ve_log_number edits <> [] ->
  exists st v, recover_end ro (noted o edits s) =
      Some (inr (mkRecovered st [(0, v)] [(0, foldl Z.max 0 (omap ve_log_number edits))] (wrap64 (next + 1)) seq
        (default 0 (last (omap ve_prev_log_number edits))) (foldl Z.max 0 (omap ve_min_log_number_to_keep edits))
        (Z.max 0 (default 0 (last (omap ve_max_column_family edits)))))) /\
    counts st (version_refs v) /\ len (vst_files v) = levels /\
    forall l, 0 <= l < levels -> level_metas v l = sort_files (co_icmp o) l (cur l).
Proof using Laws.
  intros Hb Hcons Hn Hs Hl. unfold recover_end, noted, noted_numbers.
  cbn [rv_next_file rv_last_sequence rv_have_log_number rv_cfs rv_not_found rv_store rv_previous_log_number
    rv_min_log_number_to_keep rv_set_max rv_max_column_family].
  rewrite Hn, Hs, (bool_decide_false _ Hl), map_to_list_singleton, (bool_decide_true (∅ = ∅)), andb_false_r by done.
  assert (Hck : CheckConsistencyForNumLevels s.2 = true).
  { destruct Hb as [[_ _ _ _ [Hi Hv]] _]. unfold CheckConsistencyForNumLevels. by rewrite Hv, Hi, map_to_list_empty. }
  cbn [negb forallb snd cf_builder]. rewrite Hck. cbn [andb negb].
  set (c := mkCf _ _ _ _). destruct (save_version s cur c Hb Hcons) as (st & v & -> & Hv); [done|done|].
  by exists st, v.
Qed.
End Recovered.

(** ** Recovery restores the version *)

(** An edit that loses nothing of its files in the manifest. *)
Definition keeps_files (e : VersionEdit) : Prop := Forall (fun lf => saved_file lf.2 = lf.2) (ve_new_files e).

Lemma saved_new_files e : keeps_files e -> ve_new_files (saved_edit e) = ve_new_files e.
Proof.
  unfold keeps_files, saved_edit. cbn [ve_new_files]. induction 1 as [|[l f] fs Hf Hfs IH]; [done|].
  rewrite fmap_cons, IH. unfold prod_map. cbn [fst snd id] in *. by rewrite Hf.
Qed.

Lemma edit_levels_saved cur e : keeps_files e -> edit_levels cur (saved_edit e) = edit_levels cur e.
Proof. intros H. unfold edit_levels, edit_level, new_in. by rewrite (saved_new_files e H). Qed.

Lemma legal_change_saved icmp nvm levels cur e :
  keeps_files e -> legal_change icmp nvm levels cur e -> legal_change icmp nvm levels cur (saved_edit e).
Proof.
  intros Hk [H1 H2 H3 H4 H5 H6]. pose proof (saved_new_files e Hk) as Hn.
  assert (He : forall l, edit_level (saved_edit e) l (cur l) = edit_level e l (cur l)).
  { intros l. unfold edit_level, new_in. by rewrite Hn. }
  constructor; [exact H1|exact H2|intros l f; rewrite Hn; apply H3|intros l f; rewrite Hn; apply H4|intros l; rewrite He; apply H5|].
  intros l. rewrite He. apply H6.
Qed.

Lemma legal_history_saved icmp nvm levels cur edits :
  Forall keeps_files edits -> legal_history icmp nvm levels cur edits ->
  legal_history icmp nvm levels cur (saved_edit <$> edits) /\
  foldl edit_levels cur (saved_edit <$> edits) = foldl edit_levels cur edits.
Proof.
  intros Hk. revert cur. induction Hk as [|e edits He Hes IH]; intros cur; [done|]. cbn [fmap list_fmap legal_history foldl]. intros [H1 H2].
  rewrite (edit_levels_saved cur e He). destruct (IH _ H2) as [H3 H4]. split; [split; [by apply legal_change_saved|done]|done].
Qed.

Lemma default_edit_saved o e : default_edit o e -> default_edit o (saved_edit e).
Proof. by destruct e. Qed.

Lemma omap_saved {B} (f : VersionEdit -> option B) (edits : list VersionEdit) :
  (forall e, f (saved_edit e) = f e) -> omap f (saved_edit <$> edits) = omap f edits.
Proof. intros H. induction edits as [|e edits IH]; [done|]. cbn. rewrite H. by destruct (f e); rewrite <- IH. Qed.

(** Applying the edits of the manifest and the end of [Recover]. *)
Lemma recover_edits opts o ro edits next seq :
  ComparatorLaws (co_icmp o) -> Forall (default_edit o) edits -> Forall keeps_files edits ->
  legal_history (co_icmp o) (co_is_nvmcf o) (Z.of_nat (co_num_levels o)) no_files edits ->
  last (omap ve_next_file_number edits) = Some next -> last (omap ve_last_sequence edits) = Some seq ->
  omap ve_log_number edits <> [] ->
  exists rv st v, apply_edits opts (noted o [] (mkStore ∅ 0, Rep_make (empty_version o))) (saved_edit <$> edits) = Some (inr rv) /\
    recover_end ro rv = Some (inr (mkRecovered st [(0, v)] [(0, foldl Z.max 0 (omap ve_log_number edits))] (wrap64 (next + 1)) seq
        (default 0 (last (omap ve_prev_log_number edits))) (foldl Z.max 0 (omap ve_min_log_number_to_keep (saved_edit <$> edits)))
        (Z.max 0 (default 0 (last (omap ve_max_column_family edits)))))) /\
    counts st (version_refs v) /\
    forall l, level_metas v l = sort_files (co_icmp o) l (files_after edits l).
Proof.
  intros Laws Hd Hk Hh Hn Hs Hl. destruct (legal_history_saved _ _ _ _ _ Hk Hh) as [Hh' Hfold].
  destruct (apply_edits_noted opts o [] (saved_edit <$> edits) (mkStore ∅ 0, Rep_make (empty_version o)) no_files) as (s & E & Hb).
  { apply Forall_fmap. eapply Forall_impl; [exact Hd|]. apply default_edit_saved. }
  { apply (empty_builds o). }
  { eapply legal_history_edits; [apply empty_len|done|apply empty_metas|exact Hh']. }
  rewrite Hfold in Hb. fold (files_after edits) in Hb.
  assert (Hend : forall l, 0 <= l < Z.of_nat (co_num_levels o) ->
    check_level (co_icmp o) (co_is_nvmcf o) l (sort_files (co_icmp o) l (files_after edits l)) = true).
  { eapply legal_history_end; [|exact Hh]. intros l _. apply check_level_nil. }
  destruct (recover_end_noted o ro (saved_edit <$> edits) s _ next seq Hb) as (st & v & Er & Hc & Hlen & Hv).
  { intros l Hl'. rewrite empty_len in Hl'. by apply Hend. }
  1-3: by rewrite omap_saved.
  rewrite (omap_saved ve_log_number), (omap_saved ve_prev_log_number), (omap_saved ve_max_column_family) in Er by done.
  exists (noted o (saved_edit <$> edits) s), st, v. split_and!; [exact E|done|done|].
  intros l. destruct (decide (0 <= l < Z.of_nat (co_num_levels o))) as [Hin|Hout]; [by apply Hv|].
  rewrite level_metas_out by (by rewrite Hlen). unfold files_after. rewrite (legal_history_within _ _ _ _ _ ltac:(done) Hh) by done. done.
Qed.

(** The numbers that recovery knows after the edits. *)
Lemma recover_edits_numbers opts o edits :
  ComparatorLaws (co_icmp o) -> Forall (default_edit o) edits -> Forall keeps_files edits ->
  legal_history (co_icmp o) (co_is_nvmcf o) (Z.of_nat (co_num_levels o)) no_files edits ->
  exists rv, apply_edits opts (noted o [] (mkStore ∅ 0, Rep_make (empty_version o))) (saved_edit <$> edits) = Some (inr rv) /\
    rv_next_file rv = last (omap ve_next_file_number edits) /\ rv_last_sequence rv = last (omap ve_last_sequence edits) /\
    rv_have_log_number rv = negb (bool_decide (omap ve_log_number edits = [])).
Proof.
  intros Laws Hd Hk Hh. destruct (legal_history_saved _ _ _ _ _ Hk Hh) as [Hh' _].
  destruct (apply_edits_noted opts o [] (saved_edit <$> edits) (mkStore ∅ 0, Rep_make (empty_version o)) no_files) as (s & E & _).
  { apply Forall_fmap. eapply Forall_impl; [exact Hd|]. apply default_edit_saved. }
  { apply (empty_builds o). }
  { eapply legal_history_edits; [apply empty_len|done|apply empty_metas|exact Hh']. }
  eexists. split; [exact E|]. simpl. by rewrite !omap_saved.
Qed.

(** What [Recover] makes of a manifest with these edits when applying them in turn gives the version [v]: the files of [v] and
    the numbers of the edits, or a refusal when no edit gives a file number, a log number or a sequence number. *)
Definition recovers_to (opts : list (bytes * CfOptions)) (file : SequentialFile) (edits : list VersionEdit) (v : VStorage) : Prop :=
  forall read_only,
  match last (omap ve_next_file_number edits), omap ve_log_number edits, last (omap ve_last_sequence edits) with
  | None, _, _ => Recover opts read_only file = Some (inl "no meta-nextfile entry in descriptor"%string)
  | Some _, [], _ => Recover opts read_only file = Some (inl "no meta-lognumber entry in descriptor"%string)
  | Some _, _ :: _, None => Recover opts read_only file = Some (inl "no last-sequence-number entry in descriptor"%string)
  | Some next, log :: logs, Some seq =>
      exists rd v', Recover opts read_only file = Some (inr rd) /\ rd_versions rd = [(0, v')] /\
        (forall l, level_metas v' l = level_metas v l) /\ counts (rd_store rd) (version_refs v') /\
        rd_next_file_number rd = wrap64 (next + 1) /\ rd_last_sequence rd = seq /\
        rd_log_numbers rd = [(0, foldl Z.max 0 (log :: logs))]
  end.

Lemma recover_to opts o file edits v :
  find_options opts kDefaultColumnFamilyName = Some o -> ComparatorLaws (co_icmp o) ->
  Forall (default_edit o) edits -> Forall keeps_files edits ->
  legal_history (co_icmp o) (co_is_nvmcf o) (Z.of_nat (co_num_levels o)) no_files edits ->
  (let r := Reader_make file (Some []) true 0 false in
   Recover_loop (remaining_bytes r + 1) opts r rp_none (noted o [] (mkStore ∅ 0, Rep_make (empty_version o))) =
   apply_edits opts (noted o [] (mkStore ∅ 0, Rep_make (empty_version o))) (saved_edit <$> edits)) ->
  (forall l, level_metas v l = sort_files (co_icmp o) l (files_after edits l)) ->
  recovers_to opts file edits v.
Proof.
  intros Hopts Laws Hd Hk Hh Hloop Hv ro. destruct (recover_edits_numbers opts o edits Laws Hd Hk Hh) as (rv & Ea & Hn & Hs & Hl).
  assert (Hrun : forall res, recover_end ro rv = res -> Recover opts ro file = res).
  { intros res Hres. eapply Recover_run; [exact Hopts|etransitivity; [exact Hloop|exact Ea]|exact Hres]. }
  destruct (last (omap ve_next_file_number edits)) as [next|] eqn:En.
  2: { apply Hrun. unfold recover_end. by rewrite Hn. }
  destruct (omap ve_log_number edits) as [|log logs] eqn:Elog.
  { apply Hrun. unfold recover_end. by rewrite Hn, Hl. }
  destruct (last (omap ve_last_sequence edits)) as [seq|] eqn:Es.
  2: { apply Hrun. unfold recover_end. by rewrite Hn, Hl, Hs. }
  destruct (recover_edits opts o ro edits next seq Laws Hd Hk Hh En Es) as (rv' & st & v' & Ea' & Er & Hc & Hv'); [by rewrite Elog|].
  assert (rv' = rv) as -> by congruence. rewrite Elog in Er. eexists _, v'. split_and!; [by apply Hrun, Er|..]; try done.
  intros l. by rewrite Hv', Hv.
Qed.

(** C6. Reopening restores the version the database had.  Write a manifest of edits of the default column family, with any
    of its file's calls failing, and cut it anywhere: there is a number of whole groups of edits, the largest whose bytes are
    left, such that [Recover] on what is left gives, level by level and in the same order, the files of the version that
    results when each edit of these groups is applied to the version before it, as [LogAndApply] does; and the last file
    number, sequence and log number the edits give.  The reference counts it leaves are those of this version alone.  When
    these groups give no file number, no log number or no sequence number, [Recover] refuses the manifest with the error for
    the first one missing. *)
Theorem manifest_restores_version opts o faults groups n :
  find_options opts kDefaultColumnFamilyName = Some o -> ComparatorLaws (co_icmp o) ->
  Forall group_ok groups -> Forall edit_wf (mjoin groups) -> Forall (fun e => is_Some (EncodeTo e [])) (mjoin groups) ->
  Forall (default_edit o) (mjoin groups) -> Forall keeps_files (mjoin groups) ->
  legal_history (co_icmp o) (co_is_nvmcf o) (Z.of_nat (co_num_levels o)) no_files (mjoin groups) ->
  exists s D k, write_manifest faults (mjoin groups) = Some (s, D) /\ (k <= length groups)%nat /\
    (length (manifest_of (mjoin (take k groups))) <= length (take n D))%nat /\
    ((k < length groups)%nat -> (length (take n D) < length (manifest_of (mjoin (take (S k) groups))))%nat) /\
    let edits := mjoin (take k groups) in
    (exists v, built (co_icmp o) (empty_version o) edits v) /\
    forall v, built (co_icmp o) (empty_version o) edits v -> recovers_to opts (mkSeqFile (take n D) 0 []) edits v.
Proof.
  intros Hopts Laws Hg Hwf Henc Hd Hk Hh.
  destruct (recover_written_manifest opts (noted o [] (mkStore ∅ 0, Rep_make (empty_version o))) faults groups n Hg Hwf Henc)
    as (s & D & k & Hw & Hloop & Hkl & Hin & Hout).
  exists s, D, k. split_and!; [done..|]. intros edits. destruct (mjoin_take groups k) as (j & Hj & _). fold edits in Hj.
  assert (Hh' : legal_history (co_icmp o) (co_is_nvmcf o) (Z.of_nat (co_num_levels o)) no_files edits)
    by (rewrite Hj; by apply legal_history_take).
  assert (Hw0 : within (Z.of_nat (co_num_levels o)) no_files) by done. split.
  { destruct (built_files _ _ _ _ _ edits (empty_has_files o) Hw0 Hh' (mkStore ∅ 0)) as (v & Hb & _); [|by exists v].
    rewrite version_refs_empty. apply counts_empty. }
  intros v Hb. pose proof (built_inv _ _ _ _ _ _ Hb _ (empty_has_files o) Hw0 Hh') as [_ _ Hfiles _].
  apply (recover_to opts o); [done|done| | |done|exact Hloop|done]; rewrite Hj; by apply Forall_take.
Qed.

(** ** A small instance *)

(** The test of a history; levels outside of the range stay empty. *)
Definition legal_changeb (icmp : Comparator) (nvm : bool) (levels : Z) (cur : Z -> list FileMetaData) (e : VersionEdit) : bool :=
  let in_range := fun l => (0 <=? l) && (l <? levels) in
  bool_decide (NoDup (ve_deleted_files e)) &&
  forallb (fun d => in_range d.1 && bool_decide (d.2 ∈ numbers (cur d.1))) (ve_deleted_files e) &&
  forallb (fun x => in_range x.1 && if f_is_nvm_level0 x.2 then nvm else bool_decide (file_number x.2 ∉ numbers (cur x.1)))
    (ve_new_files e) &&
  forallb (fun l => bool_decide (NoDup (numbers (edit_level e l (cur l)))) &&
                    check_level icmp nvm l (sort_files icmp l (edit_level e l (cur l)))) (upto levels).

Fixpoint legal_historyb (icmp : Comparator) (nvm : bool) (levels : Z) (cur : Z -> list FileMetaData) (edits : list VersionEdit) : bool :=
  match edits with
  | [] => true
  | e :: edits => legal_changeb icmp nvm levels cur e && legal_historyb icmp nvm levels (edit_levels cur e) edits
  end.

Lemma legal_changeb_sound icmp nvm levels cur e :
  within levels cur -> legal_changeb icmp nvm levels cur e = true -> legal_change icmp nvm levels cur e.
Proof.
  intros Hw. unfold legal_changeb. rewrite !andb_true_iff, !forallb_forall, bool_decide_eq_true. intros [[[H1 H2] H3] H4].
  assert (Hlev : forall l f, (l, f) ∈ ve_new_files e -> 0 <= l < levels).
  { intros l f Hf%list_elem_of_In. apply H3 in Hf. simpl in Hf. lia. }
  assert (Hlv : forall l, 0 <= l < levels -> NoDup (numbers (edit_level e l (cur l))) /\
    check_level icmp nvm l (sort_files icmp l (edit_level e l (cur l))) = true).
  { intros l Hl. apply elem_of_upto, list_elem_of_In, H4 in Hl. by rewrite andb_true_iff, bool_decide_eq_true in Hl. }
  constructor; [done|..].
  - intros l k Hk%list_elem_of_In. apply H2 in Hk. rewrite !andb_true_iff, bool_decide_eq_true in Hk. simpl in Hk.
    destruct Hk as [? ?]. split; [lia|done].
  - exact Hlev.
  - intros l f Hf%list_elem_of_In. apply H3 in Hf. rewrite andb_true_iff in Hf. destruct Hf as [_ Hf]. simpl in Hf.
    destruct (f_is_nvm_level0 f); [done|]. by rewrite bool_decide_eq_true in Hf.
  - intros l. destruct (decide (0 <= l < levels)) as [Hl|Hl]; [by apply Hlv|]. unfold edit_level, new_in. rewrite (Hw l Hl).
    destruct (filter (fun x => x.1 = l) (ve_new_files e)) as [|[l' f] fs] eqn:E; [constructor|].
    assert (Hin : (l', f) ∈ filter (fun x => x.1 = l) (ve_new_files e)) by (rewrite E; left).
    apply list_elem_of_filter in Hin as [Hl' Hin]. simpl in Hl'. subst l'. by apply Hlev in Hin.
  - intros l Hl. by apply Hlv.
Qed.

Lemma legal_historyb_sound icmp nvm levels cur edits :
  within levels cur -> legal_historyb icmp nvm levels cur edits = true -> legal_history icmp nvm levels cur edits.
Proof.
  revert cur. induction edits as [|e edits IH]; intros cur Hw; cbn [legal_historyb legal_history]; [done|].
  rewrite andb_true_iff. intros [H1 H2]. apply legal_changeb_sound in H1; [|done]. split; [done|].
  apply IH; [by eapply within_edit|done].
Qed.

Definition sample_options : CfOptions := mkCfOptions (InternalKeyComparator BytewiseComparator) [Byte.x63] 2 true.

(** A flush to NVM level 0, and a column compaction that moves its first keys to level 1, in a group. *)
Definition sample_history : list (list VersionEdit) :=
  let k1 := InternalKey_make [Byte.x61] 3 kTypeValue in
  let k2 := InternalKey_make [Byte.x62] 4 kTypeValue in
  let nvm_table := fun first e => AddFile 0 5 0 100 k1 k2 3 7 false true first 0 4 0 0 0 e in
  [[SetComparatorName [Byte.x63] (SetLogNumber 3 (SetNextFile 10 (SetLastSequence 7 (nvm_table 0 VersionEdit_Clear))))];
   [MarkAtomicGroup 1 (DeleteFile 0 5 (nvm_table 2 (AddFile 1 6 0 90 k1 k1 3 3 false false 0 (-1) 0 0 0 0 VersionEdit_Clear)));
    MarkAtomicGroup 0 (SetLastSequence 9 VersionEdit_Clear)]].

(** Uncut, the manifest is recovered to the version after both groups; the largest sequence number is the one of the second. *)
Lemma manifest_restores_version_witness :
  exists D v v' rd, write_manifest [] (mjoin sample_history) = Some (true, D) /\
    built (co_icmp sample_options) (empty_version sample_options) (mjoin sample_history) v /\
    Recover [(kDefaultColumnFamilyName, sample_options)] false (mkSeqFile (take 500 D) 0 []) = Some (inr rd) /\
    rd_versions rd = [(0, v')] /\ level_metas v' 1 = level_metas v 1 /\ rd_last_sequence rd = 9.
Proof.
  destruct (manifest_restores_version [(kDefaultColumnFamilyName, sample_options)] sample_options [] sample_history 500)
    as (s & D & k & H1 & H2 & _ & H3 & (v & Hv) & H4).
  - reflexivity.
  - apply _.
  - constructor; [left; by eexists|]. constructor; [|constructor]. right. split_and!; [done|done|].
    intros [|[|i]] e [= <-]; done.
  - repeat (apply Forall_cons; split); try apply Forall_nil_2; constructor; cbn;
      repeat first [apply SSorted_cons | apply SSorted_nil | apply Forall_cons_2 | apply Forall_nil_2];
      try (by vm_compute); try (split; [by vm_compute|]; try constructor; by vm_compute).
  - repeat (apply Forall_cons; split); try apply Forall_nil_2; vm_compute; by eexists.
  - repeat (apply Forall_cons; split); try apply Forall_nil_2; by vm_compute.
  - repeat (apply Forall_cons; split); try apply Forall_nil_2; unfold keeps_files; cbn;
      repeat (apply Forall_cons; split); try apply Forall_nil_2; by vm_compute.
  - apply legal_historyb_sound; [done|]. vm_compute. reflexivity.
  - assert (k = 2%nat /\ s = true) as [-> ->].
    { clear - H1 H2 H3. vm_compute in H1. injection H1 as <- <-. split; [|done]. destruct k as [|[|[|k]]]; [..|done|simpl in H2; lia];
        specialize (H3 ltac:(simpl; lia)); vm_compute in H3; lia. }
    destruct (H4 v Hv false) as (rd & v' & Hr & Hrv & Hl & _ & _ & Hs & _). exists D, v, v', rd.
    split_and!; [exact H1|exact Hv|exact Hr|exact Hrv|apply Hl|exact Hs].
Defined.
