(* ===== verification/Snapshot.v ===== *)
(** * New manifests (VersionSet::WriteSnapshot and ProcessManifestWrites of db/version_set.cc)

    A new manifest starts with the files of the current version.  Recovery of it gives the
    version the database had when it was written, with the edits that came later. *)

From S2P Require Import Prelude Coding Comparator DbFormat VersionEdit SstableMeta VersionBuilder Crc32c LogWriter LogReader LogRoundtrip Manifest Recovery.

(** ** The edits of a snapshot *)

(** The file [AddFile] makes of the fields of a file. *)
Definition as_added (f : FileMetaData) : FileMetaData :=
  new_file (FileDescriptor_make (GetNumber (f_fd f)) (GetPathId (f_fd f)) (GetFileSize (f_fd f)) (smallest_seqno (f_fd f)) (largest_seqno (f_fd f)))
    (f_smallest f) (f_largest f) (f_marked_for_compaction f) (f_is_nvm_level0 f) (f_first_key_index f) (f_nvm_sstable_index f)
    (f_keys_num f) (f_key_point_filenum f) (f_raw_file_size f) (f_nvm_meta_size f).

Definition level_adds (l : Z) (files : list FileMetaData) : list (Z * FileMetaData) := (fun f => (l, as_added f)) <$> files.

Definition add_all (nw : list (Z * FileMetaData)) '(mkEdit l c lg pl nf ls mc ml df nw0 cf ca cd ag) : VersionEdit :=
  mkEdit l c lg pl nf ls mc ml df (nw0 ++ nw) cf ca cd ag.

Lemma snapshot_add_all l files e : foldl (snapshot_add l) e files = add_all (level_adds l files) e.
Proof.
  revert e. induction files as [|f files IH]; intros []; cbn [foldl]; [cbn; by rewrite app_nil_r|].
  rewrite IH. cbn. by rewrite <- app_assoc.
Qed.

Definition snapshot_adds (files : list (list FileMetaData)) : list (Z * FileMetaData) :=
  upto (len files) ≫= (fun l => level_adds l (default [] (files !z l))).

Lemma snapshot_files_spec c :
  snapshot_files c = Some (SetLogNumber (sn_log_number c) (add_all (snapshot_adds (sn_files c)) (SetColumnFamily (sn_id c) VersionEdit_Clear))).
Proof.
  unfold snapshot_files, snapshot_adds. generalize (SetColumnFamily (sn_id c) VersionEdit_Clear) as e.
  assert (Hin : Forall (fun l => 0 <= l < len (sn_files c)) (upto (len (sn_files c)))) by (apply Forall_forall; intros l; by rewrite elem_of_upto).
  intros e. revert e. induction Hin as [|l ls Hl Hls IH]; intros e; [destruct e; cbn; by rewrite app_nil_r|].
  cbn [fold_opt]. destruct (zget_is_Some (sn_files c) l Hl) as [fs E]. rewrite E. cbn [mbind option_bind].
  rewrite snapshot_add_all. etransitivity; [apply IH|]. destruct e. cbn. rewrite E. cbn. by rewrite <- app_assoc.
Qed.

Lemma write_edits_app w es1 es2 :
  write_edits w (es1 ++ es2) = '(s, w) ← write_edits w es1; if s : bool then write_edits w es2 else Some (false, w).
Proof.
  revert w. induction es1 as [|e es1 IH]; intros w; [done|]. cbn [app write_edits]. destruct (EncodeTo e []) as [r|]; [|done].
  destruct (AddRecord w r) as [[[] w1]|]; cbn; [apply IH|done|done].
Qed.

(** The two records of a column family. *)
Definition snapshot_edits (c : CfSnapshot) : list VersionEdit :=
  if sn_dropped c then [] else
  [snapshot_info c; SetLogNumber (sn_log_number c) (add_all (snapshot_adds (sn_files c)) (SetColumnFamily (sn_id c) VersionEdit_Clear))].

Lemma snapshot_cf_edits w c : snapshot_cf (true, w) c = write_edits w (snapshot_edits c).
Proof.
  unfold snapshot_cf, snapshot_edits. cbn [negb orb]. destruct (sn_dropped c); [done|]. rewrite snapshot_files_spec.
  set (x := SetLogNumber _ _). change [snapshot_info c; x] with ([snapshot_info c] ++ [x]). rewrite write_edits_app.
  by destruct (write_edits w [snapshot_info c]) as [[[] w1]|].
Qed.

Lemma WriteSnapshot_edits cfs w : WriteSnapshot w cfs = write_edits w (cfs ≫= snapshot_edits).
Proof.
  unfold WriteSnapshot. revert w. induction cfs as [|c cfs IH]; intros w; [done|].
  change ((c :: cfs) ≫= snapshot_edits) with (snapshot_edits c ++ (cfs ≫= snapshot_edits)). rewrite write_edits_app.
  assert (Hstop : forall w', fold_opt snapshot_cf (false, w') cfs = Some (false, w')) by (intros w'; clear; by induction cfs).
  cbn [fold_opt]. rewrite snapshot_cf_edits. destruct (write_edits w (snapshot_edits c)) as [[[] w2]|]; cbn [mbind option_bind]; [apply IH|apply Hstop|done].
Qed.

Lemma write_descriptor_edits w cfs edits : write_descriptor w cfs edits = write_edits w ((cfs ≫= snapshot_edits) ++ edits).
Proof. unfold write_descriptor. by rewrite WriteSnapshot_edits, write_edits_app. Qed.

(** ** Recovery of a new manifest *)

Lemma foldl_edit_ext (edits : list VersionEdit) : forall cur cur',
  (forall l, cur l = cur' l) -> forall l, foldl edit_levels cur edits l = foldl edit_levels cur' edits l.
Proof.
  induction edits as [|e edits IH]; intros cur cur' H; [done|]. cbn [foldl]. apply IH. intros l. unfold edit_levels. by rewrite H.
Qed.

Lemma legal_history_ext icmp nvm levels (edits : list VersionEdit) : forall cur cur',
  (forall l, cur l = cur' l) -> legal_history icmp nvm levels cur edits -> legal_history icmp nvm levels cur' edits.
Proof.
  induction edits as [|e edits IH]; intros cur cur' H; [done|]. cbn [legal_history]. intros [[H1 H2 H3 H4 H5 H6] Hl]. split.
  - constructor; [done|intros l k Hk; rewrite <- H; by apply H2|done|intros l f Hf; rewrite <- H; by apply H4|intros l; rewrite <- H; apply H5|].
    intros l. rewrite <- H. apply H6.
  - eapply IH; [|exact Hl]. intros l. unfold edit_levels. by rewrite H.
Qed.

(** The files of a version in its snapshot. *)
Definition version_files (v : VStorage) : list (list FileMetaData) := (fun fs : list FileRef => fr_meta <$> fs) <$> vst_files v.

Lemma version_files_level v l : default [] (version_files v !z l) = level_metas v l.
Proof. unfold version_files, level_metas. rewrite zget_fmap. by destruct (vst_files v !z l). Qed.

Lemma new_in_app N1 N2 l : new_in (N1 ++ N2) l = new_in N1 l ++ new_in N2 l.
Proof. unfold new_in. by rewrite filter_app, fmap_app. Qed.

Lemma new_in_level l l' files : new_in (level_adds l files) l' = if decide (l = l') then as_added <$> files else [].
Proof.
  induction files as [|f files IH]; [by case_decide|]. change (level_adds l (f :: files)) with ([(l, as_added f)] ++ level_adds l files).
  rewrite new_in_app, IH. unfold new_in. rewrite filter_cons. cbn [fst]. by case_decide.
Qed.

Lemma new_in_levels (F : Z -> list FileMetaData) ls l :
  NoDup ls -> new_in (ls ≫= (fun l => level_adds l (F l))) l = if decide (l ∈ ls) then as_added <$> F l else [].
Proof.
  induction 1 as [|l1 ls Hl1 Hls IH]; [done|].
  change ((l1 :: ls) ≫= _) with (level_adds l1 (F l1) ++ (ls ≫= (fun l => level_adds l (F l)))).
  rewrite new_in_app, new_in_level, IH. destruct (decide (l1 = l)) as [->|Hne].
  - rewrite (decide_False (P := l ∈ ls)) by done. rewrite decide_True by left. by rewrite app_nil_r.
  - destruct (decide (l ∈ ls)); [by rewrite decide_True by (by right)|]. by rewrite decide_False by (intros [?|?]%elem_of_cons; congruence).
Qed.

Section Snapshot.
Context (o : CfOptions) {Laws : ComparatorLaws (co_icmp o)} (v0 : VStorage) (cur0 : Z -> list FileMetaData).
Notation levels := (Z.of_nat (co_num_levels o)).
Hypothesis (Hv0 : has_files (co_icmp o) (co_is_nvmcf o) levels v0 cur0).
Hypothesis (Hnvm : forall l f, f ∈ level_metas v0 l -> f_is_nvm_level0 f = true -> co_is_nvmcf o = true).
Hypothesis (Hplain : forall l f, f ∈ level_metas v0 l -> as_added f = f /\ saved_file f = f).

(** What a snapshot of the default column family writes of [v0]. *)
Definition snapshot_of (log_number : Z) : CfSnapshot := mkCfSnapshot false 0 kDefaultColumnFamilyName (co_comparator o) (version_files v0) log_number.

Lemma snapshot_adds_level l : new_in (snapshot_adds (version_files v0)) l = level_metas v0 l.
Proof using Hplain.
  unfold snapshot_adds. rewrite (new_in_levels (fun l => default [] (version_files v0 !z l))) by apply NoDup_upto.
  rewrite version_files_level. case_decide as Hl.
  - rewrite <- (list_fmap_id (level_metas v0 l)) at 2. apply list_fmap_ext. intros i f Hf. apply list_elem_of_lookup_2 in Hf.
    by destruct (Hplain l f Hf).
  - rewrite elem_of_upto in Hl. rewrite level_metas_out; [done|]. unfold version_files, zlen in Hl. by rewrite length_fmap in Hl.
Qed.

Lemma snapshot_adds_in l f : (l, f) ∈ snapshot_adds (version_files v0) -> f ∈ level_metas v0 l.
Proof using Hplain.
  intros H. rewrite <- snapshot_adds_level. unfold new_in. apply list_elem_of_fmap. exists (l, f). split; [done|].
  by apply list_elem_of_filter.
Qed.

Lemma level_metas_bounds l f : f ∈ level_metas v0 l -> 0 <= l < levels.
Proof using Hv0.
  intros Hf. destruct (decide (0 <= l < levels)); [done|]. rewrite level_metas_out in Hf by (by rewrite (hf_len _ _ _ _ _ Hv0)).
  by apply elem_of_nil in Hf.
Qed.

Lemma sort_level l : sort_files (co_icmp o) l (level_metas v0 l) = level_metas v0 l.
Proof using Hv0 Laws.
  symmetry. apply sort_files_unique; [done| |done|]; destruct (hf_ok _ _ _ _ _ Hv0) as [_ Hn Hs]; [apply Hs|apply Hn].
Qed.

(** The snapshot is a legal history that gives the files of [v0]. *)
Lemma snapshot_legal log_number :
  legal_history (co_icmp o) (co_is_nvmcf o) levels no_files (snapshot_edits (snapshot_of log_number)) /\
  forall l, foldl edit_levels no_files (snapshot_edits (snapshot_of log_number)) l = level_metas v0 l.
Proof using Hnvm Hplain Hv0 Laws.
  set (files := SetLogNumber log_number (add_all (snapshot_adds (version_files v0)) (SetColumnFamily 0 VersionEdit_Clear))).
  change (snapshot_edits (snapshot_of log_number)) with [SetComparatorName (co_comparator o) VersionEdit_Clear; files].
  assert (H0 : forall l, edit_levels no_files (SetComparatorName (co_comparator o) VersionEdit_Clear) l = no_files l) by done.
  assert (H1 : forall l, edit_level files l (no_files l) = level_metas v0 l).
  { intros l. unfold edit_level. cbn. apply snapshot_adds_level. }
  split; [|intros l; apply H1]. destruct (hf_ok _ _ _ _ _ Hv0) as [Hcheck Hnum _]. cbn [legal_history]. split; [|split; [|done]].
  - constructor; [apply NoDup_nil_2|by intros l k ?%elem_of_nil|by intros l f ?%elem_of_nil|by intros l f ?%elem_of_nil|intros l; apply NoDup_nil_2|].
    intros l _. apply check_level_nil.
  - constructor.
    + apply NoDup_nil_2.
    + by intros l k ?%elem_of_nil.
    + intros l f Hf%snapshot_adds_in. by apply level_metas_bounds in Hf.
    + intros l f Hf%snapshot_adds_in. destruct (f_is_nvm_level0 f) eqn:E; [by eapply Hnvm|]. by intros ?%elem_of_nil.
    + intros l. rewrite H0, H1. apply Hnum.
    + intros l Hl. rewrite H0, H1, sort_level. rewrite <- (hf_nvm _ _ _ _ _ Hv0). apply Hcheck. by rewrite (hf_len _ _ _ _ _ Hv0).
Qed.
End Snapshot.

(** A new manifest on a file whose calls may fail. *)
Definition write_new_manifest (faults : list (option nat)) (cfs : list CfSnapshot) (edits : list VersionEdit) : option (bool * bytes) :=
  w ← Writer_make (mkLogFile [] faults) 0 false false;
  '(s, w) ← write_descriptor w cfs edits;
  Some (s, lf_data (dest_ w)).

Lemma write_new_manifest_edits faults cfs edits : write_new_manifest faults cfs edits = write_manifest faults ((cfs ≫= snapshot_edits) ++ edits).
Proof.
  unfold write_new_manifest, write_manifest. destruct (Writer_make _ _ _ _) as [w|]; [|done]. cbn [mbind option_bind].
  by rewrite write_descriptor_edits.
Qed.

Lemma manifest_of_mono es1 es2 :
  Forall (fun e => is_Some (EncodeTo e [])) (es1 ++ es2) -> (length (manifest_of es1) <= length (manifest_of (es1 ++ es2)))%nat.
Proof.
  intros H. destruct (encodable _ H) as [rs Hrs]. rewrite (manifest_of_records _ _ Hrs).
  apply Forall2_app_inv_l in Hrs as (r1 & r2 & H1 & H2 & ->). rewrite (manifest_of_records _ _ H1).
  pose proof (log_of_mono 0 (r1 ++ r2) (length r1) (length (r1 ++ r2)) ltac:(rewrite length_app; lia)) as Hm.
  by rewrite take_app_length, (take_ge (r1 ++ r2)) in Hm by lia.
Qed.

(** The snapshot is whole in what is left, so that two records of it are among the groups read. *)
Lemma snapshot_read e1 e2 (groups : list (list VersionEdit)) k L :
  Forall (fun e => is_Some (EncodeTo e [])) [e1; e2] ->
  ((k < length ([e1] :: [e2] :: groups))%nat -> (L < length (manifest_of (mjoin (take (S k) ([e1] :: [e2] :: groups)))))%nat) ->
  (length (manifest_of [e1; e2]) <= L)%nat -> (2 <= k)%nat.
Proof.
  intros Henc Hout HL. pose proof (manifest_of_mono [e1] [e2] Henc) as Hm. cbn [app] in Hm. destruct k as [|[|k]]; [| |lia].
  - specialize (Hout ltac:(simpl; lia)). change (mjoin (take 1 _)) with [e1] in Hout. lia.
  - specialize (Hout ltac:(simpl; lia)). change (mjoin (take 2 _)) with [e1; e2] in Hout. lia.
Qed.

Lemma as_added_keeps v0 : (forall l f, f ∈ level_metas v0 l -> as_added f = f /\ saved_file f = f) ->
  Forall (fun lf : Z * FileMetaData => saved_file lf.2 = lf.2) (snapshot_adds (version_files v0)).
Proof. intros H. apply Forall_forall. intros [l f] Hf. apply (snapshot_adds_in v0 H) in Hf. by destruct (H l f Hf). Qed.

Lemma snapshot_default o v0 log : u64 log -> Forall (default_edit o) (snapshot_edits (snapshot_of o v0 log)).
Proof. intros H. repeat (apply Forall_cons; split); [..|apply Forall_nil_2]; by split_and!. Qed.

Lemma snapshot_keeps o v0 log : (forall l f, f ∈ level_metas v0 l -> as_added f = f /\ saved_file f = f) ->
  Forall keeps_files (snapshot_edits (snapshot_of o v0 log)).
Proof. intros H. repeat (apply Forall_cons; split); [..|apply Forall_nil_2]; [apply Forall_nil_2|]. by apply as_added_keeps. Qed.

(** The files of the version after the edits. *)
Lemma snapshot_built o v0 cur0 edits v :
  has_files (co_icmp o) (co_is_nvmcf o) (Z.of_nat (co_num_levels o)) v0 cur0 -> ComparatorLaws (co_icmp o) ->
  legal_history (co_icmp o) (co_is_nvmcf o) (Z.of_nat (co_num_levels o)) (level_metas v0) edits -> built (co_icmp o) v0 edits v ->
  forall l, level_metas v l = sort_files (co_icmp o) l (foldl edit_levels (level_metas v0) edits l).
Proof.
  intros Hv0 Laws Hh Hb. apply (hf_files (co_icmp o) (co_is_nvmcf o) (Z.of_nat (co_num_levels o))). apply (built_inv _ _ _ _ _ _ Hb); [| |exact Hh].
  - pose proof (sort_level o v0 cur0 Hv0) as Hsort. destruct Hv0 as [H1 H2 H3 H4]. by constructor.
  - intros l Hl. apply level_metas_out. by rewrite (hf_len _ _ _ _ _ Hv0).
Qed.

(** C12. A new manifest restores the version it was started from.  Start a manifest with the snapshot of a version of the
    default column family and append groups of edits of that family, with any of the file's calls failing, and cut it
    anywhere after the snapshot: [Recover] gives, level by level and in the same order, the files of the version that results
    when each edit of the groups that are whole is applied to that version, and the last file number and sequence they give.
    A snapshot has no file number and no sequence number: [Recover] refuses the manifest when no whole group after it gives
    them. *)
Theorem snapshot_restores_version opts o v0 cur0 log_number faults groups n :
  find_options opts kDefaultColumnFamilyName = Some o -> ComparatorLaws (co_icmp o) -> u64 log_number ->
  has_files (co_icmp o) (co_is_nvmcf o) (Z.of_nat (co_num_levels o)) v0 cur0 ->
  (forall l f, f ∈ level_metas v0 l -> f_is_nvm_level0 f = true -> co_is_nvmcf o = true) ->
  (forall l f, f ∈ level_metas v0 l -> as_added f = f /\ saved_file f = f) ->
  let c := snapshot_of o v0 log_number in
  Forall group_ok groups -> Forall edit_wf (snapshot_edits c ++ mjoin groups) ->
  Forall (fun e => is_Some (EncodeTo e [])) (snapshot_edits c ++ mjoin groups) ->
  Forall (default_edit o) (mjoin groups) -> Forall keeps_files (mjoin groups) ->
  legal_history (co_icmp o) (co_is_nvmcf o) (Z.of_nat (co_num_levels o)) (level_metas v0) (mjoin groups) ->
  exists s D, write_new_manifest faults [c] (mjoin groups) = Some (s, D) /\
    ((length (manifest_of (snapshot_edits c)) <= length (take n D))%nat -> exists k, (k <= length groups)%nat /\
      (length (manifest_of (snapshot_edits c ++ mjoin (take k groups))) <= length (take n D))%nat /\
      ((k < length groups)%nat -> (length (take n D) < length (manifest_of (snapshot_edits c ++ mjoin (take (S k) groups))))%nat) /\
      let edits := mjoin (take k groups) in
      forall v, built (co_icmp o) v0 edits v -> recovers_to opts (mkSeqFile (take n D) 0 []) (snapshot_edits c ++ edits) v).
Proof.
  intros Hopts Laws Hlog Hv0 Hnvm Hplain c Hg Hwf Henc Hd Hk Hh.
  destruct (snapshot_legal o v0 cur0 Hv0 Hnvm Hplain log_number) as [Hsl Hsf]. fold c in Hsl, Hsf.
  rewrite write_new_manifest_edits. change ([c] ≫= snapshot_edits) with (snapshot_edits c ++ []). rewrite app_nil_r.
  destruct (snapshot_edits c) as [|e1 [|e2 [|]]] eqn:Ec; try done.
  destruct (recover_written_manifest opts (noted o [] (mkStore ∅ 0, Rep_make (empty_version o))) faults ([e1] :: [e2] :: groups) n)
    as (s & D & k & Hw & Hloop & Hkl & Hin & Hout); [|done|done|].
  { injection Ec as <- <-. constructor; [left; by eexists|]. constructor; [left; by eexists|done]. }
  exists s, D. split; [done|]. intros HL.
  assert (Henc2 : Forall (fun e => is_Some (EncodeTo e [])) [e1; e2]) by (by apply Forall_app in Henc as [? _]).
  pose proof (snapshot_read e1 e2 groups k _ Henc2 Hout HL) as Hk2. destruct k as [|[|k]]; [lia|lia|].
  exists k. split; [simpl in Hkl; lia|]. split; [exact Hin|]. split; [intros Hlt; apply Hout; simpl; lia|]. intros edits v Hb.
  destruct (mjoin_take groups k) as (j & Hj & _). fold edits in Hj.
  change (mjoin (take (S (S k)) ([e1] :: [e2] :: groups))) with ([e1; e2] ++ edits) in Hloop.
  pose proof (snapshot_default o v0 log_number Hlog) as Hsd. pose proof (snapshot_keeps o v0 log_number Hplain) as Hsk. fold c in Hsd, Hsk. rewrite Ec in Hsd, Hsk.
  assert (Hh' : legal_history (co_icmp o) (co_is_nvmcf o) (Z.of_nat (co_num_levels o)) (level_metas v0) edits) by (rewrite Hj; by apply legal_history_take).
  apply (recover_to opts o); [done|done| | | |exact Hloop|].
  1-2: apply Forall_app; split; [done|rewrite Hj; by apply Forall_take].
  - apply legal_history_app. split; [done|]. eapply legal_history_ext; [|exact Hh']. intros l. by rewrite Hsf.
  - intros l. rewrite (snapshot_built o v0 cur0 edits v Hv0 Laws Hh' Hb l). f_equal. unfold files_after. rewrite foldl_app.
    apply foldl_edit_ext. intros l'. by rewrite Hsf.
Qed.

(** ** A small instance *)

Definition sample_table (first : Z) : FileMetaData :=
  new_file (FileDescriptor_make 5 0 100 3 7) (InternalKey_make [Byte.x61] 3 kTypeValue) (InternalKey_make [Byte.x62] 4 kTypeValue) false true first 0 4 0 0 0.

Definition sample_version : VStorage := mkVSt [[mkRef 0 (sample_table 0)]; []] true.

(** A column compaction takes the first keys of the table. *)
Definition sample_changes : list (list VersionEdit) :=
  [[SetNextFile 10 (SetLastSequence 9 (AddFileMeta 0 (sample_table 2) (DeleteFile 0 5 VersionEdit_Clear)))]].

Lemma sample_level l : level_metas sample_version l = if decide (l = 0) then [sample_table 0] else [].
Proof.
  case_decide as Hl; [by subst|]. destruct (decide (0 <= l < 2)) as [Hr|Hr]; [by assert (l = 1) as -> by lia|]. by apply level_metas_out.
Qed.

Lemma sample_version_files :
  has_files (InternalKeyComparator BytewiseComparator) true 2 sample_version (level_metas sample_version).
Proof.
  constructor; [done|done|intros l; rewrite sample_level; by case_decide|]. constructor.
  - intros l Hl. rewrite sample_level. case_decide; [by subst|]. unfold check_level. by destruct (_ && _).
  - intros l. rewrite sample_level. case_decide; [by apply (bool_decide_unpack _)|apply NoDup_nil_2].
  - intros l. rewrite sample_level. case_decide; repeat constructor.
Qed.

Lemma sample_snapshot : snapshot_edits (snapshot_of sample_options sample_version 3) =
  [SetComparatorName [Byte.x63] VersionEdit_Clear; SetLogNumber 3 (AddFileMeta 0 (sample_table 0) VersionEdit_Clear)].
Proof. vm_compute. reflexivity. Qed.

Lemma sample_counts : counts (mkStore {[0%nat := 1]} 1) (version_refs sample_version).
Proof.
  change (version_refs sample_version) with [mkRef 0 (sample_table 0)]. constructor.
  - intros id. cbn [st_refs]. destruct (decide (id = 0%nat)) as [->|Hne]; [done|]. rewrite lookup_singleton_ne by done.
    unfold occurrences. rewrite filter_cons. cbn [fr_id]. by rewrite decide_False by done.
  - intros f ->%list_elem_of_singleton. cbn. lia.
  - intros f g ->%list_elem_of_singleton ->%list_elem_of_singleton _. done.
Qed.

(** Uncut, the manifest is recovered to the version after the compaction. *)
Lemma snapshot_restores_version_witness :
  exists D v v' rd, write_new_manifest [] [snapshot_of sample_options sample_version 3] (mjoin sample_changes) = Some (true, D) /\
    built (co_icmp sample_options) sample_version (mjoin sample_changes) v /\
    Recover [(kDefaultColumnFamilyName, sample_options)] false (mkSeqFile (take 500 D) 0 []) = Some (inr rd) /\
    rd_versions rd = [(0, v')] /\ level_metas v' 0 = level_metas v 0 /\ rd_last_sequence rd = 9.
Proof.
  assert (Hh : legal_history (co_icmp sample_options) true 2 (level_metas sample_version) (mjoin sample_changes)).
  { apply legal_historyb_sound; [by intros l Hl; apply level_metas_out|]. vm_compute. reflexivity. }
  assert (exists v, built (co_icmp sample_options) sample_version (mjoin sample_changes) v) as [v Hv].
  { destruct (built_files _ _ _ _ _ (mjoin sample_changes) sample_version_files ltac:(by intros l Hl; apply level_metas_out) Hh
      (mkStore {[0%nat := 1]} 1)) as (v & Hv & _); [|by exists v]. apply sample_counts. }
  destruct (snapshot_restores_version [(kDefaultColumnFamilyName, sample_options)] sample_options sample_version
    (level_metas sample_version) 3 [] sample_changes 500) as (s & D & H1 & H2).
  - reflexivity.
  - apply _.
  - done.
  - apply sample_version_files.
  - done.
  - intros l f. rewrite sample_level. case_decide; [|by intros ?%elem_of_nil]. intros ->%list_elem_of_singleton. by vm_compute.
  - constructor; [left; by eexists|constructor].
  - rewrite sample_snapshot. repeat (apply Forall_cons; split); try apply Forall_nil_2; constructor; cbn;
      repeat first [apply SSorted_cons | apply SSorted_nil | apply Forall_cons_2 | apply Forall_nil_2];
      try (by vm_compute); try (split; [by vm_compute|]; try constructor; by vm_compute).
  - rewrite sample_snapshot. repeat (apply Forall_cons; split); try apply Forall_nil_2; vm_compute; by eexists.
  - repeat (apply Forall_cons; split); try apply Forall_nil_2; by vm_compute.
  - repeat (apply Forall_cons; split); try apply Forall_nil_2; unfold keeps_files; cbn;
      repeat (apply Forall_cons; split); try apply Forall_nil_2; by vm_compute.
  - exact Hh.
  - assert (s = true /\ (length (manifest_of (snapshot_edits (snapshot_of sample_options sample_version 3))) <= length (take 500 D))%nat) as [-> Hlen].
    { clear - H1. vm_compute in H1. injection H1 as <- <-. split; [done|]. vm_compute. lia. }
    destruct (H2 Hlen) as (k & Hk & _ & Hout & H3). assert (k = 1%nat) as ->.
    { clear - H1 Hk Hout. vm_compute in H1. injection H1 as <-. destruct k as [|[|k]]; [|done|simpl in Hk; lia].
      specialize (Hout ltac:(simpl; lia)). vm_compute in Hout. lia. }
    destruct (H3 v Hv false) as (rd & v' & Hr & Hrv & Hl & _ & _ & Hs & _). exists D, v, v', rd.
    split_and!; [exact H1|exact Hv|exact Hr|exact Hrv|apply Hl|exact Hs].
Defined.
