(* ===== verification/VersionSet.v ===== *)
(** * Versions, references and obsolete files (db/version_set.cc, db/db_impl_files.cc)

    The versions of a column family from their installation to their destruction, and
    the tables they list from the last reference to their deletion.  Operations that the
    source performs under the DB mutex are atomic; a version installation releases the
    mutex while the manifest is written, and a purge runs without it, so both are
    several steps. *)

From S2P Require Import Prelude Coding Comparator DbFormat VersionEdit SstableMeta VersionBuilder.

(** ** State *)

(** A [Version] in the linked list of its column family. *)
Record Ver := mkVer { v_id : nat; v_refs : Z; v_storage : VStorage }.

(** The new version of [ProcessManifestWrites] while the manifest is written, with its
    builder and the base version the builder refers to. *)
Record Install := mkInstall { in_base : nat; in_rep : Rep; in_new : VStorage }.

(** A [JobContext]; [todo] are the tables its purge still has to delete. *)
Record JobContext := mkJob {
  sst_live : list Z;
  min_pending_output : Z;
  sst_delete_files : list FileRef;
  todo : list Z;
}.

(** The part of [VersionSet], [ColumnFamilyData] and [DBImpl] that tracks tables;
    [db_deleted] are the tables deleted so far. *)
Record DBState := mkDB {
  db_store : FileStore;
  db_versions : list Ver;
  db_current : nat;
  db_next_version : nat;
  db_install : option Install;
  obsolete_files_ : list FileRef;
  pending_outputs_ : list Z;
  next_file_number_ : Z;
  files_grabbed_for_purge_ : list Z;
  db_jobs : list JobContext;
  db_deleted : list Z;
  disable_delete_obsolete_files_ : Z;
}.

Definition set_versions (st : FileStore) (vs : list Ver) (obs : list FileRef) (db : DBState) : DBState :=
  mkDB st vs (db_current db) (db_next_version db) (db_install db) obs (pending_outputs_ db)
    (next_file_number_ db) (files_grabbed_for_purge_ db) (db_jobs db) (db_deleted db) (disable_delete_obsolete_files_ db).

Definition set_install (st : FileStore) (i : option Install) (db : DBState) : DBState :=
  mkDB st (db_versions db) (db_current db) (db_next_version db) i (obsolete_files_ db) (pending_outputs_ db)
    (next_file_number_ db) (files_grabbed_for_purge_ db) (db_jobs db) (db_deleted db) (disable_delete_obsolete_files_ db).

Definition set_numbers (pending : list Z) (next : Z) (db : DBState) : DBState :=
  mkDB (db_store db) (db_versions db) (db_current db) (db_next_version db) (db_install db) (obsolete_files_ db)
    pending next (files_grabbed_for_purge_ db) (db_jobs db) (db_deleted db) (disable_delete_obsolete_files_ db).

Definition set_jobs (obs : list FileRef) (grabbed : list Z) (jobs : list JobContext) (deleted : list Z)
    (db : DBState) : DBState :=
  mkDB (db_store db) (db_versions db) (db_current db) (db_next_version db) (db_install db) obs
    (pending_outputs_ db) (next_file_number_ db) grabbed jobs deleted (disable_delete_obsolete_files_ db).

Definition set_disabled (disabled : Z) (db : DBState) : DBState :=
  mkDB (db_store db) (db_versions db) (db_current db) (db_next_version db) (db_install db) (obsolete_files_ db)
    (pending_outputs_ db) (next_file_number_ db) (files_grabbed_for_purge_ db) (db_jobs db) (db_deleted db) disabled.

(** ** Versions *)

(** One file of [~Version]: the last reference makes the file obsolete. *)
Definition drop_file (s : FileStore * list FileRef) (f : FileRef) : option (FileStore * list FileRef) :=
  let '(st, obs) := s in
  r ← st_refs st !! fr_id f;
  if negb (0 <? r) then None
  else if r - 1 <=? 0 then Some (mkStore (delete (fr_id f) (st_refs st)) (st_next st), obs ++ [f])
  else Some (set_refs st f (r - 1), obs).

Definition Version_destroy (st : FileStore) (obs : list FileRef) (v : VStorage) : option (FileStore * list FileRef) :=
  fold_opt drop_file (st, obs) (version_refs v).

Definition find_version (id : nat) (vs : list Ver) : option Ver := snd <$> list_find (fun v => v_id v = id) vs.

Definition set_version_refs (id : nat) (r : Z) (vs : list Ver) : list Ver :=
  (fun v => if decide (v_id v = id) then mkVer id r (v_storage v) else v) <$> vs.

Definition Version_Ref (id : nat) (db : DBState) : option DBState :=
  v ← find_version id (db_versions db);
  Some (set_versions (db_store db) (set_version_refs id (v_refs v + 1) (db_versions db)) (obsolete_files_ db) db).

Definition Version_Unref (id : nat) (db : DBState) : option DBState :=
  v ← find_version id (db_versions db);
  if negb (1 <=? v_refs v) then None
  else if v_refs v - 1 =? 0 then
    '(st, obs) ← Version_destroy (db_store db) (obsolete_files_ db) (v_storage v);
    Some (set_versions st (filter (fun w => v_id w <> id) (db_versions db)) obs db)
  else Some (set_versions (db_store db) (set_version_refs id (v_refs v - 1) (db_versions db)) (obsolete_files_ db) db).

(** A new version becomes current, at the end of the list. *)
Definition AppendVersion (new : VStorage) (db : DBState) : option DBState :=
  cur ← find_version (db_current db) (db_versions db);
  if negb (0 <? v_refs cur) then None
  else
    db ← Version_Unref (db_current db) db;
    Some (mkDB (db_store db) (db_versions db ++ [mkVer (db_next_version db) 1 new]) (db_next_version db)
            (S (db_next_version db)) (db_install db) (obsolete_files_ db) (pending_outputs_ db)
            (next_file_number_ db) (files_grabbed_for_purge_ db) (db_jobs db) (db_deleted db) (disable_delete_obsolete_files_ db)).

(** ** Installing edits *)

Section Operations.
Context (icmp : Comparator).

(** [ProcessManifestWrites] up to the release of the mutex. *)
Definition begin_install (edits : list VersionEdit) (db : DBState) : option DBState :=
  match db_install db with
  | Some _ => None
  | None =>
      cur ← find_version (db_current db) (db_versions db);
      db ← Version_Ref (db_current db) db;
      '(st, rep, v) ← apply_and_save icmp (db_store db) (v_storage cur) edits (empty_vstorage (v_storage cur));
      Some (set_install st (Some (mkInstall (db_current db) rep v)) db)
  end.

(** The rest, [ok] when the manifest was written: the new version is installed or
    deleted, then the builder goes and releases its base version. *)
Definition end_install (ok : bool) (db : DBState) : option DBState :=
  i ← db_install db;
  db ← (if ok then AppendVersion (in_new i) db
        else '(st, obs) ← Version_destroy (db_store db) (obsolete_files_ db) (in_new i);
             Some (set_versions st (db_versions db) obs db));
  st ← Rep_destroy (db_store db) (in_rep i);
  Version_Unref (in_base i) (set_install st None db).

(** ** File numbers *)

Definition NewFileNumber (db : DBState) : DBState := set_numbers (pending_outputs_ db) (next_file_number_ db + 1) db.

Definition CaptureCurrentFileNumberInPendingOutputs (db : DBState) : DBState :=
  set_numbers (pending_outputs_ db ++ [next_file_number_ db]) (next_file_number_ db) db.

(** [v] is the position of the element. *)
Definition ReleaseFileNumberFromPendingOutputs (v : nat) (db : DBState) : option DBState :=
  _ ← pending_outputs_ db !! v; Some (set_numbers (delete v (pending_outputs_ db)) (next_file_number_ db) db).

Definition MinObsoleteSstNumberToKeep (db : DBState) : Z :=
  match pending_outputs_ db with p :: _ => p | [] => 2 ^ 64 - 1 end.

(** ** Obsolete files *)

Definition version_numbers (v : VStorage) : list Z := ref_numbers (version_refs v).

(** The numbers of [VersionSet::AddLiveFiles]. *)
Definition AddLiveFiles (db : DBState) : list Z := db_versions db ≫= (fun v => version_numbers (v_storage v)).

(** [VersionSet::GetObsoleteFiles]: the files to delete and the ones to keep. *)
Definition GetObsoleteFiles (min_pending_output : Z) (obs : list FileRef) : list FileRef * list FileRef :=
  (filter (fun f => ref_number f < min_pending_output) obs,
   filter (fun f => ~ ref_number f < min_pending_output) obs).

(** The table files that [PurgeObsoleteFiles] does not keep, each once. *)
Definition files_to_del (live : list Z) (min_pending_output : Z) (files : list FileRef) : list Z :=
  filter (fun n => (n ∉ live) /\ ~ min_pending_output <= n) (remove_dups (ref_numbers files)).

(** [FindObsoleteFiles] with [no_full_scan], or when no scan of the directory is due; nothing happens while deletions are
    disabled, and a job with nothing to delete ends. *)
Definition FindObsoleteFiles (db : DBState) : DBState :=
  if 0 <? disable_delete_obsolete_files_ db then db else
  let min_pending_output := MinObsoleteSstNumberToKeep db in
  let '(files, pending_files) := GetObsoleteFiles min_pending_output (obsolete_files_ db) in
  let live := AddLiveFiles db in
  let jobs := if decide (files = []) then db_jobs db
              else db_jobs db ++ [mkJob live min_pending_output files (files_to_del live min_pending_output files)] in
  set_jobs pending_files (files_grabbed_for_purge_ db ++ ref_numbers files) jobs (db_deleted db) db.

Definition DisableFileDeletions (db : DBState) : DBState := set_disabled (i32 (disable_delete_obsolete_files_ db + 1)) db.

(** [EnableFileDeletions] up to the search it makes when deletions are enabled again. *)
Definition EnableFileDeletions (force : bool) (db : DBState) : DBState :=
  set_disabled (if force then 0 else if 0 <? disable_delete_obsolete_files_ db then disable_delete_obsolete_files_ db - 1
                else disable_delete_obsolete_files_ db) db.

(** The purge of job [j] deletes its next table. *)
Definition purge_next (j : nat) (db : DBState) : option DBState :=
  job ← db_jobs db !! j;
  match todo job with
  | [] => None
  | n :: rest =>
      let job' := mkJob (sst_live job) (min_pending_output job) (sst_delete_files job) rest in
      Some (set_jobs (obsolete_files_ db) (files_grabbed_for_purge_ db) (<[j := job']> (db_jobs db))
              (n :: db_deleted db) db)
  end.

(** The end of a purge: its tables are no longer grabbed. *)
Definition purge_end (j : nat) (db : DBState) : option DBState :=
  job ← db_jobs db !! j;
  match todo job with
  | _ :: _ => None
  | [] =>
      let del := files_to_del (sst_live job) (min_pending_output job) (sst_delete_files job) in
      Some (set_jobs (obsolete_files_ db) (filter (fun n => n ∉ del) (files_grabbed_for_purge_ db))
              (delete j (db_jobs db)) (db_deleted db) db)
  end.

(** [PurgeObsoleteFiles] of job [j] without interruption; the fuel is the number of its tables. *)
Fixpoint PurgeObsoleteFiles (fuel j : nat) (db : DBState) : option DBState :=
  job ← db_jobs db !! j;
  match todo job, fuel with
  | [], _ => purge_end j db
  | _, O => None
  | _, S fuel => db ← purge_next j db; PurgeObsoleteFiles fuel j db
  end.

(** A search and the purge of what it found, as an iterator that drops the last reference of its version makes them when it does
    not leave the purge to the background. *)
Definition search_and_purge (db : DBState) : option DBState :=
  let found := FindObsoleteFiles db in
  match db_jobs found !! length (db_jobs db) with
  | Some job => PurgeObsoleteFiles (length (todo job)) (length (db_jobs db)) found
  | None => Some found
  end.

Definition ShouldPurge (db : DBState) (purge_queue : list Z) (file_number : Z) : bool :=
  negb (bool_decide (file_number ∈ files_grabbed_for_purge_ db)) && negb (bool_decide (file_number ∈ purge_queue)).
End Operations.

(** ** Dropping references *)

Definition linked (vs : list Ver) : list FileRef := vs ≫= (fun v => version_refs (v_storage v)).

Lemma drop_files_ok fs st obs R :
  counts st (fs ++ R) ->
  exists st' new, fold_opt drop_file (st, obs) fs = Some (st', obs ++ new) /\ counts st' R /\
    (forall f, f ∈ new -> f ∈ fs) /\ (forall f, f ∈ fs -> f ∈ new \/ f ∈ R).
Proof.
  revert st obs. induction fs as [|f fs IH]; intros st obs Hc.
  { exists st, []. rewrite app_nil_r. split_and!; [done|done|set_solver|set_solver]. }
  pose proof Hc as [H1 _ H3]. assert (Hf : f ∈ (f :: fs) ++ R) by (simpl; left).
  destruct (counts_unref st f (fs ++ R) Hc) as (st' & Hu & Hc').
  specialize (H1 (fr_id f)). simpl in H1. rewrite occurrences_cons, decide_True in H1 by done.
  simpl. rewrite H1. simpl. unfold UnrefFile in Hu. rewrite H1 in Hu. simpl in Hu.
  destruct (Z.ltb_spec 0 (Z.of_nat (S (occurrences (fr_id f) (fs ++ R))))); [|lia]. simpl.
  destruct (Z.leb_spec (Z.of_nat (S (occurrences (fr_id f) (fs ++ R))) - 1) 0) as [Hz|Hz]; injection Hu as <-; simpl.
  - destruct (IH _ (obs ++ [f]) Hc') as (st'' & new & Hd & Hc'' & Hn1 & Hn2).
    exists st'', (f :: new). rewrite Hd, <- app_assoc. split_and!; [done|done|set_solver|set_solver].
  - destruct (IH _ obs Hc') as (st'' & new & Hd & Hc'' & Hn1 & Hn2). exists st'', new.
    split_and!; [done|done|set_solver|]. intros g [->|Hg]%elem_of_cons; [|by apply Hn2].
    assert (Hin : f ∈ fs ++ R); [|apply elem_of_app in Hin as [Hin|Hin]; [by apply Hn2|by right]].
    destruct (filter (fun g => fr_id g = fr_id f) (fs ++ R)) as [|g l] eqn:E.
    { unfold occurrences in Hz. rewrite E in Hz. simpl in Hz. lia. }
    assert (g ∈ filter (fun g => fr_id g = fr_id f) (fs ++ R)) as [Hid Hg]%list_elem_of_filter by (rewrite E; left).
    rewrite <- (H3 g f) by (try done; simpl; by right). done.
Qed.

(** *** The list of versions *)

Lemma find_version_Some id vs v : find_version id vs = Some v -> v ∈ vs /\ v_id v = id.
Proof.
  unfold find_version. intros H. destruct (list_find _ vs) as [[i w]|] eqn:E; simpl in H; [|done].
  injection H as <-. apply list_find_Some in E as (Hi & Hid & _). split; [|done]. by eapply list_elem_of_lookup_2.
Qed.

Lemma find_version_in id vs v : NoDup (v_id <$> vs) -> v ∈ vs -> v_id v = id -> find_version id vs = Some v.
Proof.
  intros Hnd Hv Hid. unfold find_version.
  destruct (list_find_elem_of (fun v => v_id v = id) vs v Hv Hid) as [[i w] E]. rewrite E. simpl. f_equal.
  apply list_find_Some in E as (Hi & Hw & _).
  eapply (NoDup_fmap_eq v_id vs); [done|by eapply list_elem_of_lookup_2|done|]. congruence.
Qed.

Lemma set_version_refs_ids id r vs : v_id <$> set_version_refs id r vs = v_id <$> vs.
Proof.
  unfold set_version_refs. rewrite <- list_fmap_compose. apply list_fmap_ext. intros _ v _. simpl.
  by case_decide.
Qed.

Lemma set_version_refs_in id r vs w :
  w ∈ set_version_refs id r vs <->
  exists v, v ∈ vs /\ v_id w = v_id v /\ v_storage w = v_storage v /\ v_refs w = if decide (v_id v = id) then r else v_refs v.
Proof.
  unfold set_version_refs. rewrite list_elem_of_fmap. split.
  - intros (v & -> & Hv). exists v. by case_decide.
  - intros (v & Hv & H1 & H2 & H3). exists v. split; [|done]. destruct w, v. simpl in *. subst.
    by case_decide; subst.
Qed.

Lemma linked_set id r vs : linked (set_version_refs id r vs) = linked vs.
Proof.
  unfold linked, set_version_refs. rewrite list_fmap_bind. apply list_bind_ext; [|done].
  intros v. simpl. by case_decide.
Qed.

Lemma linked_remove vs v :
  NoDup (v_id <$> vs) -> v ∈ vs ->
  linked vs ≡ₚ version_refs (v_storage v) ++ linked (filter (fun w => v_id w <> v_id v) vs).
Proof.
  induction vs as [|w vs IH]; intros Hnd Hv; [by apply not_elem_of_nil in Hv|].
  rewrite fmap_cons in Hnd. apply NoDup_cons in Hnd as [Hw Hnd]. apply elem_of_cons in Hv as [->|Hv].
  - rewrite filter_cons, decide_False by tauto. rewrite filter_id; [done|].
    intros u Hu E. apply Hw. apply list_elem_of_fmap. by exists u.
  - rewrite filter_cons, decide_True.
    + unfold linked in *. simpl. rewrite IH by done. apply Permutation_app_swap_app.
    + intros E. apply Hw. rewrite E. apply list_elem_of_fmap. by exists v.
Qed.

Lemma AddLiveFiles_linked db : AddLiveFiles db = ref_numbers (linked (db_versions db)).
Proof.
  unfold AddLiveFiles, linked, version_numbers, ref_numbers. by rewrite fmap_bind.
Qed.

(** *** Numbers of a version *)

Lemma version_numbers_level v n : n ∈ version_numbers v <-> exists l, n ∈ numbers (level_metas v l).
Proof.
  unfold version_numbers, ref_numbers, version_refs, level_metas, numbers. rewrite list_elem_of_fmap. split.
  - intros (f & -> & (fs & Hf & [i Hi]%list_elem_of_lookup)%list_elem_of_bind). exists (Z.of_nat i).
    rewrite zget_nat, Hi, <- list_fmap_compose. apply list_elem_of_fmap. by exists f.
  - intros [l Hl]. destruct (vst_files v !z l) as [fs|] eqn:E; [|by apply not_elem_of_nil in Hl].
    rewrite <- list_fmap_compose in Hl. apply list_elem_of_fmap in Hl as (f & -> & Hf). exists f. split; [done|].
    apply list_elem_of_bind. exists fs. split; [done|]. apply zget_Some in E as [_ E]. by eapply list_elem_of_lookup_2.
Qed.

Lemma edit_levels_numbers cur edits l n :
  n ∈ numbers (foldl edit_levels cur edits l) ->
  n ∈ numbers (cur l) \/ exists e f, e ∈ edits /\ (l, f) ∈ ve_new_files e /\ n = GetNumber (f_fd f).
Proof.
  revert cur. induction edits as [|e edits IH]; intros cur Hn; simpl in Hn; [by left|].
  apply IH in Hn as [Hn|(e' & f & He & Hf & ->)]; [|right; exists e', f; split; [by right|done]].
  unfold edit_levels, edit_level, undeleted, new_in, numbers in Hn. rewrite fmap_app in Hn.
  apply elem_of_app in Hn as [Hn|Hn]; apply list_elem_of_fmap in Hn as (f & -> & Hf).
  - left. apply list_elem_of_fmap. exists f. split; [done|]. by apply list_elem_of_filter in Hf as [_ Hf].
  - right. exists e, f. split; [left|]. apply list_elem_of_fmap in Hf as ([l' g] & -> & [Hl Hg]%list_elem_of_filter).
    simpl in *. by subst.
Qed.

(** ** The invariant *)

(** The numbers of live tables, of obsolete files, and of the tables that purges have
    deleted or will delete. *)
Record numbers_ok (live obs dead pending : list Z) (next : Z) : Prop := {
  tk_live n : n ∈ live -> n < next;
  tk_pending : StronglySorted Z.le pending;
  tk_pending_next p : p ∈ pending -> p <= next;
  tk_dead n : n ∈ dead -> n ∉ live;
  tk_dead_next n : n ∈ dead -> n < next;
  tk_dead_pending n p : n ∈ dead -> p ∈ pending -> n < p;
  tk_once : NoDup dead;
  tk_obs n : n ∈ obs -> n ∉ dead;
  tk_obs_next n : n ∈ obs -> n < next;
}.

Definition protected (pending : list Z) (n : Z) : Prop := exists p, p ∈ pending /\ p <= n.

Lemma tables_shrink live obs dead pending next live' obs' :
  numbers_ok live obs dead pending next ->
  (forall n, n ∈ live' -> n ∈ live) -> (forall n, n ∈ obs' -> n ∈ obs \/ n ∈ live) ->
  numbers_ok live' obs' dead pending next.
Proof.
  intros [] Hl Ho. constructor; try done.
  - intros n Hn. by apply tk_live0, Hl.
  - intros n Hn Hn'. apply (tk_dead0 n Hn). by apply Hl.
  - intros n [Hn|Hn]%Ho Hd; [by apply (tk_obs0 n)|by apply (tk_dead0 n)].
  - intros n [Hn|Hn]%Ho; [by apply tk_obs_next0|by apply tk_live0].
Qed.

Lemma tables_grow live obs dead pending next live' :
  numbers_ok live obs dead pending next ->
  (forall n, n ∈ live' -> n ∈ live \/ protected pending n /\ n < next) ->
  numbers_ok live' obs dead pending next.
Proof.
  intros [] Hl. constructor; try done.
  - intros n [Hn|[_ Hn]]%Hl; [by apply tk_live0|done].
  - intros n Hn [Hn'|[(p & Hp & Hpn) _]]%Hl; [by apply (tk_dead0 n)|]. pose proof (tk_dead_pending0 n p Hn Hp). lia.
Qed.

(** What purges may do with the obsolete files: all of a number at once, when no
    version lists it. *)
Lemma tables_find live obs dead pending next (todo' obs' : list Z) :
  numbers_ok live obs dead pending next -> NoDup todo' ->
  (forall n, n ∈ todo' -> n ∈ obs /\ (n ∉ live) /\ (n ∉ obs') /\ forall p, p ∈ pending -> n < p) ->
  (forall n, n ∈ obs' -> n ∈ obs) ->
  numbers_ok live obs' (todo' ++ dead) pending next.
Proof.
  intros [] Hnd Ht Ho. constructor; try done.
  - intros n [Hn|Hn]%elem_of_app; [by apply Ht|by apply tk_dead0].
  - intros n [Hn|Hn]%elem_of_app; [apply tk_obs_next0; by apply Ht|by apply tk_dead_next0].
  - intros n p [Hn|Hn]%elem_of_app Hp; [by apply Ht|by apply tk_dead_pending0].
  - apply NoDup_app. split_and!; [done| |done]. intros n Hn Hd. apply (tk_obs0 n); [by apply Ht|done].
  - intros n Hn [Hd|Hd]%elem_of_app; [by apply Ht in Hd as (_ & _ & ? & _)|]. apply (tk_obs0 n); [by apply Ho|done].
  - intros n Hn. by apply tk_obs_next0, Ho.
Qed.

Section Life.
Context (icmp : Comparator) {Laws : ComparatorLaws icmp}.
Implicit Types (db : DBState).

Record versions_ok (vs : list Ver) (next : nat) : Prop := {
  vk_ids : NoDup (v_id <$> vs);
  vk_next v : v ∈ vs -> (v_id v < next)%nat;
  vk_refs v : v ∈ vs -> 1 <= v_refs v;
  vk_storage v : v ∈ vs -> storage_ok icmp (v_storage v);
}.

Definition install_refs db : list FileRef :=
  match db_install db with Some i => version_refs (in_new i) ++ rep_files (in_rep i) | None => [] end.

Definition install_numbers db : list Z :=
  match db_install db with Some i => version_numbers (in_new i) | None => [] end.

Definition dead_numbers db : list Z := (db_jobs db ≫= todo) ++ db_deleted db.

Definition obsolete_numbers db : list Z := ref_numbers (obsolete_files_ db).

(** The references that the state itself holds on the current version. *)
Definition reserved db : Z := match db_install db with Some _ => 2 | None => 1 end.

(** An installation works on the current version; its other tables are new. *)
Record install_ok db (cur : Ver) (i : Install) : Prop := {
  ik_base : in_base i = db_current db;
  ik_storage : storage_ok icmp (in_new i);
  ik_rep n : n ∈ ref_numbers (rep_files (in_rep i)) -> n ∈ version_numbers (in_new i);
  ik_numbers n : n ∈ version_numbers (in_new i) -> n ∈ version_numbers (v_storage cur) \/
    (n ∉ AddLiveFiles db) /\ (n ∉ obsolete_numbers db) /\ protected (pending_outputs_ db) n;
}.

Record db_ok db : Prop := {
  ok_versions : versions_ok (db_versions db) (db_next_version db);
  ok_counts : counts (db_store db) (linked (db_versions db) ++ install_refs db);
  ok_current : exists cur, find_version (db_current db) (db_versions db) = Some cur /\ reserved db <= v_refs cur /\
    forall i, db_install db = Some i -> install_ok db cur i;
  ok_tables : numbers_ok (AddLiveFiles db ++ install_numbers db) (obsolete_numbers db) (dead_numbers db)
    (pending_outputs_ db) (next_file_number_ db);
}.

(** *** References of versions *)

Lemma Version_Unref_ok id db v X :
  find_version id (db_versions db) = Some v -> NoDup (v_id <$> db_versions db) -> 1 <= v_refs v ->
  counts (db_store db) (linked (db_versions db) ++ X) ->
  exists st' new, let vs' := if v_refs v =? 1 then filter (fun w => v_id w <> id) (db_versions db)
                             else set_version_refs id (v_refs v - 1) (db_versions db) in
    Version_Unref id db = Some (set_versions st' vs' (obsolete_files_ db ++ new) db) /\
    counts st' (linked vs' ++ X) /\ (forall f, f ∈ new -> f ∈ linked (db_versions db)) /\
    (forall f, f ∈ linked (db_versions db) -> f ∈ new \/ f ∈ linked vs' ++ X).
Proof.
  intros Hf Hnd Hr Hc. unfold Version_Unref. rewrite Hf. simpl.
  destruct (find_version_Some id _ v Hf) as [Hv Hid].
  destruct (Z.leb_spec 1 (v_refs v)); [|lia]. simpl.
  destruct (Z.eqb_spec (v_refs v - 1) 0), (Z.eqb_spec (v_refs v) 1); try lia.
  - pose proof (linked_remove _ v Hnd Hv) as Hp. rewrite Hid in Hp. rewrite Hp, <- app_assoc in Hc.
    destruct (drop_files_ok _ _ (obsolete_files_ db) _ Hc) as (st' & new & Hd & Hc' & Hn1 & Hn2).
    unfold Version_destroy. rewrite Hd. simpl. exists st', new. split_and!; [done|done| |].
    + intros f Hfn. rewrite Hp. apply elem_of_app. left. by apply Hn1.
    + intros f Hfl. rewrite Hp in Hfl. apply elem_of_app in Hfl as [Hfl|Hfl]; [by apply Hn2|].
      right. apply elem_of_app. by left.
  - exists (db_store db), []. rewrite app_nil_r, linked_set. split_and!; [done|done|set_solver|].
    intros f Hfl. right. apply elem_of_app. by left.
Qed.

(** What is left of the versions after a reference is taken or dropped. *)
Lemma versions_sub vs vs' next :
  versions_ok vs next -> NoDup (v_id <$> vs') ->
  (forall w, w ∈ vs' -> 1 <= v_refs w /\ exists v, v ∈ vs /\ v_id w = v_id v /\ v_storage w = v_storage v) ->
  versions_ok vs' next.
Proof.
  intros [H1 H2 H3 H4] Hnd Hw. constructor; [done| | |].
  - intros w (_ & v & Hv & -> & _)%Hw. by apply H2.
  - intros w [Hr _]%Hw. done.
  - intros w (_ & v & Hv & _ & ->)%Hw. by apply H4.
Qed.

Lemma linked_sub vs vs' f :
  (forall w, w ∈ vs' -> exists v, v ∈ vs /\ v_storage w = v_storage v) -> f ∈ linked vs' -> f ∈ linked vs.
Proof.
  intros Hw (w & Hf & (v & Hv & E)%Hw)%list_elem_of_bind. apply list_elem_of_bind. exists v. by rewrite <- E.
Qed.

Lemma after_unref vs v id :
  v ∈ vs -> v_id v = id -> NoDup (v_id <$> vs) -> (forall w, w ∈ vs -> 1 <= v_refs w) ->
  let vs' := if v_refs v =? 1 then filter (fun w => v_id w <> id) vs else set_version_refs id (v_refs v - 1) vs in
  NoDup (v_id <$> vs') /\
  (forall w, w ∈ vs' -> 1 <= v_refs w /\ exists u, u ∈ vs /\ v_id w = v_id u /\ v_storage w = v_storage u) /\
  (forall w, w ∈ vs -> v_id w <> id -> w ∈ vs').
Proof.
  intros Hv Hid Hnd Hr vs'. unfold vs'. destruct (Z.eqb_spec (v_refs v) 1) as [E|E]; split_and!.
  - by apply NoDup_fmap_filter.
  - intros w [_ Hw]%list_elem_of_filter. split; [by apply Hr|by exists w].
  - intros w Hw Hne. by apply list_elem_of_filter.
  - by rewrite set_version_refs_ids.
  - intros w (u & Hu & H1 & H2 & H3)%set_version_refs_in. split; [|by exists u].
    rewrite H3. case_decide; [|by apply Hr]. pose proof (Hr v Hv). lia.
  - intros w Hw Hne. apply set_version_refs_in. exists w. by rewrite decide_False.
Qed.

(** *** Steps *)

(** A table some version listed is live, obsolete, or with a purge. *)
Definition accounted db (n : Z) : Prop := n ∈ AddLiveFiles db \/ n ∈ obsolete_numbers db \/ n ∈ dead_numbers db.

Definition goes_on db (o : option DBState) : Prop :=
  exists db', o = Some db' /\ db_ok db' /\ forall n, accounted db n -> accounted db' n.

Lemma elem_of_ref_numbers n fs : n ∈ ref_numbers fs <-> exists f, n = ref_number f /\ f ∈ fs.
Proof. unfold ref_numbers. by rewrite list_elem_of_fmap. Qed.

Lemma ref_numbers_sub fs gs : (forall f, f ∈ fs -> f ∈ gs) -> forall n, n ∈ ref_numbers fs -> n ∈ ref_numbers gs.
Proof. intros H n (f & -> & Hf)%elem_of_ref_numbers. apply elem_of_ref_numbers. eauto. Qed.

Lemma db_ok_versions db st' vs' new cur :
  db_ok db -> versions_ok vs' (db_next_version db) -> counts st' (linked vs' ++ install_refs db) ->
  (forall w, w ∈ vs' -> exists v, v ∈ db_versions db /\ v_storage w = v_storage v) ->
  find_version (db_current db) (db_versions db) = Some cur ->
  (exists cur', find_version (db_current db) vs' = Some cur' /\ reserved db <= v_refs cur' /\ v_storage cur' = v_storage cur) ->
  (forall f, f ∈ new -> f ∈ linked (db_versions db)) ->
  (forall f, f ∈ linked (db_versions db) -> f ∈ new \/ f ∈ linked vs' ++ install_refs db) ->
  goes_on db (Some (set_versions st' vs' (obsolete_files_ db ++ new) db)).
Proof.
  intros Hok Hvs Hc Hsub Hcur (cur' & Hcur' & Hres & Hst) Hnew Hdrop. pose proof Hok as [_ _ Hc0 Ht].
  destruct Hc0 as (cur0 & Hc0 & _ & Hi). rewrite Hcur in Hc0. injection Hc0 as <-.
  assert (Hlive : forall n, n ∈ ref_numbers (linked vs') -> n ∈ AddLiveFiles db).
  { rewrite AddLiveFiles_linked. apply ref_numbers_sub. intros f. by apply linked_sub. }
  eexists. split; [done|]. split; [constructor|].
  - done.
  - done.
  - exists cur'. split_and!; [done|done|]. intros i Hdi. destruct (Hi i Hdi) as [H1 H2 H3 H4].
    constructor; [done|done|done|]. intros n Hn. rewrite Hst. destruct (H4 n Hn) as [Hb|(Hl & Ho & Hp)]; [by left|].
    right. split_and!; [| |done].
    + rewrite AddLiveFiles_linked. simpl. intros Hl'. by apply Hl, Hlive.
    + unfold obsolete_numbers, ref_numbers in *. simpl. rewrite fmap_app. intros [Hn'|Hn']%elem_of_app; [done|].
      apply Hl. rewrite AddLiveFiles_linked. by apply (ref_numbers_sub new).
  - eapply tables_shrink; [exact Ht| |].
    + intros n [Hn|Hn]%elem_of_app; apply elem_of_app; [left|by right]. apply Hlive.
      by rewrite AddLiveFiles_linked in Hn.
    + unfold obsolete_numbers, ref_numbers. simpl. rewrite fmap_app. intros n [Hn|Hn]%elem_of_app; [by left|right].
      apply elem_of_app. left. rewrite AddLiveFiles_linked. by apply (ref_numbers_sub new).
  - intros n. unfold accounted. rewrite !AddLiveFiles_linked. unfold obsolete_numbers. simpl.
    intros [Hn|[Hn|Hn]]; [|right; left; unfold ref_numbers; rewrite fmap_app; apply elem_of_app; by left|by right; right].
    apply elem_of_ref_numbers in Hn as (f & -> & Hf). destruct (Hdrop f Hf) as [Hfn|[Hfl|Hfi]%elem_of_app].
    + right. left. apply elem_of_ref_numbers. exists f. split; [done|]. apply elem_of_app. by right.
    + left. apply elem_of_ref_numbers. eauto.
    + unfold install_refs in Hfi. destruct (db_install db) as [i|] eqn:Ei; [|by apply not_elem_of_nil in Hfi].
      destruct (Hi i eq_refl) as [_ _ H3 H4].
      assert (Hin : ref_number f ∈ version_numbers (in_new i)).
      { apply elem_of_app in Hfi as [Hfi|Hfi]; [|apply H3]; apply elem_of_ref_numbers; eauto. }
      left. destruct (H4 _ Hin) as [Hb|(Hl & _)].
      * rewrite <- Hst in Hb. apply elem_of_ref_numbers in Hb as (g & -> & Hg). apply elem_of_ref_numbers.
        exists g. split; [done|]. apply list_elem_of_bind. exists cur'. split; [done|]. by apply find_version_Some in Hcur' as [? _].
      * exfalso. apply Hl. rewrite AddLiveFiles_linked. apply elem_of_ref_numbers. eauto.
Qed.

Lemma ref_step_ok db id : db_ok db -> id ∈ (v_id <$> db_versions db) -> goes_on db (Version_Ref id db).
Proof.
  intros Hok Hid. pose proof Hok as [Hvs Hc (cur & Hcur & Hres & _) _]. pose proof Hvs as [Hnd _ Hr _].
  apply list_elem_of_fmap in Hid as (v & -> & Hv). unfold Version_Ref.
  rewrite (find_version_in _ _ v Hnd Hv eq_refl). simpl.
  pose proof (db_ok_versions db (db_store db) (set_version_refs (v_id v) (v_refs v + 1) (db_versions db)) [] cur Hok) as H.
  rewrite app_nil_r in H. apply H; clear H.
  - eapply versions_sub; [exact Hvs|by rewrite set_version_refs_ids|].
    intros w (u & Hu & H1 & H2 & ->)%set_version_refs_in. split; [|by exists u].
    pose proof (Hr v Hv). pose proof (Hr u Hu). case_decide; lia.
  - by rewrite linked_set.
  - intros w (u & Hu & _ & H2 & _)%set_version_refs_in. by exists u.
  - done.
  - destruct (find_version_Some _ _ _ Hcur) as [Hci Hce].
    exists (mkVer (v_id cur) (if decide (v_id cur = v_id v) then v_refs v + 1 else v_refs cur) (v_storage cur)).
    split_and!; [|simpl; case_decide as E|done].
    + apply find_version_in; [by rewrite set_version_refs_ids| |done]. apply set_version_refs_in. by exists cur.
    + assert (cur = v) as -> by (by apply (NoDup_fmap_eq v_id (db_versions db))). unfold reserved in *. simpl. case_match; lia.
    + done.
  - intros f Hf. by apply not_elem_of_nil in Hf.
  - intros f Hf. right. rewrite linked_set. apply elem_of_app. by left.
Qed.

(** A reader gives back its reference. *)
Lemma unref_step_ok db id v :
  db_ok db -> find_version id (db_versions db) = Some v -> (id = db_current db -> reserved db < v_refs v) ->
  goes_on db (Version_Unref id db).
Proof.
  intros Hok Hv Hres. pose proof Hok as [Hvs Hc (cur & Hcur & Hrc & _) _]. pose proof Hvs as [Hnd _ Hr _].
  destruct (find_version_Some _ _ _ Hv) as [Hvi Hid].
  destruct (Version_Unref_ok id db v (install_refs db) Hv Hnd (Hr v Hvi) Hc) as (st' & new & -> & Hc' & Hn1 & Hn2).
  destruct (after_unref (db_versions db) v id Hvi Hid Hnd Hr) as (Ha1 & Ha2 & Ha3).
  apply (db_ok_versions db _ _ _ cur Hok); [|done| |done| |done|done].
  - by eapply versions_sub.
  - intros w (_ & u & Hu & _ & E)%Ha2. by exists u.
  - destruct (find_version_Some _ _ _ Hcur) as [Hci Hce].
    destruct (decide (v_id cur = id)) as [E|E]; [|exists cur; split_and!; [|done|done]; apply find_version_in; auto].
    assert (cur = v) as -> by (apply (NoDup_fmap_eq v_id (db_versions db)); congruence).
    assert (reserved db < v_refs v) by (apply Hres; congruence).
    assert (1 <= reserved db) by (unfold reserved; destruct (db_install db); lia).
    destruct (Z.eqb_spec (v_refs v) 1); [lia|]. exists (mkVer id (v_refs v - 1) (v_storage v)).
    split_and!; [|simpl; lia|done]. rewrite <- Hce, E. apply find_version_in; [done| |done].
    apply set_version_refs_in. exists v. by rewrite decide_True.
Qed.

(** The edits a new version may have: they fit the current version, and a table that is
    not in it is new and kept by a pending output. *)
Record legal_install db (cur : Ver) (edits : list VersionEdit) : Prop := {
  li_edits : legal_edits (v_storage cur) (level_metas (v_storage cur)) edits;
  li_consistent : consistent (v_storage cur)
    (fun l => sort_files icmp l (foldl edit_levels (level_metas (v_storage cur)) edits l)) icmp;
  li_new e l f : e ∈ edits -> (l, f) ∈ ve_new_files e ->
    GetNumber (f_fd f) ∈ version_numbers (v_storage cur) \/
    (GetNumber (f_fd f) ∉ AddLiveFiles db) /\ (GetNumber (f_fd f) ∉ obsolete_numbers db) /\
    protected (pending_outputs_ db) (GetNumber (f_fd f)) /\ GetNumber (f_fd f) < next_file_number_ db;
}.

Lemma rep_numbers base rep cur v :
  rep_ok base rep cur -> (forall l, 0 <= l < len (vst_files base) -> level_metas v l = sort_files icmp l (cur l)) ->
  forall n, n ∈ ref_numbers (rep_files rep) -> n ∈ version_numbers v.
Proof.
  intros [_ _ Hlen Hlev _] Hv n (f & -> & (ls & Hf & [i Hi]%list_elem_of_lookup)%list_elem_of_bind)%elem_of_ref_numbers.
  apply version_numbers_level. exists (Z.of_nat i).
  assert (Hr : 0 <= Z.of_nat i < len (vst_files base)).
  { apply lookup_lt_Some in Hi. unfold zlen in Hlen. unfold zlen. lia. }
  rewrite Hv by done. destruct (Hlev _ Hr) as (b & ls' & _ & Hls & [_ Hfiles _ _]). rewrite zget_nat, Hi in Hls.
  injection Hls as <-. unfold numbers, sort_files. rewrite merge_sort_Permutation, Hfiles.
  apply list_elem_of_fmap. exists (fr_meta f). split; [done|]. apply list_elem_of_fmap. exists f. split; [done|].
  apply elem_of_app. by right.
Qed.

Lemma begin_install_ok db cur edits :
  db_ok db -> db_install db = None -> find_version (db_current db) (db_versions db) = Some cur ->
  legal_install db cur edits -> goes_on db (begin_install icmp edits db).
Proof using Laws.
  intros Hok Hno Hcur [Hle Hcons Hnew]. unfold begin_install. rewrite Hno, Hcur. simpl.
  destruct (find_version_Some _ _ _ Hcur) as [Hci Hce].
  destruct (ref_step_ok db (db_current db) Hok) as (db1 & Href & Hok1 & Hacc1).
  { apply list_elem_of_fmap. by exists cur. }
  rewrite Href. unfold Version_Ref in Href. rewrite Hcur in Href. simpl in Href. injection Href as <-. simpl.
  pose proof Hok as [[Hnd _ _ Hst] Hc (cur0 & Hc0 & Hres & _) Ht]. rewrite Hcur in Hc0. injection Hc0 as <-.
  unfold install_refs in Hc. rewrite Hno, app_nil_r in Hc.
  destruct (apply_and_save_ok icmp (db_store db) (v_storage cur) edits (linked (db_versions db)))
    as (st' & rep & v & Has & Hlen & Hnvm & Hlv & Hrep & Hc'); [by apply Hst| |done|done|done|].
  { intros f Hf. apply list_elem_of_bind. by exists cur. }
  rewrite Has. simpl. set (i := mkInstall (db_current db) rep v).
  assert (Hnum : forall n, n ∈ version_numbers v -> n ∈ version_numbers (v_storage cur) \/
    (n ∉ AddLiveFiles db) /\ (n ∉ obsolete_numbers db) /\ protected (pending_outputs_ db) n /\ n < next_file_number_ db).
  { intros n [l Hl]%version_numbers_level. destruct (decide (0 <= l < len (vst_files (v_storage cur)))) as [Hr|Hr].
    - rewrite Hlv in Hl by done. unfold numbers, sort_files in Hl. rewrite merge_sort_Permutation in Hl.
      apply edit_levels_numbers in Hl as [Hl|(e & f & He & Hf & ->)]; [left; apply version_numbers_level; by exists l|].
      by apply (Hnew e l f).
    - rewrite level_metas_out in Hl by (by rewrite Hlen). by apply not_elem_of_nil in Hl. }
  eexists. split; [done|]. destruct Hok1 as [Hvs1 _ (cur1 & Hc1 & _ & _) _]. simpl in *. split; [constructor|].
  - exact Hvs1.
  - simpl. rewrite linked_set. unfold install_refs. simpl. eapply counts_proper; [|exact Hc'].
    rewrite (app_assoc (version_refs v)). apply Permutation_app_comm.
  - assert (Hin1 : mkVer (db_current db) (v_refs cur + 1) (v_storage cur) ∈
        set_version_refs (db_current db) (v_refs cur + 1) (db_versions db)).
    { apply set_version_refs_in. exists cur. split_and!; [done|done|done|]. by rewrite decide_True. }
    exists (mkVer (db_current db) (v_refs cur + 1) (v_storage cur)). split_and!.
    + apply find_version_in; [by destruct Hvs1|done|done].
    + unfold reserved in *. rewrite Hno in Hres. simpl. lia.
    + intros i' [= <-]. constructor; simpl; [done| |by eapply rep_numbers|].
      * eapply (sorted_storage_ok icmp (v_storage cur)); [done|done|exact Hlv| |done].
        intros l. eapply edits_numbers; [|done]. apply (so_numbers icmp). by apply Hst.
      * intros n Hn. destruct (Hnum n Hn) as [?|(H1 & H2 & H3 & _)]; [by left|right]. split_and!; [|done|done].
        rewrite AddLiveFiles_linked in *. simpl. by rewrite linked_set.
  - unfold install_numbers. simpl. eapply tables_grow; [exact Ht|]. intros n [Hn|Hn]%elem_of_app.
    + left. apply elem_of_app. left. rewrite AddLiveFiles_linked in *. simpl in Hn. by rewrite linked_set in Hn.
    + destruct (Hnum n Hn) as [Hb|(_ & _ & H3 & H4)]; [left|by right]. apply elem_of_app. left.
      rewrite AddLiveFiles_linked. eapply (ref_numbers_sub (version_refs (v_storage cur))); [|done].
      intros f Hf. apply list_elem_of_bind. by exists cur.
  - exact Hacc1.
Qed.

Lemma goes_on_trans db db2 o :
  (forall n, accounted db n -> accounted db2 n) -> goes_on db2 o -> goes_on db o.
Proof. intros Ha (db' & -> & Hok & Ha'). exists db'. auto. Qed.

(** [delete v] of a version that was not installed, then the end of its builder. *)
Lemma end_failed_ok db i : db_ok db -> db_install db = Some i -> goes_on db (end_install false db).
Proof.
  intros Hok Hi. unfold end_install. rewrite Hi. simpl.
  pose proof Hok as [Hvs Hc (cur & Hcur & Hres & Hin) Ht]. destruct (Hin i Hi) as [Hbase _ _ _].
  unfold install_refs in Hc. rewrite Hi in Hc.
  rewrite (Permutation_app_comm (linked _)), <- app_assoc in Hc.
  destruct (drop_files_ok _ _ (obsolete_files_ db) _ Hc) as (st1 & new & Hd & Hc1 & Hn1 & _).
  unfold Version_destroy. rewrite Hd. simpl.
  destruct (Rep_destroy_ok st1 (in_rep i) (linked (db_versions db)) Hc1) as (st2 & -> & Hc2). simpl.
  unfold reserved in Hres. rewrite Hi in Hres. rewrite Hbase.
  set (db2 := set_install st2 None _). apply (goes_on_trans db db2).
  - intros n. unfold accounted, obsolete_numbers, dead_numbers. rewrite !AddLiveFiles_linked. simpl.
    intros [Hn|[Hn|Hn]]; [by left|right; left|by right; right].
    eapply ref_numbers_sub; [|done]. intros f Hf. apply elem_of_app. by left.
  - apply (unref_step_ok db2 _ cur); [|done|intros _; unfold reserved; simpl; lia].
    constructor; simpl; [done|unfold install_refs; simpl; by rewrite app_nil_r| |].
    + exists cur. split_and!; [done|unfold reserved; simpl; lia|done].
    + eapply tables_shrink; [exact Ht| |].
      * unfold install_numbers at 1. simpl. intros n. rewrite app_nil_r. intros Hn. apply elem_of_app. by left.
      * unfold obsolete_numbers, ref_numbers. simpl. intros n. rewrite fmap_app. intros [Hn|Hn]%elem_of_app; [by left|right].
        apply elem_of_app. right. unfold install_numbers. rewrite Hi. by apply (ref_numbers_sub new).
Qed.

Lemma Version_Unref_keep id db v :
  find_version id (db_versions db) = Some v -> 2 <= v_refs v ->
  Version_Unref id db =
    Some (set_versions (db_store db) (set_version_refs id (v_refs v - 1) (db_versions db)) (obsolete_files_ db) db).
Proof.
  intros Hv Hr. unfold Version_Unref. rewrite Hv. simpl. destruct (Z.leb_spec 1 (v_refs v)); [|lia].
  by destruct (Z.eqb_spec (v_refs v - 1) 0); [lia|].
Qed.

Lemma end_installed_ok db i : db_ok db -> db_install db = Some i -> goes_on db (end_install true db).
Proof.
  intros Hok Hi. unfold end_install. rewrite Hi. simpl.
  pose proof Hok as [Hvs Hc (cur & Hcur & Hres & Hin) Ht]. destruct (Hin i Hi) as [Hbase Hst _ _].
  pose proof Hvs as [Hnd Hnext Hr Hvst]. destruct (find_version_Some _ _ _ Hcur) as [Hci Hce].
  unfold reserved in Hres. rewrite Hi in Hres. unfold AppendVersion. rewrite Hcur. simpl.
  destruct (Z.ltb_spec 0 (v_refs cur)); [|lia]. simpl.
  rewrite (Version_Unref_keep _ db cur Hcur Hres). simpl.
  unfold install_refs in Hc. rewrite Hi in Hc.
  assert (Hc1 : counts (db_store db) (rep_files (in_rep i) ++ linked (db_versions db) ++ version_refs (in_new i))).
  { eapply counts_proper; [|exact Hc]. by rewrite Permutation_app_comm, <- app_assoc. }
  destruct (Rep_destroy_ok (db_store db) (in_rep i) _ Hc1) as (st2 & -> & Hc2). simpl. rewrite Hbase.
  set (vs := set_version_refs (db_current db) (v_refs cur - 1) (db_versions db)).
  set (new := mkVer (db_next_version db) 1 (in_new i)). set (db2 := set_install st2 None _).
  assert (Hids : v_id <$> vs = v_id <$> db_versions db) by apply set_version_refs_ids.
  assert (Hfresh : db_next_version db ∉ (v_id <$> db_versions db)).
  { intros (v & E & Hv)%list_elem_of_fmap. apply Hnext in Hv. lia. }
  assert (Hlink : linked (vs ++ [new]) = linked (db_versions db) ++ version_refs (in_new i)).
  { unfold linked. rewrite bind_app. fold (linked vs). unfold vs. rewrite linked_set. simpl. by rewrite app_nil_r. }
  assert (Hsub : forall n, n ∈ ref_numbers (linked (vs ++ [new])) <-> n ∈ AddLiveFiles db ++ install_numbers db).
  { intros n. rewrite Hlink, AddLiveFiles_linked. unfold install_numbers, version_numbers, ref_numbers. by rewrite Hi, fmap_app. }
  assert (Hnd2 : NoDup (v_id <$> vs ++ [new])).
  { rewrite fmap_app, Hids. apply NoDup_app. split_and!; [done| |apply NoDup_singleton].
    intros x Hx E%list_elem_of_singleton. subst x. done. }
  apply (goes_on_trans db db2).
  - intros n. unfold accounted, obsolete_numbers, dead_numbers. rewrite (AddLiveFiles_linked db2). simpl.
    intros [Hn|Hn]; [left|by right]. apply Hsub. apply elem_of_app. by left.
  - apply (unref_step_ok db2 _ (mkVer (db_current db) (v_refs cur - 1) (v_storage cur))).
    + constructor; simpl.
      * constructor; [done| | |].
        -- intros w [(u & Hu & -> & _)%set_version_refs_in|E%list_elem_of_singleton]%elem_of_app; [apply Hnext in Hu; lia|subst w; simpl; lia].
        -- intros w [(u & Hu & _ & _ & ->)%set_version_refs_in|E%list_elem_of_singleton]%elem_of_app; [|by subst w].
           apply Hr in Hu. case_decide; lia.
        -- intros w [(u & Hu & _ & -> & _)%set_version_refs_in|E%list_elem_of_singleton]%elem_of_app; [by apply Hvst|by subst w].
      * unfold install_refs. simpl. by rewrite app_nil_r, Hlink.
      * exists new. split_and!; [|done|done]. apply find_version_in; [done| |done]. apply elem_of_app. right. left.
      * eapply tables_shrink; [exact Ht| |by left]. unfold install_numbers at 1. simpl. rewrite app_nil_r.
        rewrite (AddLiveFiles_linked db2). intros n. apply Hsub.
    + apply find_version_in; [done| |done]. apply elem_of_app. left. apply set_version_refs_in. exists cur.
      split_and!; [done|done|done|]. by rewrite decide_True.
    + simpl. intros E. exfalso. apply Hfresh. rewrite <- E. apply list_elem_of_fmap. by exists cur.
Qed.

(** *** File numbers *)

Lemma tables_perm live obs dead dead' pending next :
  dead ≡ₚ dead' -> numbers_ok live obs dead pending next -> numbers_ok live obs dead' pending next.
Proof.
  intros Hp []. constructor; try done.
  - intros n. rewrite <- Hp. apply tk_dead0.
  - intros n. rewrite <- Hp. apply tk_dead_next0.
  - intros n p. rewrite <- Hp. apply tk_dead_pending0.
  - by rewrite <- Hp.
  - intros n. rewrite <- Hp. apply tk_obs0.
Qed.

(** A step that changes neither versions nor objects. *)
Lemma set_numbers_ok db pending next :
  db_ok db -> next_file_number_ db <= next -> StronglySorted Z.le pending -> (forall p, p ∈ pending -> p <= next) ->
  (forall p, p ∈ pending -> p ∈ pending_outputs_ db \/ next_file_number_ db <= p) ->
  (forall i cur, db_install db = Some i -> find_version (db_current db) (db_versions db) = Some cur ->
     forall n, n ∈ version_numbers (in_new i) -> n ∈ version_numbers (v_storage cur) \/ protected pending n) ->
  goes_on db (Some (set_numbers pending next db)).
Proof.
  intros [Hvs Hc (cur & Hcur & Hres & Hin) []] Hn Hs Hp Hold Hprot. eexists. split; [done|]. split; [|done].
  constructor; [done|done| |].
  - exists cur. split_and!; [done|done|]. intros i Hi. destruct (Hin i Hi) as [H1 H2 H3 H4].
    constructor; [done|done|done|]. intros n Hni. destruct (H4 n Hni) as [Hb|(Hl & Ho & _)]; [by left|].
    destruct (Hprot i cur Hi Hcur n Hni) as [?|?]; [by left|right]. done.
  - constructor; simpl; try done.
    + intros n Hl. apply tk_live0 in Hl. lia.
    + intros n Hd. apply tk_dead_next0 in Hd. lia.
    + intros n p Hd [Hpp|Hpp]%Hold; [by apply tk_dead_pending0|]. apply tk_dead_next0 in Hd. lia.
    + intros n Ho. apply tk_obs_next0 in Ho. lia.
Qed.

Lemma install_protected db i cur n :
  db_ok db -> db_install db = Some i -> find_version (db_current db) (db_versions db) = Some cur ->
  n ∈ version_numbers (in_new i) -> n ∈ version_numbers (v_storage cur) \/ protected (pending_outputs_ db) n.
Proof.
  intros [_ _ (cur' & Hcur' & _ & Hin) _] Hi Hcur Hn. rewrite Hcur in Hcur'. injection Hcur' as <-.
  destruct (Hin i Hi) as [_ _ _ H4]. destruct (H4 n Hn) as [?|(_ & _ & ?)]; auto.
Qed.

Lemma new_number_ok db : db_ok db -> goes_on db (Some (NewFileNumber db)).
Proof.
  intros Hok. pose proof Hok as [_ _ _ []]. apply set_numbers_ok; try done.
  - lia.
  - intros p Hp. apply tk_pending_next0 in Hp. lia.
  - by left.
  - intros i cur Hi Hc n Hn. by eapply install_protected.
Qed.

Lemma capture_ok db : db_ok db -> goes_on db (Some (CaptureCurrentFileNumberInPendingOutputs db)).
Proof.
  intros Hok. pose proof Hok as [_ _ _ []]. apply set_numbers_ok; try done.
  - apply StronglySorted_app. split_and!; [|done|repeat constructor].
    intros x y Hx Hy%list_elem_of_singleton. subst y. by apply tk_pending_next0.
  - intros p [Hp|Hp%list_elem_of_singleton]%elem_of_app; [by apply tk_pending_next0|lia].
  - intros p [Hp|Hp%list_elem_of_singleton]%elem_of_app; [by left|right; lia].
  - intros i cur Hi Hc n Hn. destruct (install_protected db i cur n) as [?|(p & Hp & Hle)]; [done..|by left|].
    right. exists p. split; [|done]. apply elem_of_app. by left.
Qed.

Lemma release_ok db v p :
  db_ok db -> pending_outputs_ db !! v = Some p ->
  (forall i cur, db_install db = Some i -> find_version (db_current db) (db_versions db) = Some cur ->
     forall n, n ∈ version_numbers (in_new i) ->
       n ∈ version_numbers (v_storage cur) \/ protected (delete v (pending_outputs_ db)) n) ->
  goes_on db (ReleaseFileNumberFromPendingOutputs v db).
Proof.
  intros Hok Hv Hprot. pose proof Hok as [_ _ _ []]. unfold ReleaseFileNumberFromPendingOutputs. rewrite Hv. simpl.
  assert (Hsub : forall q, q ∈ delete v (pending_outputs_ db) -> q ∈ pending_outputs_ db).
  { intros q. apply elem_of_delete_sub. }
  apply set_numbers_ok; try done.
  - by apply StronglySorted_delete.
  - intros q Hq. by apply tk_pending_next0, Hsub.
  - intros q Hq. left. by apply Hsub.
Qed.

(** *** Purges *)

(** A step that moves tables between the obsolete files and the purges. *)
Lemma set_jobs_ok db obs grabbed jobs deleted :
  db_ok db ->
  (forall n, n ∈ ref_numbers obs -> n ∈ obsolete_numbers db) ->
  numbers_ok (AddLiveFiles db ++ install_numbers db) (ref_numbers obs) ((jobs ≫= todo) ++ deleted)
    (pending_outputs_ db) (next_file_number_ db) ->
  (forall n, accounted db n -> accounted (set_jobs obs grabbed jobs deleted db) n) ->
  goes_on db (Some (set_jobs obs grabbed jobs deleted db)).
Proof.
  intros [Hvs Hc (cur & Hcur & Hres & Hin) Ht] Ho Ht' Ha. eexists. split; [done|]. split; [|done].
  constructor; [done|done| |done]. exists cur. split_and!; [done|done|]. intros i Hi.
  destruct (Hin i Hi) as [H1 H2 H3 H4]. constructor; [done|done|done|].
  intros n Hn. destruct (H4 n Hn) as [?|(Hl & Hob & Hp)]; [by left|right]. split_and!; [done| |done].
  intros Hob'. by apply Hob, Ho.
Qed.

Lemma set_disabled_ok db d : db_ok db -> goes_on db (Some (set_disabled d db)).
Proof.
  intros [Hvs Hc (cur & Hcur & Hres & Hin) Ht]. eexists. split; [done|]. split; [|done]. constructor; [done|done| |done].
  exists cur. split_and!; [done|done|]. intros i Hi. by destruct (Hin i Hi).
Qed.

Lemma install_not_obsolete db n :
  db_ok db -> n ∈ install_numbers db -> n ∈ obsolete_numbers db -> n ∈ AddLiveFiles db.
Proof.
  intros [_ _ (cur & Hcur & _ & Hin) _] Hn Ho. unfold install_numbers in Hn.
  destruct (db_install db) as [i|] eqn:Ei; [|by apply not_elem_of_nil in Hn].
  destruct (Hin i eq_refl) as [_ _ _ H4]. destruct (H4 n Hn) as [Hb|(_ & Hno & _)]; [|done].
  rewrite AddLiveFiles_linked. eapply ref_numbers_sub; [|exact Hb]. intros f Hf. apply list_elem_of_bind.
  exists cur. split; [done|]. by apply find_version_Some in Hcur as [? _].
Qed.

Lemma min_pending_spec db p : db_ok db -> p ∈ pending_outputs_ db -> MinObsoleteSstNumberToKeep db <= p.
Proof.
  intros [_ _ _ []] Hp. unfold MinObsoleteSstNumberToKeep.
  destruct (pending_outputs_ db) as [|q l]; [by apply not_elem_of_nil in Hp|].
  apply elem_of_cons in Hp as [->|Hp]; [lia|]. apply StronglySorted_inv in tk_pending0 as [_ Hq].
  rewrite Forall_forall in Hq. by apply Hq.
Qed.

Lemma find_step_ok db : db_ok db -> goes_on db (Some (FindObsoleteFiles db)).
Proof.
  intros Hok. pose proof Hok as [_ _ _ Ht]. unfold FindObsoleteFiles, GetObsoleteFiles.
  destruct (0 <? disable_delete_obsolete_files_ db); [by exists db|].
  set (m := MinObsoleteSstNumberToKeep db). set (live := AddLiveFiles db).
  set (files := filter (fun f => ref_number f < m) (obsolete_files_ db)).
  set (rest := filter (fun f => ~ ref_number f < m) (obsolete_files_ db)).
  set (del := files_to_del live m files).
  assert (Hdead : (if decide (files = []) then db_jobs db else db_jobs db ++ [mkJob live m files del]) ≫= todo
    ≡ₚ del ++ (db_jobs db ≫= todo)).
  { case_decide as E; [unfold del; by rewrite E|]. rewrite bind_app. simpl. by rewrite app_nil_r, Permutation_app_comm. }
  assert (Hrest : forall n, n ∈ ref_numbers rest -> n ∈ obsolete_numbers db /\ m <= n).
  { intros n (f & -> & [Hm Hf]%list_elem_of_filter)%elem_of_ref_numbers. split; [|lia]. apply elem_of_ref_numbers. eauto. }
  assert (Hdel : forall n, n ∈ del <-> n ∈ obsolete_numbers db /\ (n ∉ live) /\ n < m).
  { intros n. unfold del, files_to_del. rewrite list_elem_of_filter, elem_of_remove_dups. split.
    - intros [[Hl Hm] (f & -> & [_ Hf]%list_elem_of_filter)%elem_of_ref_numbers].
      split_and!; [apply elem_of_ref_numbers; eauto|done|lia].
    - intros ((f & -> & Hf)%elem_of_ref_numbers & Hl & Hm). split; [split; [done|lia]|].
      apply elem_of_ref_numbers. exists f. split; [done|]. by apply list_elem_of_filter. }
  apply set_jobs_ok; [done| | |].
  - intros n Hn. by apply Hrest.
  - apply (tables_perm _ _ (del ++ dead_numbers db)); [unfold dead_numbers; by rewrite Hdead, <- app_assoc|].
    eapply tables_find; [exact Ht|apply NoDup_filter, NoDup_remove_dups| |intros n Hn; by apply Hrest].
    intros n (Ho & Hl & Hm)%Hdel. split_and!; [done| | |].
    + intros [Hn|Hn]%elem_of_app; [done|]. apply Hl. by apply install_not_obsolete.
    + intros Hn. apply Hrest in Hn as [_ Hn]. lia.
    + intros p Hp. pose proof (min_pending_spec db p Hok Hp). fold m in H. lia.
  - intros n. unfold accounted, dead_numbers. simpl. rewrite elem_of_app, Hdead, !elem_of_app.
    intros [Hn|[Hn|Hn]]; [by left| |tauto].
    destruct (decide (n ∈ live)) as [Hl|Hl]; [by left|right]. destruct (decide (n < m)) as [Hm|Hm].
    + right. left. left. by apply Hdel.
    + left. apply elem_of_ref_numbers in Hn as (f & -> & Hf). apply elem_of_ref_numbers. exists f.
      split; [done|]. by apply list_elem_of_filter.
Qed.

Lemma purge_next_ok db j job :
  db_ok db -> db_jobs db !! j = Some job -> todo job <> [] -> goes_on db (purge_next j db).
Proof.
  intros Hok Hj Ht. unfold purge_next. rewrite Hj. simpl. destruct (todo job) as [|n rest] eqn:E; [done|].
  set (job' := mkJob _ _ _ rest).
  assert (Hp : dead_numbers db ≡ₚ (<[j := job']> (db_jobs db) ≫= todo) ++ n :: db_deleted db).
  { destruct (bind_split todo _ _ _ Hj) as (r & H1 & H2). unfold dead_numbers. rewrite H1, H2, E. simpl.
    rewrite <- !app_assoc. simpl. by rewrite app_assoc, Permutation_middle, <- app_assoc. }
  apply set_jobs_ok; [done|done| |].
  - eapply tables_perm; [exact Hp|]. by destruct Hok.
  - intros m. unfold accounted. unfold dead_numbers at 2. simpl. by rewrite Hp.
Qed.

Lemma purge_end_ok db j job :
  db_ok db -> db_jobs db !! j = Some job -> todo job = [] -> goes_on db (purge_end j db).
Proof.
  intros Hok Hj Ht. unfold purge_end. rewrite Hj. simpl. rewrite Ht.
  assert (Hp : dead_numbers db ≡ₚ (delete j (db_jobs db) ≫= todo) ++ db_deleted db).
  { unfold dead_numbers. rewrite (delete_Permutation _ _ _ Hj) at 1. simpl. by rewrite Ht. }
  apply set_jobs_ok; [done|done| |].
  - eapply tables_perm; [exact Hp|]. by destruct Hok.
  - intros m. unfold accounted. unfold dead_numbers at 2. simpl. by rewrite Hp.
Qed.
End Life.

(** ** The life of a database *)

Inductive db_op :=
  | OpNewNumber
  | OpCapture
  | OpRelease (v : nat)
  | OpRef (id : nat)
  | OpUnref (id : nat)
  | OpBegin (edits : list VersionEdit)
  | OpEnd (ok : bool)
  | OpFind
  | OpPurge (j : nat)
  | OpPurgeEnd (j : nat)
  | OpDisable
  | OpEnable (force : bool).

(** A database with one empty version. *)
Definition DB_make (levels : nat) (nvmcf : bool) (next : Z) : DBState :=
  mkDB (mkStore ∅ 0) [mkVer 0 1 (mkVSt (replicate levels []) nvmcf)] 0 1 None [] [] next [] [] [] 0.

(** The purges that run go on to their end; one unit of fuel per table and per purge. *)
Fixpoint run_purges (fuel : nat) (db : DBState) : option DBState :=
  match db_jobs db, fuel with
  | [], _ => Some db
  | _ :: _, O => None
  | job :: _, S fuel =>
      db ← (match todo job with [] => purge_end 0 db | _ => purge_next 0 db end);
      run_purges fuel db
  end.

Definition purge_steps (jobs : list JobContext) : nat := sum_list_with (fun j => S (length (todo j))) jobs.

Section Run.
Context (icmp : Comparator) {Laws : ComparatorLaws icmp}.
Implicit Types (db : DBState).

Definition db_exec db (op : db_op) : option DBState :=
  match op with
  | OpNewNumber => Some (NewFileNumber db)
  | OpCapture => Some (CaptureCurrentFileNumberInPendingOutputs db)
  | OpRelease v => ReleaseFileNumberFromPendingOutputs v db
  | OpRef id => Version_Ref id db
  | OpUnref id => Version_Unref id db
  | OpBegin edits => begin_install icmp edits db
  | OpEnd ok => end_install ok db
  | OpFind => Some (FindObsoleteFiles db)
  | OpPurge j => purge_next j db
  | OpPurgeEnd j => purge_end j db
  | OpDisable => Some (DisableFileDeletions db)
  | OpEnable force => Some (EnableFileDeletions force db)
  end.

(** What the callers respect: a job keeps its pending output while the new tables of a
    running installation need it, a reader drops only a reference it took, one
    installation runs at a time, and its edits are legal. *)
Definition legal_db_op db (op : db_op) : Prop :=
  match op with
  | OpNewNumber | OpCapture | OpFind | OpDisable | OpEnable _ => True
  | OpRelease v => is_Some (pending_outputs_ db !! v) /\
      forall i cur, db_install db = Some i -> find_version (db_current db) (db_versions db) = Some cur ->
        forall n, n ∈ version_numbers (in_new i) ->
          n ∈ version_numbers (v_storage cur) \/ protected (delete v (pending_outputs_ db)) n
  | OpRef id => id ∈ (v_id <$> db_versions db)
  | OpUnref id => exists v, find_version id (db_versions db) = Some v /\ (id = db_current db -> reserved db < v_refs v)
  | OpBegin edits => db_install db = None /\
      exists cur, find_version (db_current db) (db_versions db) = Some cur /\ legal_install icmp db cur edits
  | OpEnd _ => is_Some (db_install db)
  | OpPurge j => exists job, db_jobs db !! j = Some job /\ todo job <> []
  | OpPurgeEnd j => exists job, db_jobs db !! j = Some job /\ todo job = []
  end.

Definition db_run db (ops : list db_op) : option DBState := fold_opt db_exec db ops.

Fixpoint legal_db_ops db (ops : list db_op) : Prop :=
  match ops with
  | [] => True
  | op :: ops => legal_db_op db op /\ forall db', db_exec db op = Some db' -> legal_db_ops db' ops
  end.

Lemma db_exec_ok db op : db_ok icmp db -> legal_db_op db op -> goes_on icmp db (db_exec db op).
Proof using Laws.
  intros Hok Hop. destruct op as [| |v|id|id|edits|ok| |j|j| |force]; simpl in *.
  - by apply new_number_ok.
  - by apply capture_ok.
  - destruct Hop as [[p Hp] Hop]. by eapply release_ok.
  - by apply ref_step_ok.
  - destruct Hop as (v & Hv & Hr). by eapply unref_step_ok.
  - destruct Hop as (Hno & cur & Hcur & Hl). by eapply begin_install_ok.
  - destruct Hop as [i Hi]. destruct ok; [by eapply end_installed_ok|by eapply end_failed_ok].
  - by apply find_step_ok.
  - destruct Hop as (job & Hj & Ht). by eapply purge_next_ok.
  - destruct Hop as (job & Hj & Ht). by eapply purge_end_ok.
  - by apply set_disabled_ok.
  - by apply set_disabled_ok.
Qed.

Lemma db_run_ok db ops : db_ok icmp db -> legal_db_ops db ops -> goes_on icmp db (db_run db ops).
Proof using Laws.
  revert db. induction ops as [|op ops IH]; intros db Hok Hl; [exists db; auto|].
  destruct Hl as [Hop Hl]. destruct (db_exec_ok db op Hok Hop) as (db1 & E & Hok1 & Ha).
  unfold db_run. simpl. rewrite E. simpl. eapply goes_on_trans; [exact Ha|]. apply IH; auto.
Qed.

Lemma DB_make_ok levels nvmcf next : db_ok icmp (DB_make levels nvmcf next).
Proof.
  assert (Hr : version_refs (mkVSt (replicate levels []) nvmcf) = []).
  { unfold version_refs. simpl. by induction levels. }
  assert (Hm : forall l, level_metas (mkVSt (replicate levels []) nvmcf) l = []).
  { intros l. unfold level_metas. simpl. destruct (_ !z l) as [fs|] eqn:E; [|done].
    apply zget_Some in E as [_ E]. by apply lookup_replicate in E as [-> _]. }
  assert (Hl : linked [mkVer 0 1 (mkVSt (replicate levels []) nvmcf)] = []).
  { unfold linked. simpl. by rewrite Hr. }
  constructor; unfold DB_make; cbn [db_store db_versions db_current db_next_version].
  - constructor.
    + apply NoDup_singleton.
    + intros v Hv%list_elem_of_singleton. subst v. simpl. lia.
    + intros v Hv%list_elem_of_singleton. by subst v.
    + intros v Hv%list_elem_of_singleton. subst v. simpl. constructor.
      * intros l _. rewrite Hm. unfold check_level. by case_match.
      * intros l. rewrite Hm. constructor.
      * intros l. rewrite Hm. constructor.
  - rewrite Hl. constructor; [done|set_solver|set_solver].
  - eexists. split_and!; [done|done|done].
  - rewrite AddLiveFiles_linked. cbn [db_versions]. rewrite Hl. constructor; simpl; try (intros n Hn; by apply not_elem_of_nil in Hn);
      try (intros n p Hn; by apply not_elem_of_nil in Hn); constructor.
Qed.

Lemma run_purges_ok fuel db :
  db_ok icmp db -> (purge_steps (db_jobs db) <= fuel)%nat ->
  exists db', run_purges fuel db = Some db' /\ db_jobs db' = [] /\ obsolete_files_ db' = obsolete_files_ db /\
    db_versions db' = db_versions db /\ forall n, accounted db n -> accounted db' n.
Proof.
  revert db. induction fuel as [|fuel IH]; intros db Hok Hf; simpl;
    destruct (db_jobs db) as [|job jobs] eqn:E; try (exists db; by auto); [unfold purge_steps in Hf; simpl in Hf; lia|].
  assert (Hj : db_jobs db !! 0%nat = Some job) by (by rewrite E).
  unfold purge_steps in Hf. simpl in Hf. destruct (todo job) as [|n rest] eqn:Et.
  - destruct (purge_end_ok icmp db 0 job Hok Hj Et) as (db1 & H1 & Hok1 & Ha). rewrite H1. simpl.
    unfold purge_end in H1. rewrite Hj in H1. simpl in H1. rewrite Et in H1. injection H1 as <-.
    destruct (IH _ Hok1) as (db' & Hr & H2 & H3 & H4 & Ha'); [simpl; rewrite E; simpl in *; unfold purge_steps; lia|].
    exists db'. split_and!; try done. intros m Hm. by apply Ha', Ha.
  - destruct (purge_next_ok icmp db 0 job Hok Hj) as (db1 & H1 & Hok1 & Ha); [by rewrite Et|]. rewrite H1. simpl.
    unfold purge_next in H1. rewrite Hj in H1. simpl in H1. rewrite Et in H1. injection H1 as <-.
    destruct (IH _ Hok1) as (db' & Hr & H2 & H3 & H4 & Ha'); [simpl; rewrite E; simpl in *; unfold purge_steps; simpl; lia|].
    exists db'. split_and!; try done. intros m Hm. by apply Ha', Ha.
Qed.

Lemma GetNumber_bound fd : GetNumber fd < 2 ^ 64 - 1.
Proof.
  unfold GetNumber. change kFileNumberMask with (Z.ones 62). rewrite Z.land_ones by lia.
  pose proof (Z.mod_pos_bound (packed_number_and_path_id fd) (2 ^ 62)). lia.
Qed.

(** A purge deletes the tables of its job. *)
Lemma PurgeObsoleteFiles_ok fuel j db job :
  db_ok icmp db -> db_jobs db !! j = Some job -> (length (todo job) <= fuel)%nat ->
  exists db', PurgeObsoleteFiles fuel j db = Some db' /\ db_ok icmp db' /\ (forall n, accounted db n -> accounted db' n) /\
    db_versions db' = db_versions db /\ obsolete_files_ db' = obsolete_files_ db /\ forall n, n ∈ todo job \/ n ∈ db_deleted db -> n ∈ db_deleted db'.
Proof.
  revert db job. induction fuel as [|fuel IH]; intros db job Hok Hj Hf; simpl; rewrite Hj; simpl; destruct (todo job) as [|n rest] eqn:Et; simpl in Hf; try lia.
  1, 2: destruct (purge_end_ok icmp db j job Hok Hj Et) as (db' & E & Hok' & Ha); exists db'; rewrite E; split_and!; try done;
    unfold purge_end in E; rewrite Hj in E; simpl in E; rewrite Et in E; injection E as <-; try done; by intros n [Hn%elem_of_nil|Hn].
  destruct (purge_next_ok icmp db j job Hok Hj) as (db1 & E & Hok1 & Ha); [by rewrite Et|]. rewrite E. simpl.
  unfold purge_next in E. rewrite Hj in E. simpl in E. rewrite Et in E. injection E as <-. set (job' := mkJob _ _ _ rest) in *.
  destruct (IH _ job' Hok1) as (db' & -> & Hok' & Ha' & Hv & Ho & Hd); [simpl; apply list_lookup_insert_eq; by apply lookup_lt_Some in Hj|simpl; lia|].
  exists db'. split_and!; [done|done|auto|done|done|]. intros m [[->|Hm]%elem_of_cons|Hm]; apply Hd; simpl; rewrite ?elem_of_cons; auto.
Qed.

(** A table that is not listed is found by a search, or a purge has it. *)
Lemma FindObsoleteFiles_found db n :
  disable_delete_obsolete_files_ db <= 0 -> pending_outputs_ db = [] -> n ∉ AddLiveFiles db ->
  obsolete_files_ (FindObsoleteFiles db) = [] /\
  (n ∈ obsolete_numbers db -> exists job, db_jobs (FindObsoleteFiles db) !! length (db_jobs db) = Some job /\ n ∈ todo job).
Proof.
  intros Hd Hp Hl. unfold FindObsoleteFiles, GetObsoleteFiles, MinObsoleteSstNumberToKeep. destruct (Z.ltb_spec 0 (disable_delete_obsolete_files_ db)); [lia|]. rewrite Hp. cbn [set_jobs obsolete_files_ db_jobs].
  rewrite (filter_id (fun f => ref_number f < 2 ^ 64 - 1)) by (intros f _; apply GetNumber_bound). split.
  - apply filter_none. intros f _ Hf. apply Hf, GetNumber_bound.
  - intros Hn. rewrite decide_False by (intros E; unfold obsolete_numbers in Hn; by rewrite E in Hn; apply elem_of_nil in Hn).
    eexists. split; [by rewrite lookup_app_r, Nat.sub_diag by done|]. cbn [todo]. apply list_elem_of_filter. rewrite elem_of_remove_dups. split; [|done]. split; [done|].
    apply elem_of_ref_numbers in Hn as (f & -> & _). pose proof (GetNumber_bound (f_fd (fr_meta f))) as Hb. intros ?. change (ref_number f) with (GetNumber (f_fd (fr_meta f))) in *. lia.
Qed.

Lemma search_and_purge_ok db n :
  db_ok icmp db -> disable_delete_obsolete_files_ db <= 0 -> pending_outputs_ db = [] -> accounted db n -> n ∉ AddLiveFiles db ->
  exists db', search_and_purge db = Some db' /\ db_ok icmp db' /\ accounted db' n /\ obsolete_files_ db' = [] /\ db_versions db' = db_versions db /\
    (n ∈ db_deleted db' \/ exists job, job ∈ db_jobs db /\ n ∈ todo job).
Proof.
  intros Hok Hd Hp Ha Hl. destruct (find_step_ok icmp db Hok) as (db1 & E & Hok1 & Ha1). injection E as E.
  destruct (FindObsoleteFiles_found db n Hd Hp Hl) as [Hob Hfound]. unfold search_and_purge. cbv zeta.
  assert (db_versions (FindObsoleteFiles db) = db_versions db /\ db_deleted (FindObsoleteFiles db) = db_deleted db) as [Hv Hdel]
    by (unfold FindObsoleteFiles; by case_match).
  rewrite E in *. destruct (db_jobs db1 !! length (db_jobs db)) as [job|] eqn:Hj.
  - destruct (PurgeObsoleteFiles_ok (length (todo job)) _ db1 job Hok1 Hj (le_n _)) as (db' & -> & Hok' & Ha' & Hv' & Ho' & Hd').
    exists db'. split_and!; [done|done|auto|congruence|congruence|]. destruct Ha as [?|[Hn|Hn]]; [done| |].
    + left. apply Hd'. left. destruct (Hfound Hn) as (job' & [= <-] & ?). done.
    + unfold dead_numbers in Hn. apply elem_of_app in Hn as [Hn|Hn]; [right|left; apply Hd'; right; by rewrite Hdel]. apply list_elem_of_bind in Hn as (job' & ? & ?). by exists job'.
  - exists db1. split_and!; [done|done|auto|done|done|]. destruct Ha as [?|[Hn|Hn]]; [done|by destruct (Hfound Hn) as (? & ? & _)|].
    unfold dead_numbers in Hn. apply elem_of_app in Hn as [Hn|Hn]; [right|left; by rewrite Hdel]. apply list_elem_of_bind in Hn as (job' & ? & ?). by exists job'.
Qed.

(** C4. No table is deleted while a version lists it: in every state that legal
    sequences of file-number captures, installations (succeeding or failing, with the
    mutex released in between), references, searches for obsolete files and purge steps
    reach, no purge has deleted or will delete a table of a version (an NVM table that
    was deleted and added again under its number included), no table is deleted twice,
    and the reference count of every file object is the number of references to it. *)
Theorem live_tables_kept levels nvmcf next ops :
  legal_db_ops (DB_make levels nvmcf next) ops ->
  exists db, db_run (DB_make levels nvmcf next) ops = Some db /\
    (forall v n, v ∈ db_versions db -> n ∈ version_numbers (v_storage v) -> n ∉ dead_numbers db) /\
    NoDup (db_deleted db) /\ counts (db_store db) (linked (db_versions db) ++ install_refs db).
Proof using Laws.
  intros Hl. destruct (db_run_ok _ ops (DB_make_ok levels nvmcf next) Hl) as (db & Hr & [_ Hc _ []] & _).
  exists db. split_and!; [done| | |done].
  - intros v n Hv Hn Hd. apply (tk_dead0 n Hd). apply elem_of_app. left. apply list_elem_of_bind. by exists v.
  - unfold dead_numbers in tk_once0. by apply NoDup_app in tk_once0 as (_ & _ & ?).
Qed.

(** C16. No table leaks: a table that some version listed and that no version lists any more is deleted by the next search for
    obsolete files and the purge of what it found, or was taken by a purge that already ran before it, once deletions are not
    disabled and no job holds a pending output; when the other purges that run have ended too, it is deleted in either case.
    The searches do not scan the directory. *)
Theorem dropped_tables_deleted levels nvmcf next ops1 db1 ops2 db2 n :
  legal_db_ops (DB_make levels nvmcf next) ops1 -> db_run (DB_make levels nvmcf next) ops1 = Some db1 ->
  n ∈ AddLiveFiles db1 -> legal_db_ops db1 ops2 -> db_run db1 ops2 = Some db2 ->
  n ∉ AddLiveFiles db2 -> pending_outputs_ db2 = [] -> disable_delete_obsolete_files_ db2 <= 0 ->
  exists db3 db4, search_and_purge db2 = Some db3 /\ (n ∈ db_deleted db3 \/ exists job, job ∈ db_jobs db2 /\ n ∈ todo job) /\
    run_purges (purge_steps (db_jobs db3)) db3 = Some db4 /\ n ∈ db_deleted db4.
Proof using Laws.
  intros Hl1 Hr1 Hn Hl2 Hr2 Hno Hp Hd.
  destruct (db_run_ok _ ops1 (DB_make_ok levels nvmcf next) Hl1) as (db & E & Hok1 & _).
  rewrite Hr1 in E. injection E as <-.
  destruct (db_run_ok _ ops2 Hok1 Hl2) as (db & E & Hok2 & Ha). rewrite Hr2 in E. injection E as <-.
  destruct (search_and_purge_ok db2 n Hok2 Hd Hp (Ha n ltac:(by left)) Hno) as (db3 & E3 & Hok3 & Ha3 & Ho3 & Hv3 & Hdel).
  destruct (run_purges_ok _ db3 Hok3 (le_n _)) as (db4 & E4 & Hj & Ho & Hv & Ha4). exists db3, db4. split_and!; [done|done|done|].
  apply Ha4 in Ha3 as [Hn4|[Hn4|Hn4]].
  - destruct Hno. rewrite AddLiveFiles_linked in Hn4 |- *. by rewrite Hv, Hv3 in Hn4.
  - unfold obsolete_numbers in Hn4. rewrite Ho, Ho3 in Hn4. by apply elem_of_nil in Hn4.
  - unfold dead_numbers in Hn4. by rewrite Hj in Hn4.
Qed.
End Run.

(** ** Simple edits *)

Lemma legal_add_table base cur l f :
  0 <= l < len (vst_files base) -> vst_is_nvmcf base = true -> f_is_nvm_level0 f = true ->
  (forall l, NoDup (numbers (cur l))) -> GetNumber (f_fd f) ∉ numbers (cur l) ->
  legal_edit base cur (AddFileMeta l f VersionEdit_Clear).
Proof.
  intros Hl Hn Hf Hnd Hnew. constructor; simpl.
  - constructor.
  - intros l' k Hk. by apply not_elem_of_nil in Hk.
  - intros l' g Hg. apply list_elem_of_singleton in Hg as [= -> ->]. done.
  - intros l' g Hg. apply list_elem_of_singleton in Hg as [= -> ->]. by rewrite Hf.
  - intros l'. unfold edit_level, undeleted, new_in. simpl. rewrite filter_id by (intros; apply not_elem_of_nil).
    rewrite filter_cons. case_decide as E; simpl in *; [subst l'|by rewrite app_nil_r].
    unfold numbers. rewrite fmap_app. apply NoDup_app. split_and!; [apply Hnd| |apply NoDup_singleton].
    intros n Hn' E%list_elem_of_singleton. subst n. done.
Qed.

Lemma legal_delete_table base cur l k :
  0 <= l < len (vst_files base) -> (forall l, NoDup (numbers (cur l))) -> k ∈ numbers (cur l) ->
  legal_edit base cur (DeleteFile l k VersionEdit_Clear).
Proof.
  intros Hl Hnd Hk. constructor; simpl.
  - apply NoDup_singleton.
  - intros l' k' Hk'. apply list_elem_of_singleton in Hk' as [= -> ->]. done.
  - intros l' g Hg. by apply not_elem_of_nil in Hg.
  - intros l' g Hg. by apply not_elem_of_nil in Hg.
  - intros l'. unfold edit_level, new_in. simpl. rewrite app_nil_r. by apply NoDup_fmap_filter.
Qed.

(** ** A small instance *)

(** A table is flushed and installed, a reader takes the version, the table is removed
    while deletions are disabled, the reader leaves. *)
Definition sample_flush_ops : list db_op :=
  [OpCapture; OpNewNumber; OpBegin [AddFileMeta 0 (sample_nvm_table 0) VersionEdit_Clear]; OpEnd true; OpRelease 0; OpRef 1].
Definition sample_drop_ops : list db_op :=
  [OpBegin [DeleteFile 0 5 VersionEdit_Clear]; OpDisable; OpFind; OpEnd true; OpEnable false; OpFind; OpUnref 1].

Abbreviation sample_icmp := (InternalKeyComparator BytewiseComparator).

(** The states of the run. *)
Definition sample_db (ops : list db_op) : DBState :=
  default (DB_make 0 false 0) (db_run sample_icmp (DB_make 2 true 5) ops).

Lemma sample_flush_legal : legal_db_ops sample_icmp (DB_make 2 true 5) sample_flush_ops.
Proof.
  split; [done|]. intros db [= <-]. split; [done|]. intros db [= <-]. split.
  { split; [done|]. eexists. split; [vm_compute; reflexivity|].
    assert (Hnil : forall l, level_metas (mkVSt [[]; []] true) l = []).
    { intros l. unfold level_metas. destruct (_ !z l) as [fs|] eqn:E; [|done].
      apply zget_Some in E as [_ E]. by destruct (Z.to_nat l) as [|[|]]; simplify_eq/=. }
    constructor.
    - split; [|done]. apply legal_add_table; [done|done|done| |]; intros; cbn [v_storage]; rewrite Hnil; [constructor|].
      apply not_elem_of_nil.
    - intros l Hl. change (0 <= l < 2) in Hl. assert (l = 0 \/ l = 1) as [->| ->] by lia; by vm_compute.
    - intros e l f He Hf. apply list_elem_of_singleton in He as ->. apply list_elem_of_singleton in Hf as [= -> ->].
      right. split_and!; [apply (bool_decide_unpack _); vm_compute; exact I..| |done]. exists 5. split; [left|done]. }
  intros db E. vm_compute in E. injection E as <-. split; [by eexists|].
  intros db E. vm_compute in E. injection E as <-. split; [split; [by eexists|done]|].
  intros db E. vm_compute in E. injection E as <-. split; [|done].
  unfold legal_db_op. apply (bool_decide_unpack _); vm_compute; exact I.
Qed.

Lemma sample_drop_legal : legal_db_ops sample_icmp (sample_db sample_flush_ops) sample_drop_ops.
Proof.
  set (db0 := sample_db sample_flush_ops). assert (E0 : db0 = sample_db sample_flush_ops) by done.
  clearbody db0. vm_compute in E0. subst db0. split.
  { split; [done|]. eexists. split; [vm_compute; reflexivity|]. cbn [v_storage]. set (v := mkVSt _ _).
    assert (Hout : forall l, l <> 0 -> level_metas v l = []).
    { intros l Hl. unfold level_metas, v. cbn [vst_files]. destruct (_ !z l) as [fs|] eqn:E; [|done].
      apply zget_Some in E as [? E]. destruct (Z.to_nat l) as [|[|]] eqn:El; [lia| |]; by simplify_eq/=. }
    constructor; cbn [v_storage].
    - split; [|done]. apply legal_delete_table; [done| |apply (bool_decide_unpack _); vm_compute; exact I].
      intros l. destruct (decide (l = 0)) as [->|Hl]; [apply (bool_decide_unpack _); vm_compute; exact I|]. rewrite Hout by done. constructor.
    - intros l Hl. change (0 <= l < 2) in Hl. assert (l = 0 \/ l = 1) as [->| ->] by lia; by vm_compute.
    - intros e l f He Hf. apply list_elem_of_singleton in He as ->. by apply not_elem_of_nil in Hf. }
  do 2 (intros db E; vm_compute in E; injection E as <-; split; [done|]).
  intros db E. vm_compute in E. injection E as <-. split; [by eexists|].
  do 2 (intros db E; vm_compute in E; injection E as <-; split; [done|]).
  intros db E. vm_compute in E. injection E as <-. split; [|done].
  eexists. split; [vm_compute; reflexivity|done].
Qed.

Lemma live_tables_kept_witness :
  exists db, db_run sample_icmp (DB_make 2 true 5) sample_flush_ops = Some db /\ NoDup (db_deleted db).
Proof.
  destruct (live_tables_kept sample_icmp 2 true 5 sample_flush_ops sample_flush_legal) as (db & H & _ & Hn & _).
  exists db. auto.
Defined.

Lemma dropped_tables_deleted_witness :
  let db2 := sample_db (sample_flush_ops ++ sample_drop_ops) in
  exists db3 db4, search_and_purge db2 = Some db3 /\ (5 ∈ db_deleted db3 \/ exists job, job ∈ db_jobs db2 /\ 5 ∈ todo job) /\
    run_purges (purge_steps (db_jobs db3)) db3 = Some db4 /\ 5 ∈ db_deleted db4.
Proof.
  apply (dropped_tables_deleted sample_icmp 2 true 5 sample_flush_ops (sample_db sample_flush_ops) sample_drop_ops).
  - exact sample_flush_legal.
  - by vm_compute.
  - apply (bool_decide_unpack _); vm_compute; exact I.
  - exact sample_drop_legal.
  - by vm_compute.
  - apply (bool_decide_unpack _); vm_compute; exact I.
  - by vm_compute.
  - by vm_compute.
Defined.
