(* ===== verification/KeysMerge.v ===== *)
(** * Merging the keys of level-0 tables (utilities/nvm_mod/keys_merge_iterator.h)

    The iterator keeps one position per table, [-1] for a table at its end, and points
    at the table with the smallest (or largest) user key.  Positions are C ints. *)

From S2P Require Import Prelude Coding Comparator DbFormat VersionEdit SstableMeta.

Record KeysMergeIterator := mkKMI {
  kmi_files : list FileEntry;
  kmi_first_key_indexs : list Z;
  child_current_ : list Z;
  current_ : Z;
}.

Definition KeysMergeIterator_make (files : list FileEntry) (first_key_indexs : list Z) : KeysMergeIterator :=
  mkKMI files first_key_indexs (replicate (length files) (-1)) (-1).

Definition kmi_set (it : KeysMergeIterator) (child : list Z) (current : Z) : KeysMergeIterator :=
  mkKMI (kmi_files it) (kmi_first_key_indexs it) child current.

Definition files_num (it : KeysMergeIterator) : Z := len (kmi_files it).

(** The key metadata at position [key] of table [i]. *)
Definition key_meta_at (files : list FileEntry) (i key : Z) : option KeysMetadata :=
  f ← files !z i; keys_meta f !z key.

Definition user_key_at (files : list FileEntry) (i key : Z) : option bytes :=
  k ← key_meta_at files i key; Some (ExtractUserKey (km_key k)).

Section Merge.
Context (ucmp : Comparator).

(** The key table [i] points at. *)
Definition child_key (it : KeysMergeIterator) (i : Z) : option bytes :=
  c ← child_current_ it !z i; user_key_at (kmi_files it) i c.

(** The loop of [FindSmallest] from table [i]; [n] tables are left. *)
Fixpoint FindSmallest_loop (it : KeysMergeIterator) (n : nat) (i smallest : Z) : option Z :=
  match n with
  | O => Some smallest
  | S n =>
      c ← child_current_ it !z i;
      smallest ←
        (if c =? -1 then Some smallest
         else if smallest =? -1 then Some i
         else a ← child_key it i; b ← child_key it smallest;
              Some (if Compare ucmp a b <? 0 then i else smallest));
      FindSmallest_loop it n (i + 1) smallest
  end.

Definition FindSmallest (it : KeysMergeIterator) : option KeysMergeIterator :=
  smallest ← FindSmallest_loop it (length (kmi_files it)) 0 (-1);
  Some (kmi_set it (child_current_ it) smallest).

(** The loop of [FindLargest] down from table [n - 1]. *)
Fixpoint FindLargest_loop (it : KeysMergeIterator) (n : nat) (largest : Z) : option Z :=
  match n with
  | O => Some largest
  | S n =>
      let i := Z.of_nat n in
      c ← child_current_ it !z i;
      largest ←
        (if c =? -1 then Some largest
         else if largest =? -1 then Some i
         else a ← child_key it i; b ← child_key it largest;
              Some (if 0 <? Compare ucmp a b then i else largest));
      FindLargest_loop it n largest
  end.

Definition FindLargest (it : KeysMergeIterator) : option KeysMergeIterator :=
  largest ← FindLargest_loop it (length (kmi_files it)) (-1);
  Some (kmi_set it (child_current_ it) largest).

Definition KMI_SeekToFirst (it : KeysMergeIterator) : option KeysMergeIterator :=
  FindSmallest (kmi_set it (i32 <$> kmi_first_key_indexs it) (current_ it)).

Definition KMI_SeekToLast (it : KeysMergeIterator) : option KeysMergeIterator :=
  FindLargest (kmi_set it ((fun f => i32 (wrap64 (keys_num f - 1))) <$> kmi_files it) (current_ it)).

Definition KMI_Valid (it : KeysMergeIterator) : bool := negb (current_ it =? -1).

Definition KMI_Next (it : KeysMergeIterator) : option KeysMergeIterator :=
  c ← child_current_ it !z current_ it;
  f ← kmi_files it !z current_ it;
  let c := i32 (c + 1) in
  child ← zset (child_current_ it) (current_ it) (if keys_num f <=? wrap64 c then -1 else c);
  FindSmallest (kmi_set it child (current_ it)).

(** The current table and the position in it. *)
Definition GetCurret (it : KeysMergeIterator) : option (Z * Z) :=
  key_index ← child_current_ it !z current_ it; Some (current_ it, key_index).
End Merge.

(** ** The merge order *)

Section MergeOrder.
Context (ucmp : Comparator) {Laws : ComparatorLaws ucmp}.
Implicit Types (it : KeysMergeIterator) (f : FileEntry).

(** Tables with keys in user key order, and positions in their visible part. *)
Record kmi_ok it : Prop := {
  kk_child : length (child_current_ it) = length (kmi_files it);
  kk_num i f : kmi_files it !z i = Some f -> keys_num f = len (keys_meta f) /\ len (keys_meta f) < 2 ^ 31;
  kk_sorted i f a b ka kb : kmi_files it !z i = Some f -> keys_meta f !z a = Some ka -> keys_meta f !z b = Some kb ->
    a <= b -> Compare ucmp (ExtractUserKey (km_key ka)) (ExtractUserKey (km_key kb)) <= 0;
  kk_pos i f c : kmi_files it !z i = Some f -> child_current_ it !z i = Some c ->
    c = -1 \/ 0 <= c < len (keys_meta f);
}.

(** The number of keys table [i] has passed. *)
Definition passed_of (c : Z) f : Z := if c =? -1 then len (keys_meta f) else c.

Definition kmi_pos it : list Z := zip_with passed_of (child_current_ it) (kmi_files it).

(** The keys not passed yet. *)
Definition keys_left it : nat :=
  sum_list (zip_with (fun c f => Z.to_nat (len (keys_meta f) - passed_of c f)) (child_current_ it) (kmi_files it)).

(** Key [j] of table [i] has not been passed. *)
Definition is_left it (i j : Z) (u : bytes) : Prop :=
  exists p, kmi_pos it !z i = Some p /\ p <= j /\ user_key_at (kmi_files it) i j = Some u.

(** The table [s] is the one the code looks for. *)
Definition smallest_at it (s : Z) : Prop :=
  (s = -1 /\ forall i c, child_current_ it !z i = Some c -> c = -1) \/
  exists c u, child_current_ it !z s = Some c /\ c <> -1 /\ user_key_at (kmi_files it) s c = Some u /\
    forall i ci v, child_current_ it !z i = Some ci -> ci <> -1 -> user_key_at (kmi_files it) i ci = Some v ->
      Compare ucmp u v <= 0 /\ (i < s -> Compare ucmp u v < 0).

Lemma child_key_Some it i c :
  kmi_ok it -> child_current_ it !z i = Some c -> c <> -1 ->
  exists u, user_key_at (kmi_files it) i c = Some u /\ child_key it i = Some u.
Proof.
  intros Hok Hc Hne. pose proof (zget_range _ _ _ Hc) as Hr.
  destruct (zget_is_Some (kmi_files it) i) as [f Hf].
  { destruct Hok as [Hl _ _ _]. unfold zlen in *. lia. }
  destruct (kk_pos _ Hok i f c Hf Hc) as [?|Hcr]; [done|].
  destruct (zget_is_Some (keys_meta f) c Hcr) as [k Hk].
  unfold child_key, user_key_at, key_meta_at. rewrite Hc. simpl. rewrite Hf. simpl. rewrite Hk. simpl. eauto.
Qed.

(** The loop invariant of [FindSmallest]: [s] is right for the tables before [i]. *)
Definition smallest_before it (i s : Z) : Prop :=
  (s = -1 /\ forall j c, child_current_ it !z j = Some c -> j < i -> c = -1) \/
  exists c u, s < i /\ child_current_ it !z s = Some c /\ c <> -1 /\ user_key_at (kmi_files it) s c = Some u /\
    forall j cj v, child_current_ it !z j = Some cj -> cj <> -1 -> j < i -> user_key_at (kmi_files it) j cj = Some v ->
      Compare ucmp u v <= 0 /\ (j < s -> Compare ucmp u v < 0).

Lemma FindSmallest_loop_ok it (n : nat) i s :
  kmi_ok it -> 0 <= i -> i + Z.of_nat n = files_num it -> smallest_before it i s ->
  exists s', FindSmallest_loop ucmp it n i s = Some s' /\ smallest_at it s'.
Proof.
  intros Hok. revert i s. induction n as [|n IH]; intros i s Hi Hn Hs; simpl.
  - exists s. split; [done|]. assert (Hlt : forall j c, child_current_ it !z j = Some c -> j < i).
    { intros j c Hc%zget_range. destruct Hok as [Hl _ _ _]. unfold files_num, zlen in *. lia. }
    destruct Hs as [[-> H]|(c & u & ? & ? & ? & ? & H)]; [left|right]; [eauto|].
    exists c, u. split_and!; try done. intros j cj v Hj Hne Hv. eapply H; eauto.
  - destruct (zget_is_Some (child_current_ it) i) as [c Hc].
    { destruct Hok as [Hl _ _ _]. unfold files_num, zlen in *. lia. }
    rewrite Hc. simpl. destruct (Z.eqb_spec c (-1)) as [->|Hne]; simpl.
    { apply IH; [lia|lia|]. destruct Hs as [[-> H]|(c' & u & ? & ? & ? & ? & H)]; [left|right].
      - split; [done|]. intros j cj Hj Hji. destruct (decide (j = i)) as [->|]; [congruence|apply (H j); [done|lia]].
      - exists c', u. split_and!; try done; [lia|]. intros j cj v Hj Hnj Hji Hv.
        destruct (decide (j = i)) as [->|]; [congruence|apply (H j cj v); [done|done|lia|done]]. }
    destruct (child_key_Some it i c Hok Hc Hne) as (u & Hu & Hck).
    destruct Hs as [[-> H]|(cs & us & Hsi & Hcs & Hns & Hus & H)]; simpl.
    { apply IH; [lia|lia|]. right. exists c, u. split_and!; try done; [lia|]. intros j cj v Hj Hnj Hji Hv.
      destruct (decide (j = i)) as [->|]; [|destruct Hnj; apply (H j); [done|lia]].
      assert (v = u) as -> by congruence. rewrite (cmp_refl ucmp). lia. }
    destruct (Z.eqb_spec s (-1)) as [->|_]; [apply zget_range in Hcs; lia|].
    destruct (child_key_Some it s cs Hok Hcs Hns) as (us' & Hus' & Hcks).
    assert (us' = us) as -> by congruence. rewrite Hck, Hcks. simpl. apply IH; [lia|lia|]. right.
    destruct (Z.ltb_spec (Compare ucmp u us) 0) as [Hlt|Hge].
    + exists c, u. split_and!; try done; [lia|]. intros j cj v Hj Hnj Hji Hv.
      destruct (decide (j = i)) as [->|].
      { assert (v = u) as -> by congruence. rewrite (cmp_refl ucmp). lia. }
      destruct (H j cj v Hj Hnj ltac:(lia) Hv) as [Hle _].
      pose proof (cmp_lt_le_trans ucmp _ _ _ Hlt Hle). lia.
    + exists cs, us. split_and!; try done; [lia|]. intros j cj v Hj Hnj Hji Hv.
      destruct (decide (j = i)) as [->|]; [|apply (H j cj v); [done|done|lia|done]].
      assert (v = u) as -> by congruence. split; [by apply (cmp_le_ge ucmp)|lia].
Qed.

Lemma FindSmallest_ok it :
  kmi_ok it -> exists s, FindSmallest ucmp it = Some (kmi_set it (child_current_ it) s) /\ smallest_at it s.
Proof.
  intros Hok. destruct (FindSmallest_loop_ok it (length (kmi_files it)) 0 (-1) Hok) as (s & Hs & Hat); [lia|done| |].
  - left. split; [done|]. intros j c Hc%zget_range. lia.
  - exists s. unfold FindSmallest. rewrite Hs. done.
Qed.

Lemma kmi_ok_set it child cur :
  kmi_ok it -> length child = length (kmi_files it) ->
  (forall i f c, kmi_files it !z i = Some f -> child !z i = Some c -> c = -1 \/ 0 <= c < len (keys_meta f)) ->
  kmi_ok (kmi_set it child cur).
Proof. intros [] Hl Hp. by constructor. Qed.

(** The iterator with its current table right. *)
Definition kmi_valid it : Prop := kmi_ok it /\ smallest_at it (current_ it).

Lemma current_key it :
  kmi_valid it -> KMI_Valid it = true ->
  exists f c k, kmi_files it !z current_ it = Some f /\ child_current_ it !z current_ it = Some c /\
    GetCurret it = Some (current_ it, c) /\ keys_meta f !z c = Some k /\ c <> -1 /\
    key_meta_at (kmi_files it) (current_ it) c = Some k /\
    forall i j v, is_left it i j v -> Compare ucmp (ExtractUserKey (km_key k)) v <= 0 /\
      (i < current_ it -> Compare ucmp (ExtractUserKey (km_key k)) v < 0).
Proof.
  intros [Hok Hat] Hv. unfold KMI_Valid in Hv. apply negb_true_iff, Z.eqb_neq in Hv.
  destruct Hat as [[? _]|(c & u & Hc & Hne & Hu & Hmin)]; [done|].
  unfold user_key_at, key_meta_at in Hu.
  destruct (kmi_files it !z current_ it) as [f|] eqn:Hf; simpl in Hu; [|done].
  destruct (keys_meta f !z c) as [k|] eqn:Hk; simpl in Hu; [|done]. injection Hu as <-.
  exists f, c, k. unfold GetCurret, key_meta_at. rewrite Hc, Hf. simpl. rewrite Hk. split_and!; try done.
  intros i j v (p & Hp & Hpj & Hvj). unfold kmi_pos, zget in Hp. destruct (Z.leb_spec 0 i) as [Hi|]; [|done].
  apply lookup_zip_with_Some in Hp as (ci & fi & -> & Hci & Hfi).
  assert (Hci' : child_current_ it !z i = Some ci) by (by apply zget_Some).
  assert (Hfi' : kmi_files it !z i = Some fi) by (by apply zget_Some).
  unfold user_key_at, key_meta_at in Hvj. rewrite Hfi' in Hvj. simpl in Hvj.
  destruct (keys_meta fi !z j) as [kj|] eqn:Hkj; simpl in Hvj; [|done]. injection Hvj as <-.
  pose proof (zget_range _ _ _ Hkj). unfold passed_of in Hpj.
  destruct (Z.eqb_spec ci (-1)); [lia|].
  destruct (child_key_Some it i ci Hok Hci' ltac:(done)) as (w & Hw & _).
  destruct (Hmin i ci w Hci' ltac:(done) Hw) as [Hle Hlt].
  unfold user_key_at, key_meta_at in Hw. rewrite Hfi' in Hw. simpl in Hw.
  destruct (keys_meta fi !z ci) as [ki|] eqn:Hki; simpl in Hw; [|done]. injection Hw as <-.
  pose proof (kk_sorted _ Hok i fi ci j ki kj Hfi' Hki Hkj Hpj) as Hs.
  split; [by eapply (cmp_trans (c := ucmp))|]. intros Hic. eapply (cmp_lt_le_trans ucmp); [by apply Hlt|done].
Qed.

Lemma sum_list_insert (l : list nat) i x y :
  l !! i = Some x -> (sum_list (<[i := y]> l) + x = sum_list l + y)%nat.
Proof.
  revert i. induction l as [|a l IH]; intros [|i] H; simpl in *; try done.
  - injection H as ->. lia.
  - specialize (IH i H). lia.
Qed.

(** [Next] passes one key: the current one. *)
Lemma KMI_Next_ok it :
  kmi_valid it -> KMI_Valid it = true ->
  exists it' c, KMI_Next ucmp it = Some it' /\ kmi_valid it' /\
    child_current_ it !z current_ it = Some c /\
    kmi_files it' = kmi_files it /\ kmi_first_key_indexs it' = kmi_first_key_indexs it /\
    kmi_pos it' = <[Z.to_nat (current_ it) := c + 1]> (kmi_pos it) /\
    S (keys_left it') = keys_left it.
Proof.
  intros Hval Hv. destruct (current_key it Hval Hv) as (f & c & k & Hf & Hc & _ & Hk & Hne & _).
  destruct Hval as [Hok _]. pose proof (zget_range _ _ _ Hk) as Hkr. pose proof (zget_range _ _ _ Hc) as Hcr.
  destruct (kk_num _ Hok _ _ Hf) as [Hnum Hlt]. unfold KMI_Next. rewrite Hc, Hf. simpl.
  rewrite i32_id by lia. rewrite wrap_id by lia. rewrite Hnum.
  rewrite zset_in_range by lia. simpl.
  set (c' := if len (keys_meta f) <=? c + 1 then -1 else c + 1).
  set (child := <[Z.to_nat (current_ it) := c']> (child_current_ it)).
  assert (Hp' : passed_of c' f = c + 1).
  { unfold passed_of, c'. destruct (Z.leb_spec (len (keys_meta f)) (c + 1)); simpl; [lia|].
    destruct (Z.eqb_spec (c + 1) (-1)); lia. }
  assert (Hok' : forall cur, kmi_ok (kmi_set it child cur)).
  { intros cur. apply kmi_ok_set; [done|unfold child; rewrite length_insert; by destruct Hok|].
    intros i fi ci Hfi Hci. unfold child in Hci. pose proof (zget_range _ _ _ Hfi).
    rewrite zget_insert in Hci by lia. destruct (Z.eqb_spec (current_ it) i) as [<-|]; [|by eapply (kk_pos _ Hok)].
    assert (fi = f) as -> by congruence. injection Hci as <-. unfold c'.
    destruct (Z.leb_spec (len (keys_meta f)) (c + 1)); [by left|right; lia]. }
  destruct (FindSmallest_ok _ (Hok' (current_ it))) as (s & Hs & Hat). rewrite Hs.
  apply zget_Some in Hf as [_ Hf], Hc as [_ Hc].
  eexists _, c. split_and!; [done|split; [apply Hok'|exact Hat]|done|done|done| |].
  - unfold kmi_pos. simpl. unfold child. rewrite <- Hp'.
    rewrite <- (list_insert_id (kmi_files it) (Z.to_nat (current_ it)) f Hf) at 1. by rewrite <- insert_zip_with.
  - unfold keys_left. simpl. unfold child.
    rewrite <- (list_insert_id (kmi_files it) (Z.to_nat (current_ it)) f Hf) at 1. rewrite <- insert_zip_with, Hp'.
    pose proof (sum_list_insert (zip_with (fun c f => Z.to_nat (len (keys_meta f) - passed_of c f))
      (child_current_ it) (kmi_files it)) (Z.to_nat (current_ it)) _ (Z.to_nat (len (keys_meta f) - (c + 1)))
      (proj2 (lookup_zip_with_Some _ _ _ _ _) (ex_intro _ c (ex_intro _ f (conj eq_refl (conj Hc Hf)))))) as Hsum.
    unfold passed_of in Hsum at 2. destruct (Z.eqb_spec c (-1)); [done|]. lia.
Qed.

Lemma kmi_pos_lookup it i f c :
  kmi_files it !z i = Some f -> child_current_ it !z i = Some c -> kmi_pos it !z i = Some (passed_of c f).
Proof.
  intros [Hi Hf]%zget_Some [_ Hc]%zget_Some. apply zget_Some. split; [done|].
  apply lookup_zip_with_Some. eauto.
Qed.

Lemma kmi_pos_length it : kmi_ok it -> len (kmi_pos it) = files_num it.
Proof. intros Hok. unfold kmi_pos, files_num, zlen. rewrite length_zip_with, (kk_child _ Hok). lia. Qed.

(** [Next] takes the current key away and no other. *)
Lemma is_left_Next it it' c i j u :
  kmi_ok it -> child_current_ it !z current_ it = Some c -> c <> -1 ->
  kmi_files it' = kmi_files it -> kmi_pos it' = <[Z.to_nat (current_ it) := c + 1]> (kmi_pos it) ->
  is_left it' i j u <-> is_left it i j u /\ (i, j) <> (current_ it, c).
Proof.
  intros Hok Hc Hne Hf Hp. pose proof (zget_range _ _ _ Hc) as Hr.
  assert (Hlen : 0 <= current_ it < len (kmi_pos it)).
  { rewrite kmi_pos_length by done. pose proof (kk_child _ Hok). unfold files_num, zlen in *. lia. }
  destruct (zget_is_Some (kmi_files it) (current_ it)) as [f Hfc].
  { rewrite kmi_pos_length in Hlen by done. done. }
  pose proof (kmi_pos_lookup it _ f c Hfc Hc) as Hpc. unfold passed_of in Hpc.
  destruct (Z.eqb_spec c (-1)); [done|]. unfold is_left. rewrite Hf, Hp. split.
  - intros (p & Hpi & Hpj & Hu). pose proof (zget_range _ _ _ Hpi).
    rewrite zget_insert in Hpi by (try done; lia). destruct (Z.eqb_spec (current_ it) i) as [<-|Hi].
    + injection Hpi as <-. split; [exists c; split_and!; [done|lia|done]|intros [= ->]; lia].
    + split; [eauto|]. intros [= -> ->]. done.
  - intros [(p & Hpi & Hpj & Hu) Hij]. pose proof (zget_range _ _ _ Hpi).
    destruct (Z.eqb_spec (current_ it) i) as [<-|Hi].
    + exists (c + 1). rewrite zget_insert, Z.eqb_refl by (try done; lia). assert (p = c) as -> by congruence.
      split_and!; [done| |done]. destruct (decide (j = c)) as [->|]; [done|lia].
    + exists p. rewrite zget_insert by (try done; lia). by destruct (Z.eqb_spec (current_ it) i).
Qed.

Lemma invalid_done it i j u : kmi_valid it -> KMI_Valid it = false -> ~ is_left it i j u.
Proof.
  intros [Hok Hat] Hv (p & Hp & Hpj & Hu). unfold KMI_Valid in Hv. apply negb_false_iff, Z.eqb_eq in Hv.
  destruct Hat as [[_ Hall]|(c & v & Hc & _)]; [|rewrite Hv in Hc; apply zget_range in Hc; lia].
  pose proof (zget_range _ _ _ Hp) as Hr. rewrite kmi_pos_length in Hr by done.
  destruct (zget_is_Some (kmi_files it) i Hr) as [f Hf].
  destruct (zget_is_Some (child_current_ it) i) as [c Hc].
  { pose proof (kk_child _ Hok). unfold files_num, zlen in *. lia. }
  rewrite (kmi_pos_lookup it i f c Hf Hc), (Hall i c Hc) in Hp. injection Hp as <-.
  unfold user_key_at, key_meta_at in Hu. rewrite Hf in Hu. simpl in Hu.
  destruct (keys_meta f !z j) as [k|] eqn:Hk; simpl in Hu; [|done]. apply zget_range in Hk.
  unfold passed_of in Hpj. simpl in Hpj. lia.
Qed.

(** All keys from the current state on, in the order the iterator yields them. *)
Fixpoint kmi_run (fuel : nat) it : option (list (Z * Z)) :=
  if KMI_Valid it then
    match fuel with
    | O => None
    | S fuel => ij ← GetCurret it; it ← KMI_Next ucmp it; l ← kmi_run fuel it; Some (ij :: l)
    end
  else Some [].

(** By user key, then by table (newest first), then by position. *)
Definition merge_lt (files : list FileEntry) (x y : Z * Z) : Prop :=
  forall u v, user_key_at files x.1 x.2 = Some u -> user_key_at files y.1 y.2 = Some v ->
    Compare ucmp u v <= 0 /\ (Compare ucmp u v = 0 -> x.1 < y.1 \/ x.1 = y.1 /\ x.2 < y.2).

Lemma invalid_none_left it : kmi_valid it -> KMI_Valid it = false -> keys_left it = 0%nat.
Proof.
  intros [Hok Hat] Hv. unfold KMI_Valid in Hv. apply negb_false_iff, Z.eqb_eq in Hv.
  destruct Hat as [[_ Hall]|(c & v & Hc & _)]; [|rewrite Hv in Hc; apply zget_range in Hc; lia].
  unfold keys_left. set (l := zip_with _ _ _).
  assert (Hz : Forall (fun x => x = 0%nat) l).
  { apply Forall_lookup. intros i x Hx. apply lookup_zip_with_Some in Hx as (c & f & -> & Hc & _).
    rewrite (Hall (Z.of_nat i) c) by (by rewrite zget_nat). unfold passed_of. simpl. lia. }
  clearbody l. induction Hz; simpl; lia.
Qed.

(** The key at the head, with respect to the keys after it. *)
Lemma merge_lt_head it it' c l :
  kmi_valid it -> KMI_Valid it = true -> child_current_ it !z current_ it = Some c ->
  (forall i j u, is_left it' i j u <-> is_left it i j u /\ (i, j) <> (current_ it, c)) ->
  (forall i j, (i, j) ∈ l <-> exists u, is_left it' i j u) ->
  (forall i j, (i, j) ∈ (current_ it, c) :: l <-> exists u, is_left it i j u) /\
  Forall (merge_lt (kmi_files it) (current_ it, c)) l.
Proof.
  intros Hval Hv Hc Hleft Hin.
  destruct (current_key it Hval Hv) as (f & c' & k & Hf & Hc' & _ & Hk & Hne & Hkm & Hmin).
  assert (c' = c) as -> by congruence.
  pose proof (kmi_pos_lookup it _ f c Hf Hc) as Hpos. unfold passed_of in Hpos.
  destruct (Z.eqb_spec c (-1)); [done|].
  assert (Hu : user_key_at (kmi_files it) (current_ it) c = Some (ExtractUserKey (km_key k)))
    by (unfold user_key_at; by rewrite Hkm).
  split.
  - intros i j. rewrite elem_of_cons, Hin. split.
    + intros [[= -> ->]|[u [Hu' _]%Hleft]]; [|by eauto]. eexists _, c. split_and!; [done|lia|done].
    + intros [u Hu']. destruct (decide ((i, j) = (current_ it, c))) as [->|Hij]; [by left|].
      right. exists u. by apply Hleft.
  - apply Forall_forall. intros [i j] Hij u v Hu' Hv'. simpl in *.
    apply Hin in Hij as (w & [Hw Hne']%Hleft). assert (w = v) as -> by (destruct Hw as (? & _ & _ & ?); congruence).
    destruct (Hmin i j v Hw) as [Hle Hlt]. assert (u = ExtractUserKey (km_key k)) as -> by congruence.
    split; [done|]. intros Heq.
    destruct (Z.lt_trichotomy (current_ it) i) as [|[<-|Hgt]]; [by left| |specialize (Hlt Hgt); lia].
    right. split; [done|]. destruct Hw as (p & Hpw & Hpj & _). assert (p = c) as -> by congruence.
    destruct (decide (j = c)) as [->|]; [done|lia].
Qed.

Lemma kmi_run_ok fuel it :
  kmi_valid it -> (keys_left it <= fuel)%nat ->
  exists l, kmi_run fuel it = Some l /\ length l = keys_left it /\
    (forall i j, (i, j) ∈ l <-> exists u, is_left it i j u) /\ StronglySorted (merge_lt (kmi_files it)) l.
Proof.
  revert it. induction fuel as [|fuel IH]; intros it Hval Hfuel; simpl; destruct (KMI_Valid it) eqn:Hv.
  2, 4: exists []; split_and!; [done|by rewrite invalid_none_left| |constructor];
    intros i j; split; [intros H; inversion H|intros [u Hu]; by destruct (invalid_done it i j u Hval Hv)].
  - destruct (KMI_Next_ok it Hval Hv) as (it' & c & _ & _ & _ & _ & _ & _ & Hm). lia.
  - destruct (current_key it Hval Hv) as (f & c & k & Hf & Hc & Hcur & Hk & Hne & _).
    destruct (KMI_Next_ok it Hval Hv) as (it' & c' & Hn & Hval' & Hc' & Hfs & _ & Hp & Hm).
    assert (c' = c) as -> by congruence. rewrite Hcur, Hn. simpl.
    destruct (IH it' Hval') as (l & -> & Hlen & Hin & Hs); [lia|]. simpl. exists ((current_ it, c) :: l).
    destruct (merge_lt_head it it' c l Hval Hv Hc) as [Hin' Hhead]; [|done|].
    + intros i j u. destruct Hval as [Hok _]. by apply is_left_Next.
    + rewrite Hfs in Hs. split_and!; [done|simpl; lia|done|by constructor].
Qed.

(** ** From the first key *)

(** The tables an iterator is made for, each with its first visible key. *)
Record kmi_tables (files : list FileEntry) (firsts : list Z) : Prop := {
  kt_len : length firsts = length files;
  kt_num i f : files !z i = Some f -> keys_num f = len (keys_meta f) /\ len (keys_meta f) < 2 ^ 31;
  kt_sorted i f a b ka kb : files !z i = Some f -> keys_meta f !z a = Some ka -> keys_meta f !z b = Some kb ->
    a <= b -> Compare ucmp (ExtractUserKey (km_key ka)) (ExtractUserKey (km_key kb)) <= 0;
  kt_first i f x : files !z i = Some f -> firsts !z i = Some x -> 0 <= x < len (keys_meta f);
}.

(** One table with its first visible key. *)
Definition kmi_table f (first : Z) : Prop :=
  keys_num f = len (keys_meta f) /\ len (keys_meta f) < 2 ^ 31 /\ 0 <= first < len (keys_meta f) /\
  StronglySorted (fun a b => Compare ucmp (ExtractUserKey (km_key a)) (ExtractUserKey (km_key b)) <= 0) (keys_meta f).

Lemma kmi_tables_intro files firsts : Forall2 kmi_table files firsts -> kmi_tables files firsts.
Proof.
  intros H. pose proof (Forall2_length _ _ _ H) as Hlen.
  assert (Hi : forall i f, files !z i = Some f -> exists x, firsts !z i = Some x /\ kmi_table f x).
  { intros i f [Hi Hf]%zget_Some. destruct (Forall2_lookup_l _ _ _ _ _ H Hf) as (x & Hx & Ht).
    exists x. split; [by apply zget_Some|done]. }
  constructor.
  - done.
  - intros i f (x & _ & Hn & Hl & _)%Hi. done.
  - intros i f a b ka kb (x & _ & _ & _ & _ & Hs)%Hi [Ha0 Ha]%zget_Some [Hb0 Hb]%zget_Some Hab.
    destruct (decide (a = b)) as [->|]; [replace kb with ka by congruence; by rewrite (cmp_refl ucmp)|].
    exact (StronglySorted_lookup_lt _ _ (Z.to_nat a) (Z.to_nat b) _ _ Hs ltac:(lia) Ha Hb).
  - intros i f x Hf Hx. destruct (Hi i f Hf) as (y & Hy & _ & _ & Hr & _). congruence.
Qed.

Lemma kmi_tables_ok it child cur :
  kmi_tables (kmi_files it) (kmi_first_key_indexs it) -> length child = length (kmi_files it) ->
  (forall i f c, kmi_files it !z i = Some f -> child !z i = Some c -> c = -1 \/ 0 <= c < len (keys_meta f)) ->
  kmi_ok (kmi_set it child cur).
Proof. intros [] Hl Hp. by constructor. Qed.

Lemma KMI_SeekToFirst_ok it :
  kmi_tables (kmi_files it) (kmi_first_key_indexs it) ->
  exists it', KMI_SeekToFirst ucmp it = Some it' /\ kmi_valid it' /\ kmi_files it' = kmi_files it /\
    kmi_first_key_indexs it' = kmi_first_key_indexs it /\ kmi_pos it' = kmi_first_key_indexs it.
Proof.
  intros Ht. pose proof Ht as [Hl Hn _ Hf].
  assert (Hfi : forall i, (i < length (kmi_files it))%nat -> exists f x, kmi_files it !! i = Some f /\
    kmi_first_key_indexs it !! i = Some x /\ 0 <= x < len (keys_meta f) /\ i32 x = x).
  { intros i Hi. destruct (lookup_lt_is_Some_2 (kmi_files it) i Hi) as [f Hif].
    destruct (lookup_lt_is_Some_2 (kmi_first_key_indexs it) i ltac:(lia)) as [x Hix].
    rewrite <- zget_nat in Hif. rewrite <- zget_nat in Hix. pose proof (Hf _ _ _ Hif Hix). destruct (Hn _ _ Hif).
    rewrite zget_nat in Hif. rewrite zget_nat in Hix. exists f, x. split_and!; [done|done|lia|lia|]. apply i32_id. lia. }
  assert (Hc : i32 <$> kmi_first_key_indexs it = kmi_first_key_indexs it).
  { apply list_eq. intros i. rewrite list_lookup_fmap.
    destruct (kmi_first_key_indexs it !! i) as [x|] eqn:Hx; simpl; [|done].
    apply lookup_lt_Some in Hx as Hlt. destruct (Hfi i ltac:(lia)) as (f & y & _ & Hy & _ & Hi32). congruence. }
  unfold KMI_SeekToFirst. rewrite Hc.
  assert (Hok : forall cur, kmi_ok (kmi_set it (kmi_first_key_indexs it) cur)).
  { intros cur. apply kmi_tables_ok; [done|done|]. intros i f c Hif Hic. right. by eapply Hf. }
  destruct (FindSmallest_ok _ (Hok (current_ it))) as (s & -> & Hat). eexists.
  split_and!; [done|split; [apply Hok|exact Hat]|done|done|]. unfold kmi_pos. simpl.
  apply list_eq. intros i. destruct (decide (i < length (kmi_files it))%nat) as [Hi|Hi].
  - destruct (Hfi i Hi) as (f & x & Hif & Hix & Hx & _). rewrite lookup_zip_with, Hif, Hix. simpl.
    unfold passed_of. by destruct (Z.eqb_spec x (-1)); [lia|].
  - rewrite !lookup_ge_None_2; [done|lia|rewrite length_zip_with; lia].
Qed.

(** ** The last key *)

(** [l] is right for the tables from [n] on. *)
Definition largest_from it (n : nat) (l : Z) : Prop :=
  (l = -1 /\ forall j c, child_current_ it !z j = Some c -> Z.of_nat n <= j -> c = -1) \/
  exists c u, Z.of_nat n <= l /\ child_current_ it !z l = Some c /\ c <> -1 /\ user_key_at (kmi_files it) l c = Some u /\
    forall j cj v, child_current_ it !z j = Some cj -> cj <> -1 -> Z.of_nat n <= j ->
      user_key_at (kmi_files it) j cj = Some v -> Compare ucmp v u <= 0.

Lemma FindLargest_loop_ok it (n : nat) l :
  kmi_ok it -> Z.of_nat n <= files_num it -> largest_from it n l ->
  exists l', FindLargest_loop ucmp it n l = Some l' /\ largest_from it 0 l'.
Proof.
  intros Hok. revert l. induction n as [|n IH]; intros l Hn Hl; simpl; [by eauto|].
  destruct (zget_is_Some (child_current_ it) (Z.of_nat n)) as [c Hc].
  { destruct Hok as [Hlen _ _ _]. unfold files_num, zlen in *. lia. }
  rewrite Hc. simpl. destruct (Z.eqb_spec c (-1)) as [->|Hne]; simpl.
  { apply IH; [lia|]. destruct Hl as [[-> H]|(c' & u & ? & ? & ? & ? & H)]; [left|right].
    - split; [done|]. intros j cj Hj Hji. destruct (decide (j = Z.of_nat n)) as [->|]; [congruence|apply (H j); [done|lia]].
    - exists c', u. split_and!; try done; [lia|]. intros j cj v Hj Hnj Hji Hv.
      destruct (decide (j = Z.of_nat n)) as [->|]; [congruence|apply (H j cj v); [done|done|lia|done]]. }
  destruct (child_key_Some it _ c Hok Hc Hne) as (u & Hu & Hck).
  destruct Hl as [[-> H]|(cl & ul & Hli & Hcl & Hnl & Hul & H)]; simpl.
  { apply IH; [lia|]. right. exists c, u. split_and!; try done. intros j cj v Hj Hnj Hji Hv.
    destruct (decide (j = Z.of_nat n)) as [->|]; [|destruct Hnj; apply (H j); [done|lia]].
    assert (v = u) as -> by congruence. by rewrite (cmp_refl ucmp). }
  destruct (Z.eqb_spec l (-1)) as [->|_]; [apply zget_range in Hcl; lia|].
  destruct (child_key_Some it l cl Hok Hcl Hnl) as (ul' & Hul' & Hckl).
  assert (ul' = ul) as -> by congruence. rewrite Hck, Hckl. simpl. apply IH; [lia|]. right.
  destruct (Z.ltb_spec 0 (Compare ucmp u ul)) as [Hgt|Hle].
  - exists c, u. split_and!; try done. intros j cj v Hj Hnj Hji Hv.
    destruct (decide (j = Z.of_nat n)) as [->|].
    { assert (v = u) as -> by congruence. by rewrite (cmp_refl ucmp). }
    pose proof (H j cj v Hj Hnj ltac:(lia) Hv) as Hvl. eapply (cmp_trans (c := ucmp)); [exact Hvl|].
    apply (cmp_le_ge ucmp). lia.
  - exists cl, ul. split_and!; try done; [lia|]. intros j cj v Hj Hnj Hji Hv.
    destruct (decide (j = Z.of_nat n)) as [->|]; [|apply (H j cj v); [done|done|lia|done]].
    assert (v = u) as -> by congruence. done.
Qed.

(** [SeekToLast] points at a key that no key of any table exceeds. *)
Lemma KMI_SeekToLast_ok it :
  kmi_tables (kmi_files it) (kmi_first_key_indexs it) -> kmi_files it <> [] ->
  exists it' i c u, KMI_SeekToLast ucmp it = Some it' /\ KMI_Valid it' = true /\ GetCurret it' = Some (i, c) /\
    user_key_at (kmi_files it) i c = Some u /\ kmi_files it' = kmi_files it /\
    kmi_first_key_indexs it' = kmi_first_key_indexs it /\
    forall i' j v, user_key_at (kmi_files it) i' j = Some v -> Compare ucmp v u <= 0.
Proof.
  intros Ht Hne. pose proof Ht as [Hl Hn Hs Hf].
  set (child := (fun f => i32 (wrap64 (keys_num f - 1))) <$> kmi_files it).
  assert (Hch : forall i f, kmi_files it !z i = Some f -> child !z i = Some (len (keys_meta f) - 1) /\ 0 < len (keys_meta f)).
  { intros i f Hi. pose proof (zget_range _ _ _ Hi) as Hr. destruct (Hn i f Hi) as [Hnum Hlt].
    destruct (zget_is_Some (kmi_first_key_indexs it) i) as [x Hx]; [unfold zlen in *; lia|].
    pose proof (Hf i f x Hi Hx). split; [|lia]. apply zget_Some in Hi as [H0 Hi]. apply zget_Some. split; [done|].
    unfold child. rewrite list_lookup_fmap, Hi. simpl. rewrite Hnum, wrap_id, i32_id by lia. done. }
  assert (Hok : kmi_ok (kmi_set it child (current_ it))).
  { apply kmi_tables_ok; [done|unfold child; by rewrite length_fmap|]. intros i f c Hi Hc.
    destruct (Hch i f Hi) as [Hc' ?]. rewrite Hc in Hc'. injection Hc' as ->. right. lia. }
  destruct (FindLargest_loop_ok _ (length (kmi_files it)) (-1) Hok) as (l & Hlp & Hat); [done| |].
  { left. split; [done|]. intros j c Hc%zget_range Hj. simpl in *. unfold child, zlen in *. rewrite length_fmap in Hc. lia. }
  unfold KMI_SeekToLast, FindLargest. fold child. simpl. rewrite Hlp. simpl.
  destruct Hat as [[-> Hall]|(c & u & _ & Hc & Hnc & Hu & Hmax)]; simpl in *.
  - destruct (kmi_files it) as [|f0 fs] eqn:Efs; [done|]. rewrite <- Efs in *.
    destruct (Hch 0 f0) as [Hc ?]; [by rewrite Efs|]. specialize (Hall _ _ Hc ltac:(lia)). lia.
  - eexists _, l, c, u. split_and!; [done| | |done|done|done|].
    + unfold KMI_Valid. simpl. apply zget_range in Hc. by destruct (Z.eqb_spec l (-1)); [lia|].
    + unfold GetCurret. simpl. by rewrite Hc.
    + intros i' j v Hv. unfold user_key_at, key_meta_at in Hv.
      destruct (kmi_files it !z i') as [f|] eqn:Hfi; simpl in Hv; [|done].
      destruct (keys_meta f !z j) as [k|] eqn:Hk; simpl in Hv; [|done]. injection Hv as <-.
      destruct (Hch i' f Hfi) as [Hci Hpos]. destruct (zget_is_Some (keys_meta f) (len (keys_meta f) - 1) ltac:(lia)) as [kl Hkl].
      pose proof (zget_range _ _ _ Hk). eapply (cmp_trans (c := ucmp)); [apply (Hs i' f j (len (keys_meta f) - 1) k kl Hfi Hk Hkl); lia|].
      apply (Hmax i' _ _ Hci); [lia|apply zget_range in Hfi; lia|]. unfold user_key_at, key_meta_at. rewrite Hfi. simpl. by rewrite Hkl.
Qed.

(** The merge iterator enumerates level 0 in order: from [SeekToFirst], [Next] passes
    through every visible key of every table exactly once, by user key, among equal user
    keys from the newest table to the oldest, and ends after exactly that many steps. *)
Theorem merge_iterator_order files firsts :
  kmi_tables files firsts ->
  exists it l, KMI_SeekToFirst ucmp (KeysMergeIterator_make files firsts) = Some it /\
    kmi_run (length l) it = Some l /\ NoDup l /\ StronglySorted (merge_lt files) l /\
    forall i j, (i, j) ∈ l <->
      exists f first, files !z i = Some f /\ firsts !z i = Some first /\ first <= j < len (keys_meta f).
Proof.
  intros Ht. destruct (KMI_SeekToFirst_ok (KeysMergeIterator_make files firsts) Ht) as (it & Hs & Hval & Hf & _ & Hp).
  simpl in Hf, Hp. destruct (kmi_run_ok (keys_left it) it Hval) as (l & Hr & Hlen & Hin & Hso); [done|].
  rewrite Hf in Hso. exists it, l.
  assert (Hiff : forall i j, (i, j) ∈ l <-> exists f first, files !z i = Some f /\ firsts !z i = Some first /\ first <= j < len (keys_meta f)).
  { intros i j. rewrite Hin. unfold is_left. rewrite Hp, Hf. split.
    - intros (u & p & Hpi & Hpj & Hu). unfold user_key_at, key_meta_at in Hu.
      destruct (files !z i) as [f|] eqn:Hfi; simpl in Hu; [|done].
      destruct (keys_meta f !z j) as [k|] eqn:Hk; simpl in Hu; [|done]. apply zget_range in Hk. exists f, p. split_and!; [done|done|lia|lia].
    - intros (f & x & Hfi & Hx & Hxj). pose proof (kt_first _ _ Ht i f x Hfi Hx).
      destruct (zget_is_Some (keys_meta f) j ltac:(lia)) as [k Hk]. exists (ExtractUserKey (km_key k)), x.
      split_and!; [done|lia|]. unfold user_key_at, key_meta_at. rewrite Hfi. simpl. by rewrite Hk. }
  split_and!; [done|by rewrite Hlen| |done|done].
  apply NoDup_alt. intros a b [i j] Ha Hb. destruct (Nat.lt_trichotomy a b) as [Hlt|[->|Hlt]]; [|done|]; exfalso.
  all: assert (Hm : merge_lt files (i, j) (i, j)) by (by eapply (StronglySorted_lookup_lt _ l)).
  all: apply list_elem_of_lookup_2, Hin in Ha as (u & _ & _ & _ & Hu); rewrite Hf in Hu.
  all: destruct (Hm u u Hu Hu) as [_ H0]; rewrite (cmp_refl ucmp) in H0; simpl in H0; lia.
Qed.
End MergeOrder.

Definition sample_tables : list FileEntry :=
  [mkFE 8 1 [sample_key Byte.x61 4; sample_key Byte.x63 3] 2 7; mkFE 7 0 [sample_key Byte.x61 2; sample_key Byte.x62 1] 2 0].

Lemma sample_tables_ok : kmi_tables BytewiseComparator sample_tables [0; 1].
Proof.
  apply (kmi_tables_intro BytewiseComparator). constructor; [|constructor; [|constructor]];
    (split_and!; try (by vm_compute); constructor; [constructor; constructor|constructor; [by vm_compute|constructor]]).
Qed.

Lemma merge_iterator_order_witness :
  exists it l, KMI_SeekToFirst BytewiseComparator (KeysMergeIterator_make sample_tables [0; 1]) = Some it /\
    kmi_run BytewiseComparator (length l) it = Some l.
Proof.
  destruct (merge_iterator_order BytewiseComparator sample_tables [0; 1]) as (it & l & Hs & Hr & _).
  - apply sample_tables_ok.
  - exists it, l. split; [exact Hs|exact Hr].
Defined.
