(* ===== verification/L0Table.v ===== *)
(** * Level-0 tables in NVM (utilities/nvm_mod/l0_table_builder.h, l0_table_builder.cc)

    The two builders, the record and key-metadata layout they write, the value reader
    of nvm_cf_mod.cc and the metadata reader of its recovery.  [mem] is the mapped
    pool, addresses are offsets into it; [None] is an access outside a buffer. *)

From S2P Require Import Prelude Coding Comparator DbFormat VersionEdit NvmAlloc SstableMeta.

(** [rocksdb::Status] by its code. *)
Inductive Status :=
  | Status_OK | Status_NotFound | Status_Corruption | Status_NotSupported
  | Status_InvalidArgument | Status_IOError | Status_ShutdownInProgress.

Definition Status_ok (s : Status) : bool := match s with Status_OK => true | _ => false end.

(** ** Records *)

(** key_size | key | value_size | value *)
Definition key_value (key value : bytes) : bytes :=
  PutFixed64 (PutFixed64 [] (len key) ++ key) (len value) ++ value.

Definition total_size (key value : bytes) : Z := wrap64 (len key + len value + 8 + 8).

(** ** The builder that writes to NVM directly *)

Record L0TableBuilder := mkTB {
  tb_keys_ : list KeysMetadata;
  tb_keys_num_ : Z;
  tb_offset_ : Z;
}.

Definition L0TableBuilder_make : L0TableBuilder := mkTB [] 0 0.

(** [each_size] is [nvm_cf_->GetSstableEachSize()]; a record that does not fit is
    reported and dropped. *)
Definition L0TableBuilder_Add (each_size raw : Z) (b : L0TableBuilder) (mem : bytes)
    (key value : bytes) : option (L0TableBuilder * bytes) :=
  let total := total_size key value in
  if each_size <? wrap64 (tb_offset_ b + total) then Some (b, mem)
  else
    mem ← mem_write mem (raw + tb_offset_ b) (key_value key value);
    let tmp := mkKM key (-1) (tb_offset_ b) total in
    Some (mkTB (tb_keys_ b ++ [tmp]) (tb_keys_num_ b + 1) (wrap64 (tb_offset_ b + total)), mem).

(** The key metadata copied into the file entry: [next] keeps its default. *)
Definition entry_keys (keys : list KeysMetadata) : list KeysMetadata :=
  (fun k => mkKM (km_key k) (-1) (km_offset k) (km_size k)) <$> keys.

Definition entry_set_keys (fe : FileEntry) (keys : list KeysMetadata) (n : Z) : FileEntry :=
  mkFE (filenum fe) (sstable_index fe) keys n (key_point_filenum fe).

Definition L0TableBuilder_Finish (icmp : Comparator) (b : L0TableBuilder) (s : SstableMetadata)
    (file_ : nat) : option (Status * SstableMetadata) :=
  fe ← fheap s !! file_;
  s ← UpdateKeyNext icmp
        (store_entry s file_ (entry_set_keys fe (entry_keys (tb_keys_ b)) (tb_keys_num_ b)))
        (Some file_);
  Some (Status_OK, s).

(** ** The builder with a DRAM buffer *)

Record L0TableBuilderWithBuffer := mkBB {
  bb_keys_ : list KeysMetadata;
  bb_keys_num_ : Z;
  bb_offset_ : Z;
  bb_buf_ : bytes;
  bb_keys_meta_size_ : Z;
  bb_max_size_ : Z;
}.

(** [buf] is the content of the freshly allocated buffer. *)
Definition L0TableBuilderWithBuffer_make (each_size : Z) (buf : bytes) : L0TableBuilderWithBuffer :=
  mkBB [] 0 0 buf 0 each_size.

Definition L0TableBuilderWithBuffer_Add (b : L0TableBuilderWithBuffer) (key value : bytes)
  : option L0TableBuilderWithBuffer :=
  let total := total_size key value in
  if bb_max_size_ b <? wrap64 (bb_offset_ b + total) then Some b
  else
    buf ← mem_write (bb_buf_ b) (bb_offset_ b) (key_value key value);
    let tmp := mkKM key (-1) (bb_offset_ b) total in
    Some (mkBB (bb_keys_ b ++ [tmp]) (bb_keys_num_ b + 1) (wrap64 (bb_offset_ b + total)) buf
            (bb_keys_meta_size_ b) (bb_max_size_ b)).

(** key_size | key | next | offset | size, for each key. *)
Definition put_key_meta (metadatas : bytes) (k : KeysMetadata) : bytes :=
  PutFixed64 (PutFixed64 (PutFixed32 (PutFixed64 metadatas (len (km_key k)) ++ km_key k)
    (wrap32 (km_next k))) (km_offset k)) (km_size k).

(** The first [keys_num] keys of the entry, one [PutFixed] sequence each. *)
Definition encode_keys_meta (keys : list KeysMetadata) : bytes := foldl put_key_meta [] keys.

Section Finish.
Context `{Pmem}.

(** [raw_] is the slot's address; the result is the status, the builder, the
    metadata store and the pool. *)
Definition L0TableBuilderWithBuffer_Finish (icmp : Comparator) (b : L0TableBuilderWithBuffer)
    (s : SstableMetadata) (mem : bytes) (file_ : nat) (raw : Z)
  : option (Status * L0TableBuilderWithBuffer * SstableMetadata * bytes) :=
  fe ← fheap s !! file_;
  s ← UpdateKeyNext icmp
        (store_entry s file_ (entry_set_keys fe (entry_keys (bb_keys_ b)) (bb_keys_num_ b)))
        (Some file_);
  fe ← fheap s !! file_;
  keys ← (if (0 <=? keys_num fe) && (keys_num fe <=? len (keys_meta fe))
          then Some (take (Z.to_nat (keys_num fe)) (keys_meta fe)) else None);
  let metadatas := encode_keys_meta keys in
  if bb_max_size_ b <? wrap64 (bb_offset_ b + len metadatas) then
    Some (Status_IOError, b, s, mem)
  else
    buf ← mem_write (bb_buf_ b) (bb_offset_ b) metadatas;
    data ← mem_read buf 0 (bb_offset_ b + len metadatas);
    mem ← pmem_memcpy_persist mem raw data;
    Some (Status_OK,
          mkBB (bb_keys_ b) (bb_keys_num_ b) (bb_offset_ b) buf (len metadatas) (bb_max_size_ b),
          s, mem).

End Finish.

(** ** Reading a table *)

(** [GetValueInFile]; [data_addr] is the address of the file's slot. *)
Definition GetValueInFile (mem : bytes) (data_addr : Z) (file : FileEntry) (find_index : Z)
  : option bytes :=
  k ← keys_meta file !z find_index;
  let key_value_offset := km_offset k in
  ks ← mem_read mem (data_addr + key_value_offset) 8;
  let key_size := DecodeFixed64 ks in
  let key_value_offset := wrap64 (wrap64 (key_value_offset + 8) + key_size) in
  vs ← mem_read mem (data_addr + key_value_offset) 8;
  let value_size := DecodeFixed64 vs in
  mem_read mem (data_addr + wrap64 (key_value_offset + 8)) value_size.

(** One round of the loop of [RecoverFromStorageInfo]: the key and the next offset. *)
Definition recover_key (buf : bytes) (offset : Z) : option (KeysMetadata * Z) :=
  ks ← mem_read buf offset 8;
  let key_size := DecodeFixed64 ks in
  let offset := wrap64 (offset + 8) in
  key ← mem_read buf offset key_size;
  let offset := wrap64 (offset + key_size) in
  nx ← mem_read buf offset 4;
  let offset := wrap64 (offset + 4) in
  off ← mem_read buf offset 8;
  let offset := wrap64 (offset + 8) in
  sz ← mem_read buf offset 8;
  let offset := wrap64 (offset + 8) in
  Some (mkKM key (i32 (DecodeFixed32 nx)) (DecodeFixed64 off) (DecodeFixed64 sz), offset).

(** The loop over the [n] keys whose metadata is in [buf]. *)
Fixpoint recover_keys (buf : bytes) (n : nat) (offset : Z) : option (list KeysMetadata) :=
  match n with
  | O => Some []
  | S n =>
      '(k, offset) ← recover_key buf offset;
      rest ← recover_keys buf n offset;
      Some (k :: rest)
  end.

(** ** The layout as a function of the records *)

Implicit Types (kvs : list (bytes * bytes)).

Definition table_data kvs : bytes := mjoin ((fun kv => key_value kv.1 kv.2) <$> kvs).

Fixpoint layout (off : Z) kvs : list KeysMetadata :=
  match kvs with
  | [] => []
  | (k, v) :: kvs =>
      let size := len k + len v + 16 in mkKM k (-1) off size :: layout (off + size) kvs
  end.

(** Sizes for which the 64-bit sums of the builder do not wrap. *)
Definition kv_ok (kv : bytes * bytes) : Prop := len kv.1 + len kv.2 + 16 < 2 ^ 63.

Lemma key_value_eq k v :
  key_value k v = EncodeFixed64 (len k) ++ k ++ EncodeFixed64 (len v) ++ v.
Proof. unfold key_value, PutFixed64. simpl. by rewrite <- ?app_assoc. Qed.

Lemma key_value_len k v : len (key_value k v) = len k + len v + 16.
Proof.
  rewrite key_value_eq. unfold EncodeFixed64. autorewrite with mkv. lia.
Qed.

Lemma total_size_eq k v : kv_ok (k, v) -> total_size k v = len k + len v + 16.
Proof.
  intros H. unfold kv_ok in H. simpl in H. unfold total_size.
  pose proof (zlen_nonneg k). pose proof (zlen_nonneg v). rewrite wrap_id; lia.
Qed.

Lemma table_data_app kvs1 kvs2 : table_data (kvs1 ++ kvs2) = table_data kvs1 ++ table_data kvs2.
Proof. unfold table_data. by rewrite fmap_app, join_app. Qed.

Lemma table_data_cons k v kvs : table_data ((k, v) :: kvs) = key_value k v ++ table_data kvs.
Proof. done. Qed.

Lemma table_data_one k v : table_data [(k, v)] = key_value k v.
Proof. rewrite table_data_cons. apply app_nil_r. Qed.

Lemma layout_app off kvs1 kvs2 :
  layout off (kvs1 ++ kvs2) = layout off kvs1 ++ layout (off + len (table_data kvs1)) kvs2.
Proof.
  revert off. induction kvs1 as [|[k v] kvs1 IH]; intros off; simpl.
  - by rewrite Z.add_0_r.
  - rewrite IH, table_data_cons, zlen_app, key_value_len. do 3 f_equal. lia.
Qed.

Lemma layout_length off kvs : length (layout off kvs) = length kvs.
Proof. revert off. induction kvs as [|[k v] kvs IH]; intros off; simpl; by rewrite ?IH. Qed.

Lemma entry_keys_layout off kvs : entry_keys (layout off kvs) = layout off kvs.
Proof.
  revert off. induction kvs as [|[k v] kvs IH]; intros off; simpl; [done|]. f_equal. apply IH.
Qed.

(** Where the record of the [i]th key lies. *)
Lemma layout_lookup off kvs i k v :
  kvs !! i = Some (k, v) ->
  layout off kvs !! i =
    Some (mkKM k (-1) (off + len (table_data (take i kvs))) (len k + len v + 16)).
Proof.
  intros H. rewrite <- (take_drop_middle kvs i (k, v) H) at 1.
  rewrite layout_app, lookup_app_r; rewrite layout_length, length_take_le;
    try (by apply Nat.lt_le_incl, (lookup_lt_Some _ _ _ H)); [|done].
  by rewrite Nat.sub_diag.
Qed.

Lemma table_data_lookup kvs i k v :
  kvs !! i = Some (k, v) ->
  mem_read (table_data kvs) (len (table_data (take i kvs))) (len k + len v + 16) =
    Some (key_value k v).
Proof.
  intros H. rewrite <- (take_drop_middle kvs i (k, v) H) at 1.
  rewrite table_data_app, table_data_cons, <- key_value_len.
  rewrite <- (Z.add_0_r (len (table_data (take i kvs)))), mem_read_app_r by lia.
  rewrite mem_read_app_l by (pose proof (zlen_nonneg (key_value k v)); lia). apply mem_read_all.
Qed.

(** ** The buffered builder *)

Record bb_ok (b : L0TableBuilderWithBuffer) kvs : Prop := {
  bbo_keys : bb_keys_ b = layout 0 kvs;
  bbo_num : bb_keys_num_ b = len kvs;
  bbo_offset : bb_offset_ b = len (table_data kvs);
  bbo_buf : len (bb_buf_ b) = bb_max_size_ b;
  bbo_fits : len (table_data kvs) <= bb_max_size_ b;
  bbo_max : bb_max_size_ b < 2 ^ 62;
  bbo_data : mem_read (bb_buf_ b) 0 (len (table_data kvs)) = Some (table_data kvs);
}.

Definition fits (max : Z) kvs (k v : bytes) : bool :=
  len (table_data kvs) + (len k + len v + 16) <=? max.

(** Appending at the end of what was written. *)
Lemma write_at_end buf data src :
  mem_read buf 0 (len data) = Some data -> len data + len src <= len buf ->
  exists buf', mem_write buf (len data) src = Some buf' /\ len buf' = len buf /\
    mem_read buf' 0 (len (data ++ src)) = Some (data ++ src).
Proof.
  intros Hd Hl. pose proof (zlen_nonneg data) as H0. pose proof (zlen_nonneg src) as H1.
  destruct (mem_write_in_range buf (len data) src H0 Hl) as [buf' Hw].
  exists buf'. pose proof (mem_write_len _ _ _ _ Hw) as Hlen. split_and!; [done|done|].
  pose proof Hw as Hw'. apply mem_write_Some in Hw' as (_ & _ & ->).
  apply mem_read_Some in Hd as (_ & _ & _ & Hd).
  rewrite mem_read_in_range by (rewrite ?zlen_app in *; lia). f_equal.
  rewrite drop_0 in *. rewrite <- Hd, app_assoc. apply take_app_length'.
  rewrite zlen_app, length_app. zlia.
Qed.

Lemma bb_make_ok max buf :
  len buf = max -> max < 2 ^ 62 -> bb_ok (L0TableBuilderWithBuffer_make max buf) [].
Proof.
  intros H Hm. pose proof (zlen_nonneg buf).
  constructor; simpl; change (table_data []) with ([] : bytes); rewrite ?zlen_nil; try done; try lia.
  apply (mem_read_in_range buf 0 0); lia.
Qed.

Lemma bb_Add_ok b kvs k v :
  bb_ok b kvs -> kv_ok (k, v) ->
  exists b', L0TableBuilderWithBuffer_Add b k v = Some b' /\ bb_max_size_ b' = bb_max_size_ b /\
    bb_ok b' (if fits (bb_max_size_ b) kvs k v then kvs ++ [(k, v)] else kvs).
Proof.
  intros [] Hkv. pose proof (zlen_nonneg (table_data kvs)).
  pose proof (zlen_nonneg k). pose proof (zlen_nonneg v). pose proof Hkv as Hkv'. unfold kv_ok in Hkv'. simpl in Hkv'.
  unfold L0TableBuilderWithBuffer_Add, fits. rewrite total_size_eq, bbo_offset0 by done.
  rewrite wrap_id by lia.
  destruct (Z.ltb_spec (bb_max_size_ b) (len (table_data kvs) + (len k + len v + 16))),
    (Z.leb_spec (len (table_data kvs) + (len k + len v + 16)) (bb_max_size_ b)); try lia.
  { exists b. split_and!; [done|done|by constructor]. }
  destruct (write_at_end (bb_buf_ b) (table_data kvs) (key_value k v)) as (buf' & -> & Hl & Hr);
    [done|rewrite key_value_len; lia|].
  simpl. eexists. split_and!; [done|done|].
  constructor; simpl; rewrite ?table_data_app, ?table_data_one, ?zlen_app, ?key_value_len, ?zlen_cons, ?zlen_nil in *;
    try done; try lia.
  by rewrite layout_app, bbo_keys0.
Qed.

(** The records added in a row, as the flush adds them. *)
Fixpoint bb_AddAll (b : L0TableBuilderWithBuffer) kvs : option L0TableBuilderWithBuffer :=
  match kvs with
  | [] => Some b
  | (k, v) :: kvs => b ← L0TableBuilderWithBuffer_Add b k v; bb_AddAll b kvs
  end.

(** The records a builder of size [max] holding [acc] keeps of [kvs]. *)
Fixpoint accepted (max : Z) (acc kvs : list (bytes * bytes)) : list (bytes * bytes) :=
  match kvs with
  | [] => acc
  | (k, v) :: kvs => accepted max (if fits max acc k v then acc ++ [(k, v)] else acc) kvs
  end.

Lemma bb_AddAll_ok b acc kvs :
  bb_ok b acc -> Forall kv_ok kvs ->
  exists b', bb_AddAll b kvs = Some b' /\ bb_max_size_ b' = bb_max_size_ b /\
    bb_ok b' (accepted (bb_max_size_ b) acc kvs).
Proof.
  intros Hb Hkvs. revert b acc Hb. induction Hkvs as [|[k v] kvs Hkv _ IH]; intros b acc Hb; simpl; [by eauto|].
  destruct (bb_Add_ok b acc k v Hb Hkv) as (b1 & -> & Hm & Hb1). simpl.
  destruct (IH b1 _ Hb1) as (b2 & -> & Hm2 & Hb2). rewrite Hm in *. eauto.
Qed.

(** Nothing is dropped when everything fits. *)
Lemma accepted_all max acc kvs :
  len (table_data (acc ++ kvs)) <= max -> accepted max acc kvs = acc ++ kvs.
Proof.
  revert acc. induction kvs as [|[k v] kvs IH]; intros acc H; simpl; [by rewrite app_nil_r|].
  replace (fits max acc k v) with true.
  - rewrite IH; rewrite <- app_assoc; [done|exact H].
  - symmetry. apply Z.leb_le. rewrite table_data_app, table_data_cons, !zlen_app, key_value_len in H.
    pose proof (zlen_nonneg (table_data kvs)). lia.
Qed.

(** ** Key metadata written and read *)

Definition key_meta_bytes (k : KeysMetadata) : bytes :=
  EncodeFixed64 (len (km_key k)) ++ km_key k ++ EncodeFixed32 (wrap32 (km_next k)) ++
  EncodeFixed64 (km_offset k) ++ EncodeFixed64 (km_size k).

Lemma join_cons (x : bytes) xs : mjoin (x :: xs) = x ++ mjoin xs.
Proof. done. Qed.

Lemma encode_keys_meta_eq keys : encode_keys_meta keys = mjoin (key_meta_bytes <$> keys).
Proof.
  unfold encode_keys_meta. change (mjoin (key_meta_bytes <$> keys)) with ([] ++ mjoin (key_meta_bytes <$> keys)).
  generalize ([] : bytes). induction keys as [|k keys IH]; intros acc.
  - symmetry. apply app_nil_r.
  - cbn [foldl]. rewrite IH. unfold put_key_meta, PutFixed64, PutFixed32.
    rewrite fmap_cons, join_cons. unfold key_meta_bytes at 2. by rewrite <- !app_assoc.
Qed.

Lemma key_meta_bytes_len k : len (key_meta_bytes k) = len (km_key k) + 28.
Proof.
  unfold key_meta_bytes, EncodeFixed64, EncodeFixed32. rewrite !zlen_app, !zlen_le_split. lia.
Qed.

(** The values of a key's metadata are those of their C++ types. *)
Record km_wf (k : KeysMetadata) : Prop := {
  kw_len : len (km_key k) < 2 ^ 63;
  kw_next : int_range (km_next k);
  kw_offset : u64 (km_offset k);
  kw_size : u64 (km_size k);
}.

(** Reads the field at an offset of a buffer [pre ++ field ++ rest]. *)
Lemma read_field buf (pre field rest : bytes) off n :
  buf = pre ++ field ++ rest -> off = len pre -> n = len field -> mem_read buf off n = Some field.
Proof.
  intros -> -> ->. rewrite <- (Z.add_0_r (len pre)), mem_read_app_r by lia.
  rewrite mem_read_app_l by (pose proof (zlen_nonneg field); lia). apply mem_read_all.
Qed.

Lemma DecodeFixed64_exact v : u64 v -> DecodeFixed64 (EncodeFixed64 v) = v.
Proof. intros H. rewrite <- (app_nil_r (EncodeFixed64 v)). by apply DecodeFixed64_Encode. Qed.

Lemma DecodeFixed32_exact v : u32 v -> DecodeFixed32 (EncodeFixed32 v) = v.
Proof. intros H. rewrite <- (app_nil_r (EncodeFixed32 v)). by apply DecodeFixed32_Encode. Qed.

Lemma EncodeFixed64_len v : len (EncodeFixed64 v) = 8.
Proof. apply zlen_le_split. Qed.

Lemma EncodeFixed32_len v : len (EncodeFixed32 v) = 4.
Proof. apply zlen_le_split. Qed.

Lemma recover_key_Encode k buf pre post :
  km_wf k -> buf = pre ++ key_meta_bytes k ++ post -> len buf < 2 ^ 64 ->
  recover_key buf (len pre) = Some (k, len (pre ++ key_meta_bytes k)).
Proof.
  intros [] Hbuf Hlen. pose proof (f_equal len Hbuf) as Hl.
  rewrite !zlen_app, key_meta_bytes_len in Hl.
  pose proof (zlen_nonneg pre). pose proof (zlen_nonneg (km_key k)). pose proof (zlen_nonneg post).
  destruct (u32_i32_wrap (km_next k)) as [Hu Hi]; [done|]. unfold key_meta_bytes in Hbuf.
  set (F1 := EncodeFixed64 (len (km_key k))) in *. set (F2 := EncodeFixed32 (wrap32 (km_next k))) in *.
  set (F3 := EncodeFixed64 (km_offset k)) in *. set (F4 := EncodeFixed64 (km_size k)) in *.
  assert (HF1 : len F1 = 8) by apply EncodeFixed64_len. assert (HF2 : len F2 = 4) by apply EncodeFixed32_len.
  assert (HF3 : len F3 = 8) by apply EncodeFixed64_len. assert (HF4 : len F4 = 8) by apply EncodeFixed64_len.
  unfold recover_key. rewrite <- !app_assoc in Hbuf.
  rewrite (read_field buf pre F1 (km_key k ++ F2 ++ F3 ++ F4 ++ post) (len pre)) by done. simpl.
  assert (Hd1 : DecodeFixed64 F1 = len (km_key k)) by (apply DecodeFixed64_exact; zlia). rewrite Hd1.
  rewrite (wrap_id 64 (len pre + 8)) by lia. rewrite (wrap_id 64 (len pre + 8 + len (km_key k))) by lia.
  rewrite (wrap_id 64 (len pre + 8 + len (km_key k) + 4)) by lia.
  rewrite (wrap_id 64 (len pre + 8 + len (km_key k) + 4 + 8)) by lia.
  rewrite (wrap_id 64 (len pre + 8 + len (km_key k) + 4 + 8 + 8)) by lia.
  rewrite (read_field buf (pre ++ F1) (km_key k) (F2 ++ F3 ++ F4 ++ post) (len pre + 8))
    by (rewrite <- ?app_assoc, ?zlen_app; (done || lia)). simpl.
  rewrite (read_field buf (pre ++ F1 ++ km_key k) F2 (F3 ++ F4 ++ post) (len pre + 8 + len (km_key k)))
    by (rewrite <- ?app_assoc, ?zlen_app; (done || lia)). simpl.
  rewrite (read_field buf (pre ++ F1 ++ km_key k ++ F2) F3 (F4 ++ post) (len pre + 8 + len (km_key k) + 4))
    by (rewrite <- ?app_assoc, ?zlen_app; (done || lia)). simpl.
  rewrite (read_field buf (pre ++ F1 ++ km_key k ++ F2 ++ F3) F4 post (len pre + 8 + len (km_key k) + 4 + 8))
    by (rewrite <- ?app_assoc, ?zlen_app; (done || lia)). simpl.
  unfold F2, F3, F4. rewrite DecodeFixed32_exact, !DecodeFixed64_exact, Hi by done.
  rewrite zlen_app, key_meta_bytes_len. destruct k. simpl. do 2 f_equal. lia.
Qed.

Lemma recover_keys_Encode keys buf pre post :
  Forall km_wf keys -> buf = pre ++ mjoin (key_meta_bytes <$> keys) ++ post -> len buf < 2 ^ 64 ->
  recover_keys buf (length keys) (len pre) = Some keys.
Proof.
  intros Hwf. revert pre. induction Hwf as [|k keys Hk _ IH]; intros pre Hbuf Hlen; [done|].
  rewrite fmap_cons, join_cons, <- app_assoc in Hbuf.
  cbn [recover_keys length]. rewrite (recover_key_Encode k buf pre _ Hk Hbuf Hlen). simpl.
  rewrite IH; [done|by rewrite Hbuf, <- app_assoc|done].
Qed.

(** The value reader on a record written by the builder. *)
Lemma GetValueInFile_record mem base fe i k next off v n :
  keys_meta fe !z i = Some (mkKM k next off n) -> 0 <= off ->
  mem_read mem (base + off) (len k + len v + 16) = Some (key_value k v) ->
  off + (len k + len v + 16) < 2 ^ 64 ->
  GetValueInFile mem base fe i = Some v.
Proof.
  intros Hk Hoff Hr Hlt. unfold GetValueInFile. rewrite Hk. simpl.
  pose proof (zlen_nonneg k). pose proof (zlen_nonneg v). rewrite key_value_eq in Hr.
  set (F1 := EncodeFixed64 (len k)) in *. set (F2 := EncodeFixed64 (len v)) in *.
  assert (HF1 : len F1 = 8) by apply EncodeFixed64_len. assert (HF2 : len F2 = 8) by apply EncodeFixed64_len.
  rewrite <- (Z.add_0_r (base + off)), (mem_read_sub _ _ _ _ 0 8 Hr) by lia.
  rewrite (read_field _ [] F1 (k ++ F2 ++ v)) by done. simpl.
  assert (Hd : DecodeFixed64 F1 = len k) by (apply DecodeFixed64_exact; zlia). rewrite Hd.
  rewrite (wrap_id 64 (off + 8)) by lia. rewrite (wrap_id 64 (off + 8 + len k)) by lia.
  rewrite (wrap_id 64 (off + 8 + len k + 8)) by lia.
  replace (base + (off + 8 + len k)) with (base + off + (8 + len k)) by lia.
  rewrite (mem_read_sub _ _ _ _ (8 + len k) 8 Hr) by lia.
  rewrite (read_field _ (F1 ++ k) F2 v) by (rewrite <- ?app_assoc, ?zlen_app; (done || lia)). simpl.
  assert (Hd2 : DecodeFixed64 F2 = len v) by (apply DecodeFixed64_exact; zlia). rewrite Hd2.
  replace (base + (off + 8 + len k + 8)) with (base + off + (8 + len k + 8)) by lia.
  rewrite (mem_read_sub _ _ _ _ (8 + len k + 8) (len v) Hr) by lia.
  apply (read_field _ (F1 ++ k ++ F2) v []); rewrite <- ?app_assoc, ?app_nil_r, ?zlen_app; (done || lia).
Qed.

(** ** Finish *)

(** What the metadata store requires of the tables it holds. *)
Record tables_ok (s : SstableMetadata) : Prop := {
  to_meta : meta_ok s;
  to_numbers : NoDup (filenum <$> entries s);
  to_wf : Forall entry_wf (entries s);
  to_count : Forall (fun fe => len (keys_meta fe) < 2 ^ 31) (entries s);
}.

(** The keys of a finished table: with hints into the next older table, if any. *)
Definition finished_keys (icmp : Comparator) (older : option FileEntry) (ks : list KeysMetadata)
  : list KeysMetadata :=
  match older with Some old => with_next icmp (keys_meta old) <$> ks | None => ks end.

Definition finished_entry (icmp : Comparator) (older : option FileEntry) (fe : FileEntry)
    (ks : list KeysMetadata) : FileEntry :=
  mkFE (filenum fe) (sstable_index fe) (finished_keys icmp older ks) (len ks)
    (match older with Some old => filenum old | None => key_point_filenum fe end).

Lemma finished_keys_length icmp older ks : length (finished_keys icmp older ks) = length ks.
Proof. destruct older; [apply length_fmap|done]. Qed.

(** The part of both [Finish] functions that fills the file entry. *)
Lemma finish_entry_ok icmp {Laws : ComparatorLaws icmp} s file fe ks :
  tables_ok s -> fheap s !! file = Some fe -> ks <> [] -> keys_sorted icmp ks ->
  Forall (fun k => km_next k = -1) ks -> len ks < 2 ^ 31 ->
  exists i s', entries s !! i = Some fe /\ files_ s !! i = Some file /\
    UpdateKeyNext icmp (store_entry s file (entry_set_keys fe ks (len ks))) (Some file) = Some s' /\
    tables_ok s' /\ files_ s' = files_ s /\ compaction_files s' = compaction_files s /\
    fheap s' !! file = Some (finished_entry icmp (entries s !! S i) fe ks) /\
    entries s' = <[i := finished_entry icmp (entries s !! S i) fe ks]> (entries s).
Proof.
  intros [Hok Hnd Hwf Hcnt] Hf Hne Hs Hm1 Hlen. set (fe1 := entry_set_keys fe ks (len ks)).
  destruct (store_entry_ok s file fe fe1 Hok Hf) as (i & Hi & He & Hok1 & He1).
  assert (Hf1 : fheap (store_entry s file fe1) !! file = Some fe1) by apply lookup_insert_eq.
  assert (Hnum : filenum <$> entries (store_entry s file fe1) = filenum <$> entries s).
  { rewrite He1, list_fmap_insert. apply list_insert_id. by rewrite list_lookup_fmap, He. }
  destruct (UpdateKeyNext_ok icmp (store_entry s file fe1) file fe1) as
    (i' & s' & Hi' & He' & Hu & Hok' & Hs' & Hes); try done.
  { by rewrite Hnum. }
  { rewrite He1. by apply Forall_insert. }
  { rewrite He1. by apply Forall_insert. }
  assert (files_ s' = files_ s /\ compaction_files s' = compaction_files s) as [Hfs Hcf].
  { rewrite Hs'. by destruct (_ !! S i'). }
  clear Hs'.
  assert (i' = i) as -> by (eapply (NoDup_lookup (files_ s)); [by destruct Hok|exact Hi'|exact Hi]).
  assert (Hil : (i < length (entries s))%nat) by (by eapply lookup_lt_Some).
  assert (Hnext : entries (store_entry s file fe1) !! S i = entries s !! S i)
    by (rewrite He1; apply list_lookup_insert_ne; lia).
  rewrite Hnext in Hes. set (fe2 := finished_entry icmp (entries s !! S i) fe ks).
  assert (Hes' : entries s' = <[i := fe2]> (entries s)).
  { rewrite Hes, He1. unfold fe2, finished_entry. destruct (entries s !! S i) as [old|] eqn:Hold.
    - by rewrite list_insert_insert_eq.
    - done. }
  exists i, s'. split_and!; [done..| |done|done| |done].
  - constructor; [done| | |]; rewrite Hes'.
    + rewrite list_fmap_insert, list_insert_id; [done|]. by rewrite list_lookup_fmap, He.
    + apply Forall_insert; [done|]. unfold entry_wf, fe2, finished_entry, zlen. simpl.
      by rewrite finished_keys_length.
    + apply Forall_insert; [done|]. unfold zlen in *. simpl. by rewrite finished_keys_length.
  - pose proof (meta_points s' Hok') as Hps. rewrite Hfs in Hps.
    destruct (Forall2_lookup_l _ _ _ _ _ Hps Hi) as (fe3 & Hfe3 & ->).
    rewrite Hes', list_lookup_insert_eq in Hfe3 by done. done.
Qed.

Lemma next_of_range icmp old key : -1 <= next_of icmp old key < Z.max 0 (len old).
Proof.
  unfold next_of. destruct (list_find _ old) as [[j o]|] eqn:E; [|lia].
  apply list_find_Some in E as (H%lookup_lt_Some & _). zlia.
Qed.

Lemma finished_keys_wf icmp older ks :
  Forall km_wf ks -> match older with Some old => len (keys_meta old) < 2 ^ 31 | None => True end ->
  Forall km_wf (finished_keys icmp older ks).
Proof.
  intros Hks Hold. destruct older as [old|]; [|done]. apply Forall_fmap.
  eapply Forall_impl; [exact Hks|]. intros k []. constructor; try done. simpl.
  pose proof (next_of_range icmp (keys_meta old) (km_key k)). unfold int_range. lia.
Qed.

Lemma layout_wf off kvs :
  Forall kv_ok kvs -> 0 <= off -> off + len (table_data kvs) < 2 ^ 63 -> Forall km_wf (layout off kvs).
Proof.
  intros Hkvs. revert off. induction Hkvs as [|[k v] kvs Hkv _ IH]; intros off Ho Hl; simpl; [done|].
  rewrite table_data_cons, zlen_app, key_value_len in Hl. unfold kv_ok in Hkv. simpl in Hkv.
  pose proof (zlen_nonneg k). pose proof (zlen_nonneg v). pose proof (zlen_nonneg (table_data kvs)).
  constructor; [|apply IH; lia]. constructor; simpl; unfold int_range, u64; lia.
Qed.

(** The bytes of the metadata depend on the keys only. *)
Definition meta_size kvs : Z := foldr (fun kv acc => len kv.1 + 28 + acc) 0 kvs.

Lemma encode_finished_len icmp older off kvs :
  len (encode_keys_meta (finished_keys icmp older (layout off kvs))) = meta_size kvs.
Proof.
  rewrite encode_keys_meta_eq. revert off. induction kvs as [|[k v] kvs IH]; intros off.
  - by destruct older.
  - specialize (IH (off + (len k + len v + 16))). cbn [layout meta_size foldr fst].
    fold (meta_size kvs). rewrite <- IH.
    destruct older; cbn [finished_keys]; rewrite !fmap_cons, join_cons, zlen_app, key_meta_bytes_len;
      cbn [km_key with_next set_next]; lia.
Qed.

Lemma meta_size_bound kvs : 0 <= meta_size kvs <= len (table_data kvs) + 12 * len kvs.
Proof.
  induction kvs as [|[k v] kvs IH]; [done|]. rewrite table_data_cons, zlen_app, key_value_len, zlen_cons.
  cbn [meta_size foldr fst]. fold (meta_size kvs). pose proof (zlen_nonneg k). pose proof (zlen_nonneg v). lia.
Qed.

Lemma layout_next off kvs : Forall (fun k => km_next k = -1) (layout off kvs).
Proof. revert off. induction kvs as [|[k v] kvs IH]; intros off; simpl; by constructor. Qed.

#[local] Arguments UpdateKeyNext : simpl never.

Section FinishOk.
Context {P : Pmem} {PL : PmemLaws P} (icmp : Comparator) {Laws : ComparatorLaws icmp}.

Lemma bb_Finish_ok b kvs s mem file fe raw :
  bb_ok b kvs -> kvs <> [] -> Forall kv_ok kvs -> len kvs < 2 ^ 31 -> keys_sorted icmp (layout 0 kvs) ->
  tables_ok s -> fheap s !! file = Some fe -> 0 <= raw -> raw + bb_max_size_ b <= len mem ->
  exists i s', entries s !! i = Some fe /\ tables_ok s' /\
    let fe' := finished_entry icmp (entries s !! S i) fe (layout 0 kvs) in
    fheap s' !! file = Some fe' /\ entries s' = <[i := fe']> (entries s) /\
    if bb_max_size_ b <? len (table_data kvs) + meta_size kvs then
      L0TableBuilderWithBuffer_Finish icmp b s mem file raw = Some (Status_IOError, b, s', mem)
    else
      exists b' mem',
        L0TableBuilderWithBuffer_Finish icmp b s mem file raw = Some (Status_OK, b', s', mem') /\
        bb_offset_ b' = len (table_data kvs) /\ bb_keys_meta_size_ b' = meta_size kvs /\
        mem_write mem raw (table_data kvs ++ encode_keys_meta (keys_meta fe')) = Some mem'.
Proof.
  intros Hb Hne Hkv Hcnt Hs Hok Hf Hraw Hmem. pose proof Hb as [].
  assert (Hlen : len (layout 0 kvs) = len kvs) by (unfold zlen; by rewrite layout_length).
  destruct (finish_entry_ok icmp s file fe (layout 0 kvs)) as
    (i & s' & He & _ & Hu & Hok' & _ & _ & Hf' & Hes); try done; try lia.
  { intros H. apply Hne. by apply length_zero_iff_nil; rewrite <- (layout_length 0), H. }
  { apply layout_next. }
  exists i, s'. split_and!; [done|done|]. set (fe' := finished_entry _ _ _ _) in *. split_and!; [done|done|].
  unfold L0TableBuilderWithBuffer_Finish. rewrite Hf. simpl.
  rewrite bbo_keys0, entry_keys_layout, bbo_num0, <- Hlen, Hu. simpl. rewrite Hf'. simpl.
  assert (Hkm : len (finished_keys icmp (entries s !! S i) (layout 0 kvs)) = len (layout 0 kvs))
    by (unfold zlen; by rewrite finished_keys_length).
  rewrite Hkm, Z.leb_refl, zlen_to_nat. pose proof (zlen_nonneg (layout 0 kvs)) as Hnn.
  apply Z.leb_le in Hnn. rewrite Hnn. simpl.
  rewrite <- (finished_keys_length icmp (entries s !! S i)), firstn_all, encode_finished_len, bbo_offset0.
  pose proof (meta_size_bound kvs). pose proof (zlen_nonneg (table_data kvs)).
  rewrite wrap_id by lia.
  destruct (Z.ltb_spec (bb_max_size_ b) (len (table_data kvs) + meta_size kvs)); [done|].
  set (M := encode_keys_meta _).
  assert (HM : len M = meta_size kvs) by apply encode_finished_len.
  destruct (write_at_end (bb_buf_ b) (table_data kvs) M) as (buf' & -> & Hl & Hr); [done|lia|]. simpl.
  rewrite zlen_app, HM in Hr. rewrite Hr. simpl. rewrite pmem_memcpy_persist_spec.
  destruct (mem_write_in_range mem raw (table_data kvs ++ M)) as [mem' ->]; [done|rewrite zlen_app; lia|].
  simpl. eauto 10.
Qed.
End FinishOk.

(** ** Properties *)

Definition records_sorted (icmp : Comparator) kvs : Prop :=
  StronglySorted (fun a b => Compare icmp a.1 b.1 < 0) kvs.

Lemma layout_keys off kvs : km_key <$> layout off kvs = kvs.*1.
Proof.
  revert off. induction kvs as [|[k v] kvs IH]; intros off; [done|].
  cbn [layout]. rewrite !fmap_cons, IH. done.
Qed.

Lemma layout_sorted icmp off kvs : records_sorted icmp kvs -> keys_sorted icmp (layout off kvs).
Proof.
  intros H. apply StronglySorted_lookup_intro. intros i j a b Hij Ha Hb.
  assert (Hlk : forall i a, layout off kvs !! i = Some a -> exists v, kvs !! i = Some (km_key a, v)).
  { intros i0 a0 H0. pose proof (f_equal (.!! i0) (layout_keys off kvs)) as Hf.
    rewrite !list_lookup_fmap, H0 in Hf. simpl in Hf.
    destruct (kvs !! i0) as [[k v]|]; simpl in Hf; [|done]. injection Hf as <-. eauto. }
  destruct (Hlk _ _ Ha) as [va Hva], (Hlk _ _ Hb) as [vb Hvb].
  exact (StronglySorted_lookup_lt _ _ _ _ _ _ H Hij Hva Hvb).
Qed.

Lemma finished_lookup icmp older ks i k :
  ks !! i = Some k ->
  exists next, finished_keys icmp older ks !! i = Some (mkKM (km_key k) next (km_offset k) (km_size k)).
Proof.
  intros H. destruct older as [old|]; simpl.
  - rewrite list_lookup_fmap, H. by eexists.
  - rewrite H. exists (km_next k). by destruct k.
Qed.

(** A table written at [raw] gives its values back. *)
Lemma table_values mem raw kvs icmp older fe i k v :
  mem_read mem raw (len (table_data kvs)) = Some (table_data kvs) -> len (table_data kvs) < 2 ^ 63 ->
  keys_meta fe = finished_keys icmp older (layout 0 kvs) -> kvs !! i = Some (k, v) ->
  GetValueInFile mem raw fe (Z.of_nat i) = Some v.
Proof.
  intros Hr Hl Hfe Hi. pose proof (layout_lookup 0 kvs i k v Hi) as Hlay.
  destruct (finished_lookup icmp older _ _ _ Hlay) as [next Hnext]. simpl in Hnext.
  pose proof (table_data_lookup kvs i k v Hi) as Hd. pose proof Hd as (? & ? & Hle & _)%mem_read_Some.
  eapply GetValueInFile_record; [rewrite zget_nat, Hfe; exact Hnext|done| |lia].
  by rewrite (mem_read_sub _ _ _ _ _ _ Hr) by lia.
Qed.

Section Properties.
Context {P : Pmem} {PL : PmemLaws P} (icmp : Comparator) {Laws : ComparatorLaws icmp}.

(** C23. A level-0 table written to NVM can be read back and recovered: when the
    records and their metadata fit in the slot, building the table succeeds; then every
    value is read back by the position of its key, the metadata found in NVM at
    recovery is exactly the key array the running process has (keys, offsets, sizes
    and hints), and the pool outside the slot is untouched. *)
Theorem l0_table_roundtrip s mem file fe raw max buf kvs :
  tables_ok s -> fheap s !! file = Some fe ->
  kvs <> [] -> Forall kv_ok kvs -> len kvs < 2 ^ 31 -> records_sorted icmp kvs ->
  len buf = max -> max < 2 ^ 62 -> 0 <= raw -> raw + max <= len mem ->
  len (table_data kvs) + meta_size kvs <= max ->
  exists b b' s' mem' fe',
    bb_AddAll (L0TableBuilderWithBuffer_make max buf) kvs = Some b /\
    L0TableBuilderWithBuffer_Finish icmp b s mem file raw = Some (Status_OK, b', s', mem') /\
    tables_ok s' /\ fheap s' !! file = Some fe' /\ keys_num fe' = len kvs /\
    (forall i k v, kvs !! i = Some (k, v) ->
       (exists m, keys_meta fe' !! i = Some m /\ km_key m = k) /\
       GetValueInFile mem' raw fe' (Z.of_nat i) = Some v) /\
    (exists meta, mem_read mem' (raw + bb_offset_ b') (bb_keys_meta_size_ b') = Some meta /\
       recover_keys meta (length kvs) 0 = Some (keys_meta fe')) /\
    (forall o n, o + n <= raw \/ raw + max <= o -> mem_read mem' o n = mem_read mem o n).
Proof.
  intros Hok Hf Hne Hkv Hcnt Hs Hbuf Hmax Hraw Hmem Hfit.
  pose proof (meta_size_bound kvs) as Hms. pose proof (zlen_nonneg (table_data kvs)) as Hnn.
  destruct (bb_AddAll_ok _ [] kvs (bb_make_ok max buf Hbuf Hmax) Hkv) as (b & Hadd & Hm & Hb).
  simpl in Hm, Hb. rewrite accepted_all in Hb by (simpl; lia). simpl in Hb.
  destruct (bb_Finish_ok icmp b kvs s mem file fe raw) as (i & s' & He & Hok' & Hf' & Hes & Hfin);
    try done; [by apply layout_sorted|lia|].
  rewrite Hm in Hfin. destruct (Z.ltb_spec max (len (table_data kvs) + meta_size kvs)); [lia|].
  destruct Hfin as (b' & mem' & Hfin & Hoff & Hmsz & Hw).
  set (fe' := finished_entry _ _ _ _) in *. set (M := encode_keys_meta (keys_meta fe')) in *.
  assert (HM : len M = meta_size kvs) by apply encode_finished_len.
  pose proof (mem_read_write_same _ _ _ _ Hw) as Hall. rewrite zlen_app, HM in Hall.
  exists b, b', s', mem', fe'. split_and!; [done..| | | |].
  - change (len (layout 0 kvs) = len kvs). unfold zlen. by rewrite layout_length.
  - intros j k v Hj. split.
    + destruct (finished_lookup icmp (entries s !! S i) _ _ _ (layout_lookup 0 kvs j k v Hj)) as [nx Hx].
      eexists. split; [exact Hx|done].
    + eapply (table_values mem' raw kvs icmp (entries s !! S i)); [|lia|done|done].
      rewrite <- (Z.add_0_r raw), (mem_read_sub _ _ _ _ _ _ Hall) by lia.
      rewrite mem_read_app_l by lia. apply mem_read_all.
  - exists M. rewrite Hoff, Hmsz, (mem_read_sub _ _ _ _ _ _ Hall) by lia. split.
    + rewrite <- (Z.add_0_r (len (table_data kvs))), mem_read_app_r, <- HM by lia. apply mem_read_all.
    + replace (length kvs) with (length (keys_meta fe')) by (simpl; by rewrite finished_keys_length, layout_length).
      eapply (recover_keys_Encode (keys_meta fe') M [] []).
      * apply finished_keys_wf; [apply layout_wf; [done|lia..]|].
        destruct (entries s !! S i) as [old|] eqn:Hold; [|done].
        pose proof (to_count _ Hok) as Hc. rewrite Forall_lookup in Hc. by eapply Hc.
      * unfold M. rewrite encode_keys_meta_eq, app_nil_r. done.
      * lia.
  - intros o n Hd. eapply mem_read_write_disjoint; [exact Hw|]. rewrite zlen_app. lia.
Qed.
End Properties.

Lemma tables_ok_make : tables_ok SstableMetadata_make.
Proof.
  constructor; [constructor|..]; simpl; try constructor; try set_solver.
  intros [? Hp]. by rewrite lookup_empty in Hp.
Qed.

Lemma tables_ok_AddFile s n i :
  tables_ok s -> n ∉ (filenum <$> entries s) ->
  let '(p, s') := SstableMetadata_AddFile s n i in
  tables_ok s' /\ fheap s' !! p = Some (FileEntry_make n i) /\
  entries s' = FileEntry_make n i :: entries s.
Proof.
  intros [Hok Hnd Hwf Hc] Hn. pose proof (AddFile_ok s n i Hok) as H.
  destruct (SstableMetadata_AddFile s n i) as [p s']. destruct H as (Hok' & He & Hp & _).
  split_and!; [|done|done]. constructor; [done|..]; rewrite He.
  - rewrite fmap_cons. by constructor.
  - by constructor.
  - constructor; [by vm_compute|done].
Qed.

Definition sample_records : list (bytes * bytes) :=
  [(InternalKey_make [Byte.x61] 4 kTypeValue, [Byte.x31; Byte.x32]);
   (InternalKey_make [Byte.x63] 3 kTypeValue, [])].

Lemma l0_table_roundtrip_witness :
  let icmp := InternalKeyComparator BytewiseComparator in
  let s := (SstableMetadata_AddFile SstableMetadata_make 5 0).2 in
  exists b b' s' mem' fe',
    bb_AddAll (L0TableBuilderWithBuffer_make 150 (replicate 150 Byte.x00)) sample_records = Some b /\
    @L0TableBuilderWithBuffer_Finish ZeroPmem icmp b s (replicate 200 Byte.x00) 0 40 =
      Some (Status_OK, b', s', mem') /\
    fheap s' !! 0%nat = Some fe' /\ GetValueInFile mem' 40 fe' 0 = Some [Byte.x31; Byte.x32].
Proof.
  intros icmp s.
  destruct (l0_table_roundtrip (P := ZeroPmem) icmp s (replicate 200 Byte.x00) 0 (FileEntry_make 5 0) 40 150
    (replicate 150 Byte.x00) sample_records)
    as (b & b' & s' & mem' & fe' & Hadd & Hfin & _ & Hf & _ & Hget & _); try done; try lia.
  - apply (tables_ok_AddFile SstableMetadata_make 5 0 tables_ok_make). vm_compute. intros H. inversion H.
  - repeat constructor.
  - constructor; [constructor; constructor|constructor; [by vm_compute|constructor]].
  - exists b, b', s', mem', fe'. split_and!; [done..|]. eapply (Hget 0%nat). reflexivity.
Defined.
