(* ===== verification/Iterator.v ===== *)
(** * Internal iterators (table/internal_iterator.h)

    The operations of an [InternalIterator], what its documentation promises of them,
    and reading a whole iterator.  An operation returns [None] when it reads out of
    range.  Clients such as the merging iterator are verified against the laws, each
    kind of iterator discharges them. *)

From S2P Require Import Prelude Coding Comparator DbFormat VersionEdit NvmAlloc SstableMeta L0Table.

Record InternalIterator (S : Type) := mkIter {
  it_Valid : S -> bool;
  it_SeekToFirst : S -> option S;
  it_SeekToLast : S -> option S;
  it_Seek : bytes -> S -> option S;
  it_SeekForPrev : bytes -> S -> option S;
  it_Next : S -> option S;
  it_Prev : S -> option S;
  it_key : S -> option bytes;
  it_value : S -> option bytes;
  it_status : S -> Status;
}.
Arguments it_Valid {S} _ _.
Arguments it_SeekToFirst {S} _ _.
Arguments it_SeekToLast {S} _ _.
Arguments it_Seek {S} _ _ _.
Arguments it_SeekForPrev {S} _ _ _.
Arguments it_Next {S} _ _.
Arguments it_Prev {S} _ _.
Arguments it_key {S} _ _.
Arguments it_value {S} _ _.
Arguments it_status {S} _ _.

(** The records of a source, in strictly increasing order of their keys. *)
Definition recs_sorted (icmp : Comparator) (recs : list (bytes * bytes)) : Prop :=
  StronglySorted (fun a b => Compare icmp a.1 b.1 < 0) recs.

(** [p] is the position of the first record at or past [target]; of the last one at or
    before it. *)
Definition first_from (icmp : Comparator) (recs : list (bytes * bytes)) (target : bytes) (p : Z) : Prop :=
  0 <= p <= len recs /\
  (forall j r, recs !z j = Some r -> j < p -> Compare icmp r.1 target < 0) /\
  (forall r, recs !z p = Some r -> 0 <= Compare icmp r.1 target).

Definition last_upto (icmp : Comparator) (recs : list (bytes * bytes)) (target : bytes) (p : Z) : Prop :=
  -1 <= p < len recs /\
  (forall j r, recs !z j = Some r -> p < j -> 0 < Compare icmp r.1 target) /\
  (forall r, recs !z p = Some r -> Compare icmp r.1 target <= 0).

(** [over s recs p]: the iterator [s] reads [recs] and stands at position [p], before
    the first record at [-1] and after the last one at the length. *)
Class ScanLaws {S} (icmp : Comparator) (it : InternalIterator S) (over : S -> list (bytes * bytes) -> Z -> Prop) := {
  sc_sorted s recs p : over s recs p -> recs_sorted icmp recs;
  sc_range s recs p : over s recs p -> -1 <= p <= len recs;
  sc_status s recs p : over s recs p -> it_status it s = Status_OK;
  sc_valid s recs p : over s recs p -> it_Valid it s = bool_decide (0 <= p < len recs);
  sc_key s recs p k v : over s recs p -> recs !z p = Some (k, v) ->
    it_key it s = Some k /\ it_value it s = Some v;
  sc_first s recs p : over s recs p -> exists s', it_SeekToFirst it s = Some s' /\ over s' recs 0;
  sc_next s recs p : over s recs p -> 0 <= p < len recs ->
    exists s', it_Next it s = Some s' /\ over s' recs (p + 1);
}.

Class SeekLaw {S} (icmp : Comparator) (it : InternalIterator S) (over : S -> list (bytes * bytes) -> Z -> Prop) := {
  sc_seek s recs p target : over s recs p ->
    exists s' q, it_Seek it target s = Some s' /\ over s' recs q /\ first_from icmp recs target q;
}.

Class ReverseLaws {S} (icmp : Comparator) (it : InternalIterator S) (over : S -> list (bytes * bytes) -> Z -> Prop) := {
  rl_last s recs p : over s recs p -> exists s', it_SeekToLast it s = Some s' /\ over s' recs (len recs - 1);
  rl_prev s recs p : over s recs p -> 0 <= p < len recs ->
    exists s', it_Prev it s = Some s' /\ over s' recs (p - 1);
}.

Class SeekForPrevLaw {S} (icmp : Comparator) (it : InternalIterator S) (over : S -> list (bytes * bytes) -> Z -> Prop) := {
  sl_prev s recs p target : over s recs p ->
    exists s' q, it_SeekForPrev it target s = Some s' /\ over s' recs q /\ last_upto icmp recs target q;
}.

(** ** Reading an iterator to its end *)

Section Collect.
Context {S : Type} (it : InternalIterator S).

(** [for (; Valid(); Next())], the records seen. *)
Fixpoint collect (fuel : nat) (s : S) : option (list (bytes * bytes)) :=
  if it_Valid it s then
    match fuel with
    | O => None
    | Datatypes.S fuel =>
        k ← it_key it s; v ← it_value it s; s ← it_Next it s;
        rest ← collect fuel s; Some ((k, v) :: rest)
    end
  else Some [].

Lemma collect_from icmp over `{!ScanLaws icmp it over} fuel s recs p :
  over s recs p -> 0 <= p -> (Z.to_nat (len recs - p) <= fuel)%nat ->
  collect fuel s = Some (drop (Z.to_nat p) recs).
Proof.
  revert s p. induction fuel as [|fuel IH]; intros s p Hs Hp Hf; simpl.
  - rewrite (sc_valid _ _ _ Hs). rewrite bool_decide_false by lia. pose proof (sc_range _ _ _ Hs).
    by rewrite drop_ge by zlia.
  - rewrite (sc_valid _ _ _ Hs). case_bool_decide as Hv.
    + destruct (zget_is_Some recs p Hv) as [[k v] Hkv]. destruct (sc_key _ _ _ _ _ Hs Hkv) as [-> ->]. simpl.
      destruct (sc_next _ _ _ Hs Hv) as (s' & -> & Hs'). simpl. rewrite (IH s' (p + 1)) by (done || lia). simpl.
      apply zget_Some in Hkv as [_ Hkv]. rewrite (drop_S _ _ _ Hkv). do 3 f_equal. lia.
    + pose proof (sc_range _ _ _ Hs). by rewrite drop_ge by zlia.
Qed.
End Collect.

(** Positions of a search in sorted records are unique. *)
Section Positions.
Context (icmp : Comparator) {Laws : ComparatorLaws icmp}.
Implicit Types (recs : list (bytes * bytes)).

Lemma recs_sorted_le recs i j a b :
  recs_sorted icmp recs -> recs !z i = Some a -> recs !z j = Some b -> i <= j -> Compare icmp a.1 b.1 <= 0.
Proof.
  intros Hs [Hi Ha]%zget_Some [Hj Hb]%zget_Some Hij. destruct (decide (i = j)) as [->|].
  - assert (a = b) as -> by congruence. by rewrite (cmp_refl icmp).
  - apply Z.lt_le_incl. exact (StronglySorted_lookup_lt _ _ (Z.to_nat i) (Z.to_nat j) _ _ Hs ltac:(lia) Ha Hb).
Qed.

Lemma recs_sorted_lt recs i j a b :
  recs_sorted icmp recs -> recs !z i = Some a -> recs !z j = Some b -> i < j -> Compare icmp a.1 b.1 < 0.
Proof.
  intros Hs [Hi Ha]%zget_Some [Hj Hb]%zget_Some Hij.
  exact (StronglySorted_lookup_lt _ _ (Z.to_nat i) (Z.to_nat j) _ _ Hs ltac:(lia) Ha Hb).
Qed.

Lemma first_from_unique recs t p q :
  recs_sorted icmp recs -> first_from icmp recs t p -> first_from icmp recs t q -> p = q.
Proof.
  intros Hs (Hp & Hpb & Hpa) (Hq & Hqb & Hqa). destruct (Z.lt_trichotomy p q) as [H|[H|H]]; [|done|]; exfalso.
  - destruct (zget_is_Some recs p ltac:(lia)) as [r Hr]. pose proof (Hqb _ _ Hr H). pose proof (Hpa _ Hr). lia.
  - destruct (zget_is_Some recs q ltac:(lia)) as [r Hr]. pose proof (Hpb _ _ Hr H). pose proof (Hqa _ Hr). lia.
Qed.

Lemma first_from_exists recs t : recs_sorted icmp recs -> exists p, first_from icmp recs t p.
Proof.
  induction 1 as [|r recs Hs IH Hr].
  { exists 0. split_and!; [done|done|intros j r H%zget_range; unfold zlen in H; simpl in H; lia|done]. }
  destruct (Z.lt_ge_cases (Compare icmp r.1 t) 0) as [Hlt|Hge].
  - destruct IH as (p & Hp & Hb & Ha). exists (p + 1). split_and!; [lia|rewrite zlen_cons; lia| |].
    + intros j r' Hj Hjp. pose proof (zget_range _ _ _ Hj). rewrite zget_cons in Hj by lia. destruct (Z.eqb_spec j 0); [congruence|].
      apply (Hb (j - 1)); [done|lia].
    + intros r' Hj. rewrite zget_cons in Hj by lia. destruct (Z.eqb_spec (p + 1) 0); [lia|].
      apply Ha. by replace (p + 1 - 1) with p in Hj by lia.
  - exists 0. split_and!; [done|apply zlen_nonneg|intros j r' H%zget_range; lia|]. intros r' [= <-]. done.
Qed.

(** What lies from the position on, as a filter. *)
Lemma drop_first_from recs t p :
  recs_sorted icmp recs -> first_from icmp recs t p ->
  drop (Z.to_nat p) recs = filter (fun r => 0 <= Compare icmp r.1 t) recs.
Proof.
  intros Hs (Hp & Hb & Ha). rewrite <- (take_drop (Z.to_nat p) recs) at 2. rewrite filter_app.
  rewrite filter_none, filter_id; [done|..].
  - intros r [n Hn]%list_elem_of_lookup. rewrite lookup_drop in Hn.
    pose proof (lookup_lt_Some _ _ _ Hn). destruct (zget_is_Some recs p) as [r0 Hr0]; [zlia|].
    pose proof (Ha _ Hr0) as H0. apply (cmp_le_ge icmp). apply (cmp_le_ge icmp) in H0.
    apply (cmp_trans (c := icmp) _ r0.1); [done|].
    apply (recs_sorted_le recs p (Z.of_nat (Z.to_nat p + n))); [done|done|by rewrite zget_nat|lia].
  - intros r [n Hn]%list_elem_of_lookup. apply lookup_take_Some in Hn as [Hn Hlt].
    rewrite <- zget_nat in Hn. specialize (Hb _ _ Hn ltac:(lia)). lia.
Qed.
End Positions.
