(* ===== verification/Block.v ===== *)
(** * Reading blocks (table/block.cc, table/block.h)

    The block a reader makes of the contents, and the iterator over a data block: decoding of
    entries, binary search over the restart points, and stepping back with the cache of
    decoded entries.  A pointer into the block is its offset.  [key_] is its bytes, whether
    they lie in the block, in the iterator's buffer or in the cache: each of them is left
    alone as long as [key_] refers to it. *)

From S2P Require Import Prelude Coding Comparator DbFormat VersionEdit NvmAlloc SstableMeta L0Table Iterator Bloom BlockBuilder.

(** ** The block *)

Definition kDisableGlobalSequenceNumber : Z := 2 ^ 64 - 1.

Record Block := mkBlock {
  bl_data_ : bytes;
  bl_size_ : Z;
  bl_restart_offset_ : Z;
  bl_num_restarts_ : Z;
  bl_global_seqno_ : Z;
  bl_num_buckets_ : Z
}.

(** [None] is a failed assertion, or a read outside of the block. *)
Definition block_footer (data : bytes) (size : Z) : option Z :=
  if size <? 8 then None else w ← mem_read data (size - 4) 4; Some (DecodeFixed32 w).

Definition NumRestarts (data : bytes) (size : Z) : option Z :=
  footer ← block_footer data size;
  Some (if kMaxBlockSizeSupportedByHashIndex <? size then footer else (UnPackIndexTypeAndNumRestarts footer).2).

Definition IndexType (data : bytes) (size : Z) : option DataBlockIndexType :=
  footer ← block_footer data size;
  Some (if kMaxBlockSizeSupportedByHashIndex <? size then kDataBlockBinarySearch else (UnPackIndexTypeAndNumRestarts footer).1).

(** [DataBlockHashIndex::Initialize]: the buckets and [map_offset]. *)
Definition HashIndex_Initialize (data : bytes) (size : Z) : option (Z * Z) :=
  if size <? 2 then None else
  w ← mem_read data (size - 2) 2;
  let num_buckets := DecodeFixed16 w in
  if negb (0 <? num_buckets) || negb (num_buckets <? size) then None else
  Some (num_buckets, wrap 16 (size - 2 - num_buckets)).

Definition Block_make (data : bytes) (global_seqno : Z) : option Block :=
  let size := len data in
  if size <? 4 then Some (mkBlock data 0 0 0 global_seqno 0) else
  num_restarts ← NumRestarts data size;
  index_type ← IndexType data size;
  match index_type with
  | kDataBlockBinarySearch =>
      let restart_offset := wrap32 (wrap32 size - wrap32 (1 + num_restarts) * 4) in
      Some (mkBlock data (if size - 4 <? restart_offset then 0 else size) restart_offset num_restarts global_seqno 0)
  | kDataBlockBinaryAndHash =>
      if size <? 4 + 2 then Some (mkBlock data 0 0 num_restarts global_seqno 0) else
      '(num_buckets, map_offset) ← HashIndex_Initialize data (wrap 16 (size - 4));
      let restart_offset := wrap32 (map_offset - num_restarts * 4) in
      Some (mkBlock data (if map_offset <? restart_offset then 0 else size) restart_offset num_restarts global_seqno num_buckets)
  end.

(** ** The iterator *)

(** A [CachedPrevEntry]: offset, key, and the value as an offset and a size. *)
Record CachedPrevEntry := mkCached { cp_offset : Z; cp_key : bytes; cp_value : Z * Z }.

Record DataBlockIter := mkDI {
  di_data_ : option bytes;
  di_restarts_ : Z;
  di_num_restarts_ : Z;
  di_global_seqno_ : Z;
  di_num_buckets_ : Z;
  di_restart_index_ : Z;
  di_current_ : Z;
  di_key_ : bytes;
  di_value_ : Z * Z;
  di_status_ : Status;
  di_prev_entries_ : list CachedPrevEntry;
  di_prev_entries_idx_ : Z
}.

Definition di_set (restart_index current : Z) (key : bytes) (value : Z * Z) (st : Status) '(mkDI d r n g b _ _ _ _ _ pe pi) : DataBlockIter :=
  mkDI d r n g b restart_index current key value st pe pi.

Definition di_set_cache (entries : list CachedPrevEntry) (idx : Z) '(mkDI d r n g b ri c k v st _ _) : DataBlockIter :=
  mkDI d r n g b ri c k v st entries idx.

(** Invalid, at no entry. *)
Definition di_at_end (it : DataBlockIter) : DataBlockIter :=
  di_set (di_num_restarts_ it) (di_restarts_ it) (di_key_ it) (di_value_ it) (di_status_ it) it.

Definition DataBlockIter_Invalidate (s : Status) : DataBlockIter := mkDI None 0 0 0 0 0 0 [] (0, 0) s [] (-1).

(** [Block::NewIterator], on a new iterator. *)
Definition NewDataIterator (b : Block) : DataBlockIter :=
  if bl_size_ b <? 8 then DataBlockIter_Invalidate Status_Corruption
  else if bl_num_restarts_ b =? 0 then DataBlockIter_Invalidate Status_OK
  else mkDI (Some (bl_data_ b)) (bl_restart_offset_ b) (bl_num_restarts_ b) (bl_global_seqno_ b) (bl_num_buckets_ b)
         (bl_num_restarts_ b) (bl_restart_offset_ b) [] (0, 0) Status_OK [] (-1).

Definition di_Valid (it : DataBlockIter) : bool := di_current_ it <? di_restarts_ it.

Definition NextEntryOffset (it : DataBlockIter) : Z := wrap32 ((di_value_ it).1 + (di_value_ it).2).

Definition GetRestartPoint (it : DataBlockIter) (index : Z) : option Z :=
  if negb (index <? di_num_restarts_ it) then None else
  data ← di_data_ it;
  w ← mem_read data (di_restarts_ it + index * 4) 4;
  Some (DecodeFixed32 w).

Definition SeekToRestartPoint (index : Z) (it : DataBlockIter) : option DataBlockIter :=
  offset ← GetRestartPoint it index;
  Some (di_set index (di_current_ it) [] (offset, 0) (di_status_ it) it).

(** The cleared value lies outside of the block; its offset, kept here, is not read again before a
    restart point sets it. *)
Definition CorruptionError (it : DataBlockIter) : DataBlockIter :=
  di_set (di_num_restarts_ it) (di_restarts_ it) [] ((di_value_ it).1, 0) Status_Corruption it.

(** ** Decoding *)

(** The bytes between [p] and [limit]. *)
Definition span (data : bytes) (p limit : Z) : bytes := take (Z.to_nat (limit - p)) (drop (Z.to_nat p) data).

(** Shared and not shared size, value length and the offset behind them; [None] within is [nullptr]. *)
Definition DecodeEntry (data : bytes) (p limit : Z) : option (option (Z * Z * Z * Z)) :=
  if limit - p <? 3 then None else
  b0 ← data !z p; b1 ← data !z (p + 1); b2 ← data !z (p + 2);
  let shared := byte.unsigned b0 in
  let non_shared := byte.unsigned b1 in
  let value_length := byte.unsigned b2 in
  if Z.lor (Z.lor shared non_shared) value_length <? 128
  then if wrap32 (limit - (p + 3)) <? wrap32 (non_shared + value_length) then None
       else Some (Some (shared, non_shared, value_length, p + 3))
  else
    match GetVarint32Ptr (span data p limit) with
    | None => Some None
    | Some (shared, rest) =>
        match GetVarint32Ptr rest with
        | None => Some None
        | Some (non_shared, rest) =>
            match GetVarint32Ptr rest with
            | None => Some None
            | Some (value_length, rest) =>
                if wrap32 (len rest) <? wrap32 (non_shared + value_length) then None
                else Some (Some (shared, non_shared, value_length, limit - len rest))
            end
        end
    end.

(** [DecodeKey]: as [DecodeEntry], without the value. *)
Definition DecodeKey (data : bytes) (p limit : Z) : option (option (Z * Z * Z)) :=
  e ← DecodeEntry data p limit;
  Some ('(shared, non_shared, _, p) ← e; Some (shared, non_shared, p)).

(** [UpdateInternalKey] of [IterKey], with the assertions of its caller. *)
Definition apply_global_seqno (it : DataBlockIter) (key : bytes) : option bytes :=
  if di_global_seqno_ it =? kDisableGlobalSequenceNumber then Some key else
  if (len key <? 8) || negb (GetInternalKeySeqno key =? 0) then None else
  let value_type := ExtractValueType key in
  if (value_type =? kTypeValue) || (value_type =? kTypeMerge) || (value_type =? kTypeDeletion) || (value_type =? kTypeRangeDeletion)
  then Some (UpdateInternalKey key (di_global_seqno_ it) value_type) else None.

(** [while (restart_index_ + 1 < num_restarts_ && GetRestartPoint(restart_index_ + 1) < current_)]. *)
Fixpoint advance_restart (fuel : nat) (it : DataBlockIter) (restart_index current : Z) : option Z :=
  match fuel with
  | O => None
  | S fuel =>
      if restart_index + 1 <? di_num_restarts_ it then
        r ← GetRestartPoint it (restart_index + 1);
        if r <? current then advance_restart fuel it (restart_index + 1) current else Some restart_index
      else Some restart_index
  end.

(** The result is whether there is an entry; [limit] is the end of the entries, or of a restart interval. *)
Definition ParseNextDataKey (limit : option Z) (it : DataBlockIter) : option (bool * DataBlockIter) :=
  data ← di_data_ it;
  let current := NextEntryOffset it in
  let limit := default (di_restarts_ it) limit in
  if limit <=? current then Some (false, di_at_end it) else
  e ← DecodeEntry data current limit;
  match e with
  | None => Some (false, CorruptionError it)
  | Some (shared, non_shared, value_length, p) =>
      if len (di_key_ it) <? shared then Some (false, CorruptionError it) else
      delta ← mem_read data p non_shared;
      key ← apply_global_seqno it (take (Z.to_nat shared) (di_key_ it) ++ delta);
      restart_index ← (if shared =? 0 then advance_restart (S (Z.to_nat (di_num_restarts_ it))) it (di_restart_index_ it) current
                       else Some (di_restart_index_ it));
      Some (true, di_set restart_index current key (p + non_shared, value_length) (di_status_ it) it)
  end.

Definition di_Next (it : DataBlockIter) : option DataBlockIter :=
  if negb (di_Valid it) then None else '(_, it) ← ParseNextDataKey None it; Some it.

Definition di_key (it : DataBlockIter) : option bytes := if di_Valid it then Some (di_key_ it) else None.

Definition di_value (it : DataBlockIter) : option bytes :=
  if di_Valid it then data ← di_data_ it; mem_read data (di_value_ it).1 (di_value_ it).2 else None.

(** ** Positioning *)

Definition di_SeekToFirst (it : DataBlockIter) : option DataBlockIter :=
  match di_data_ it with
  | None => Some it
  | Some _ => it ← SeekToRestartPoint 0 it; '(_, it) ← ParseNextDataKey None it; Some it
  end.

(** Enough for every loop that reads an entry, of three bytes or more, in each round. *)
Definition entry_fuel (it : DataBlockIter) : nat := S (Z.to_nat (di_restarts_ it)).

(** [while (ParseNextDataKey() && NextEntryOffset() < restarts_)]. *)
Fixpoint skip_to_last (fuel : nat) (it : DataBlockIter) : option DataBlockIter :=
  match fuel with
  | O => None
  | S fuel =>
      '(ok, it) ← ParseNextDataKey None it;
      if ok && (NextEntryOffset it <? di_restarts_ it) then skip_to_last fuel it else Some it
  end.

Definition di_SeekToLast (it : DataBlockIter) : option DataBlockIter :=
  match di_data_ it with
  | None => Some it
  | Some _ => it ← SeekToRestartPoint (wrap32 (di_num_restarts_ it - 1)) it; skip_to_last (entry_fuel it) it
  end.

(** The restart point before [original], by the loop of [Prev]; [None] within when there is none. *)
Fixpoint back_up (fuel : nat) (it : DataBlockIter) (original restart_index : Z) : option (option Z) :=
  match fuel with
  | O => None
  | S fuel =>
      r ← GetRestartPoint it restart_index;
      if original <=? r then
        if restart_index =? 0 then Some None else back_up fuel it original (restart_index - 1)
      else Some (Some restart_index)
  end.

(** The [do] loop of [Prev], which caches the entries it reads. *)
Fixpoint fill_cache (fuel : nat) (original : Z) (it : DataBlockIter) : option DataBlockIter :=
  match fuel with
  | O => None
  | S fuel =>
      '(ok, it) ← ParseNextDataKey None it;
      if negb ok then Some it else
      k ← di_key it;
      let it := di_set_cache (di_prev_entries_ it ++ [mkCached (di_current_ it) k (di_value_ it)]) (di_prev_entries_idx_ it) it in
      if NextEntryOffset it <? original then fill_cache fuel original it else Some it
  end.

Definition di_Prev (it : DataBlockIter) : option DataBlockIter :=
  let idx := di_prev_entries_idx_ it in
  if negb (di_Valid it) || negb ((idx =? -1) || (wrap64 idx <? len (di_prev_entries_ it))) then None else
  let cached := if 0 <? idx then e ← di_prev_entries_ it !z idx; if cp_offset e =? di_current_ it then di_prev_entries_ it !z (idx - 1) else None else None in
  match cached with
  | Some e => Some (di_set_cache (di_prev_entries_ it) (idx - 1) (di_set (di_restart_index_ it) (cp_offset e) (cp_key e) (cp_value e) (di_status_ it) it))
  | None =>
      let it := di_set_cache [] (-1) it in
      let original := di_current_ it in
      r ← back_up (S (Z.to_nat (di_restart_index_ it))) it original (di_restart_index_ it);
      match r with
      | None => Some (di_at_end it)
      | Some restart_index =>
          it ← SeekToRestartPoint restart_index it;
          it ← fill_cache (entry_fuel it) original it;
          Some (di_set_cache (di_prev_entries_ it) (len (di_prev_entries_ it) - 1) it)
      end
  end.

Section Search.
Context (icmp : Comparator).

(** The restart point to start from; [inl] is the iterator after a corruption. *)
Fixpoint BinarySeek (fuel : nat) (target : bytes) (left right : Z) (it : DataBlockIter) : option (DataBlockIter + Z) :=
  match fuel with
  | O => None
  | S fuel =>
      if left <? right then
        let mid := wrap32 (left + right + 1) / 2 in
        region_offset ← GetRestartPoint it mid;
        data ← di_data_ it;
        e ← DecodeKey data region_offset (di_restarts_ it);
        match e with
        | None => Some (inl (CorruptionError it))
        | Some (shared, non_shared, p) =>
            if negb (shared =? 0) then Some (inl (CorruptionError it)) else
            mid_key ← mem_read data p non_shared;
            let cmp := Compare icmp mid_key target in
            if cmp <? 0 then BinarySeek fuel target mid right it
            else if 0 <? cmp then BinarySeek fuel target left (mid - 1) it
            else BinarySeek fuel target mid mid it
        end
      else Some (inr left)
  end.

(** [while (ParseNextDataKey(limit) && Compare(key_, target) < 0)]. *)
Fixpoint linear_seek (fuel : nat) (limit : option Z) (target : bytes) (it : DataBlockIter) : option DataBlockIter :=
  match fuel with
  | O => None
  | S fuel =>
      '(ok, it) ← ParseNextDataKey limit it;
      if ok && (Compare icmp (di_key_ it) target <? 0) then linear_seek fuel limit target it else Some it
  end.

(** The search [Seek] and [SeekForPrev] begin with; [false] is a corruption. *)
Definition seek_from_restart (target : bytes) (it : DataBlockIter) : option (bool * DataBlockIter) :=
  r ← BinarySeek (S (Z.to_nat (di_num_restarts_ it))) target 0 (wrap32 (di_num_restarts_ it - 1)) it;
  match r with
  | inl it => Some (false, it)
  | inr index => it ← SeekToRestartPoint index it; it ← linear_seek (entry_fuel it) None target it; Some (true, it)
  end.

Definition di_Seek (target : bytes) (it : DataBlockIter) : option DataBlockIter :=
  match di_data_ it with
  | None => Some it
  | Some _ => '(_, it) ← seek_from_restart target it; Some it
  end.

(** [while (Valid() && Compare(key_, seek_key) > 0) Prev();]. *)
Fixpoint step_back (fuel : nat) (target : bytes) (it : DataBlockIter) : option DataBlockIter :=
  match fuel with
  | O => None
  | S fuel =>
      if di_Valid it && (0 <? Compare icmp (di_key_ it) target) then it ← di_Prev it; step_back fuel target it else Some it
  end.

Definition di_SeekForPrev (target : bytes) (it : DataBlockIter) : option DataBlockIter :=
  match di_data_ it with
  | None => Some it
  | Some _ =>
      '(ok, it) ← seek_from_restart target it;
      if negb ok then Some it
      else if di_Valid it then step_back (S (entry_fuel it)) target it else di_SeekToLast it
  end.

(** ** Point lookups by the hash index *)

Definition HashIndex_Lookup (data : bytes) (map_offset num_buckets : Z) (key : bytes) : option Z :=
  if num_buckets =? 0 then None else
  b ← data !z (map_offset + wrap 16 (GetSliceHash key mod num_buckets));
  Some (byte.unsigned b).

(** [false] when the key can be in neither this block nor the next one. *)
Definition SeekForGetImpl (ucmp : Comparator) (target : bytes) (it : DataBlockIter) : option (bool * DataBlockIter) :=
  if len target <? 8 then None else
  let user_key := ExtractUserKey target in
  let map_offset := wrap32 (di_restarts_ it + di_num_restarts_ it * 4) in
  data ← di_data_ it;
  entry ← HashIndex_Lookup data map_offset (di_num_buckets_ it) user_key;
  if entry =? kCollision then it ← di_Seek target it; Some (true, it) else
  let restart_index := if entry =? kNoEntry then wrap 8 (di_num_restarts_ it - 1) else entry in
  if negb (restart_index <? di_num_restarts_ it) then None else
  it ← SeekToRestartPoint restart_index it;
  limit ← (if restart_index + 1 <? di_num_restarts_ it then GetRestartPoint it (restart_index + 1) else Some (di_restarts_ it));
  it ← linear_seek (entry_fuel it) (Some limit) target it;
  if di_current_ it =? di_restarts_ it then Some (true, it) else
  if negb (Compare ucmp (ExtractUserKey (di_key_ it)) user_key =? 0) then Some (false, it) else
  let value_type := ExtractValueType (di_key_ it) in
  if (value_type =? kTypeValue) || (value_type =? kTypeDeletion) || (value_type =? kTypeSingleDeletion) || (value_type =? kTypeBlobIndex)
  then Some (true, it)
  else it ← di_Seek target it; Some (true, it).

Definition SeekForGet (ucmp : Comparator) (target : bytes) (it : DataBlockIter) : option (bool * DataBlockIter) :=
  if di_num_buckets_ it =? 0 then it ← di_Seek target it; Some (true, it) else SeekForGetImpl ucmp target it.

Definition DataBlockIter_ops : InternalIterator DataBlockIter :=
  mkIter _ di_Valid di_SeekToFirst di_SeekToLast di_Seek di_SeekForPrev di_Next di_Prev di_key di_value di_status_.
End Search.
