(* ===== verification/BlockScan.v ===== *)
(** * Scanning a block (table/block.cc)

    A block as the bytes of its entries and its restart points, and the iterator's
    operations on it: each of them leaves the iterator on the entry the sorted records say,
    whatever restart point and cached entries it came with. *)

From S2P Require Import Prelude Coding Comparator DbFormat VersionEdit NvmAlloc SstableMeta L0Table Iterator Bloom BlockBuilder Block.

(** ** One entry *)

Lemma EncodeVarint32_small v : 0 <= v < 128 -> EncodeVarint32 v = [byte.of_Z v].
Proof. intros Hv. unfold EncodeVarint32. cbv zeta. by destruct (Z.ltb_spec v (2 ^ 7)); [|lia]. Qed.

(** The fast path looks at the eighth bit. *)
Lemma small_testbit x : 0 <= x < 256 -> (x <? 128) = negb (Z.testbit x 7).
Proof.
  intros Hx. rewrite Z.testbit_eqb by lia. change (2 ^ 7) with 128.
  destruct (Z.ltb_spec x 128), (Z.eqb_spec (x / 128 mod 2) 1); simpl; (done || exfalso; Z.to_euclidean_division_equations; lia).
Qed.

Lemma EncodeVarint32_large v : 128 <= v -> exists b rest, EncodeVarint32 v = b :: rest /\ 128 <= byte.unsigned b.
Proof.
  intros Hv. assert (exists rest, EncodeVarint32 v = byte.of_Z (Z.lor v 128) :: rest) as [rest ->].
  { unfold EncodeVarint32. cbv zeta. destruct (Z.ltb_spec v (2 ^ 7)); [lia|].
    destruct (v <? 2 ^ 14), (v <? 2 ^ 21), (v <? 2 ^ 28); by eexists. }
  do 2 eexists. split; [done|]. set (b := byte.of_Z _). apply Z.ltb_ge.
  rewrite small_testbit by (pose proof (byte.unsigned_range b); lia). subst b. rewrite byte.unsigned_of_Z. unfold byte.wrap.
  rewrite <- (Z.land_ones _ 8), Z.land_spec, Z.lor_spec by lia. change (Z.testbit 128 7) with true. by rewrite orb_true_r.
Qed.

Lemma lor3_small a b c :
  0 <= a < 256 -> 0 <= b < 256 -> 0 <= c < 256 ->
  (Z.lor (Z.lor a b) c <? 128) = (a <? 128) && (b <? 128) && (c <? 128).
Proof.
  intros Ha Hb Hc. assert (forall x y, 0 <= x < 256 -> 0 <= y < 256 -> 0 <= Z.lor x y < 256) as H.
  { intros x y Hx Hy. split; [apply Z.lor_nonneg; lia|]. destruct (Z.eq_dec (Z.lor x y) 0) as [->|Hne]; [lia|].
    assert (0 <= Z.lor x y) by (apply Z.lor_nonneg; lia). apply (Z.log2_lt_cancel _ (2 ^ 8)). rewrite Z.log2_lor, Z.log2_pow2 by lia.
    apply Z.max_lub_lt; (destruct (Z.eq_dec x 0) as [->|], (Z.eq_dec y 0) as [->|]; try (simpl; lia)); apply Z.log2_lt_pow2; lia. }
  rewrite !small_testbit, !Z.lor_spec by auto. by destruct (Z.testbit a 7), (Z.testbit b 7), (Z.testbit c 7).
Qed.

(** The three sizes before an entry. *)
Definition entry_header (shared : nat) (key value : bytes) : bytes :=
  EncodeVarint32 (Z.of_nat shared) ++ EncodeVarint32 (len key - Z.of_nat shared) ++ EncodeVarint32 (len value).

Section Entry.
Context (shared : nat) (key value : bytes).
Hypothesis (Hshared : Z.of_nat shared <= len key) (Hsize : len key + len value < 2 ^ 32).

Lemma encode_entry_header : encode_entry false shared key value [] = entry_header shared key value ++ drop shared key ++ value.
Proof using Hshared Hsize.
  pose proof (zlen_nonneg value). unfold encode_entry, entry_header, PutVarint32Varint32Varint32. cbv zeta.
  rewrite !(wrap_id 32) by lia. by destruct (Nat.eqb shared 0).
Qed.

Lemma entry_header_len : 3 <= len (entry_header shared key value) <= 15.
Proof using Hshared Hsize.
  pose proof (zlen_nonneg value). unfold entry_header. rewrite !zlen_app.
  pose proof (EncodeVarint32_len (Z.of_nat shared) ltac:(unfold u32; lia)).
  pose proof (EncodeVarint32_len (len key - Z.of_nat shared) ltac:(unfold u32; lia)).
  pose proof (EncodeVarint32_len (len value) ltac:(unfold u32; lia)). lia.
Qed.

(** The header's first three bytes are the sizes when each is small, and one of them is large otherwise. *)
Lemma entry_header_fast :
  exists b0 b1 b2 rest, entry_header shared key value = b0 :: b1 :: b2 :: rest /\
  ((byte.unsigned b0 = Z.of_nat shared /\ byte.unsigned b1 = len key - Z.of_nat shared /\ byte.unsigned b2 = len value /\ rest = [] /\
    (Z.lor (Z.lor (byte.unsigned b0) (byte.unsigned b1)) (byte.unsigned b2) <? 128) = true) \/
   (Z.lor (Z.lor (byte.unsigned b0) (byte.unsigned b1)) (byte.unsigned b2) <? 128) = false).
Proof using Hshared Hsize.
  pose proof entry_header_len as Hl. pose proof (zlen_nonneg value).
  assert (forall v, 0 <= v < 128 -> byte.unsigned (byte.of_Z v) = v) as Hb.
  { intros v Hv. rewrite byte.unsigned_of_Z. unfold byte.wrap. by rewrite Z.mod_small by lia. }
  destruct (entry_header shared key value) as [|b0 [|b1 [|b2 rest]]] eqn:E; [unfold zlen in Hl; simpl in Hl; lia..|].
  exists b0, b1, b2, rest. split; [done|]. rewrite lor3_small by apply byte.unsigned_range. unfold entry_header in E.
  destruct (Z.lt_ge_cases (Z.of_nat shared) 128) as [H0|H0].
  2:{ right. destruct (EncodeVarint32_large _ H0) as (b & r & Er & Hr). rewrite Er in E. simpl in E. injection E as <- E. by destruct (Z.ltb_spec (byte.unsigned b) 128); [lia|]. }
  rewrite (EncodeVarint32_small (Z.of_nat shared)) in E by lia. simpl in E. injection E as <- E.
  destruct (Z.lt_ge_cases (len key - Z.of_nat shared) 128) as [H1|H1].
  2:{ right. destruct (EncodeVarint32_large _ H1) as (b & r & Er & Hr). rewrite Er in E. simpl in E. injection E as <- E.
      destruct (Z.ltb_spec (byte.unsigned b) 128); [lia|]. by rewrite andb_false_r. }
  rewrite (EncodeVarint32_small (len key - _)) in E by lia. simpl in E. injection E as <- E.
  destruct (Z.lt_ge_cases (len value) 128) as [H2|H2].
  2:{ right. destruct (EncodeVarint32_large _ H2) as (b & r & Er & Hr). rewrite Er in E. simpl in E. injection E as <- E.
      destruct (Z.ltb_spec (byte.unsigned b) 128); [lia|]. by rewrite andb_false_r. }
  rewrite (EncodeVarint32_small (len value)) in E by lia. injection E as <- <-. left.
  rewrite !Hb by lia. split_and!; try done. repeat (apply andb_true_intro; split); apply Z.ltb_lt; lia.
Qed.
End Entry.

Lemma zget_app_len {A} (l1 l2 : list A) k : 0 <= k -> (l1 ++ l2) !z (len l1 + k) = l2 !z k.
Proof.
  intros Hk. unfold zget. pose proof (zlen_nonneg l1). destruct (Z.leb_spec 0 (len l1 + k)), (Z.leb_spec 0 k); try lia.
  rewrite lookup_app_r by zlia. f_equal. zlia.
Qed.

Lemma span_app (pre l post : bytes) limit :
  len pre + len l <= limit -> exists post', span (pre ++ l ++ post) (len pre) limit = l ++ post' /\ len post' <= limit - len pre - len l /\
    (limit <= len (pre ++ l ++ post) -> len post' = limit - len pre - len l).
Proof.
  intros Hl. unfold span. rewrite zlen_to_nat, drop_app_length. pose proof (zlen_nonneg pre). pose proof (zlen_nonneg l).
  rewrite take_app_ge by zlia. eexists. split; [done|]. rewrite !zlen_app. unfold zlen in *. rewrite length_take. split; lia.
Qed.

Section Decode.
Context (shared : nat) (key value : bytes).
Hypothesis (Hshared : Z.of_nat shared <= len key) (Hsize : len key + len value < 2 ^ 32).
Let entry := encode_entry false shared key value [].
Let header := entry_header shared key value.

Lemma encode_entry_len : len entry = len header + (len key - Z.of_nat shared) + len value.
Proof using Hshared Hsize.
  unfold entry, header. rewrite encode_entry_header by done. rewrite !zlen_app. unfold zlen in *. rewrite length_drop. lia.
Qed.

Lemma DecodeEntry_encode pre post limit :
  len pre + len entry <= limit <= len (pre ++ entry ++ post) -> limit < 2 ^ 32 ->
  DecodeEntry (pre ++ entry ++ post) (len pre) limit =
    Some (Some (Z.of_nat shared, len key - Z.of_nat shared, len value, len pre + len header)).
Proof using Hshared Hsize.
  intros Hlim H32. pose proof encode_entry_len as Hel. pose proof (entry_header_len _ _ _ Hshared Hsize) as Hhl. fold header in Hhl.
  pose proof (zlen_nonneg value). pose proof (zlen_nonneg pre).
  destruct (entry_header_fast _ _ _ Hshared Hsize) as (b0 & b1 & b2 & rest & Eh & Hcase).
  assert (entry = header ++ drop shared key ++ value) as Ee by (by apply encode_entry_header).
  unfold DecodeEntry. destruct (Z.ltb_spec (limit - len pre) 3); [lia|].
  assert (forall k, 0 <= k < 3 -> (pre ++ entry ++ post) !z (len pre + k) = [b0; b1; b2] !z k) as Hz.
  { intros k Hk. rewrite zget_app_len, Ee by lia. unfold header. rewrite Eh.
    assert (k = 0 \/ k = 1 \/ k = 2) as [->|[->| ->]] by lia; done. }
  rewrite <- (Z.add_0_r (len pre)) at 1. rewrite !Hz by lia. cbn [zget mbind option_bind]. simpl.
  destruct Hcase as [(Hb0 & Hb1 & Hb2 & -> & Hf)|Hf]; rewrite Hf.
  - assert (len header = 3) as Hh3 by (unfold header; rewrite Eh; done). rewrite Hb0, Hb1, Hb2, Hh3.
    rewrite !(wrap_id 32) by lia. destruct (Z.ltb_spec (limit - (len pre + 3)) (len key - Z.of_nat shared + len value)); [lia|done].
  - destruct (span_app pre entry post limit ltac:(lia)) as (post' & -> & _ & Hp). specialize (Hp ltac:(lia)).
    rewrite Ee. unfold header, entry_header. rewrite <- !app_assoc.
    pose proof (GetVarint32_Encode (Z.of_nat shared)) as G0. pose proof (GetVarint32_Encode (len key - Z.of_nat shared)) as G1.
    pose proof (GetVarint32_Encode (len value)) as G2. unfold GetVarint32 in *.
    rewrite G0, G1, G2 by (unfold u32; lia).
    rewrite !zlen_app, Hp. assert (len (drop shared key) = len key - Z.of_nat shared) as -> by (unfold zlen in *; rewrite length_drop; lia).
    rewrite !(wrap_id 32) by lia.
    destruct (Z.ltb_spec (len key - Z.of_nat shared + (len value + (limit - len pre - len entry))) (len key - Z.of_nat shared + len value)); [lia|].
    do 3 f_equal. fold header in Hel. unfold header, entry_header in *. rewrite !zlen_app in *. lia.
Qed.

(** The key's own bytes and the value, behind the header. *)
Lemma entry_delta pre post :
  mem_read (pre ++ entry ++ post) (len pre + len header) (len key - Z.of_nat shared) = Some (drop shared key) /\
  mem_read (pre ++ entry ++ post) (len pre + len header + (len key - Z.of_nat shared)) (len value) = Some value.
Proof using Hshared Hsize.
  assert (entry = header ++ drop shared key ++ value) as -> by (by apply encode_entry_header).
  assert (len (drop shared key) = len key - Z.of_nat shared) as Hd by (unfold zlen in *; rewrite length_drop; lia).
  pose proof (zlen_nonneg (drop shared key)). pose proof (zlen_nonneg header). pose proof (zlen_nonneg value). rewrite <- !app_assoc. split.
  - rewrite mem_read_app_r by lia. rewrite <- (Z.add_0_r (len header)), mem_read_app_r by lia.
    rewrite <- Hd, mem_read_app_l by lia. apply mem_read_all.
  - rewrite <- Z.add_assoc, mem_read_app_r by lia. rewrite mem_read_app_r by lia.
    rewrite <- Hd, <- (Z.add_0_r (len (drop shared key))), mem_read_app_r by lia. rewrite mem_read_app_l by lia. apply mem_read_all.
Qed.
End Decode.

(** ** A block of entries *)

(** An entry: how much of the key is shared with the one before, key and value. *)
Abbreviation BlockEntry := (nat * (bytes * bytes))%type.

Definition entry_bytes (e : BlockEntry) : bytes := encode_entry false e.1 e.2.1 e.2.2 [].

(** Where the [i]-th entry begins. *)
Definition entry_off (ents : list BlockEntry) (i : nat) : Z := len (concat (entry_bytes <$> take i ents)).

Record BlockLayout (data : bytes) (restarts num : Z) (ents : list BlockEntry) (rps : list nat) : Prop := {
  ly_data : exists tail, data = concat (entry_bytes <$> ents) ++ tail;
  ly_restarts : restarts = entry_off ents (length ents);
  ly_size : restarts < 2 ^ 31;
  ly_sizes : Forall (fun e => Z.of_nat e.1 <= len e.2.1 /\ len e.2.1 + len e.2.2 < 2 ^ 31) ents;
  ly_shared i e : ents !! i = Some e -> e.1 = 0%nat \/
    exists j prev, i = S j /\ ents !! j = Some prev /\ (e.1 <= length prev.2.1)%nat /\ take e.1 prev.2.1 = take e.1 e.2.1;
  ly_num : num = len rps;
  ly_num_range : num < 2 ^ 31;
  ly_first : rps !! 0%nat = Some 0%nat;
  ly_inc : StronglySorted lt rps;
  ly_point j i : rps !! j = Some i -> mem_read data (restarts + Z.of_nat j * 4) 4 = Some (EncodeFixed32 (entry_off ents i));
  ly_in j i : rps !! j = Some i -> (i <= length ents)%nat /\ (ents = [] \/ i < length ents)%nat;
  ly_full j i e : rps !! j = Some i -> ents !! i = Some e -> e.1 = 0%nat
}.

Section Layout.
Context (data : bytes) (restarts num : Z) (ents : list BlockEntry) (rps : list nat) (L : BlockLayout data restarts num ents rps).
Abbreviation off := (entry_off ents).
Implicit Types (it : DataBlockIter) (e : BlockEntry) (i j m : nat).

Lemma off_0 : off 0 = 0.
Proof. done. Qed.

Lemma off_S i e : ents !! i = Some e -> off (S i) = off i + len (entry_bytes e).
Proof.
  intros He. unfold entry_off. rewrite (take_S_r _ _ _ He), fmap_app, concat_app, zlen_app. simpl. by rewrite app_nil_r.
Qed.

Lemma entry_sizes i e : ents !! i = Some e -> Z.of_nat e.1 <= len e.2.1 /\ len e.2.1 + len e.2.2 < 2 ^ 31.
Proof using L. intros He. exact (Forall_lookup_1 _ _ _ _ (ly_sizes _ _ _ _ _ L) He). Qed.

Lemma entry_bytes_len i e :
  ents !! i = Some e ->
  len (entry_bytes e) = len (entry_header e.1 e.2.1 e.2.2) + (len e.2.1 - Z.of_nat e.1) + len e.2.2 /\ 3 <= len (entry_header e.1 e.2.1 e.2.2).
Proof using L.
  intros He. destruct (entry_sizes _ _ He) as [H1 H2]. split; [apply encode_entry_len; lia|].
  pose proof (entry_header_len e.1 e.2.1 e.2.2 H1 ltac:(lia)). lia.
Qed.

(** Each entry takes three bytes or more. *)
Lemma off_gap i j : (i <= j <= length ents)%nat -> off i + 3 * Z.of_nat (j - i) <= off j.
Proof using L.
  intros [Hij Hj]. induction j as [|j IH]; [replace i with 0%nat by lia; simpl; lia|].
  destruct (decide (i = S j)) as [->|]; [rewrite Nat.sub_diag; lia|].
  destruct (lookup_lt_is_Some_2 ents j Hj) as [e He]. rewrite (off_S _ _ He). destruct (entry_bytes_len _ _ He) as [-> ?].
  destruct (entry_sizes _ _ He). pose proof (zlen_nonneg e.2.2). specialize (IH ltac:(lia) ltac:(lia)). lia.
Qed.

Lemma off_range i : (i <= length ents)%nat -> 0 <= off i <= restarts.
Proof using L.
  intros Hi. pose proof (off_gap 0 i ltac:(lia)) as H0. rewrite off_0 in H0.
  pose proof (off_gap i (length ents) ltac:(lia)). rewrite (ly_restarts _ _ _ _ _ L). lia.
Qed.

Lemma off_lt i j : (i <= length ents)%nat -> (j <= length ents)%nat -> off i < off j <-> (i < j)%nat.
Proof using L.
  intros Hi Hj. split; intros H.
  - destruct (decide (j <= i)%nat); [|lia]. pose proof (off_gap j i ltac:(lia)). lia.
  - pose proof (off_gap i j ltac:(lia)). lia.
Qed.

Lemma off_inj i j : (i <= length ents)%nat -> (j <= length ents)%nat -> off i = off j -> i = j.
Proof using L. intros Hi Hj H. pose proof (off_lt i j Hi Hj). pose proof (off_lt j i Hj Hi). lia. Qed.

Lemma data_split i e :
  ents !! i = Some e -> exists pre post, data = pre ++ entry_bytes e ++ post /\ len pre = off i.
Proof using L.
  intros He. destruct (ly_data _ _ _ _ _ L) as [tail ->].
  exists (concat (entry_bytes <$> take i ents)), (concat (entry_bytes <$> drop (S i) ents) ++ tail). split; [|done].
  rewrite <- (take_drop_middle _ _ _ He) at 1. rewrite fmap_app, concat_app, fmap_cons. simpl. by rewrite <- !app_assoc.
Qed.

Lemma data_len : restarts <= len data.
Proof using L.
  destruct (ly_data _ _ _ _ _ L) as [tail ->]. rewrite (ly_restarts _ _ _ _ _ L), zlen_app. unfold entry_off.
  rewrite take_ge by lia. pose proof (zlen_nonneg tail). lia.
Qed.

(** *** Iterators of the block *)

Definition di_of it : Prop :=
  di_data_ it = Some data /\ di_restarts_ it = restarts /\ di_num_restarts_ it = num /\
  di_global_seqno_ it = kDisableGlobalSequenceNumber.

(** What the search loops change. *)
Definition moved it it' : Prop := exists ri c k v, it' = di_set ri c k v (di_status_ it) it.

Lemma moved_trans it1 it2 it3 : moved it1 it2 -> moved it2 it3 -> moved it1 it3.
Proof. intros (? & ? & ? & ? & ->) (? & ? & ? & ? & ->). destruct it1. by do 4 eexists. Qed.

Lemma moved_of it it' : moved it it' -> di_of it -> di_of it'.
Proof. intros (? & ? & ? & ? & ->). by destruct it. Qed.

Lemma moved_cache it it' : moved it it' ->
  di_prev_entries_ it' = di_prev_entries_ it /\ di_prev_entries_idx_ it' = di_prev_entries_idx_ it /\ di_status_ it' = di_status_ it /\
  di_num_buckets_ it' = di_num_buckets_ it.
Proof. intros (? & ? & ? & ? & ->). by destruct it. Qed.

Lemma at_end_moved it : moved it (di_at_end it).
Proof. by do 4 eexists. Qed.

(** On the [i]-th entry. *)
Definition at_entry it i : Prop :=
  exists e, ents !! i = Some e /\ di_current_ it = off i /\ di_key_ it = e.2.1 /\
  di_value_ it = (off (S i) - len e.2.2, len e.2.2) /\ 0 <= di_restart_index_ it < num.

(** About to parse the [i]-th entry. *)
Definition before_entry it i : Prop :=
  NextEntryOffset it = off i /\ 0 <= di_restart_index_ it < num /\
  forall e, ents !! i = Some e -> (e.1 <= length (di_key_ it))%nat /\ take e.1 (di_key_ it) = take e.1 e.2.1.

Definition past_end it : Prop := di_current_ it = restarts.

Lemma at_before it i : at_entry it i -> before_entry it (S i).
Proof using L.
  intros (e & He & Hc & Hk & Hv & Hr). pose proof (lookup_lt_Some _ _ _ He). split_and!; [|lia|lia|].
  - unfold NextEntryOffset. rewrite Hv. simpl. replace (_ - _ + _) with (off (S i)) by lia.
    pose proof (off_range (S i) ltac:(lia)). pose proof (ly_size _ _ _ _ _ L). apply wrap_id. lia.
  - intros e' He'. destruct (ly_shared _ _ _ _ _ L _ _ He') as [->|(j & prev & [= <-] & Hp & Hl & Ht)]; [split; [lia|done]|].
    simplify_eq. by rewrite Hk.
Qed.

Lemma GetRestartPoint_point it j i : di_of it -> rps !! j = Some i -> GetRestartPoint it (Z.of_nat j) = Some (off i).
Proof using L.
  intros (Hd & Hr & Hn & _) Hj. unfold GetRestartPoint. pose proof (lookup_lt_Some _ _ _ Hj). pose proof (ly_num _ _ _ _ _ L).
  destruct (Z.ltb_spec (Z.of_nat j) (di_num_restarts_ it)); [|unfold zlen in *; lia]. simpl.
  rewrite Hd, Hr. cbn [mbind option_bind]. rewrite (ly_point _ _ _ _ _ L _ _ Hj). cbn [mbind option_bind]. f_equal.
  rewrite <- (app_nil_r (EncodeFixed32 _)). apply DecodeFixed32_Encode.
  pose proof (off_range i ltac:(apply (ly_in _ _ _ _ _ L _ _ Hj))). pose proof (ly_size _ _ _ _ _ L). unfold u32. lia.
Qed.

Lemma GetRestartPoint_range it z : di_of it -> 0 <= z < num -> exists i, rps !! Z.to_nat z = Some i /\ GetRestartPoint it z = Some (off i).
Proof using L.
  intros Hi Hz. rewrite (ly_num _ _ _ _ _ L) in Hz. destruct (lookup_lt_is_Some_2 rps (Z.to_nat z)) as [i Hr]; [unfold zlen in Hz; lia|].
  exists i. split; [done|]. rewrite <- (Z2Nat.id z) at 1 by lia. by apply GetRestartPoint_point.
Qed.

Lemma SeekToRestartPoint_ok it z :
  di_of it -> 0 <= z < num -> exists i it', rps !! Z.to_nat z = Some i /\ SeekToRestartPoint z it = Some it' /\ moved it it' /\ before_entry it' i /\
    di_restart_index_ it' = z.
Proof using L.
  intros Hi Hz. destruct (GetRestartPoint_range _ _ Hi Hz) as (i & Hr & Hg). unfold SeekToRestartPoint. rewrite Hg. cbn [mbind option_bind].
  exists i. eexists. split_and!; [done|done|by do 4 eexists| |by destruct it].
  pose proof (off_range i ltac:(apply (ly_in _ _ _ _ _ L _ _ Hr))). pose proof (ly_size _ _ _ _ _ L).
  destruct it. split_and!; simpl; [|lia|lia|].
  - unfold NextEntryOffset. simpl. rewrite Z.add_0_r. apply wrap_id. lia.
  - intros e He. rewrite (ly_full _ _ _ _ _ L _ _ _ Hr He). split; [lia|done].
Qed.

Lemma advance_restart_ok fuel it ri c :
  di_of it -> 0 <= ri < num -> num - ri <= Z.of_nat fuel -> exists ri', advance_restart fuel it ri c = Some ri' /\ 0 <= ri' < num.
Proof using L.
  intros Hi. revert ri. induction fuel as [|fuel IH]; intros ri Hr Hf; [lia|]. simpl.
  pose proof Hi as (_ & _ & -> & _). destruct (Z.ltb_spec (ri + 1) num); [|by exists ri].
  destruct (GetRestartPoint_range it (ri + 1) Hi ltac:(lia)) as (i & _ & ->). cbn [mbind option_bind].
  destruct (off i <? c); [apply IH; lia|by exists ri].
Qed.

(** An entry is decoded to its key and value. *)
Lemma parse_entry it i m limit :
  di_of it -> before_entry it i -> (i < m <= length ents)%nat -> default restarts limit = off m ->
  exists it', ParseNextDataKey limit it = Some (true, it') /\ moved it it' /\ at_entry it' i.
Proof using L.
  intros Hi (Hn & Hri & Hsh) Hm Hlim. destruct (lookup_lt_is_Some_2 ents i ltac:(lia)) as [e He].
  destruct (Hsh _ He) as [Hlen Htake]. destruct (entry_sizes _ _ He) as [Hs1 Hs2]. destruct (data_split _ _ He) as (pre & post & Hd & Hpre).
  pose proof (off_lt i m ltac:(lia) ltac:(lia)). pose proof (off_gap (S i) m ltac:(lia)). pose proof (off_S _ _ He) as HS.
  pose proof (off_range m ltac:(lia)). pose proof data_len. pose proof (ly_size _ _ _ _ _ L). pose proof (entry_bytes_len _ _ He) as [Hel Hhl].
  pose proof Hi as (Hdata & Hrs & Hnum & Hg). unfold ParseNextDataKey. rewrite Hdata. cbn [mbind option_bind]. rewrite Hn, Hrs, Hlim.
  destruct (Z.leb_spec (off m) (off i)); [lia|]. rewrite <- Hpre.
  assert (DecodeEntry data (len pre) (off m) = Some (Some (Z.of_nat e.1, len e.2.1 - Z.of_nat e.1, len e.2.2, len pre + len (entry_header e.1 e.2.1 e.2.2)))) as ->.
  { rewrite Hd. apply (DecodeEntry_encode e.1 e.2.1 e.2.2); [lia|lia| |lia]. fold (entry_bytes e). rewrite <- Hd. lia. }
  cbn [mbind option_bind]. destruct (Z.ltb_spec (len (di_key_ it)) (Z.of_nat e.1)); [unfold zlen in *; lia|].
  destruct (entry_delta e.1 e.2.1 e.2.2 ltac:(lia) ltac:(lia) pre post) as [Hdel _]. fold (entry_bytes e) in Hdel.
  rewrite <- Hd in Hdel. rewrite Hdel. cbn [mbind option_bind]. unfold apply_global_seqno. rewrite Hg, Z.eqb_refl. cbn [mbind option_bind].
  assert (exists ri', (if Z.of_nat e.1 =? 0 then advance_restart (S (Z.to_nat (di_num_restarts_ it))) it (di_restart_index_ it) (len pre) else Some (di_restart_index_ it)) = Some ri' /\ 0 <= ri' < num) as (ri' & -> & Hr').
  { destruct (Z.of_nat e.1 =? 0); [apply advance_restart_ok; [done|lia|lia]|by eexists]. }
  cbn [mbind option_bind]. eexists. split; [done|]. split; [by do 4 eexists|]. exists e. rewrite Nat2Z.id, Htake, take_drop.
  destruct it. simpl in *. split_and!; [done|done|done| |lia|lia]. f_equal. lia.
Qed.

Lemma parse_end it m limit :
  di_of it -> NextEntryOffset it = off m -> default restarts limit = off m ->
  exists it', ParseNextDataKey limit it = Some (false, it') /\ moved it it' /\ past_end it'.
Proof using L.
  intros (Hdata & Hrs & _) Hn Hlim. unfold ParseNextDataKey. rewrite Hdata. cbn [mbind option_bind]. rewrite Hn, Hrs, Hlim, Z.leb_refl.
  eexists. split; [done|]. split; [apply at_end_moved|]. by destruct it.
Qed.

Lemma past_end_invalid it : di_of it -> past_end it -> di_Valid it = false.
Proof. intros (_ & Hr & _) Hc. unfold di_Valid. rewrite Hr, Hc. apply Z.ltb_irrefl. Qed.

Lemma at_entry_valid it i : di_of it -> at_entry it i -> di_Valid it = true.
Proof using L.
  intros (_ & Hr & _) (e & He & Hc & _). unfold di_Valid. rewrite Hr, Hc. apply Z.ltb_lt.
  pose proof (lookup_lt_Some _ _ _ He). rewrite (ly_restarts _ _ _ _ _ L). apply off_lt; lia.
Qed.

(** Either the [i]-th entry is parsed, or the entries are at their end. *)
Lemma parse_next it i :
  di_of it -> before_entry it i -> (i <= length ents)%nat ->
  exists ok it', ParseNextDataKey None it = Some (ok, it') /\ moved it it' /\
    (ok = true /\ (i < length ents)%nat /\ at_entry it' i \/ ok = false /\ i = length ents /\ past_end it').
Proof using L.
  intros Hi Hb Hle. pose proof (ly_restarts _ _ _ _ _ L) as Hr. destruct (decide (i = length ents)) as [->|].
  - destruct (parse_end it (length ents) None Hi ltac:(apply Hb) Hr) as (it' & ? & ? & ?). exists false, it'. split_and!; [done..|]. by right.
  - destruct (parse_entry it i (length ents) None Hi Hb ltac:(lia) Hr) as (it' & ? & ? & ?). exists true, it'. split_and!; [done..|]. left. split_and!; [done|lia|done].
Qed.

Lemma di_fuel it : di_of it -> (length ents < entry_fuel it)%nat.
Proof using L.
  intros (_ & Hr & _). unfold entry_fuel. rewrite Hr. pose proof (off_gap 0 (length ents) ltac:(lia)) as H. rewrite off_0 in H.
  rewrite (ly_restarts _ _ _ _ _ L). lia.
Qed.

Lemma num_pos : 0 < num.
Proof using L. pose proof (ly_first _ _ _ _ _ L) as H%lookup_lt_Some. rewrite (ly_num _ _ _ _ _ L). unfold zlen. lia. Qed.

(** *** The loops *)

Section Loops.
Context (icmp : Comparator).
Implicit Types (t : bytes).

Definition key_before t i : Prop := forall e, ents !! i = Some e -> Compare icmp e.2.1 t < 0.

Definition key_from t i : Prop := forall e, ents !! i = Some e -> 0 <= Compare icmp e.2.1 t.

(** The linear search stops at the first key at or past the target, or at the limit. *)
Lemma linear_seek_ok fuel limit t it i m :
  di_of it -> before_entry it i -> (i <= m <= length ents)%nat -> default restarts limit = off m -> (m - i < fuel)%nat ->
  exists it', linear_seek icmp fuel limit t it = Some it' /\ moved it it' /\
    ((exists j, (i <= j < m)%nat /\ at_entry it' j /\ key_from t j /\ forall j', (i <= j' < j)%nat -> key_before t j') \/
     (past_end it' /\ forall j', (i <= j' < m)%nat -> key_before t j')).
Proof using L.
  revert it i. induction fuel as [|fuel IH]; intros it i Hi Hb Hm Hlim Hf; [lia|]. simpl. destruct (decide (i = m)) as [->|].
  { destruct (parse_end it m limit Hi ltac:(apply Hb) Hlim) as (it' & -> & ? & ?). exists it'. simpl. split_and!; [done..|]. right. split; [done|lia]. }
  destruct (parse_entry it i m limit Hi Hb ltac:(lia) Hlim) as (it1 & -> & Hm1 & Hat). cbn [mbind option_bind andb].
  pose proof Hat as (e & He & _ & Hk & _). rewrite Hk. destruct (Z.ltb_spec (Compare icmp e.2.1 t) 0) as [Hlt|Hge].
  - destruct (IH it1 (S i) (moved_of _ _ Hm1 Hi) (at_before _ _ Hat) ltac:(lia) Hlim ltac:(lia)) as (it' & -> & Hm2 & Hres).
    exists it'. split; [done|]. split; [by eapply moved_trans|].
    assert (key_before t i) as Hi0 by (intros e' He'; by simplify_eq).
    destruct Hres as [(j & Hj & Ha & Hg & Hall)|(He' & Hall)]; [left; exists j; split_and!; [lia|lia|done|done|]|right; split; [done|]];
      intros j' Hj'; (destruct (decide (j' = i)) as [->|]; [done|apply Hall; lia]).
  - exists it1. split_and!; [done..|]. left. exists i. split_and!; [lia|lia|done|by intros e' He'; simplify_eq|lia].
Qed.

Lemma skip_to_last_ok fuel it i :
  di_of it -> before_entry it i -> (i < length ents)%nat -> (length ents - i <= fuel)%nat ->
  exists it', skip_to_last fuel it = Some it' /\ moved it it' /\ at_entry it' (length ents - 1).
Proof using L.
  revert it i. induction fuel as [|fuel IH]; intros it i Hi Hb Hm Hf; [lia|]. simpl.
  destruct (parse_entry it i (length ents) None Hi Hb ltac:(lia) (ly_restarts _ _ _ _ _ L)) as (it1 & -> & Hm1 & Hat). cbn [mbind option_bind andb].
  pose proof (moved_of _ _ Hm1 Hi) as Hi1. pose proof (at_before _ _ Hat) as Hb1. pose proof Hb1 as [-> _]. pose proof Hi1 as (_ & -> & _).
  rewrite (ly_restarts _ _ _ _ _ L). destruct (Z.ltb_spec (off (S i)) (off (length ents))) as [Hlt|Hge].
  - assert (S i < length ents)%nat as Hlt' by (apply off_lt; [lia|lia|done]). destruct (IH it1 (S i) Hi1 Hb1 Hlt' ltac:(lia)) as (it' & -> & ? & ?). exists it'. split_and!; [done|by eapply moved_trans|done].
  - exists it1. pose proof (off_lt (S i) (length ents) ltac:(lia) ltac:(lia)). replace (length ents - 1)%nat with i by lia. done.
Qed.

Lemma back_up_ok fuel it p z :
  di_of it -> (p < length ents)%nat -> 0 <= z < num -> z < Z.of_nat fuel ->
  (exists z' i, back_up fuel it (off p) z = Some (Some z') /\ 0 <= z' < num /\ rps !! Z.to_nat z' = Some i /\ (i < p)%nat) \/
  (back_up fuel it (off p) z = Some None /\ p = 0%nat).
Proof using L.
  intros Hi Hp. revert z. induction fuel as [|fuel IH]; intros z Hz Hf; [lia|]. simpl.
  destruct (GetRestartPoint_range it z Hi Hz) as (i & Hr & ->). cbn [mbind option_bind].
  pose proof (ly_in _ _ _ _ _ L _ _ Hr) as [Hin _]. destruct (Z.leb_spec (off p) (off i)) as [Hle|Hlt].
  - destruct (Z.eqb_spec z 0) as [->|]; [|apply IH; lia]. right. split; [done|].
    change (Z.to_nat 0) with 0%nat in Hr. rewrite (ly_first _ _ _ _ _ L) in Hr. simplify_eq. destruct p; [done|]. pose proof (off_lt 0 (S p) ltac:(lia) ltac:(lia)). lia.
  - left. exists z, i. split_and!; [done|lia|lia|done|]. apply off_lt; [lia|lia|done].
Qed.
End Loops.

(** *** Stepping back *)

(** The cached entries are those from the [b]-th on. *)
Definition cached_from it (b : nat) : Prop :=
  forall j c, di_prev_entries_ it !! j = Some c ->
  exists e, ents !! (b + j)%nat = Some e /\ c = mkCached (off (b + j)) e.2.1 (off (S (b + j)) - len e.2.2, len e.2.2).

Definition di_cache_ok it : Prop := -1 <= di_prev_entries_idx_ it < Z.max 0 (len (di_prev_entries_ it)) /\ exists b, cached_from it b.

Lemma cache_moved it it' : moved it it' -> di_cache_ok it -> di_cache_ok it'.
Proof.
  intros (Hp & Hx & _)%moved_cache (H1 & b & H2). split; [by rewrite Hp, Hx|]. exists b. intros j c. rewrite Hp. apply H2.
Qed.

Lemma cached_len it b : cached_from it b -> len (di_prev_entries_ it) <= Z.of_nat (length ents).
Proof.
  intros Hc. destruct (di_prev_entries_ it) as [|c0 l] eqn:E; [unfold zlen; simpl; lia|].
  destruct (lookup_lt_is_Some_2 (di_prev_entries_ it) (length l)) as [c Hl]; [rewrite E; simpl; lia|].
  destruct (Hc _ _ Hl) as (e & He%lookup_lt_Some & _). unfold zlen. simpl. lia.
Qed.

Lemma fill_cache_ok fuel it b i p :
  di_of it -> before_entry it i -> (b <= i < p)%nat -> (p <= length ents)%nat -> (p - i <= fuel)%nat ->
  cached_from it b -> length (di_prev_entries_ it) = (i - b)%nat ->
  exists it', fill_cache fuel (off p) it = Some it' /\ di_of it' /\ at_entry it' (p - 1) /\ cached_from it' b /\
    length (di_prev_entries_ it') = (p - b)%nat /\ di_status_ it' = di_status_ it /\ di_num_buckets_ it' = di_num_buckets_ it.
Proof using L.
  revert it i. induction fuel as [|fuel IH]; intros it i Hi Hb Hip Hp Hf Hc Hl; [lia|]. simpl.
  destruct (parse_entry it i (length ents) None Hi Hb ltac:(lia) (ly_restarts _ _ _ _ _ L)) as (it1 & -> & Hm1 & Hat). cbn [mbind option_bind negb].
  pose proof (moved_of _ _ Hm1 Hi) as Hi1. pose proof (moved_cache _ _ Hm1) as (Hpe & _ & Hst & Hbu).
  unfold di_key. rewrite (at_entry_valid _ _ Hi1 Hat). cbn [mbind option_bind].
  set (it2 := di_set_cache _ _ it1).
  assert (di_of it2) as Hi2 by (by destruct it1). assert (at_entry it2 i) as Hat2 by (by destruct it1).
  assert (di_prev_entries_ it2 = di_prev_entries_ it ++ [mkCached (di_current_ it1) (di_key_ it1) (di_value_ it1)]) as Hpe2
    by (rewrite <- Hpe; by destruct it1).
  assert (cached_from it2 b) as Hc2.
  { intros j c. rewrite Hpe2. intros [Hj|[Hj [Hj' <-]%list_lookup_singleton_Some]]%lookup_app_Some; [by apply Hc|].
    destruct Hat as (e & He & -> & -> & -> & _). exists e. rewrite Hl in *. replace (b + j)%nat with i by lia. done. }
  assert (length (di_prev_entries_ it2) = (S i - b)%nat) as Hl2 by (rewrite Hpe2, length_app, Hl; simpl; lia).
  assert (di_status_ it2 = di_status_ it /\ di_num_buckets_ it2 = di_num_buckets_ it) as [Hst2 Hbu2] by (rewrite <- Hst, <- Hbu; by destruct it1).
  pose proof (at_before _ _ Hat2) as Hb2. pose proof Hb2 as [-> _]. destruct (Z.ltb_spec (off (S i)) (off p)) as [Hlt|Hge].
  - assert (S i < p)%nat by (apply off_lt; [lia|lia|done]).
    destruct (IH it2 (S i) Hi2 Hb2 ltac:(lia) Hp ltac:(lia) Hc2 Hl2) as (it' & -> & ? & ? & ? & ? & ? & ?). exists it'. split_and!; congruence || done.
  - pose proof (off_lt (S i) p ltac:(lia) ltac:(lia)). exists it2. replace (p - 1)%nat with i by lia. split_and!; try done. lia.
Qed.

(** From the cache, or by decoding from a restart point before the entry. *)
Lemma Prev_ok it p :
  di_of it -> at_entry it p -> di_cache_ok it ->
  exists it', di_Prev it = Some it' /\ di_of it' /\ di_cache_ok it' /\ di_status_ it' = di_status_ it /\ di_num_buckets_ it' = di_num_buckets_ it /\
    (p = 0%nat /\ past_end it' \/ (0 < p)%nat /\ at_entry it' (p - 1)).
Proof using L.
  intros Hi Hat (Hidx & b & Hc). pose proof Hat as (e & He & Hcur & _ & _ & Hri). pose proof (lookup_lt_Some _ _ _ He) as Hp.
  unfold di_Prev. rewrite (at_entry_valid _ _ Hi Hat). pose proof (cached_len _ _ Hc) as Hcl.
  pose proof (off_gap 0 (length ents) ltac:(lia)) as Hn. rewrite off_0, <- (ly_restarts _ _ _ _ _ L) in Hn. pose proof (ly_size _ _ _ _ _ L).
  assert ((di_prev_entries_idx_ it =? -1) || (wrap64 (di_prev_entries_idx_ it) <? len (di_prev_entries_ it)) = true) as ->.
  { destruct (Z.eqb_spec (di_prev_entries_idx_ it) (-1)); [done|]. apply Z.ltb_lt. pose proof (zlen_nonneg (di_prev_entries_ it)). rewrite (wrap_id 64) by lia. lia. }
  cbn [negb orb]. set (cached := if 0 <? di_prev_entries_idx_ it then _ else None).
  destruct cached as [c|] eqn:Ec.
  - subst cached. destruct (Z.ltb_spec 0 (di_prev_entries_idx_ it)) as [Hx|]; [|done].
    destruct (di_prev_entries_ it !z di_prev_entries_idx_ it) as [c1|] eqn:E1; [|done]. cbn [mbind option_bind] in Ec.
    destruct (Z.eqb_spec (cp_offset c1) (di_current_ it)) as [Ho|]; [|done].
    apply zget_Some in E1 as [_ E1]. apply zget_Some in Ec as [_ E0].
    destruct (Hc _ _ E1) as (e1 & He1 & ->). destruct (Hc _ _ E0) as (e0 & He0 & ->). simpl in Ho. rewrite Hcur in Ho.
    apply (off_inj (b + Z.to_nat (di_prev_entries_idx_ it)) p ltac:(apply lookup_lt_Some in He1; lia) ltac:(lia)) in Ho.
    replace (b + Z.to_nat (di_prev_entries_idx_ it - 1))%nat with (p - 1)%nat in * by lia.
    eexists. split; [done|]. destruct it. simpl in *. split_and!; [done|split; [simpl; lia|by exists b]|done|done|].
    right. split; [lia|]. by exists e0.
  - clear cached Ec. set (it1 := di_set_cache [] (-1) it). assert (di_of it1) as Hi1 by (by destruct it).
    assert (di_current_ it1 = off p) as -> by (by destruct it). assert (di_restart_index_ it1 = di_restart_index_ it) as -> by (by destruct it).
    assert (di_prev_entries_ it1 = [] /\ di_prev_entries_idx_ it1 = -1 /\ di_status_ it1 = di_status_ it /\ di_num_buckets_ it1 = di_num_buckets_ it) as (Hpe & Hpi & Hst & Hbu) by (by destruct it).
    destruct (back_up_ok (S (Z.to_nat (di_restart_index_ it))) it1 p (di_restart_index_ it) Hi1 Hp Hri ltac:(lia)) as [(z & i & -> & Hz & Hr & Hip)|[-> ->]]; cbn [mbind option_bind].
    + destruct (SeekToRestartPoint_ok it1 z Hi1 Hz) as (i' & it2 & Hr' & -> & Hm2 & Hb2 & _). simplify_eq. cbn [mbind option_bind].
      pose proof (moved_of _ _ Hm2 Hi1) as Hi2. destruct (moved_cache _ _ Hm2) as (Hpe2 & _ & Hst2 & Hbu2). pose proof (di_fuel _ Hi2).
      destruct (fill_cache_ok (entry_fuel it2) it2 i i p Hi2 Hb2 ltac:(lia) ltac:(lia) ltac:(lia)) as (it3 & -> & Hi3 & Hat3 & Hc3 & Hl3 & Hst3 & Hbu3);
        [intros j c; by rewrite Hpe2, Hpe|rewrite Hpe2, Hpe; simpl; lia|]. cbn [mbind option_bind].
      eexists. split; [done|]. destruct it3. simpl in *. split_and!; [done|split; [unfold zlen; simpl; lia|by exists i]|congruence|congruence|]. right. split; [lia|done].
    + exists (di_at_end it1). split; [done|]. pose proof (at_end_moved it1) as Hm. destruct (moved_cache _ _ Hm) as (Hq1 & Hq2 & Hq3 & Hq4).
      split_and!; [by eapply moved_of| |congruence|congruence|].
      * split; [rewrite Hq1, Hq2, Hpe, Hpi; unfold zlen; simpl; lia|]. exists 0%nat. intros j c. by rewrite Hq1, Hpe.
      * left. split; [done|]. destruct Hi as (_ & Hrs & _). destruct it. done.
Qed.

(** *** Positioning *)

(** The key of a restart point behind the first, as the binary search reads it. *)
Lemma restart_key it z :
  di_of it -> 0 < z < num -> exists i e off' hl, rps !! Z.to_nat z = Some i /\ ents !! i = Some e /\ GetRestartPoint it z = Some off' /\
    DecodeKey data off' restarts = Some (Some (0, len e.2.1, hl)) /\ mem_read data hl (len e.2.1) = Some e.2.1.
Proof using L.
  intros Hi Hz. destruct (GetRestartPoint_range it z Hi ltac:(lia)) as (i & Hr & Hg). destruct (ly_in _ _ _ _ _ L _ _ Hr) as [Hle Hlt].
  assert (0 < i)%nat by exact (StronglySorted_lookup_lt _ _ 0 (Z.to_nat z) _ _ (ly_inc _ _ _ _ _ L) ltac:(lia) (ly_first _ _ _ _ _ L) Hr).
  assert (i < length ents)%nat by (destruct Hlt as [Hnil|]; [rewrite Hnil in Hle; simpl in Hle; lia|done]).
  destruct (lookup_lt_is_Some_2 ents i ltac:(done)) as [e He]. destruct (entry_sizes _ _ He) as [Hs1 Hs2].
  destruct (data_split _ _ He) as (pre & post & Hd & Hpre). pose proof (off_S _ _ He). pose proof (off_range (S i) ltac:(lia)).
  pose proof data_len. pose proof (ly_size _ _ _ _ _ L). pose proof (ly_full _ _ _ _ _ L _ _ _ Hr He) as Hfull.
  exists i, e, (off i), (len pre + len (entry_header e.1 e.2.1 e.2.2)). split_and!; [done..| |].
  - unfold DecodeKey. rewrite <- Hpre. assert (DecodeEntry data (len pre) restarts = Some (Some (Z.of_nat e.1, len e.2.1 - Z.of_nat e.1, len e.2.2, len pre + len (entry_header e.1 e.2.1 e.2.2)))) as ->.
    { rewrite Hd. apply (DecodeEntry_encode e.1 e.2.1 e.2.2); [lia|lia| |lia]. fold (entry_bytes e). rewrite <- Hd. lia. }
    cbn [mbind option_bind]. rewrite Hfull. simpl. by rewrite Z.sub_0_r.
  - destruct (entry_delta e.1 e.2.1 e.2.2 ltac:(lia) ltac:(lia) pre post) as [Hdel _]. fold (entry_bytes e) in Hdel. rewrite <- Hd, Hfull in Hdel.
    change (Z.of_nat 0) with 0 in Hdel. rewrite Z.sub_0_r in Hdel. by rewrite Hfull.
Qed.

Lemma SeekToLast_ok it :
  di_of it -> exists it', di_SeekToLast it = Some it' /\ moved it it' /\
    (ents = [] /\ past_end it' \/ (0 < length ents)%nat /\ at_entry it' (length ents - 1)).
Proof using L.
  intros Hi. pose proof num_pos. pose proof (ly_num_range _ _ _ _ _ L). unfold di_SeekToLast. pose proof Hi as (-> & _ & -> & _).
  rewrite (wrap_id 32) by lia. destruct (SeekToRestartPoint_ok it (num - 1) Hi ltac:(lia)) as (i & it1 & Hr & -> & Hm1 & Hb1 & _). cbn [mbind option_bind].
  pose proof (moved_of _ _ Hm1 Hi) as Hi1. pose proof (di_fuel _ Hi1). destruct (ly_in _ _ _ _ _ L _ _ Hr) as [Hle Hlt].
  destruct (decide (i < length ents)%nat) as [Hil|Hil].
  - destruct (skip_to_last_ok (entry_fuel it1) it1 i Hi1 Hb1 Hil ltac:(lia)) as (it2 & -> & Hm2 & Hat).
    exists it2. split_and!; [done|by eapply moved_trans|]. right. split; [lia|done].
  - destruct Hlt as [Hnil|]; [|done]. destruct (parse_next it1 i Hi1 Hb1 Hle) as (ok & it2 & Hp & Hm2 & [(_ & Hbad & _)|(-> & _ & Hend)]); [done|].
    unfold entry_fuel. cbn [skip_to_last]. rewrite Hp. cbn [mbind option_bind andb]. exists it2. split_and!; [done|by eapply moved_trans|]. by left.
Qed.

Lemma SeekToFirst_ok it :
  di_of it -> exists it', di_SeekToFirst it = Some it' /\ moved it it' /\ (ents = [] /\ past_end it' \/ at_entry it' 0).
Proof using L.
  intros Hi. unfold di_SeekToFirst. pose proof Hi as (-> & _). destruct (SeekToRestartPoint_ok it 0 Hi ltac:(pose proof num_pos; lia)) as (i & it1 & Hr & -> & Hm1 & Hb1 & _).
  change (Z.to_nat 0) with 0%nat in Hr. rewrite (ly_first _ _ _ _ _ L) in Hr. simplify_eq. cbn [mbind option_bind].
  destruct (parse_next it1 0 (moved_of _ _ Hm1 Hi) Hb1 ltac:(lia)) as (ok & it2 & -> & Hm2 & Hres). cbn [mbind option_bind].
  exists it2. split_and!; [done|by eapply moved_trans|]. destruct Hres as [(_ & _ & Hat)|(_ & Hl & Hend)]; [by right|]. left. split; [|done]. by apply nil_length_inv.
Qed.

Section Seeks.
Context (icmp : Comparator) {Laws : ComparatorLaws icmp} (Hsorted : recs_sorted icmp (snd <$> ents)).
Implicit Types (t : bytes).

Lemma rec_entry p r : (snd <$> ents) !z p = Some r <-> 0 <= p /\ exists e, ents !! Z.to_nat p = Some e /\ r = e.2.
Proof.
  rewrite zget_Some, list_lookup_fmap. split.
  - intros [Hp (e & -> & He)%fmap_Some]. eauto.
  - intros (Hp & e & He & ->). by rewrite He.
Qed.

Lemma entries_lt i j e e' : ents !! i = Some e -> ents !! j = Some e' -> (i < j)%nat -> Compare icmp e.2.1 e'.2.1 < 0.
Proof using Hsorted.
  intros He He' Hij. apply (recs_sorted_lt icmp (snd <$> ents) (Z.of_nat i) (Z.of_nat j) e.2 e'.2); [done| | |lia];
    apply rec_entry; rewrite Nat2Z.id; split; [lia|eauto|lia|eauto].
Qed.

(** The keys below one at or before the target are before it. *)
Lemma keys_before_le t i e : ents !! i = Some e -> Compare icmp e.2.1 t <= 0 -> forall j, (j < i)%nat -> key_before icmp t j.
Proof using Hsorted Laws.
  intros He Hle j Hj e' He'. apply (cmp_lt_le_trans icmp _ e.2.1); [by apply (entries_lt j i)|done].
Qed.

Lemma BinarySeek_ok fuel t it left right i0 :
  di_of it -> 0 <= left <= right -> right < num -> right - left < Z.of_nat fuel ->
  rps !! Z.to_nat left = Some i0 -> (forall j, (j < i0)%nat -> key_before icmp t j) ->
  exists index i, BinarySeek icmp fuel t left right it = Some (inr index) /\ 0 <= index < num /\ rps !! Z.to_nat index = Some i /\
    forall j, (j < i)%nat -> key_before icmp t j.
Proof using L Hsorted Laws.
  intros Hi. revert left right i0. induction fuel as [|fuel IH]; intros left right i0 Hlr Hn Hf Hl Hbef; [lia|]. cbn [BinarySeek].
  destruct (Z.ltb_spec left right) as [Hlt|Hge]; [|exists left, i0; split_and!; [done|lia|lia|done|done]].
  pose proof (ly_num_range _ _ _ _ _ L). rewrite (wrap_id 32) by lia. set (mid := (left + right + 1) / 2).
  assert (left < mid <= right) as Hmid by (unfold mid; Z.to_euclidean_division_equations; lia).
  destruct (restart_key it mid Hi ltac:(lia)) as (i & e & off' & hl & Hr & He & -> & Hdec & Hkey). pose proof Hi as (Hd & Hrs & _).
  cbn [mbind option_bind]. rewrite Hd. cbn [mbind option_bind]. rewrite Hrs, Hdec. cbn [mbind option_bind]. rewrite Hkey. cbn [Z.eqb negb mbind option_bind].
  destruct (Z.ltb_spec (Compare icmp e.2.1 t) 0); [|destruct (Z.ltb_spec 0 (Compare icmp e.2.1 t))].
  - apply (IH mid right i); [lia|lia|lia|done|]. apply (keys_before_le t i e He). lia.
  - apply (IH left (mid - 1) i0); [lia|lia|lia|done|done].
  - apply (IH mid mid i); [lia|lia|lia|done|]. apply (keys_before_le t i e He). lia.
Qed.

(** On the first key at or past the target, or past the end. *)
Lemma seek_from_restart_ok t it :
  di_of it -> exists it', seek_from_restart icmp t it = Some (true, it') /\ moved it it' /\
    ((exists j, at_entry it' j /\ key_from icmp t j /\ forall j', (j' < j)%nat -> key_before icmp t j') \/
     (past_end it' /\ forall j', key_before icmp t j')).
Proof using L Hsorted Laws.
  intros Hi. pose proof num_pos. pose proof (ly_num_range _ _ _ _ _ L). unfold seek_from_restart. pose proof Hi as (_ & _ & Hn & _). rewrite Hn.
  rewrite (wrap_id 32) by lia.
  destruct (BinarySeek_ok (S (Z.to_nat num)) t it 0 (num - 1) 0 Hi ltac:(lia) ltac:(lia) ltac:(lia) (ly_first _ _ _ _ _ L) ltac:(lia))
    as (index & i & -> & Hx & Hr & Hbef). cbn [mbind option_bind].
  destruct (SeekToRestartPoint_ok it index Hi Hx) as (i' & it1 & Hr' & -> & Hm1 & Hb1 & _). simplify_eq. cbn [mbind option_bind].
  pose proof (moved_of _ _ Hm1 Hi) as Hi1. pose proof (di_fuel _ Hi1). destruct (ly_in _ _ _ _ _ L _ _ Hr) as [Hle _].
  destruct (linear_seek_ok icmp (entry_fuel it1) None t it1 i (length ents) Hi1 Hb1 ltac:(lia) (ly_restarts _ _ _ _ _ L) ltac:(lia))
    as (it2 & -> & Hm2 & Hres). cbn [mbind option_bind]. exists it2. split; [done|]. split; [by eapply moved_trans|].
  destruct Hres as [(j & Hj & Hat & Hfrom & Hall)|[He Hall]]; [left; exists j; split_and!; [done|done|]|right; split; [done|]]; intros j';
    (destruct (decide (j' < i)%nat); [by intros; apply Hbef|]).
  - intros Hj'. apply Hall. lia.
  - destruct (decide (j' < length ents)%nat); [apply Hall; lia|]. intros e' He'%lookup_lt_Some. lia.
Qed.

(** Back to the last key at or before the target, from one past it. *)
Lemma step_back_ok fuel t it p :
  di_of it -> at_entry it p -> di_cache_ok it -> (p + 1 < fuel)%nat -> (forall j e, ents !! j = Some e -> (p < j)%nat -> 0 < Compare icmp e.2.1 t) ->
  exists it', step_back icmp fuel t it = Some it' /\ di_of it' /\ di_cache_ok it' /\ di_status_ it' = di_status_ it /\
    ((past_end it' /\ forall j e, ents !! j = Some e -> 0 < Compare icmp e.2.1 t) \/
     exists q e, at_entry it' q /\ ents !! q = Some e /\ Compare icmp e.2.1 t <= 0 /\ forall j e, ents !! j = Some e -> (q < j)%nat -> 0 < Compare icmp e.2.1 t).
Proof using L.
  revert it p. induction fuel as [|fuel IH]; intros it p Hi Hat Hc Hf Hall; [lia|]. cbn [step_back].
  rewrite (at_entry_valid _ _ Hi Hat). pose proof Hat as (e & He & _ & -> & _). cbn [andb].
  destruct (Z.ltb_spec 0 (Compare icmp e.2.1 t)) as [Hgt|Hle].
  2:{ exists it. split_and!; [done..|]. right. exists p, e. by split_and!. }
  destruct (Prev_ok it p Hi Hat Hc) as (it1 & -> & Hi1 & Hc1 & Hst & _ & Hres). cbn [mbind option_bind].
  destruct Hres as [[-> Hend]|[Hp Hat1]].
  - destruct fuel as [|fuel]; [lia|]. cbn [step_back]. rewrite (past_end_invalid _ Hi1 Hend). cbn [andb].
    exists it1. split_and!; [done..|]. left. split; [done|]. intros j e' He'. destruct j as [|j]; [by simplify_eq|]. apply (Hall (S j)); [done|lia].
  - destruct (IH it1 (p - 1)%nat Hi1 Hat1 Hc1 ltac:(lia)) as (it' & -> & ? & ? & Hst' & ?).
    { intros j e' He' Hj. destruct (decide (j = p)) as [->|]; [by simplify_eq|]. apply (Hall j); [done|lia]. }
    exists it'. split_and!; [done..|congruence|done].
Qed.
End Seeks.

Lemma at_entry_read it i e :
  di_of it -> at_entry it i -> ents !! i = Some e -> di_key it = Some e.2.1 /\ di_value it = Some e.2.2.
Proof using L.
  intros Hi Hat He. unfold di_key, di_value. rewrite (at_entry_valid _ _ Hi Hat). destruct Hat as (e' & He' & _ & -> & -> & _). rewrite He in He'. injection He' as <-.
  split; [done|]. pose proof Hi as (-> & _). cbn [mbind option_bind fst snd]. destruct (entry_sizes _ _ He) as [Hs1 Hs2].
  destruct (data_split _ _ He) as (pre & post & Hd & Hpre). destruct (entry_delta e.1 e.2.1 e.2.2 ltac:(lia) ltac:(lia) pre post) as [_ Hv].
  fold (entry_bytes e) in Hv. rewrite <- Hd in Hv. rewrite <- Hv. f_equal. rewrite (off_S _ _ He). destruct (entry_bytes_len _ _ He) as [-> _]. lia.
Qed.
End Layout.

(** ** The iterator's laws *)

(** The iterator reads [recs], the entries of its block, and stands at [p]. *)
Definition block_over (icmp : Comparator) (it : DataBlockIter) (recs : list (bytes * bytes)) (p : Z) : Prop :=
  exists data restarts num ents rps, BlockLayout data restarts num ents rps /\ recs = snd <$> ents /\ recs_sorted icmp recs /\
    di_of data restarts num it /\ di_cache_ok ents it /\ di_status_ it = Status_OK /\
    ((0 <= p /\ at_entry num ents it (Z.to_nat p)) \/ ((p = -1 \/ p = len recs) /\ past_end restarts it)).

Section Laws.
Context (icmp : Comparator) {Laws : ComparatorLaws icmp}.

(** The three facts every operation ends with. *)
Lemma block_over_moved data restarts num ents rps it it' p :
  BlockLayout data restarts num ents rps -> recs_sorted icmp (snd <$> ents) -> di_of data restarts num it -> di_cache_ok ents it -> di_status_ it = Status_OK ->
  moved it it' -> (0 <= p /\ at_entry num ents it' (Z.to_nat p)) \/ ((p = -1 \/ p = len (snd <$> ents)) /\ past_end restarts it') ->
  block_over icmp it' (snd <$> ents) p.
Proof.
  intros HL Hs Hi Hc Hst Hm Hp. destruct (moved_cache _ _ Hm) as (_ & _ & Hst' & _).
  exists data, restarts, num, ents, rps. split_and!; [done..|by eapply moved_of|by eapply cache_moved|congruence|done].
Qed.

Lemma zlen_fmap_snd (ents : list BlockEntry) : len (snd <$> ents) = Z.of_nat (length ents).
Proof. unfold zlen. by rewrite length_fmap. Qed.

#[export] Instance block_scan : ScanLaws icmp (DataBlockIter_ops icmp) (block_over icmp).
Proof.
  split.
  - by intros s recs p (? & ? & ? & ? & ? & _ & _ & ? & _).
  - intros s recs p (data & restarts & num & ents & rps & HL & -> & Hs & Hi & Hc & Hst & Hp). rewrite zlen_fmap_snd in *.
    destruct Hp as [(? & e & He%lookup_lt_Some & _)|[[->| ->] _]]; lia.
  - by intros s recs p (? & ? & ? & ? & ? & _ & _ & _ & _ & _ & ? & _).
  - intros s recs p (data & restarts & num & ents & rps & HL & -> & Hs & Hi & Hc & Hst & Hp). rewrite zlen_fmap_snd in *. simpl.
    destruct Hp as [[? Hat]|[Hp Hend]].
    + rewrite (at_entry_valid _ _ _ _ _ HL _ _ Hi Hat). destruct Hat as (e & He%lookup_lt_Some & _). by rewrite bool_decide_true by lia.
    + rewrite (past_end_invalid _ _ _ _ Hi Hend). by rewrite bool_decide_false by lia.
  - intros s recs p k v (data & restarts & num & ents & rps & HL & -> & Hs & Hi & Hc & Hst & Hp) (H0 & e & He & Hkv)%rec_entry. simpl.
    destruct Hp as [[? Hat]|[Hp Hend]]; [|apply lookup_lt_Some in He; rewrite zlen_fmap_snd in *; lia].
    destruct (at_entry_read _ _ _ _ _ HL _ _ _ Hi Hat He) as [-> ->]. by rewrite <- Hkv.
  - intros s recs p (data & restarts & num & ents & rps & HL & -> & Hs & Hi & Hc & Hst & _). simpl.
    destruct (SeekToFirst_ok _ _ _ _ _ HL s Hi) as (s' & -> & Hm & Hres). exists s'. split; [done|].
    eapply block_over_moved; try done. destruct Hres as [[-> ?]|?]; [right; auto|by left].
  - intros s recs p (data & restarts & num & ents & rps & HL & -> & Hs & Hi & Hc & Hst & Hp) Hr. rewrite zlen_fmap_snd in *. simpl.
    destruct Hp as [[? Hat]|[Hp _]]; [|lia]. unfold di_Next. rewrite (at_entry_valid _ _ _ _ _ HL _ _ Hi Hat). cbn [negb].
    destruct (parse_next _ _ _ _ _ HL s _ Hi (at_before _ _ _ _ _ HL _ _ Hat) ltac:(lia)) as (ok & s' & -> & Hm & Hres). cbn [mbind option_bind].
    exists s'. split; [done|]. eapply block_over_moved; try done. rewrite zlen_fmap_snd, Z2Nat.inj_add, Nat.add_1_r by lia.
    destruct Hres as [(_ & _ & ?)|(_ & ? & ?)]; [left; split; [lia|done]|right; split; [lia|done]].
Qed.

(** A search does not depend on where the iterator stands. *)
Lemma Seek_over data restarts num ents rps s t :
  BlockLayout data restarts num ents rps -> recs_sorted icmp (snd <$> ents) -> di_of data restarts num s -> di_cache_ok ents s -> di_status_ s = Status_OK ->
  exists s' q, di_Seek icmp t s = Some s' /\ block_over icmp s' (snd <$> ents) q /\ first_from icmp (snd <$> ents) t q.
Proof using Laws.
  intros HL Hs Hi Hc Hst. unfold di_Seek. pose proof Hi as (-> & _).
  destruct (seek_from_restart_ok _ _ _ _ _ HL icmp Hs t s Hi) as (s' & -> & Hm & Hres). cbn [mbind option_bind]. exists s'.
  destruct Hres as [(j & Hat & Hfrom & Hall)|[Hend Hall]].
  - exists (Z.of_nat j). pose proof Hat as (e & He%lookup_lt_Some & _). split; [done|]. split.
    + eapply block_over_moved; try done. left. rewrite Nat2Z.id. split; [lia|done].
    + split_and!; [lia|rewrite zlen_fmap_snd; lia| |].
      * intros i r (Hi0 & e' & He' & ->)%rec_entry Hij. apply (Hall (Z.to_nat i)); [lia|done].
      * intros r (_ & e' & He' & ->)%rec_entry. rewrite Nat2Z.id in He'. by apply Hfrom.
  - exists (len (snd <$> ents)). split; [done|]. split; [eapply block_over_moved; try done; right; auto|].
    split_and!; [apply zlen_nonneg|lia| |intros r ?%zget_range; lia].
    intros i r (Hi0 & e' & He' & ->)%rec_entry _. by apply (Hall (Z.to_nat i)).
Qed.

#[export] Instance block_seek : SeekLaw icmp (DataBlockIter_ops icmp) (block_over icmp).
Proof.
  split. intros s recs p t (data & restarts & num & ents & rps & HL & -> & Hs & Hi & Hc & Hst & _). by apply (Seek_over data restarts num ents rps).
Qed.

#[export] Instance block_reverse : ReverseLaws icmp (DataBlockIter_ops icmp) (block_over icmp).
Proof.
  split.
  - intros s recs p (data & restarts & num & ents & rps & HL & -> & Hs & Hi & Hc & Hst & _). simpl.
    destruct (SeekToLast_ok _ _ _ _ _ HL s Hi) as (s' & -> & Hm & Hres). exists s'. split; [done|].
    eapply block_over_moved; try done. destruct Hres as [[-> ?]|[? Hat]]; [right; auto|]. left.
    rewrite zlen_fmap_snd, Z2Nat.inj_sub, Nat2Z.id by lia. split; [lia|done].
  - intros s recs p (data & restarts & num & ents & rps & HL & -> & Hs & Hi & Hc & Hst & Hp) Hr. rewrite zlen_fmap_snd in *. simpl.
    destruct Hp as [[? Hat]|[Hp _]]; [|lia].
    destruct (Prev_ok _ _ _ _ _ HL s _ Hi Hat Hc) as (s' & -> & Hi' & Hc' & Hst' & _ & Hres). exists s'. split; [done|].
    exists data, restarts, num, ents, rps. split_and!; [done..|congruence|].
    destruct Hres as [[? ?]|[? Hat']]; [right; split; [lia|done]|left]. rewrite Z2Nat.inj_sub by lia. split; [lia|done].
Qed.

#[export] Instance block_seek_for_prev : SeekForPrevLaw icmp (DataBlockIter_ops icmp) (block_over icmp).
Proof.
  split. intros s recs p t (data & restarts & num & ents & rps & HL & -> & Hs & Hi & Hc & Hst & _). simpl. unfold di_SeekForPrev. pose proof Hi as (-> & _).
  destruct (seek_from_restart_ok _ _ _ _ _ HL icmp Hs t s Hi) as (s1 & -> & Hm & Hres). cbn [mbind option_bind negb].
  pose proof (moved_of _ _ _ _ _ Hm Hi) as Hi1. pose proof (cache_moved _ _ _ Hm Hc) as Hc1. destruct (moved_cache _ _ Hm) as (_ & _ & Hst1 & _).
  destruct Hres as [(j & Hat & Hfrom & Hall)|[Hend Hall]].
  - rewrite (at_entry_valid _ _ _ _ _ HL _ _ Hi1 Hat). pose proof Hat as (e & He & _). pose proof (lookup_lt_Some _ _ _ He). pose proof (di_fuel _ _ _ _ _ HL _ Hi1).
    destruct (step_back_ok _ _ _ _ _ HL icmp (S (entry_fuel s1)) t s1 j Hi1 Hat Hc1 ltac:(lia)) as (s' & -> & Hi' & Hc' & Hst' & Hres).
    { intros i e' He' Hji. apply (cmp_lt_gt icmp). apply (cmp_le_lt_trans icmp _ e.2.1); [apply (cmp_le_ge icmp); by apply Hfrom|]. by apply (entries_lt ents icmp Hs j i). }
    exists s'. destruct Hres as [[Hend Hgt]|(q & e' & Hatq & Heq & Hle & Hgt)].
    + exists (-1). split; [done|]. split; [exists data, restarts, num, ents, rps; split_and!; [done..|congruence|]; right; auto|].
      pose proof (zlen_nonneg (snd <$> ents)). split_and!; [lia|lia| |intros r [? _]%zget_Some; lia].
      intros i r (_ & e' & He' & ->)%rec_entry _. by apply (Hgt (Z.to_nat i)).
    + exists (Z.of_nat q). pose proof (lookup_lt_Some _ _ _ Heq). split; [done|]. split.
      { exists data, restarts, num, ents, rps. split_and!; [done..|congruence|]. left. rewrite Nat2Z.id. split; [lia|done]. }
      split_and!; [lia|rewrite zlen_fmap_snd; lia| |].
      * intros i r (Hi0 & e1 & He1 & ->)%rec_entry Hqi. apply (Hgt (Z.to_nat i)); [done|lia].
      * intros r (_ & e1 & He1 & ->)%rec_entry. rewrite Nat2Z.id in He1. by simplify_eq.
  - rewrite (past_end_invalid _ _ _ _ Hi1 Hend).
    destruct (SeekToLast_ok _ _ _ _ _ HL s1 Hi1) as (s' & -> & Hm' & Hres). exists s', (len (snd <$> ents) - 1). split; [done|]. split.
    + eapply block_over_moved; try done; [congruence|]. destruct Hres as [[-> ?]|[? Hat]]; [right; auto|left].
      rewrite zlen_fmap_snd, Z2Nat.inj_sub, Nat2Z.id by lia. split; [lia|done].
    + pose proof (zlen_nonneg (snd <$> ents)). split_and!; [lia|lia|intros i r ?%zget_range; lia|].
      intros r (_ & e' & He' & ->)%rec_entry. apply Z.lt_le_incl. by apply (Hall (Z.to_nat (len (snd <$> ents) - 1))).
Qed.
End Laws.
