(* ===== verification/BlockRoundtrip.v ===== *)
(** * From the builder to the iterator (table/block_builder.cc, table/block.cc)

    What a builder wrote is laid out as the iterator expects it, with or without the hash
    index; the iterator on it behaves as a cursor over the records that were added. *)

From S2P Require Import Prelude Coding Comparator DbFormat VersionEdit NvmAlloc SstableMeta L0Table Iterator Bloom BlockBuilder Block BlockScan.

(** ** What the builder keeps *)

Section Build.
Context (est : nat -> Z).
Implicit Types (b : BlockBuilder) (ents : list BlockEntry) (rps : list nat).

Lemma zlen_fmap_len {A B} (f : A -> B) (l : list A) : len (f <$> l) = len l.
Proof. unfold zlen. by rewrite length_fmap. Qed.

Lemma entry_off_app ents l i : (i <= length ents)%nat -> entry_off (ents ++ l) i = entry_off ents i.
Proof. intros Hi. unfold entry_off. by rewrite take_app_le. Qed.

Lemma entry_off_le ents i : 0 <= entry_off ents i <= entry_off ents (length ents).
Proof.
  unfold entry_off. rewrite (take_ge ents (length ents)) by lia.
  assert (concat (entry_bytes <$> ents) = concat (entry_bytes <$> take i ents) ++ concat (entry_bytes <$> drop i ents)) as ->
    by (by rewrite <- concat_app, <- fmap_app, take_drop).
  rewrite zlen_app. pose proof (zlen_nonneg (concat (entry_bytes <$> take i ents))). pose proof (zlen_nonneg (concat (entry_bytes <$> drop i ents))). lia.
Qed.

(** The hash index has the restart interval of each key. *)
Definition pairs_ok ents rps (pairs : list (Z * Z)) : Prop :=
  length pairs = length ents /\
  forall i e, ents !! i = Some e -> exists z r, pairs !! i = Some (GetSliceHash (ExtractUserKey e.2.1), z) /\
    0 <= z <= kMaxRestartSupportedByHashIndex /\ rps !! Z.to_nat z = Some r /\ (r <= i)%nat /\
    forall r', rps !! S (Z.to_nat z) = Some r' -> (i < r')%nat.

Record Built b ents rps : Prop := {
  bu_value_delta : use_value_delta_encoding_ b = false;
  bu_interval : 1 <= block_restart_interval_ b;
  bu_finished : bb_finished_ b = false;
  bu_buffer : bb_buffer_ b = concat (entry_bytes <$> ents);
  bu_restarts : bb_restarts_ b = (fun i => wrap32 (entry_off ents i)) <$> rps;
  bu_estimate : bb_estimate_ b = len (bb_buffer_ b) + 4 * len rps + 4;
  bu_counter : exists r, last rps = Some r /\ (r <= length ents)%nat /\ bb_counter_ b = Z.of_nat (length ents - r) /\ bb_counter_ b <= block_restart_interval_ b;
  bu_last_key : use_delta_encoding_ b = true -> bb_last_key_ b = default [] ((fun e : BlockEntry => e.2.1) <$> last ents);
  bu_first : rps !! 0%nat = Some 0%nat;
  bu_inc : StronglySorted lt rps;
  bu_in j i : rps !! j = Some i -> ents = [] \/ (i < length ents)%nat;
  bu_full j i e : rps !! j = Some i -> ents !! i = Some e -> e.1 = 0%nat;
  bu_size : Forall (fun e => Z.of_nat e.1 <= len e.2.1) ents;
  bu_shared i e : ents !! i = Some e -> e.1 = 0%nat \/
    exists j prev, i = S j /\ ents !! j = Some prev /\ (e.1 <= length prev.2.1)%nat /\ take e.1 prev.2.1 = take e.1 e.2.1;
  bu_hash : hib_valid_ (bb_hash b) = true -> pairs_ok ents rps (hash_and_restart_pairs_ (bb_hash b))
}.

Lemma Built_make interval delta ty b : BlockBuilder_make interval delta false ty = Some b -> Built b [] [0%nat].
Proof.
  unfold BlockBuilder_make. destruct (Z.ltb_spec interval 1); [done|]. intros [= <-].
  split; simpl; try done; try (intros; simplify_eq; done).
  - exists 0%nat. simpl. split_and!; lia || done.
  - repeat constructor.
  - intros j i _. by left.
Qed.

(** The shared prefix is one of both keys. *)
Lemma difference_offset_shared a c :
  (difference_offset a c <= length a)%nat /\ (difference_offset a c <= length c)%nat /\ take (difference_offset a c) c = take (difference_offset a c) a.
Proof.
  revert c. induction a as [|x a IH]; intros [|y c]; simpl; try (split_and!; done || lia).
  destruct (Z.eqb_spec (byte.unsigned x) (byte.unsigned y)) as [E|]; simpl; [|split_and!; done || lia].
  apply byte.unsigned_inj in E as ->. destruct (IH c) as (? & ? & E). split_and!; [lia|lia|by rewrite E].
Qed.

(** The restart points, with one at the end or as they were. *)
Lemma restarts_snoc ents rps (restart : bool) :
  StronglySorted lt rps -> rps !! 0%nat = Some 0%nat -> (forall j i, rps !! j = Some i -> (i <= length ents)%nat) ->
  (restart = true -> forall j i, rps !! j = Some i -> (i < length ents)%nat) ->
  let rps' := if restart then rps ++ [length ents] else rps in
  StronglySorted lt rps' /\ rps' !! 0%nat = Some 0%nat /\ forall j i, rps' !! j = Some i -> rps !! j = Some i \/ (restart = true /\ j = length rps /\ i = length ents).
Proof.
  intros Hs H0 Hle Hlt. destruct restart; simpl; [|by auto]. split_and!.
  - apply StronglySorted_lookup_intro. intros i j x y Hij [Hx|[Hx [Hi <-]%list_lookup_singleton_Some]]%lookup_app_Some [Hy|[Hy [Hj <-]%list_lookup_singleton_Some]]%lookup_app_Some.
    + exact (StronglySorted_lookup_lt _ _ _ _ _ _ Hs Hij Hx Hy).
    + by apply (Hlt eq_refl i).
    + apply lookup_lt_Some in Hy. lia.
    + lia.
  - rewrite lookup_app_l; [done|]. by apply lookup_lt_Some in H0.
  - intros j i [Hx|[Hx [Hi <-]%list_lookup_singleton_Some]]%lookup_app_Some; [by left|right]. split_and!; [done|lia|done].
Qed.

Lemma pairs_ok_snoc ents rps pairs (restart : bool) sh k v r :
  let rps' := if restart then rps ++ [length ents] else rps in
  pairs_ok ents rps pairs -> last rps' = Some r -> (r <= length ents)%nat -> len rps' - 1 <= kMaxRestartSupportedByHashIndex ->
  pairs_ok (ents ++ [(sh, (k, v))]) rps' (pairs ++ [(GetSliceHash (ExtractUserKey k), len rps' - 1)]).
Proof.
  intros rps' [Hl Hp] Hlast Hr Hmax. rewrite last_lookup in Hlast. pose proof (lookup_lt_Some _ _ _ Hlast) as Hlen. split; [rewrite !length_app, Hl; simpl; lia|].
  intros i e [He|[Hi [Hi' <-]%list_lookup_singleton_Some]]%lookup_app_Some.
  - destruct (Hp _ _ He) as (z & r0 & Hz & Hzr & Hr0 & Hle & Hnext). apply lookup_lt_Some in He. exists z, r0. split_and!; [|lia|lia| |done|].
    + rewrite lookup_app_l by lia. done.
    + subst rps'. destruct restart; [|done]. rewrite lookup_app_l; [done|]. by apply lookup_lt_Some in Hr0.
    + intros r'. subst rps'. destruct restart; [|apply Hnext].
      intros [Hx|[Hx [_ <-]%list_lookup_singleton_Some]]%lookup_app_Some; [by apply Hnext|done].
  - exists (len rps' - 1), r. unfold zlen in *. split_and!; [|lia|lia| |lia|].
    + rewrite lookup_app_r by lia. replace (i - length pairs)%nat with 0%nat by lia. done.
    + rewrite <- Hlast. f_equal. lia.
    + intros r' Hx%lookup_lt_Some. lia.
Qed.

(** The last restart point is the largest. *)
Lemma Built_max b ents rps r j i : Built b ents rps -> last rps = Some r -> rps !! j = Some i -> (i <= r)%nat.
Proof.
  intros B Hlast Hj. rewrite last_lookup in Hlast. destruct (decide (j = pred (length rps))) as [->|]; [by simplify_eq|].
  pose proof (lookup_lt_Some _ _ _ Hj). apply Nat.lt_le_incl. exact (StronglySorted_lookup_lt _ _ j (pred (length rps)) _ _ (bu_inc _ _ _ B) ltac:(lia) Hj Hlast).
Qed.

(** What the next entry shares, it shares with the key before. *)
Lemma shared_prefix b ents rps (restart : bool) k :
  Built b ents rps ->
  let shared := if restart then 0%nat else if use_delta_encoding_ b then difference_offset k (bb_last_key_ b) else 0%nat in
  Z.of_nat shared <= len k /\ (shared = 0%nat \/ exists j prev, length ents = S j /\ ents !! j = Some prev /\
    (shared <= length prev.2.1)%nat /\ take shared prev.2.1 = take shared k).
Proof.
  intros B shared. unfold shared. pose proof (zlen_nonneg k). destruct restart; [split; [lia|by left]|]. destruct (use_delta_encoding_ b) eqn:Ed; [|split; [lia|by left]].
  rewrite (bu_last_key _ _ _ B Ed). destruct (difference_offset_shared k (default [] ((fun e : BlockEntry => e.2.1) <$> last ents))) as (H1 & H2 & H3).
  split; [unfold zlen; lia|]. rewrite last_lookup in *. destruct (ents !! pred (length ents)) as [prev|] eqn:Ep; simpl in *.
  - right. exists (pred (length ents)), prev. apply lookup_lt_Some in Ep as ?. split_and!; [lia|done|done|done].
  - left. simpl in H2. lia.
Qed.

(** The array of restart points goes on with the offset of the next entry. *)
Lemma restarts_pushed b ents rps (restart : bool) e :
  Built b ents rps ->
  (if restart then bb_restarts_ b ++ [wrap32 (len (bb_buffer_ b))] else bb_restarts_ b) =
  (fun i => wrap32 (entry_off (ents ++ [e]) i)) <$> (if restart then rps ++ [length ents] else rps).
Proof.
  intros B. destruct (bu_counter _ _ _ B) as (r & Hlast & Hr & _).
  assert ((fun i => wrap32 (entry_off (ents ++ [e]) i)) <$> rps = bb_restarts_ b) as <-.
  { rewrite (bu_restarts _ _ _ B). apply list_fmap_ext. intros j i Hj. rewrite entry_off_app; [done|]. pose proof (Built_max _ _ _ _ _ _ B Hlast Hj). lia. }
  destruct restart; [|done]. rewrite fmap_app. do 2 f_equal. simpl. rewrite entry_off_app by lia. unfold entry_off. rewrite take_ge by lia. by rewrite (bu_buffer _ _ _ B).
Qed.

(** A hash index needs the keys to be internal keys. *)
Lemma Built_Add b ents rps k v :
  Built b ents rps -> (hib_valid_ (bb_hash b) = true -> 8 <= len k) ->
  exists b' ents' rps', BB_Add k v None b = Some b' /\ Built b' ents' rps' /\ snd <$> ents' = (snd <$> ents) ++ [(k, v)] /\
    (hib_valid_ (bb_hash b') = true -> hib_valid_ (bb_hash b) = true).
Proof.
  intros B Hk. destruct (bu_counter _ _ _ B) as (r & Hlast & Hr & Hcnt & Hcnt'). pose proof (bu_interval _ _ _ B).
  remember (block_restart_interval_ b <=? bb_counter_ b) as restart eqn:Ere.
  set (shared := if restart then 0%nat else if use_delta_encoding_ b then difference_offset k (bb_last_key_ b) else 0%nat).
  set (rps' := if restart then rps ++ [length ents] else rps). set (ents' := ents ++ [(shared, (k, v))]).
  pose proof (fun j i => Built_max b ents rps r j i B Hlast) as Hmax.
  assert (restart = true -> (r < length ents)%nat) as Hrestart by (rewrite Ere; intros ?%Z.leb_le; lia).
  destruct (restarts_snoc ents rps restart (bu_inc _ _ _ B) (bu_first _ _ _ B)) as (Hinc & Hfirst & Hin).
  { intros j i Hj. specialize (Hmax _ _ Hj). lia. }
  { intros Hre j i Hj. specialize (Hmax _ _ Hj). specialize (Hrestart Hre). lia. }
  fold rps' in Hinc, Hfirst, Hin.
  assert (len rps' = len rps + (if restart then 1 else 0)) as Hlen' by (unfold rps'; destruct restart; rewrite ?zlen_app; unfold zlen; simpl; lia).
  assert (exists r', last rps' = Some r' /\ r' = if restart then length ents else r) as (r' & Hlast' & Hr').
  { unfold rps'. destruct restart; eexists; (split; [|done]); [by rewrite last_snoc|done]. }
  destruct (shared_prefix b ents rps restart k B) as [Hsh1 Hsh2]. fold shared in Hsh1, Hsh2.
  assert (entry_bytes (shared, (k, v)) = encode_entry false shared k v []) as Hent by done.
  assert (forall i e, ents' !! i = Some e -> ents !! i = Some e \/ i = length ents /\ e = (shared, (k, v))) as Hnew.
  { intros i e [He|[Hi [Hi' <-]%list_lookup_singleton_Some]]%lookup_app_Some; [by left|right; split; [lia|done]]. }
  unfold BB_Add. rewrite (bu_finished _ _ _ B), (bu_value_delta _ _ _ B), <- Ere. cbn [andb orb].
  destruct (Z.leb_spec (bb_counter_ b) (block_restart_interval_ b)); [|lia]. cbn [negb orb].
  assert (hib_valid_ (bb_hash b) && (len k <? 8) = false) as ->.
  { destruct (hib_valid_ (bb_hash b)); [|done]. simpl. apply Z.ltb_ge. by apply Hk. }
  pose proof (restarts_pushed b ents rps restart (shared, (k, v)) B) as Erest. fold ents' rps' in Erest.
  rewrite Erest. fold shared. eexists _, ents', rps'. split; [done|]. split; [|split].
  - split; simpl.
    + done.
    + done.
    + done.
    + unfold ents'. rewrite (bu_buffer _ _ _ B), fmap_app, concat_app. simpl. by rewrite app_nil_r.
    + done.
    + rewrite (bu_estimate _ _ _ B), zlen_app, Hlen'. destruct restart; lia.
    + exists r'. subst r'. unfold ents'. rewrite length_app. simpl. pose proof (Z.leb_spec (block_restart_interval_ b) (bb_counter_ b)) as Hc. rewrite <- Ere in Hc.
      destruct restart; inversion Hc; split_and!; done || lia.
    + intros ->. unfold ents'. by rewrite last_snoc.
    + done.
    + done.
    + intros j i Hj. right. unfold ents'. rewrite length_app. simpl. destruct (Hin _ _ Hj) as [Hj'|(_ & _ & ->)]; [|lia]. specialize (Hmax _ _ Hj'). lia.
    + intros j i e Hj He. destruct (Hnew _ _ He) as [He'|[-> ->]].
      * destruct (Hin _ _ Hj) as [Hj'|(_ & _ & ->)]; [by apply (bu_full _ _ _ B j i)|]. apply lookup_lt_Some in He'. lia.
      * simpl. destruct (Hin _ _ Hj) as [Hj'|(Hre & _)]; [|unfold shared; by rewrite Hre]. specialize (Hmax _ _ Hj').
        assert (r = length ents) as Hr0 by lia. destruct restart; [by rewrite Hr0 in Hrestart; specialize (Hrestart eq_refl); lia|].
        destruct Hsh2 as [?|(j' & prev & Hlen & _)]; [done|]. destruct (bu_in _ _ _ B _ _ Hj') as [->|]; [done|lia].
    + apply Forall_app. split; [apply (bu_size _ _ _ B)|]. by constructor.
    + intros i e He. destruct (Hnew _ _ He) as [He'|[-> ->]].
      * destruct (bu_shared _ _ _ B _ _ He') as [?|(j & prev & -> & Hp & ?)]; [by left|right]. exists j, prev. split; [done|]. split; [|done].
        unfold ents'. rewrite lookup_app_l; [done|]. by apply lookup_lt_Some in Hp.
      * simpl. destruct Hsh2 as [?|(j & prev & -> & Hp & ?)]; [by left|right]. exists j, prev. split; [done|]. split; [|done].
        unfold ents'. rewrite lookup_app_l; [done|]. by apply lookup_lt_Some in Hp.
    + destruct (hib_valid_ (bb_hash b)) eqn:Ev; [|by rewrite Ev]. unfold HIB_Add. rewrite zlen_fmap_len.
      destruct (Z.ltb_spec kMaxRestartSupportedByHashIndex (len rps' - 1)); [done|]. intros _.
      apply (pairs_ok_snoc ents rps _ restart shared k v r'); [by apply (bu_hash _ _ _ B)|done|subst r'; destruct restart; lia|done].
  - unfold ents'. by rewrite fmap_app.
  - simpl. by destruct (hib_valid_ (bb_hash b)) eqn:Ev; [|rewrite Ev].
Qed.

Definition BB_add_all b (recs : list (bytes * bytes)) : option BlockBuilder := fold_opt (fun b r => BB_Add r.1 r.2 None b) b recs.

Lemma Built_add_all b ents rps recs :
  Built b ents rps -> (hib_valid_ (bb_hash b) = true -> Forall (fun r => 8 <= len r.1) recs) ->
  exists b' ents' rps', BB_add_all b recs = Some b' /\ Built b' ents' rps' /\ snd <$> ents' = (snd <$> ents) ++ recs.
Proof.
  revert b ents rps. induction recs as [|[k v] recs IH]; intros b ents rps B Hk; simpl; [exists b, ents, rps; by rewrite app_nil_r|].
  destruct (Built_Add b ents rps k v B) as (b1 & ents1 & rps1 & Hadd & B1 & Hr1 & Hv1); [intros Hv; by specialize (Hk Hv); inversion Hk|].
  unfold BB_add_all. simpl. rewrite Hadd. cbn [mbind option_bind].
  destruct (IH b1 ents1 rps1 B1) as (b' & ents' & rps' & Hall & B' & Hr); [intros Hv; specialize (Hk (Hv1 Hv)); by inversion Hk|].
  exists b', ents', rps'. split_and!; [done|done|]. by rewrite Hr, Hr1, <- app_assoc.
Qed.

(** ** The finished block *)

Lemma foldl_PutFixed32 buf l : foldl PutFixed32 buf l = buf ++ concat (EncodeFixed32 <$> l).
Proof. revert buf. induction l as [|x l IH]; intros buf; simpl; [by rewrite app_nil_r|]. rewrite IH. unfold PutFixed32. by rewrite <- app_assoc. Qed.

Lemma fixed32s_len l : len (concat (EncodeFixed32 <$> l)) = 4 * len l.
Proof. induction l as [|x l IH]; [done|]. rewrite fmap_cons. cbn [concat]. rewrite zlen_app, IH, zlen_cons. unfold EncodeFixed32. rewrite zlen_le_split. lia. Qed.

Lemma fixed32s_read pre l post j x :
  l !! j = Some x -> mem_read (pre ++ concat (EncodeFixed32 <$> l) ++ post) (len pre + Z.of_nat j * 4) 4 = Some (EncodeFixed32 x).
Proof.
  intros Hj. rewrite <- (take_drop_middle _ _ _ Hj), fmap_app, concat_app, fmap_cons. cbn [concat]. rewrite <- !app_assoc.
  assert (len (concat (EncodeFixed32 <$> take j l)) = Z.of_nat j * 4) as Hl.
  { rewrite fixed32s_len. unfold zlen. rewrite length_take. apply lookup_lt_Some in Hj. lia. }
  rewrite mem_read_app_r by lia. rewrite <- Hl, <- (Z.add_0_r (len (concat _))), mem_read_app_r by lia.
  assert (len (EncodeFixed32 x) = 4) as H4 by (unfold EncodeFixed32; by rewrite zlen_le_split).
  rewrite <- H4, mem_read_app_l by lia. apply mem_read_all.
Qed.

(** A bucket has the interval of each key hashed to it, or marks a collision. *)
Definition buckets_ok (nb : Z) (buckets : list Z) (pairs : list (Z * Z)) : Prop :=
  len buckets = nb /\ Forall (fun x => x = kNoEntry \/ x = kCollision \/ exists h, (h, x) ∈ pairs) buckets /\
  forall h z, (h, z) ∈ pairs -> exists x, buckets !z wrap 16 (h mod nb) = Some x /\ (x = z \/ x = kCollision).

Lemma put_buckets nb pairs :
  0 < nb < 2 ^ 16 -> Forall (fun p => 0 <= p.2 <= kMaxRestartSupportedByHashIndex) pairs ->
  exists buckets, fold_opt (put_bucket nb) (replicate (Z.to_nat nb) kNoEntry) pairs = Some buckets /\ buckets_ok nb buckets pairs.
Proof.
  intros Hnb Hp. apply (fold_opt_ok (put_bucket nb) (fun pre bs => buckets_ok nb bs pre)).
  - split_and!; [unfold zlen; rewrite length_replicate; lia| |intros h z Hx; by apply elem_of_nil in Hx].
    apply Forall_replicate. by left.
  - intros pre [h z] bs Hpre (Hlen & Hrng & Hbs).
    assert (0 <= z <= kMaxRestartSupportedByHashIndex) as Hz.
    { rewrite Forall_forall in Hp. apply (Hp (h, z)). destruct Hpre as [k ->]. apply elem_of_app. left. apply elem_of_app. right. by apply list_elem_of_singleton. }
    unfold kMaxRestartSupportedByHashIndex in Hz. assert (wrap 16 (h mod nb) = h mod nb) as Hw by (apply wrap_id; pose proof (Z.mod_pos_bound h nb); lia).
    unfold put_bucket. rewrite Hw. pose proof (Z.mod_pos_bound h nb ltac:(lia)). destruct (zget_is_Some bs (h mod nb) ltac:(lia)) as [x Hx]. rewrite Hx. cbn [mbind option_bind].
    assert (Forall (fun x => x = kNoEntry \/ x = kCollision \/ exists h', (h', x) ∈ pre ++ [(h, z)]) bs) as Hrng'.
    { eapply Forall_impl; [exact Hrng|]. intros x0 [?|[?|[h' ?]]]; [by auto|by auto|]. right. right. exists h'. set_solver. }
    assert (forall y bs', bs' = <[Z.to_nat (h mod nb) := y]> bs -> (y = z \/ y = kCollision) -> (x = kNoEntry \/ y = kCollision) -> buckets_ok nb bs' (pre ++ [(h, z)])) as Hset.
    { intros y bs' -> Hyz Hxy. split_and!; [by rewrite zlen_insert|apply Forall_insert; [done|]; destruct Hyz as [->|]; [right; right; exists h; set_solver|by auto]|].
      intros h' z' [Hin|[= -> ->]%list_elem_of_singleton]%elem_of_app.
      - pose proof (Z.mod_pos_bound h' nb ltac:(lia)). destruct (Hbs _ _ Hin) as (x' & Hx' & Hxz). rewrite (wrap_id 16) in * by lia. rewrite zget_insert by lia.
        destruct (Z.eqb_spec (h mod nb) (h' mod nb)) as [E|]; [|by exists x']. exists y. split; [done|]. rewrite <- E in Hx'. simplify_eq.
        destruct Hxy as [->| ->]; [|by right]. destruct Hxz as [<-|]; [|done]. rewrite Forall_forall in Hp.
        destruct Hpre as [k ->]. specialize (Hp (h', kNoEntry) ltac:(apply elem_of_app; left; apply elem_of_app; by left)). unfold kNoEntry, kMaxRestartSupportedByHashIndex in Hp. simpl in Hp. lia.
      - rewrite Hw, zget_insert, Z.eqb_refl by lia. by exists y. }
    destruct (Z.eqb_spec x kNoEntry) as [->|Hne]; [|destruct (Z.eqb_spec x z) as [->|Hnz]]; cbn [negb].
    + rewrite zset_in_range by lia. eexists. split; [done|]. eapply Hset; [done|by left|by left].
    + eexists. split; [done|]. split_and!; [done|done|]. intros h' z' [Hin|[= -> ->]%list_elem_of_singleton]%elem_of_app; [by apply Hbs|]. rewrite Hw. exists z. auto.
    + rewrite zset_in_range by lia. eexists. split; [done|]. eapply Hset; [done|by right|by right].
Qed.

(** The footer is read back. *)
Lemma UnPack_Pack_footer ty num :
  0 <= num < 2 ^ 31 -> exists footer, PackIndexTypeAndNumRestarts ty num = Some footer /\ UnPackIndexTypeAndNumRestarts footer = (ty, num) /\ u32 footer.
Proof.
  intros Hn. unfold PackIndexTypeAndNumRestarts. replace (kMaxNumRestarts <? num) with false by (symmetry; apply Z.ltb_ge; change kMaxNumRestarts with (2 ^ 31 - 1); lia).
  assert (Z.land num (2 ^ 31) = 0) as H0.
  { apply Z.bits_inj'. intros n Hn0. rewrite Z.land_spec, Z.bits_0, Z.pow2_bits_eqb by lia. destruct (Z.eqb_spec 31 n) as [<-|]; [|apply andb_false_r].
    rewrite andb_true_r. apply Z.bits_above_log2; [lia|]. destruct (Z.eq_dec num 0) as [->|]; [done|]. apply Z.log2_lt_pow2; lia. }
  assert (Z.land num (Z.ones 31) = num) as H1 by (rewrite Z.land_ones by lia; apply Z.mod_small; lia).
  unfold UnPackIndexTypeAndNumRestarts. change kNumRestartsMask with (Z.ones 31). change (Z.shiftl 1 kDataBlockIndexTypeBitShift) with (2 ^ 31).
  eexists. split; [done|]. destruct ty.
  - rewrite H0, H1. split; [done|]. unfold u32. lia.
  - rewrite !Z.land_lor_distr_l, H0, H1, Z.land_diag. change (Z.land (2 ^ 31) (Z.ones 31)) with 0. rewrite Z.lor_0_r. split; [done|].
    assert (Z.lor num (2 ^ 31) = num + 2 ^ 31) as ->; [|unfold u32; lia].
    pose proof (Z.add_lor_land num (2 ^ 31)). lia.
Qed.

(** The block of [data], of these entries and restart points. *)
Definition block_of (data : bytes) (g nb : Z) ents rps : Block :=
  mkBlock data (len data) (entry_off ents (length ents)) (len rps) g nb.

Context (Hest : forall n, 0 <= est n < 2 ^ 16).

Lemma num_buckets_range hb : 0 < HIB_num_buckets est hb < 2 ^ 16.
Proof using Hest.
  unfold HIB_num_buckets. specialize (Hest (length (hash_and_restart_pairs_ hb))). set (n := est _) in *. split.
  - apply Z.le_neq. split; [apply Z.lor_nonneg; lia|]. intros H. symmetry in H. apply Z.lor_eq_0_iff in H. lia.
  - assert (0 <= Z.lor n 1) by (apply Z.lor_nonneg; lia). destruct (Z.eq_dec (Z.lor n 1) 0) as [->|]; [lia|].
    apply Z.log2_lt_pow2; [lia|]. rewrite Z.log2_lor by lia. simpl Z.log2 at 2. apply Z.max_lub_lt; [|lia].
    destruct (Z.eq_dec n 0) as [->|]; [simpl; lia|]. apply Z.log2_lt_pow2; lia.
Qed.

(** Where the bytes of the restart points end, the buckets or the footer follow. *)
Lemma Built_layout b ents rps tail :
  Built b ents rps -> Forall (fun r => len r.1 + len r.2 < 2 ^ 31) (snd <$> ents) -> len (bb_buffer_ b) + 4 * len rps < 2 ^ 31 ->
  BlockLayout (bb_buffer_ b ++ concat (EncodeFixed32 <$> bb_restarts_ b) ++ tail) (entry_off ents (length ents)) (len rps) ents rps.
Proof.
  intros B Hsz Hlen. pose proof (zlen_nonneg rps). pose proof (zlen_nonneg (bb_buffer_ b)).
  assert (entry_off ents (length ents) = len (bb_buffer_ b)) as Hoff by (unfold entry_off; rewrite take_ge by lia; by rewrite (bu_buffer _ _ _ B)).
  assert (forall j i, rps !! j = Some i -> (i <= length ents)%nat) as Hle.
  { intros j i Hj. destruct (bu_in _ _ _ B _ _ Hj) as [->|]; [|lia]. destruct (bu_counter _ _ _ B) as (r & Hlast & Hr & _).
    pose proof (Built_max _ _ _ _ _ _ B Hlast Hj). simpl in *. lia. }
  split.
  - eexists. by rewrite (bu_buffer _ _ _ B).
  - done.
  - lia.
  - apply Forall_lookup. intros i e He. split; [exact (Forall_lookup_1 _ _ _ _ (bu_size _ _ _ B) He)|].
    apply (Forall_lookup_1 _ _ i _ Hsz). by rewrite list_lookup_fmap, He.
  - apply (bu_shared _ _ _ B).
  - done.
  - lia.
  - apply (bu_first _ _ _ B).
  - apply (bu_inc _ _ _ B).
  - intros j i Hj. rewrite Hoff. rewrite (fixed32s_read _ _ _ j (wrap32 (entry_off ents i))).
    + rewrite (wrap_id 32); [done|]. pose proof (entry_off_le ents i). lia.
    + by rewrite (bu_restarts _ _ _ B), list_lookup_fmap, Hj.
  - intros j i Hj. split; [by apply (Hle j)|]. by apply (bu_in _ _ _ B j).
  - apply (bu_full _ _ _ B).
Qed.

Lemma mem_read_mid (pre l post : bytes) : mem_read (pre ++ l ++ post) (len pre) (len l) = Some l.
Proof.
  pose proof (zlen_nonneg l). rewrite <- (Z.add_0_r (len pre)), mem_read_app_r by lia. rewrite mem_read_app_l by lia. apply mem_read_all.
Qed.

Lemma DecodeFixed16_Encode v : 0 <= v < 2 ^ 16 -> DecodeFixed16 (EncodeFixed16 v) = v.
Proof.
  intros Hv. unfold DecodeFixed16, EncodeFixed16. rewrite take_ge by (by rewrite length_le_split). rewrite le_combine_split. apply Z.mod_small. simpl Z.of_nat. lia.
Qed.

Lemma footer_read pre footer : u32 footer -> 4 <= len pre -> block_footer (pre ++ EncodeFixed32 footer) (len (pre ++ EncodeFixed32 footer)) = Some footer.
Proof.
  intros Hf Hp. unfold block_footer. assert (len (EncodeFixed32 footer) = 4) as H4 by (unfold EncodeFixed32; by rewrite zlen_le_split).
  rewrite zlen_app, H4. destruct (Z.ltb_spec (len pre + 4) 8); [lia|]. replace (len pre + 4 - 4) with (len pre) by lia.
  pose proof (mem_read_mid pre (EncodeFixed32 footer) []) as Hr. rewrite app_nil_r, H4 in Hr. rewrite Hr. cbn [mbind option_bind]. f_equal.
  rewrite <- (app_nil_r (EncodeFixed32 _)). by apply DecodeFixed32_Encode.
Qed.

Lemma footer_types pre ty num footer :
  PackIndexTypeAndNumRestarts ty num = Some footer -> 0 <= num < 2 ^ 31 -> 4 <= len pre ->
  (ty = kDataBlockBinaryAndHash -> len pre + 4 <= kMaxBlockSizeSupportedByHashIndex) ->
  let data := pre ++ EncodeFixed32 footer in NumRestarts data (len data) = Some num /\ IndexType data (len data) = Some ty.
Proof.
  intros Hf Hn Hp Hty data. destruct (UnPack_Pack_footer ty num Hn) as (footer' & Hf' & Hun & Hu). rewrite Hf in Hf'. injection Hf' as <-.
  unfold NumRestarts, IndexType, data. rewrite (footer_read _ _ Hu Hp). cbn [mbind option_bind]. rewrite Hun.
  assert (len (pre ++ EncodeFixed32 footer) = len pre + 4) as -> by (rewrite zlen_app; unfold EncodeFixed32; by rewrite zlen_le_split).
  destruct (Z.ltb_spec kMaxBlockSizeSupportedByHashIndex (len pre + 4)); [|done]. destruct ty; [|specialize (Hty eq_refl); lia].
  unfold PackIndexTypeAndNumRestarts in Hf. destruct (_ <? _) in Hf; [done|]. by injection Hf as <-.
Qed.

Lemma Finish_plain b ents rps g :
  Built b ents rps -> Forall (fun r => len r.1 + len r.2 < 2 ^ 31) (snd <$> ents) -> bb_estimate_ b < 2 ^ 31 ->
  hib_valid_ (bb_hash b) && (CurrentSizeEstimate est b <=? kMaxBlockSizeSupportedByHashIndex) = false ->
  exists data, BB_Finish est b = Some data /\ Block_make data g = Some (block_of data g 0 ents rps) /\
    BlockLayout data (entry_off ents (length ents)) (len rps) ents rps /\ 8 <= len data.
Proof.
  intros B Hsz Hest' Hno. pose proof (bu_estimate _ _ _ B) as He. pose proof (zlen_nonneg (bb_buffer_ b)). pose proof (lookup_lt_Some _ _ _ (bu_first _ _ _ B)).
  assert (len (bb_restarts_ b) = len rps) as Hlr by (rewrite (bu_restarts _ _ _ B); by rewrite zlen_fmap_len).
  assert (1 <= len rps) by (unfold zlen; lia).
  destruct (UnPack_Pack_footer kDataBlockBinarySearch (len rps) ltac:(lia)) as (footer & Hf & _ & Hu).
  unfold BB_Finish. rewrite Hno, Hlr, (wrap_id 32) by lia. cbn [mbind option_bind]. rewrite Hf. cbn [mbind option_bind]. rewrite foldl_PutFixed32.
  unfold PutFixed32. eexists. split; [done|]. set (pre := bb_buffer_ b ++ _).
  assert (len pre = len (bb_buffer_ b) + 4 * len rps) as Hpre by (unfold pre; by rewrite zlen_app, fixed32s_len, Hlr).
  assert (len (pre ++ EncodeFixed32 footer) = len pre + 4) as Hld by (rewrite zlen_app; unfold EncodeFixed32; by rewrite zlen_le_split).
  assert (entry_off ents (length ents) = len (bb_buffer_ b)) as Hoff by (unfold entry_off; rewrite take_ge by lia; by rewrite (bu_buffer _ _ _ B)).
  split; [|split; [|lia]].
  - unfold Block_make. destruct (footer_types pre _ _ _ Hf ltac:(lia) ltac:(lia) ltac:(done)) as [Hnr Hit]. rewrite Hnr, Hit. rewrite Hld.
    destruct (Z.ltb_spec (len pre + 4) 4); [lia|]. cbn [mbind option_bind]. rewrite (wrap_id 32 (len pre + 4)), (wrap_id 32 (1 + len rps)) by lia.
    replace (len pre + 4 - (1 + len rps) * 4) with (len (bb_buffer_ b)) by lia. rewrite (wrap_id 32) by lia. destruct (Z.ltb_spec (len pre + 4 - 4) (len (bb_buffer_ b))); [lia|].
    unfold block_of. by rewrite Hld, Hoff.
  - unfold pre. rewrite <- app_assoc. apply Built_layout; [done|done|lia].
Qed.

(** The buckets of the hash index, in the block. *)
Definition has_buckets (data : bytes) (nb : Z) ents rps (pairs : list (Z * Z)) : Prop :=
  0 < nb < 2 ^ 16 /\ exists buckets, buckets_ok nb buckets pairs /\
    forall j x, buckets !z j = Some x -> data !z (entry_off ents (length ents) + len rps * 4 + j) = Some (byte.of_Z x).

Lemma Finish_hash b ents rps g :
  Built b ents rps -> Forall (fun r => len r.1 + len r.2 < 2 ^ 31) (snd <$> ents) ->
  hib_valid_ (bb_hash b) && (CurrentSizeEstimate est b <=? kMaxBlockSizeSupportedByHashIndex) = true ->
  exists data nb, BB_Finish est b = Some data /\ Block_make data g = Some (block_of data g nb ents rps) /\
    BlockLayout data (entry_off ents (length ents)) (len rps) ents rps /\ 8 <= len data /\
    pairs_ok ents rps (hash_and_restart_pairs_ (bb_hash b)) /\ has_buckets data nb ents rps (hash_and_restart_pairs_ (bb_hash b)).
Proof using Hest.
  intros B Hsz Hyes. apply andb_true_iff in Hyes as Hyes'. destruct Hyes' as [Hv Hcse%Z.leb_le]. unfold CurrentSizeEstimate, HIB_EstimateSize in Hcse. rewrite Hv in Hcse.
  pose proof (bu_hash _ _ _ B Hv) as Hpairs. set (nb := HIB_num_buckets est (bb_hash b)) in *. pose proof (num_buckets_range (bb_hash b)) as Hnb. fold nb in Hnb.
  pose proof (bu_estimate _ _ _ B) as He. pose proof (zlen_nonneg (bb_buffer_ b)). pose proof (lookup_lt_Some _ _ _ (bu_first _ _ _ B)).
  assert (len (bb_restarts_ b) = len rps) as Hlr by (rewrite (bu_restarts _ _ _ B); by rewrite zlen_fmap_len).
  assert (1 <= len rps) by (unfold zlen; lia). change kMaxBlockSizeSupportedByHashIndex with 65536 in Hcse.
  destruct (put_buckets nb (hash_and_restart_pairs_ (bb_hash b)) Hnb) as (buckets & Hb & Hbok).
  { apply Forall_lookup. intros i p Hp. destruct Hpairs as [Hl Hpairs]. destruct (lookup_lt_is_Some_2 ents i) as [e Hee]; [apply lookup_lt_Some in Hp; lia|].
    destruct (Hpairs _ _ Hee) as (z & r & Hz & ? & _). by simplify_eq/=. }
  pose proof Hbok as (Hblen & _). destruct (UnPack_Pack_footer kDataBlockBinaryAndHash (len rps) ltac:(lia)) as (footer & Hf & _ & Hu).
  assert (entry_off ents (length ents) = len (bb_buffer_ b)) as Hoff by (unfold entry_off; rewrite take_ge by lia; by rewrite (bu_buffer _ _ _ B)).
  set (RB := concat (EncodeFixed32 <$> bb_restarts_ b)). assert (len RB = 4 * len rps) as HRB by (unfold RB; by rewrite fixed32s_len, Hlr).
  set (BB := byte.of_Z <$> buckets). assert (len BB = nb) as HBB by (unfold BB; by rewrite zlen_fmap_len).
  assert (forall x, len (EncodeFixed16 x) = 2) as H16 by (intros x; unfold EncodeFixed16; by rewrite zlen_le_split).
  set (pre := bb_buffer_ b ++ RB ++ BB ++ EncodeFixed16 nb).
  assert (len pre = len (bb_buffer_ b) + 4 * len rps + nb + 2) as Hpre by (unfold pre; rewrite !zlen_app, H16; lia).
  assert (HIB_Finish est (bb_hash b) (bb_buffer_ b ++ RB) = Some pre) as Hfin.
  { unfold HIB_Finish. fold nb. rewrite Hb. cbn [mbind option_bind]. fold BB. unfold PutFixed16. rewrite <- !app_assoc. fold pre.
    change kMaxBlockSizeSupportedByHashIndex with 65536. destruct (Z.leb_spec (len pre) 65536); [done|lia]. }
  unfold BB_Finish. rewrite Hyes, Hlr, (wrap_id 32) by lia. rewrite foldl_PutFixed32. fold RB. rewrite Hfin. cbn [mbind option_bind]. rewrite Hf. cbn [mbind option_bind].
  unfold PutFixed32. exists (pre ++ EncodeFixed32 footer), nb.
  assert (len (pre ++ EncodeFixed32 footer) = len pre + 4) as Hld by (rewrite zlen_app; unfold EncodeFixed32; by rewrite zlen_le_split).
  split_and!; [done| | |lia|done|split; [lia|]].
  - unfold Block_make. destruct (footer_types pre _ _ _ Hf ltac:(lia) ltac:(lia)) as [Hnr Hit]; [intros _; change kMaxBlockSizeSupportedByHashIndex with 65536; lia|]. rewrite Hnr, Hit, Hld.
    destruct (Z.ltb_spec (len pre + 4) 4); [lia|]. cbn [mbind option_bind]. destruct (Z.ltb_spec (len pre + 4) (4 + 2)); [lia|].
    unfold HashIndex_Initialize. rewrite (wrap_id 16) by lia. replace (len pre + 4 - 4) with (len pre) by lia. destruct (Z.ltb_spec (len pre) 2); [lia|].
    assert (mem_read (pre ++ EncodeFixed32 footer) (len pre - 2) 2 = Some (EncodeFixed16 nb)) as Hm.
    { replace (len pre - 2) with (len (bb_buffer_ b ++ RB ++ BB)) by (rewrite !zlen_app; lia). unfold pre.
      replace ((bb_buffer_ b ++ RB ++ BB ++ EncodeFixed16 nb) ++ EncodeFixed32 footer) with ((bb_buffer_ b ++ RB ++ BB) ++ EncodeFixed16 nb ++ EncodeFixed32 footer) by (by rewrite <- !app_assoc).
      rewrite <- (H16 nb). apply mem_read_mid. }
    rewrite Hm. cbn [mbind option_bind]. assert (DecodeFixed16 (EncodeFixed16 nb) = nb) as -> by (apply DecodeFixed16_Encode; lia).
    destruct (Z.ltb_spec 0 nb); [|lia]. destruct (Z.ltb_spec nb (len pre)); [|lia]. cbn [negb orb mbind option_bind].
    rewrite (wrap_id 16) by lia. rewrite (wrap_id 32) by lia. replace (len pre - 2 - nb - len rps * 4) with (len (bb_buffer_ b)) by lia.
    destruct (Z.ltb_spec (len pre - 2 - nb) (len (bb_buffer_ b))); [lia|]. unfold block_of. by rewrite Hld, Hoff.
  - unfold pre. rewrite <- !app_assoc. apply Built_layout; [done|done|lia].
  - exists buckets. split; [done|]. intros j x Hj. pose proof (zget_range _ _ _ Hj).
    replace (pre ++ EncodeFixed32 footer) with ((bb_buffer_ b ++ RB) ++ BB ++ EncodeFixed16 nb ++ EncodeFixed32 footer) by (unfold pre; by rewrite <- !app_assoc).
    replace (entry_off ents (length ents) + len rps * 4 + j) with (len (bb_buffer_ b ++ RB) + j) by (rewrite zlen_app; lia). rewrite zget_app_len by lia.
    apply zget_Some in Hj as [Hj0 Hj]. apply zget_Some. split; [done|]. apply lookup_app_l_Some. unfold BB. by rewrite list_lookup_fmap, Hj.
Qed.
End Build.

(** ** The iterator as a cursor *)

Inductive IterOp := OpSeekToFirst | OpSeekToLast | OpSeek (target : bytes) | OpSeekForPrev (target : bytes) | OpNext | OpPrev.

Definition iter_step {S} (it : InternalIterator S) (s : S) (op : IterOp) : option S :=
  match op with
  | OpSeekToFirst => it_SeekToFirst it s
  | OpSeekToLast => it_SeekToLast it s
  | OpSeek t => it_Seek it t s
  | OpSeekForPrev t => it_SeekForPrev it t s
  | OpNext => it_Next it s
  | OpPrev => it_Prev it s
  end.

(** The position of the first record that satisfies [f], or the end. *)
Fixpoint find_first (f : bytes * bytes -> bool) (recs : list (bytes * bytes)) : Z :=
  match recs with
  | [] => 0
  | r :: recs => if f r then 0 else 1 + find_first f recs
  end.

(** The cursor over sorted records; [Next] and [Prev] are for a cursor on a record. *)
Definition cursor_step (icmp : Comparator) (recs : list (bytes * bytes)) (p : Z) (op : IterOp) : option Z :=
  match op with
  | OpSeekToFirst => Some 0
  | OpSeekToLast => Some (len recs - 1)
  | OpSeek t => Some (find_first (fun r => 0 <=? Compare icmp r.1 t) recs)
  | OpSeekForPrev t => Some (find_first (fun r => 0 <? Compare icmp r.1 t) recs - 1)
  | OpNext => if (0 <=? p) && (p <? len recs) then Some (p + 1) else None
  | OpPrev => if (0 <=? p) && (p <? len recs) then Some (p - 1) else None
  end.

Lemma find_first_spec f recs :
  0 <= find_first f recs <= len recs /\ (forall j r, recs !z j = Some r -> j < find_first f recs -> f r = false) /\
  (forall r, recs !z find_first f recs = Some r -> f r = true).
Proof.
  induction recs as [|r recs (Hr & Hb & Ha)].
  { split_and!; [done|done| |]; intros *; simpl; intros Hx%zget_range; unfold zlen in Hx; simpl in Hx; lia. }
  simpl. rewrite zlen_cons. pose proof (zlen_nonneg recs). destruct (f r) eqn:E; (split; [lia|]); split.
  - intros j r' [? _]%zget_Some. lia.
  - intros r' [= <-]. done.
  - intros j r' Hj Hlt. pose proof (zget_range _ _ _ Hj). rewrite zget_cons in Hj by lia. destruct (Z.eqb_spec j 0); [congruence|]. apply (Hb (j - 1)); [done|lia].
  - intros r' Hj. rewrite zget_cons in Hj by lia. destruct (Z.eqb_spec (1 + find_first f recs) 0); [lia|].
    apply Ha. by replace (1 + find_first f recs - 1) with (find_first f recs) in Hj by lia.
Qed.

Section Cursor.
Context {S : Type} (icmp : Comparator) {Laws : ComparatorLaws icmp} (it : InternalIterator S) (over : S -> list (bytes * bytes) -> Z -> Prop).
Context `{!ScanLaws icmp it over, !SeekLaw icmp it over, !ReverseLaws icmp it over, !SeekForPrevLaw icmp it over}.

Lemma find_first_from recs t : first_from icmp recs t (find_first (fun r => 0 <=? Compare icmp r.1 t) recs).
Proof.
  destruct (find_first_spec (fun r => 0 <=? Compare icmp r.1 t) recs) as (Hr & Hb & Ha). split_and!; [lia|lia| |].
  - intros j r Hj Hlt. specialize (Hb _ _ Hj Hlt). apply Z.leb_gt in Hb. lia.
  - intros r Hj. by apply Z.leb_le, Ha.
Qed.

Lemma last_upto_find recs t q :
  recs_sorted icmp recs -> last_upto icmp recs t q -> q = find_first (fun r => 0 <? Compare icmp r.1 t) recs - 1.
Proof using Laws.
  intros Hs (Hq & Hqa & Hqb). destruct (find_first_spec (fun r => 0 <? Compare icmp r.1 t) recs) as (Hr & Hb & Ha).
  set (p := find_first _ recs) in *. destruct (Z.lt_trichotomy q (p - 1)) as [H|[H|H]]; [|done|]; exfalso.
  - destruct (zget_is_Some recs (p - 1) ltac:(lia)) as [r Hr']. pose proof (Hqa _ _ Hr' H). specialize (Hb _ _ Hr' ltac:(lia)). apply Z.ltb_ge in Hb. lia.
  - destruct (zget_is_Some recs p ltac:(lia)) as [r Hr']. specialize (Ha _ Hr'). apply Z.ltb_lt in Ha.
    destruct (zget_is_Some recs q ltac:(lia)) as [r2 Hr2]. specialize (Hqb _ Hr2).
    pose proof (recs_sorted_le icmp recs p q _ _ Hs Hr' Hr2 ltac:(lia)) as Hle. pose proof (cmp_trans (c := icmp) _ _ _ Hle Hqb). lia.
Qed.

(** Whatever the cursor does, the iterator does. *)
Lemma iter_step_cursor s recs p op p' :
  over s recs p -> cursor_step icmp recs p op = Some p' -> exists s', iter_step it s op = Some s' /\ over s' recs p'.
Proof using All.
  intros Ho. pose proof (sc_sorted _ _ _ Ho) as Hs. destruct op as [| |t|t| |]; simpl.
  - intros [= <-]. by apply (sc_first s recs p).
  - intros [= <-]. by apply (rl_last s recs p).
  - intros [= <-]. destruct (sc_seek s recs p t Ho) as (s' & q & -> & Ho' & Hf). exists s'. split; [done|].
    by rewrite (first_from_unique icmp recs t _ q Hs (find_first_from recs t) Hf).
  - intros [= <-]. destruct (sl_prev s recs p t Ho) as (s' & q & -> & Ho' & Hl). exists s'. split; [done|]. by rewrite <- (last_upto_find recs t q Hs Hl).
  - destruct (Z.leb_spec 0 p), (Z.ltb_spec p (len recs)); try done. intros [= <-]. by apply sc_next.
  - destruct (Z.leb_spec 0 p), (Z.ltb_spec p (len recs)); try done. intros [= <-]. by apply rl_prev.
Qed.

Lemma iter_steps_cursor s recs p ops p' :
  over s recs p -> fold_opt (cursor_step icmp recs) p ops = Some p' -> exists s', fold_opt (iter_step it) s ops = Some s' /\ over s' recs p'.
Proof using All.
  revert s p. induction ops as [|op ops IH]; intros s p Ho; simpl; [intros [= <-]; by exists s|].
  destruct (cursor_step icmp recs p op) as [p1|] eqn:E; [|done]. simpl. destruct (iter_step_cursor _ _ _ _ _ Ho E) as (s1 & -> & Ho1). simpl. by apply IH.
Qed.
End Cursor.

(** What the iterator shows. *)
Definition iter_shows {S} (it : InternalIterator S) (s : S) (recs : list (bytes * bytes)) (p : Z) : Prop :=
  it_status it s = Status_OK /\ it_Valid it s = bool_decide (0 <= p < len recs) /\
  forall k v, recs !z p = Some (k, v) -> it_key it s = Some k /\ it_value it s = Some v.

Lemma over_shows {S} (icmp : Comparator) (it : InternalIterator S) (over : S -> list (bytes * bytes) -> Z -> Prop) `{!ScanLaws icmp it over} s recs p :
  over s recs p -> iter_shows it s recs p.
Proof. intros Ho. split_and!; [exact (sc_status _ _ _ Ho)|exact (sc_valid _ _ _ Ho)|]. intros k v. apply (sc_key _ _ _ _ _ Ho). Qed.

Lemma New_of data nb ents rps :
  BlockLayout data (entry_off ents (length ents)) (len rps) ents rps -> 8 <= len data ->
  let it := NewDataIterator (block_of data kDisableGlobalSequenceNumber nb ents rps) in
  di_of data (entry_off ents (length ents)) (len rps) it /\ di_cache_ok ents it /\ di_status_ it = Status_OK /\ di_num_buckets_ it = nb.
Proof.
  intros HL H8. pose proof (num_pos _ _ _ _ _ HL). unfold NewDataIterator, block_of. simpl.
  destruct (Z.ltb_spec (len data) 8); [lia|]. destruct (Z.eqb_spec (len rps) 0); [lia|]. split_and!; try done.
  split; [unfold zlen; simpl; lia|]. exists 0%nat. intros j c. simpl. by rewrite lookup_nil.
Qed.

Lemma New_over icmp data nb ents rps :
  BlockLayout data (entry_off ents (length ents)) (len rps) ents rps -> recs_sorted icmp (snd <$> ents) -> 8 <= len data ->
  block_over icmp (NewDataIterator (block_of data kDisableGlobalSequenceNumber nb ents rps)) (snd <$> ents) (len (snd <$> ents)).
Proof.
  intros HL Hs H8. destruct (New_of data nb ents rps HL H8) as (Hi & Hc & Hst & _). pose proof (num_pos _ _ _ _ _ HL).
  exists data, (entry_off ents (length ents)), (len rps), ents, rps. split_and!; try done. right. split; [by right|].
  unfold NewDataIterator, block_of. simpl. destruct (Z.ltb_spec (len data) 8); [lia|]. by destruct (Z.eqb_spec (len rps) 0); [lia|].
Qed.

(** The builder takes the records, and the block of what it wrote has them. *)
Lemma build_block est interval delta ty recs :
  (forall n, 0 <= est n < 2 ^ 16) -> 1 <= interval -> Forall (fun r => 8 <= len r.1 /\ len r.1 + len r.2 < 2 ^ 31) recs ->
  exists b0 b ents rps, BlockBuilder_make interval delta false ty = Some b0 /\ BB_add_all b0 recs = Some b /\ recs = snd <$> ents /\
  (CurrentSizeEstimate est b < 2 ^ 31 -> forall g, exists data nb, BB_Finish est b = Some data /\ Block_make data g = Some (block_of data g nb ents rps) /\
    BlockLayout data (entry_off ents (length ents)) (len rps) ents rps /\ 8 <= len data /\
    (nb = 0 \/ exists pairs, pairs_ok ents rps pairs /\ has_buckets data nb ents rps pairs /\ entry_off ents (length ents) + len rps * 4 < 2 ^ 32)).
Proof.
  intros Hest Hint Hsz.
  assert (exists b0, BlockBuilder_make interval delta false ty = Some b0) as [b0 Hb0] by (unfold BlockBuilder_make; destruct (Z.ltb_spec interval 1); [lia|eauto]).
  destruct (Built_add_all b0 [] [0%nat] recs (Built_make _ _ _ _ Hb0)) as (b & ents & rps & Hall & B & Hrecs).
  { intros _. eapply Forall_impl; [exact Hsz|]. naive_solver. }
  simpl in Hrecs. subst recs. exists b0, b, ents, rps. split_and!; [done..|]. intros Hcse g.
  assert (Forall (fun r => len r.1 + len r.2 < 2 ^ 31) (snd <$> ents)) as Hsz' by (eapply Forall_impl; [exact Hsz|]; naive_solver).
  assert (bb_estimate_ b < 2 ^ 31) as He.
  { unfold CurrentSizeEstimate, HIB_EstimateSize in Hcse. pose proof (num_buckets_range est Hest (bb_hash b)). destruct (hib_valid_ (bb_hash b)); lia. }
  destruct (hib_valid_ (bb_hash b) && (CurrentSizeEstimate est b <=? kMaxBlockSizeSupportedByHashIndex)) eqn:E.
  - destruct (Finish_hash est Hest b ents rps g B Hsz' E) as (data & nb & ? & ? & HL & ? & ? & ?). exists data, nb. split_and!; [done..|]. right. eexists. split_and!; [done..|].
    pose proof (bu_estimate _ _ _ B) as Hb. pose proof (ly_restarts _ _ _ _ _ HL). pose proof (bu_buffer _ _ _ B) as Hbuf.
    assert (entry_off ents (length ents) = len (bb_buffer_ b)) by (unfold entry_off; rewrite take_ge by lia; by rewrite Hbuf). lia.
  - destruct (Finish_plain est b ents rps g B Hsz' He E) as (data & ? & ? & ? & ?). exists data, 0. split_and!; [done..|]. by left.
Qed.

(** C19. A block iterator is a cursor over the records that were added to the block: for every restart interval, with and without
    key compression and hash index, the builder takes the records, and on the finished block every sequence of positionings and
    steps, forward and backward, that is legal for a cursor over the sorted records succeeds and shows what the cursor stands on. *)
Theorem block_iterator_refines_cursor (est : nat -> Z) (icmp : Comparator) {Laws : ComparatorLaws icmp} interval delta ty recs :
  (forall n, 0 <= est n < 2 ^ 16) -> 1 <= interval -> recs_sorted icmp recs ->
  Forall (fun r => 8 <= len r.1 /\ len r.1 + len r.2 < 2 ^ 31) recs ->
  exists b0 b, BlockBuilder_make interval delta false ty = Some b0 /\ BB_add_all b0 recs = Some b /\
  (CurrentSizeEstimate est b < 2 ^ 31 ->
   exists data blk, BB_Finish est b = Some data /\ Block_make data kDisableGlobalSequenceNumber = Some blk /\
   forall ops p, fold_opt (cursor_step icmp recs) (len recs) ops = Some p ->
   exists it, fold_opt (iter_step (DataBlockIter_ops icmp)) (NewDataIterator blk) ops = Some it /\ iter_shows (DataBlockIter_ops icmp) it recs p).
Proof.
  intros Hest Hint Hs Hsz. destruct (build_block est interval delta ty recs Hest Hint Hsz) as (b0 & b & ents & rps & Hb0 & Hall & -> & Hfin).
  exists b0, b. split_and!; [done..|]. intros Hcse. destruct (Hfin Hcse kDisableGlobalSequenceNumber) as (data & nb & Hd & Hblk & HL & H8 & _).
  exists data. eexists. split_and!; [done..|]. intros ops p Hops.
  destruct (iter_steps_cursor icmp (DataBlockIter_ops icmp) (block_over icmp) _ _ _ _ _ (New_over icmp data nb ents rps HL Hs H8) Hops) as (it & -> & Ho).
  exists it. split; [done|]. exact (over_shows _ _ _ _ _ _ Ho).
Qed.

(** Three records of two restart intervals. *)
Definition example_recs : list (bytes * bytes) :=
  (fun u => (AppendInternalKeyFooter u 7 kTypeValue, u)) <$> [[Byte.x61]; [Byte.x61; Byte.x62]; [Byte.x63]].

Lemma example_sorted : recs_sorted (InternalKeyComparator BytewiseComparator) example_recs.
Proof. repeat constructor. Qed.

Lemma example_sizes : Forall (fun r => 8 <= len r.1 /\ len r.1 + len r.2 < 2 ^ 31) example_recs.
Proof. repeat constructor; vm_compute; congruence. Qed.

Lemma example_est n : 0 <= Z.of_nat n mod 2 ^ 16 < 2 ^ 16.
Proof. apply Z.mod_pos_bound. lia. Qed.

Lemma block_iterator_refines_cursor_witness :
  exists b0 b, BlockBuilder_make 2 true false kDataBlockBinaryAndHash = Some b0 /\ BB_add_all b0 example_recs = Some b /\
  (CurrentSizeEstimate (fun n => Z.of_nat n mod 2 ^ 16) b < 2 ^ 31 ->
   exists data blk, BB_Finish (fun n => Z.of_nat n mod 2 ^ 16) b = Some data /\ Block_make data kDisableGlobalSequenceNumber = Some blk /\
   forall ops p, fold_opt (cursor_step (InternalKeyComparator BytewiseComparator) example_recs) (len example_recs) ops = Some p ->
   exists it, fold_opt (iter_step (DataBlockIter_ops (InternalKeyComparator BytewiseComparator))) (NewDataIterator blk) ops = Some it /\
     iter_shows (DataBlockIter_ops (InternalKeyComparator BytewiseComparator)) it example_recs p).
Proof.
  apply (block_iterator_refines_cursor (fun n => Z.of_nat n mod 2 ^ 16) (InternalKeyComparator BytewiseComparator) 2 true kDataBlockBinaryAndHash example_recs).
  - exact example_est.
  - lia.
  - exact example_sorted.
  - exact example_sizes.
Defined.

(** ** Global sequence numbers *)

(** Keys of an ingested file, with sequence number 0; the second shares a byte of the first one's trailer. *)
Definition ingested_recs : list (bytes * bytes) :=
  (fun u => (AppendInternalKeyFooter u 0 kTypeValue, u)) <$> [[Byte.x61]; [Byte.x61; Byte.x01; Byte.x00]].

(** With a global sequence number the iterator can return a key that is not in the block: [ParseNextDataKey] writes the sequence
    number into [key_], and the next entry takes its shared prefix from there.  After the user key 61, the user key 61 01 00 is
    read as 61 01 05 under the global sequence number 5. *)
Theorem global_seqno_misreads_key (est : nat -> Z) :
  exists b0 b data blk it, BlockBuilder_make 16 true false kDataBlockBinarySearch = Some b0 /\ BB_add_all b0 ingested_recs = Some b /\
  BB_Finish est b = Some data /\ Block_make data 5 = Some blk /\ (it ← di_SeekToFirst (NewDataIterator blk); di_Next it) = Some it /\
  di_Valid it = true /\ di_status_ it = Status_OK /\ di_key it = Some (AppendInternalKeyFooter [Byte.x61; Byte.x01; Byte.x05] 5 kTypeValue).
Proof. do 5 eexists. do 4 (split; [vm_compute; reflexivity|]). split; [vm_compute; reflexivity|]. by vm_compute. Qed.
