(* ===== verification/BlockGet.v ===== *)
(** * Point lookups in a block (table/block.cc, table/data_block_hash_index.cc)

    [SeekForGet] through the hash index: it looks in one restart interval, and finds what
    [Seek] would find for the user key of the target. *)

From S2P Require Import Prelude Coding Comparator DbFormat VersionEdit NvmAlloc SstableMeta L0Table Iterator Bloom BlockBuilder Block BlockScan BlockRoundtrip.

Section Get.
Context (ucmp : Comparator) {ULaws : ComparatorLaws ucmp} (Hinj : forall a b, Compare ucmp a b = 0 -> a = b).
Abbreviation icmp := (InternalKeyComparator ucmp).
Abbreviation user e := (ExtractUserKey e.2.1) (only parsing).
Context (data : bytes) (restarts num : Z) (ents : list BlockEntry) (rps : list nat) (L : BlockLayout data restarts num ents rps).
Context (nb : Z) (pairs : list (Z * Z)).
Context (Hpairs : pairs_ok ents rps pairs) (Hbuckets : has_buckets data nb ents rps pairs) (Hsorted : recs_sorted icmp (snd <$> ents)).
Implicit Types (it : DataBlockIter).

(** The interval of a restart point. *)
Definition interval_end (z : Z) : nat := default (length ents) (rps !! S (Z.to_nat z)).

Lemma rps_le j i : rps !! j = Some i -> (i <= length ents)%nat.
Proof using L. intros Hj. apply (ly_in _ _ _ _ _ L _ _ Hj). Qed.

Lemma interval_range z i : rps !! Z.to_nat z = Some i -> (i <= interval_end z <= length ents)%nat.
Proof using L.
  intros Hi. unfold interval_end. pose proof (rps_le _ _ Hi). destruct (rps !! S (Z.to_nat z)) as [r|] eqn:E; simpl; [|lia].
  pose proof (rps_le _ _ E). pose proof (StronglySorted_lookup_lt _ _ _ _ _ _ (ly_inc _ _ _ _ _ L) (Nat.lt_succ_diag_r (Z.to_nat z)) Hi E). simpl in *. lia.
Qed.

(** The last interval has a number a byte holds. *)
Lemma num_small : num - 1 <= kMaxRestartSupportedByHashIndex.
Proof using L Hpairs.
  pose proof (num_pos _ _ _ _ _ L) as Hn. pose proof (ly_num _ _ _ _ _ L) as Hnum. pose proof (ly_first _ _ _ _ _ L) as H0.
  destruct (lookup_lt_is_Some_2 rps (Z.to_nat (num - 1))) as [r Hr]; [unfold zlen in Hnum; lia|].
  destruct (decide (num = 1)) as [->|]; [done|].
  pose proof (StronglySorted_lookup_lt _ _ 0 (Z.to_nat (num - 1)) _ _ (ly_inc _ _ _ _ _ L) ltac:(lia) H0 Hr) as Hpos. simpl in Hpos.
  destruct (ly_in _ _ _ _ _ L _ _ Hr) as [Hle Hin]. assert (r < length ents)%nat as Hlt by (destruct Hin as [E|]; [rewrite E in Hle; simpl in Hle; lia|done]).
  destruct (lookup_lt_is_Some_2 ents r Hlt) as [e He]. destruct (proj2 Hpairs _ _ He) as (z & r0 & _ & Hz & Hr0 & Hle0 & Hnext).
  destruct (Z.le_gt_cases (num - 1) z) as [|Hgt]; [lia|]. exfalso.
  destruct (lookup_lt_is_Some_2 rps (S (Z.to_nat z))) as [r1 Hr1]; [unfold zlen in Hnum; lia|]. specialize (Hnext _ Hr1).
  destruct (decide (S (Z.to_nat z) = Z.to_nat (num - 1))) as [E|]; [rewrite E in Hr1; simplify_eq; lia|].
  pose proof (StronglySorted_lookup_lt _ _ (S (Z.to_nat z)) (Z.to_nat (num - 1)) _ _ (ly_inc _ _ _ _ _ L) ltac:(lia) Hr1 Hr). simpl in *. lia.
Qed.

(** What the bucket of a key holds. *)
Lemma lookup_bucket key :
  exists x, HashIndex_Lookup data (restarts + num * 4) nb key = Some x /\
    (x = kNoEntry \/ x = kCollision \/ 0 <= x < num /\ x <= kMaxRestartSupportedByHashIndex) /\
    forall i e, ents !! i = Some e -> user e = key -> x = kCollision \/ exists r, 0 <= x <= kMaxRestartSupportedByHashIndex /\ rps !! Z.to_nat x = Some r /\ (r <= i < interval_end x)%nat.
Proof using L Hpairs Hbuckets.
  destruct Hbuckets as (Hnb & buckets & (Hlen & Hvals & Hb) & Hdata). set (idx := GetSliceHash key mod nb).
  assert (0 <= idx < nb) as Hidx by (apply Z.mod_pos_bound; lia). destruct (zget_is_Some buckets idx ltac:(lia)) as [x Hx]. exists x.
  assert (x = kNoEntry \/ x = kCollision \/ 0 <= x < num /\ x <= kMaxRestartSupportedByHashIndex) as Hcases.
  { apply zget_Some in Hx as [_ Hx]. destruct (Forall_lookup_1 _ _ _ _ Hvals Hx) as [|[|[h [i Hi]%list_elem_of_lookup]]]; [by left|by right; left|right; right].
    destruct (lookup_lt_is_Some_2 ents i) as [e He]; [destruct Hpairs as [<- _]; by apply lookup_lt_Some in Hi|].
    destruct (proj2 Hpairs _ _ He) as (z & r & Hz & Hr & Hr' & _). simplify_eq. apply lookup_lt_Some in Hr'. rewrite (ly_num _ _ _ _ _ L). unfold zlen. lia. }
  split_and!; [|done|].
  - unfold HashIndex_Lookup. destruct (Z.eqb_spec nb 0); [lia|]. fold idx. rewrite (wrap_id 16) by lia.
    rewrite (ly_restarts _ _ _ _ _ L), (ly_num _ _ _ _ _ L), (Hdata _ _ Hx). cbn [mbind option_bind]. rewrite byte.unsigned_of_Z. unfold byte.wrap. f_equal. apply Z.mod_small.
    unfold kNoEntry, kCollision, kMaxRestartSupportedByHashIndex in Hcases. lia.
  - intros i e He Hk. destruct (proj2 Hpairs _ _ He) as (z & r & Hz & Hr & Hr' & Hle & Hnext). rewrite Hk in Hz.
    destruct (Hb _ _ (list_elem_of_lookup_2 _ _ _ Hz)) as (x' & Hx' & Hxz). fold idx in Hx'. rewrite (wrap_id 16) in Hx' by lia. rewrite Hx in Hx'. injection Hx' as <-.
    destruct Hxz as [->|]; [|by left]. right. exists r. split_and!; [lia|lia|done|done|]. unfold interval_end.
    destruct (rps !! S (Z.to_nat z)) as [r'|] eqn:E; simpl; [by apply Hnext|by apply lookup_lt_Some in He].
Qed.

(** The search of one interval finds an entry of it that is at or past the target and has no such entry before it. *)
Lemma linear_seek_interval it z i t q :
  di_of data restarts num it -> 0 <= z < num -> rps !! Z.to_nat z = Some i -> first_from icmp (snd <$> ents) t q ->
  exists it1 limit it2, SeekToRestartPoint z it = Some it1 /\
    (if z + 1 <? num then GetRestartPoint it1 (z + 1) else Some restarts) = Some limit /\
    linear_seek icmp (entry_fuel it1) (Some limit) t it1 = Some it2 /\ moved it it2 /\ di_num_restarts_ it1 = num /\ di_restarts_ it1 = restarts /\
    ((exists j, at_entry num ents it2 j /\ key_from ents icmp t j /\ q <= Z.of_nat j /\ ((Z.of_nat i <= q) -> q = Z.of_nat j)) \/
     (past_end restarts it2 /\ ~ (Z.of_nat i <= q < Z.of_nat (interval_end z)))).
Proof using L.
  intros Hi Hz Hr (Hq & Hqb & Hqa). destruct (SeekToRestartPoint_ok _ _ _ _ _ L it z Hi Hz) as (i' & it1 & Hr' & Hseek & Hm1 & Hb1 & _). simplify_eq.
  pose proof (moved_of _ _ _ _ _ Hm1 Hi) as Hi1. pose proof (interval_range z i Hr) as Hint. pose proof Hi1 as (_ & Hrs & Hn & _).
  assert ((if z + 1 <? num then GetRestartPoint it1 (z + 1) else Some restarts) = Some (entry_off ents (interval_end z))) as Hlim.
  { unfold interval_end. destruct (Z.ltb_spec (z + 1) num).
    - destruct (GetRestartPoint_range _ _ _ _ _ L it1 (z + 1) Hi1 ltac:(lia)) as (i2 & Hr2 & ->). replace (S (Z.to_nat z)) with (Z.to_nat (z + 1)) by lia. by rewrite Hr2.
    - rewrite lookup_ge_None_2; [simpl; by rewrite <- (ly_restarts _ _ _ _ _ L)|]. pose proof (ly_num _ _ _ _ _ L) as Hnum. unfold zlen in Hnum. lia. }
  pose proof (di_fuel _ _ _ _ _ L _ Hi1).
  destruct (linear_seek_ok _ _ _ _ _ L icmp (entry_fuel it1) (Some (entry_off ents (interval_end z))) t it1 i (interval_end z) Hi1 Hb1 Hint eq_refl ltac:(lia))
    as (it2 & Hlin & Hm2 & Hres).
  exists it1, (entry_off ents (interval_end z)), it2. split_and!; try done; [by eapply moved_trans|].
  assert (forall j, key_before ents icmp t j -> (j < length ents)%nat -> Z.of_nat j <> q) as Hne.
  { intros j Hj Hlt <-. destruct (lookup_lt_is_Some_2 ents j Hlt) as [e He]. specialize (Hj _ He).
    specialize (Hqa e.2). rewrite (proj2 (rec_entry ents (Z.of_nat j) e.2)) in Hqa; [|rewrite Nat2Z.id; eauto with lia]. specialize (Hqa eq_refl). lia. }
  destruct Hres as [(j & Hj & Hat & Hfrom & Hall)|[Hend Hall]].
  - left. exists j. pose proof Hat as (e & He & _). specialize (Hfrom _ He) as Hf.
    assert (q <= Z.of_nat j) as Hqj.
    { destruct (Z.le_gt_cases q (Z.of_nat j)); [done|]. specialize (Hqb (Z.of_nat j) e.2). rewrite (proj2 (rec_entry ents (Z.of_nat j) e.2)) in Hqb; [|rewrite Nat2Z.id; eauto with lia].
      specialize (Hqb eq_refl ltac:(lia)). lia. }
    split_and!; [done|done|done|]. intros Hiq. destruct (Z.eq_dec q (Z.of_nat j)); [done|]. exfalso.
    apply (Hne (Z.to_nat q)); [apply Hall; lia|lia|lia].
  - right. split; [done|]. intros Hbad. apply (Hne (Z.to_nat q)); [apply Hall; lia|lia|lia].
Qed.

(** What a lookup promises: the first entry for the user key at or past the target is found; [false] is returned only when a larger
    user key follows. *)
Definition get_result (t : bytes) (q : Z) (ok : bool) (it : DataBlockIter) : Prop :=
  di_status_ it = Status_OK /\
  (forall r, (snd <$> ents) !z q = Some r -> Compare ucmp (ExtractUserKey r.1) (ExtractUserKey t) = 0 -> ok = true /\ block_over icmp it (snd <$> ents) q) /\
  (ok = true -> block_over icmp it (snd <$> ents) q \/ di_Valid it = false) /\
  (ok = false -> exists r, (snd <$> ents) !z q = Some r /\ 0 < Compare ucmp (ExtractUserKey r.1) (ExtractUserKey t)).

Lemma get_result_over t q it : block_over icmp it (snd <$> ents) q -> get_result t q true it.
Proof. intros Ho. split; [exact (sc_status _ _ _ Ho)|]. split_and!; [by intros|intros _; by left|done]. Qed.

Lemma get_result_end t q it :
  di_of data restarts num it -> di_status_ it = Status_OK -> past_end restarts it ->
  (forall r, (snd <$> ents) !z q = Some r -> Compare ucmp (ExtractUserKey r.1) (ExtractUserKey t) <> 0) -> get_result t q true it.
Proof. intros Hi Hst He Hno. split; [done|]. split_and!; [intros r Hr Heq; by destruct (Hno r Hr)|intros _; right; by apply (past_end_invalid data restarts num)|done]. Qed.

(** A record at or past the target has the target's user key or a larger one. *)
Lemma from_user t (k : bytes) : 0 <= Compare icmp k t -> 0 <= Compare ucmp (ExtractUserKey k) (ExtractUserKey t).
Proof using ULaws. intros H. apply (cmp_le_ge ucmp). apply (icmp_le_user ucmp). by apply (cmp_le_ge icmp). Qed.

(** Between the target and a record with its user key there are only records with it. *)
Lemma from_same_user t q j e :
  first_from icmp (snd <$> ents) t q -> ents !! j = Some e -> q <= Z.of_nat j -> Compare ucmp (user e) (ExtractUserKey t) = 0 ->
  exists r, (snd <$> ents) !z q = Some r /\ Compare ucmp (ExtractUserKey r.1) (ExtractUserKey t) = 0.
Proof using ULaws Hsorted.
  intros (Hq & _ & Hqa) He Hqj Hu. pose proof (lookup_lt_Some _ _ _ He). destruct (zget_is_Some (snd <$> ents) q) as [r Hr]; [unfold zlen; rewrite length_fmap; lia|].
  exists r. split; [done|]. pose proof (from_user t r.1 (Hqa _ Hr)) as Hge.
  assert ((snd <$> ents) !z Z.of_nat j = Some e.2) as Hj by (apply rec_entry; rewrite Nat2Z.id; eauto with lia).
  pose proof (icmp_le_user ucmp _ _ (recs_sorted_le icmp _ q (Z.of_nat j) _ _ Hsorted Hr Hj Hqj)) as Hle.
  pose proof (cmp_trans (c := ucmp) _ _ (ExtractUserKey t) Hle ltac:(lia)). lia.
Qed.

Lemma SeekForGetImpl_ok it t :
  di_of data restarts num it -> di_cache_ok ents it -> di_status_ it = Status_OK -> di_num_buckets_ it = nb -> restarts + num * 4 < 2 ^ 32 -> 8 <= len t ->
  exists ok it' q, SeekForGetImpl icmp ucmp t it = Some (ok, it') /\ first_from icmp (snd <$> ents) t q /\ get_result t q ok it'.
Proof using All.
  intros Hi Hc Hst Hnb H32 Ht. destruct (Seek_over icmp _ _ _ _ _ it t L Hsorted Hi Hc Hst) as (its & q & Hseek & Hover & Hq).
  pose proof (num_pos _ _ _ _ _ L). pose proof num_small as Hns. unfold kMaxRestartSupportedByHashIndex in Hns. pose proof (ly_restarts _ _ _ _ _ L).
  pose proof (off_range _ _ _ _ _ L (length ents) ltac:(lia)). pose proof Hi as (Hd & Hrs & Hn & _).
  unfold SeekForGetImpl. destruct (Z.ltb_spec (len t) 8); [lia|]. rewrite Hd, Hrs, Hn, Hnb, (wrap_id 32) by lia. cbn [mbind option_bind].
  destruct (lookup_bucket (ExtractUserKey t)) as (x & -> & Hcases & Hin). cbn [mbind option_bind].
  destruct (Z.eqb_spec x kCollision) as [|Hnc].
  { rewrite Hseek. cbn [mbind option_bind]. exists true, its, q. split_and!; [done|done|by apply get_result_over]. }
  set (z := if x =? kNoEntry then wrap 8 (num - 1) else x).
  assert (0 <= z < num) as Hz.
  { unfold z. destruct (Z.eqb_spec x kNoEntry); [rewrite (wrap_id 8) by lia; lia|]. destruct Hcases as [|[|[? _]]]; [done|done|lia]. }
  destruct (Z.ltb_spec z num); [|lia]. cbn [negb].
  destruct (lookup_lt_is_Some_2 rps (Z.to_nat z)) as [i Hr]; [pose proof (ly_num _ _ _ _ _ L) as Hnum; unfold zlen in Hnum; lia|].
  assert (forall r, (snd <$> ents) !z q = Some r -> Compare ucmp (ExtractUserKey r.1) (ExtractUserKey t) = 0 -> Z.of_nat i <= q < Z.of_nat (interval_end z)) as Hhit.
  { intros r (Hq0 & e & He & ->)%rec_entry Hu. destruct (Hin _ _ He (Hinj _ _ Hu)) as [?|(r0 & Hx & Hr0 & Hri)]; [done|].
    assert (z = x) as Hzx by (unfold z, kNoEntry, kMaxRestartSupportedByHashIndex in *; destruct (Z.eqb_spec x 255); [lia|done]).
    rewrite Hzx in *. simplify_eq. lia. }
  destruct (linear_seek_interval it z i t q Hi Hz Hr Hq) as (it1 & limit & it2 & -> & Hlim & Hlin & Hm & Hn1 & Hrs1 & Hres). cbn [mbind option_bind].
  rewrite Hn1, Hrs1, Hlim. cbn [mbind option_bind]. rewrite Hlin. cbn [mbind option_bind]. pose proof (moved_of _ _ _ _ _ Hm Hi) as Hi2.
  destruct (moved_cache _ _ Hm) as (_ & _ & Hst2 & _). pose proof Hi2 as (_ & Hrs2 & _). rewrite Hrs2.
  destruct Hres as [(j & Hat & Hfrom & Hqj & Hqeq)|[Hend Hno]].
  2:{ rewrite Hend, Z.eqb_refl. exists true, it2, q. split_and!; [done|done|]. apply get_result_end; [done|congruence|done|]. intros r Hqr Hu. by apply Hno, (Hhit r). }
  pose proof Hat as (e & He & Hcur & Hkey & _). pose proof (lookup_lt_Some _ _ _ He).
  destruct (Z.eqb_spec (di_current_ it2) restarts) as [E|_]; [pose proof (off_lt _ _ _ _ _ L j (length ents) ltac:(lia) ltac:(lia)); lia|]. rewrite Hkey.
  destruct (Z.eqb_spec (Compare ucmp (user e) (ExtractUserKey t)) 0) as [Hu|Hu]; cbn [negb].
  - destruct (from_same_user t q j e Hq He Hqj Hu) as (r & Hqr & Hru). specialize (Hqeq ltac:(destruct (Hhit _ Hqr Hru); lia)) as ->.
    assert (block_over icmp it2 (snd <$> ents) (Z.of_nat j)) as Ho2 by (apply (block_over_moved icmp data restarts num ents rps it); [done..|left; rewrite Nat2Z.id; split; [lia|done]]).
    destruct (_ || _ || _ || _); [exists true, it2, (Z.of_nat j); split_and!; [done|done|by apply get_result_over]|].
    destruct (Seek_over icmp _ _ _ _ _ it2 t L Hsorted Hi2 (cache_moved _ _ _ Hm Hc) ltac:(congruence)) as (it3 & q3 & -> & Ho3 & Hq3). cbn [mbind option_bind].
    exists true, it3, q3. split_and!; [done|done|by apply get_result_over].
  - exists false, it2, q. split_and!; [done|done|]. destruct Hq as (Hq & Hqb & Hqa).
    destruct (zget_is_Some (snd <$> ents) q) as [r Hqr]; [unfold zlen; rewrite length_fmap; lia|]. pose proof (from_user t r.1 (Hqa _ Hqr)) as Hge.
    assert (Compare ucmp (ExtractUserKey r.1) (ExtractUserKey t) <> 0) as Hne.
    { intros Hru. specialize (Hqeq ltac:(destruct (Hhit _ Hqr Hru); lia)) as ->. apply Hu. apply rec_entry in Hqr as (_ & e' & He' & ->). rewrite Nat2Z.id in He'. congruence. }
    split; [congruence|]. split_and!; [intros r' Hr' Hu'; congruence|done|]. intros _. exists r. split; [done|lia].
Qed.
End Get.

(** C20. A point lookup in a block finds what a search would: on the block of the records that were added, with or without a hash
    index, [SeekForGet] of a new iterator succeeds; if the first record at or past the target has the target's user key, it
    returns [true] and stands on that record; it returns [false] only if that record has a larger user key, so that no later
    block can have the user key.  The user comparator tells keys with different bytes apart. *)
Theorem seek_for_get_finds (est : nat -> Z) (ucmp : Comparator) {ULaws : ComparatorLaws ucmp} interval delta ty recs target :
  (forall a b, Compare ucmp a b = 0 -> a = b) -> (forall n, 0 <= est n < 2 ^ 16) -> 1 <= interval ->
  recs_sorted (InternalKeyComparator ucmp) recs -> Forall (fun r => 8 <= len r.1 /\ len r.1 + len r.2 < 2 ^ 31) recs -> 8 <= len target ->
  exists b0 b, BlockBuilder_make interval delta false ty = Some b0 /\ BB_add_all b0 recs = Some b /\
  (CurrentSizeEstimate est b < 2 ^ 31 ->
   exists data blk ok it, BB_Finish est b = Some data /\ Block_make data kDisableGlobalSequenceNumber = Some blk /\
   SeekForGet (InternalKeyComparator ucmp) ucmp target (NewDataIterator blk) = Some (ok, it) /\
   let q := find_first (fun r => 0 <=? Compare (InternalKeyComparator ucmp) r.1 target) recs in
   (forall r, recs !z q = Some r -> Compare ucmp (ExtractUserKey r.1) (ExtractUserKey target) = 0 ->
      ok = true /\ iter_shows (DataBlockIter_ops (InternalKeyComparator ucmp)) it recs q) /\
   (ok = true -> di_Valid it = true -> iter_shows (DataBlockIter_ops (InternalKeyComparator ucmp)) it recs q) /\
   (ok = false -> exists r, recs !z q = Some r /\ 0 < Compare ucmp (ExtractUserKey r.1) (ExtractUserKey target))).
Proof.
  intros Hinj Hest Hint Hs Hsz Ht. destruct (build_block est interval delta ty recs Hest Hint Hsz) as (b0 & b & ents & rps & Hb0 & Hall & Hrecs & Hfin). subst recs.
  exists b0, b. split_and!; [done..|]. intros Hcse. destruct (Hfin Hcse kDisableGlobalSequenceNumber) as (data & nb & Hd & Hblk & HL & H8 & Hnb).
  set (blk := block_of _ _ _ _ _) in *. pose proof (New_over _ data nb ents rps HL Hs H8) as Hover. fold blk in Hover.
  destruct (New_of data nb ents rps HL H8) as (Hi & Hc & Hst & Hbu). fold blk in Hi, Hc, Hst, Hbu.
  set (q := find_first _ _). assert (first_from (InternalKeyComparator ucmp) (snd <$> ents) target q) as Hq by apply find_first_from.
  assert (exists ok it q', SeekForGet (InternalKeyComparator ucmp) ucmp target (NewDataIterator blk) = Some (ok, it) /\
    first_from (InternalKeyComparator ucmp) (snd <$> ents) target q' /\ get_result ucmp ents target q' ok it) as (ok & it & q' & Hget & Hq' & Hres).
  { unfold SeekForGet. rewrite Hbu. destruct Hnb as [->|(pairs & Hp & Hb & H32)].
    - destruct (sc_seek _ _ _ target Hover) as (it & q' & Hseek & Ho & Hf). simpl in Hseek. simpl. rewrite Hseek. exists true, it, q'. split_and!; [done|done|by apply get_result_over].
    - destruct (Z.eqb_spec nb 0); [destruct Hb; lia|]. by eapply SeekForGetImpl_ok. }
  rewrite (first_from_unique _ _ _ _ _ Hs Hq' Hq) in Hres. destruct Hres as (_ & H1 & H2 & H3). exists data, blk, ok, it.
  do 3 (split; [done|]). cbv zeta. fold q. split; [|split; [|exact H3]].
  - intros r Hr Hu. destruct (H1 r Hr Hu) as [-> Ho]. split; [done|]. by apply (over_shows _ _ _ _ _ _ Ho).
  - intros Hok Hv. destruct (H2 Hok) as [Ho|]; [|congruence]. by apply (over_shows _ _ _ _ _ _ Ho).
Qed.

Lemma bytewise_inj a b : Compare BytewiseComparator a b = 0 -> a = b.
Proof. simpl. rewrite Slice_compare_lex. apply lex_eq. Qed.

Lemma seek_for_get_finds_witness :
  exists b0 b, BlockBuilder_make 2 true false kDataBlockBinaryAndHash = Some b0 /\ BB_add_all b0 example_recs = Some b /\
  (CurrentSizeEstimate (fun n => Z.of_nat n mod 2 ^ 16) b < 2 ^ 31 ->
   exists data blk ok it, BB_Finish (fun n => Z.of_nat n mod 2 ^ 16) b = Some data /\ Block_make data kDisableGlobalSequenceNumber = Some blk /\
   SeekForGet (InternalKeyComparator BytewiseComparator) BytewiseComparator (AppendInternalKeyFooter [Byte.x61; Byte.x62] 9 kTypeValue) (NewDataIterator blk) = Some (ok, it) /\
   let q := find_first (fun r => 0 <=? Compare (InternalKeyComparator BytewiseComparator) r.1 (AppendInternalKeyFooter [Byte.x61; Byte.x62] 9 kTypeValue)) example_recs in
   (forall r, example_recs !z q = Some r -> Compare BytewiseComparator (ExtractUserKey r.1) (ExtractUserKey (AppendInternalKeyFooter [Byte.x61; Byte.x62] 9 kTypeValue)) = 0 ->
      ok = true /\ iter_shows (DataBlockIter_ops (InternalKeyComparator BytewiseComparator)) it example_recs q) /\
   (ok = true -> di_Valid it = true -> iter_shows (DataBlockIter_ops (InternalKeyComparator BytewiseComparator)) it example_recs q) /\
   (ok = false -> exists r, example_recs !z q = Some r /\
      0 < Compare BytewiseComparator (ExtractUserKey r.1) (ExtractUserKey (AppendInternalKeyFooter [Byte.x61; Byte.x62] 9 kTypeValue)))).
Proof.
  apply (seek_for_get_finds (fun n => Z.of_nat n mod 2 ^ 16) BytewiseComparator 2 true kDataBlockBinaryAndHash example_recs).
  - exact bytewise_inj.
  - exact example_est.
  - lia.
  - exact example_sorted.
  - exact example_sizes.
  - vm_compute. congruence.
Defined.
