(* ===== verification/Heap.v ===== *)
(** * The binary heap of merging iterators (util/heap.h)

    [BinaryHeap] with its moves through a hole and the cached comparison of the root's
    children.  [cmp x y] is the less-than of the code, [top] is a maximum.  [None] is an
    access out of range. *)

From S2P Require Import Prelude.

Definition kMaxSizet : Z := 2 ^ 64 - 1.

Record BinaryHeap (A : Type) := mkHeap { data_ : list A; root_cmp_cache_ : Z }.
Arguments mkHeap {A} _ _.
Arguments data_ {A} _.
Arguments root_cmp_cache_ {A} _.

Definition get_parent (index : Z) : Z := (index - 1) / 2.
Definition get_left (index : Z) : Z := 2 * index + 1.
Definition get_right (index : Z) : Z := 2 * index + 2.

Section Heap.
Context {A : Type} (cmp_ : A -> A -> bool).
Implicit Types (h : BinaryHeap A) (d : list A) (v x y : A).

Definition heap_empty_ : BinaryHeap A := mkHeap [] kMaxSizet.

Fixpoint upheap_loop (fuel : nat) d v (index : Z) : option (list A * Z) :=
  if 0 <? index then
    match fuel with
    | O => None
    | S fuel =>
        let parent := get_parent index in
        x ← d !z parent;
        if negb (cmp_ x v) then Some (d, index)
        else d ← zset d index x; upheap_loop fuel d v parent
    end
  else Some (d, index).

Definition upheap h (index : Z) : option (BinaryHeap A) :=
  v ← data_ h !z index;
  '(d, index) ← upheap_loop (Z.to_nat index) (data_ h) v index;
  d ← zset d index v;
  Some (mkHeap d kMaxSizet).

(** The child that takes the place of [index]. *)
Definition pick_child (cache : Z) d (index : Z) : option Z :=
  let left_child := get_left index in
  let right_child := left_child + 1 in
  if (index =? 0) && (cache <? len d) then Some cache
  else if right_child <? len d then
    l ← d !z left_child; r ← d !z right_child;
    Some (if cmp_ l r then right_child else left_child)
  else Some left_child.

(** The hole's last position and the last child picked. *)
Fixpoint downheap_loop (fuel : nat) (cache : Z) d v (index picked_child : Z) : option (list A * Z * Z) :=
  if len d <=? get_left index then Some (d, index, picked_child)
  else
    match fuel with
    | O => None
    | S fuel =>
        picked_child ← pick_child cache d index;
        y ← d !z picked_child;
        if negb (cmp_ v y) then Some (d, index, picked_child)
        else d ← zset d index y; downheap_loop fuel cache d v picked_child picked_child
    end.

Definition downheap h (index : Z) : option (BinaryHeap A) :=
  v ← data_ h !z index;
  '(d, index, picked_child) ← downheap_loop (length (data_ h)) (root_cmp_cache_ h) (data_ h) v index kMaxSizet;
  d ← zset d index v;
  Some (mkHeap d (if index =? 0 then picked_child else kMaxSizet)).

Definition heap_push v h : option (BinaryHeap A) :=
  let d := data_ h ++ [v] in upheap (mkHeap d (root_cmp_cache_ h)) (len d - 1).

Definition heap_top h : option A := head (data_ h).

Definition replace_top v h : option (BinaryHeap A) :=
  d ← zset (data_ h) 0 v; downheap (mkHeap d (root_cmp_cache_ h)) 0.

Definition heap_pop h : option (BinaryHeap A) :=
  back ← last (data_ h);
  d ← zset (data_ h) 0 back;
  let d := take (length d - 1) d in
  if len d =? 0 then Some (mkHeap d kMaxSizet) else downheap (mkHeap d (root_cmp_cache_ h)) 0.
End Heap.

(** ** Order *)

(** A strict weak order, as the code requires of a comparison. *)
Class StrictWeak {A} (cmp : A -> A -> bool) := {
  sw_asym x y : cmp x y = true -> cmp y x = false;
  sw_trans x y z : cmp x y = false -> cmp y z = false -> cmp x z = false;
}.

(** [j] is a child of [i]. *)
Definition child (i j : Z) : Prop := 0 <= i /\ (j = 2 * i + 1 \/ j = 2 * i + 2).

Section Order.
Context {A : Type} (cmp : A -> A -> bool).
Implicit Types (h : BinaryHeap A) (d D : list A) (v x y : A).

Definition edge D (i j : Z) : Prop :=
  forall x y, D !z i = Some x -> D !z j = Some y -> cmp x y = false.

(** No element is below one of its children. *)
Definition heap_data D : Prop := forall i j, child i j -> edge D i j.

(** As above except at the root. *)
Definition heap_below D : Prop := forall i j, child i j -> i <> 0 -> edge D i j.

(** The cache names the larger child of the root, or nothing. *)
Definition cache_ok D (cache : Z) : Prop :=
  cache < len D -> child 0 cache /\ forall c, child 0 c -> edge D cache c.

Definition heap_ok h : Prop := heap_data (data_ h) /\ cache_ok (data_ h) (root_cmp_cache_ h).
Definition heap_below_ok h : Prop := heap_below (data_ h) /\ cache_ok (data_ h) (root_cmp_cache_ h).

Lemma heap_ok_below h : heap_ok h -> heap_below_ok h.
Proof. intros [H ?]. split; [|done]. intros i j ? _. by apply H. Qed.

Lemma cache_none D : len D <= kMaxSizet -> cache_ok D kMaxSizet.
Proof. intros H Hc. lia. Qed.

(** The top is a maximum. *)
Lemma heap_top_max `{!StrictWeak cmp} h x :
  heap_ok h -> heap_top h = Some x -> Forall (fun y => cmp x y = false) (data_ h).
Proof.
  intros [Hd _] Hx. unfold heap_top in Hx. rewrite head_lookup in Hx.
  assert (H0 : data_ h !z 0 = Some x) by done.
  assert (Hall : forall n j y, 0 <= j < Z.of_nat n -> data_ h !z j = Some y -> cmp x y = false).
  { induction n as [|n IH]; intros j y Hj Hy; [lia|]. destruct (decide (j = 0)) as [->|].
    - assert (y = x) as -> by congruence. destruct (cmp x x) eqn:E; [|done]. by rewrite (sw_asym _ _ E) in E.
    - set (i := (j - 1) / 2). assert (Hc : child i j) by (unfold child, i; Z.to_euclidean_division_equations; lia).
      pose proof (zget_range _ _ _ Hy). destruct (zget_is_Some (data_ h) i) as [z Hz]; [destruct Hc; lia|].
      apply (sw_trans x z y); [apply (IH i); [destruct Hc; lia|done]|by apply (Hd i j)]. }
  apply Forall_forall. intros y [j Hj]%list_elem_of_lookup. rewrite <- zget_nat in Hj.
  apply (Hall (S j) (Z.of_nat j)); [lia|done].
Qed.
End Order.

(** ** Moving an element through the hole *)

(** The array with [v] in the hole. *)
Definition filled {A} (d : list A) (index : Z) (v : A) : list A := <[Z.to_nat index := v]> d.

Section Moves.
Context {A : Type} (cmp : A -> A -> bool) `{!StrictWeak cmp}.
Implicit Types (h : BinaryHeap A) (d D : list A) (v x y : A).

Lemma filled_len d i v : len (filled d i v) = len d.
Proof. unfold filled, zlen. by rewrite length_insert. Qed.

Lemma filled_get d i j v :
  0 <= i < len d -> filled d i v !z j = if i =? j then Some v else d !z j.
Proof.
  intros Hi. destruct (Z.lt_ge_cases j 0) as [Hj|Hj]; [|by apply zget_insert].
  destruct (Z.eqb_spec i j); [lia|]. rewrite !(proj2 (zget_None _ _)) by lia. done.
Qed.

Lemma insert_Permutation d (n : nat) x v : d !! n = Some x -> x :: <[n := v]> d ≡ₚ v :: d.
Proof.
  revert n. induction d as [|a d IH]; intros [|n] H; simpl in *; try done.
  - injection H as ->. constructor.
  - rewrite (Permutation_swap a x), (IH n H). constructor.
Qed.

(** Moving [x] into the hole and [v] to where [x] was. *)
Lemma filled_move d i j v x :
  0 <= i < len d -> d !z j = Some x -> i <> j ->
  filled (filled d i x) j v ≡ₚ filled d i v.
Proof.
  intros Hi Hx Hij. apply zget_Some in Hx as [Hj Hx]. unfold filled in *.
  destruct (lookup_lt_is_Some_2 d (Z.to_nat i)) as [z Hz]; [zlia|].
  apply (Permutation_cons_inv (a := x)), (Permutation_cons_inv (a := z)).
  transitivity (v :: x :: d).
  - rewrite (insert_Permutation (<[Z.to_nat i := x]> d) (Z.to_nat j) x v) by (rewrite list_lookup_insert_ne by lia; done).
    rewrite (Permutation_swap v z), (insert_Permutation d (Z.to_nat i) z x Hz). done.
  - rewrite (Permutation_swap x z), (insert_Permutation d (Z.to_nat i) z v Hz). constructor.
Qed.

(** Every edge holds but the one above [idx], which the children of [idx] respect. *)
Record up_ok D (idx : Z) : Prop := {
  up_edges i j : child i j -> j <> idx -> edge cmp D i j;
  up_skip p c : child p idx -> child idx c -> edge cmp D p c;
}.

Lemma up_ok_done D idx : up_ok D idx -> (forall p, child p idx -> edge cmp D p idx) -> heap_data cmp D.
Proof. intros [] H i j Hc. destruct (decide (j = idx)) as [->|]; [by apply H|by apply up_edges0]. Qed.

Lemma up_ok_step d idx p v x :
  0 <= idx < len d -> child p idx -> d !z p = Some x -> cmp x v = true ->
  up_ok (filled d idx v) idx -> up_ok (filled (filled d idx x) p v) p.
Proof.
  intros Hi Hp Hx Hlt [He Hs]. pose proof (sw_asym _ _ Hlt) as Hvx. pose proof (zget_range _ _ _ Hx) as Hpr.
  assert (Hg : forall j, filled (filled d idx x) p v !z j =
    if p =? j then Some v else if idx =? j then Some x else d !z j)
    by (intros j; rewrite filled_get by (rewrite filled_len; lia); by rewrite filled_get by lia).
  assert (HD : forall j, filled d idx v !z j = if idx =? j then Some v else d !z j) by (intros; by apply filled_get).
  assert (Hpi : p <> idx) by (destruct Hp; lia).
  assert (Hxe : filled d idx v !z p = Some x) by (rewrite HD; destruct (Z.eqb_spec idx p); [lia|done]).
  split; unfold edge; setoid_rewrite Hg.
  - intros i j Hc Hj a b Ha Hb. destruct (Z.eqb_spec p j); [done|].
    destruct (Z.eqb_spec p i) as [<-|], (Z.eqb_spec idx j) as [<-|]; simplify_eq; [done| | |].
    + apply (sw_trans _ x); [done|]. apply (He p j Hc ltac:(done) x b Hxe). rewrite HD. by destruct (Z.eqb_spec idx j).
    + destruct Hc, Hp; lia.
    + destruct (Z.eqb_spec idx i) as [<-|]; simplify_eq.
      * apply (Hs p j Hp Hc a b Hxe). rewrite HD. by destruct (Z.eqb_spec idx j).
      * apply (He i j Hc ltac:(done) a b); rewrite HD; [by destruct (Z.eqb_spec idx i)|by destruct (Z.eqb_spec idx j)].
  - intros q c Hq Hc a b Ha Hb.
    destruct (Z.eqb_spec p q); [destruct Hq; lia|]. destruct (Z.eqb_spec idx q); [destruct Hq, Hp; lia|].
    destruct (Z.eqb_spec p c); [destruct Hc; lia|].
    assert (Hax : cmp a x = false).
    { apply (He q p Hq Hpi a x); [|done]. rewrite HD. by destruct (Z.eqb_spec idx q). }
    destruct (Z.eqb_spec idx c) as [<-|]; simplify_eq; [done|].
    apply (sw_trans _ x); [done|]. apply (He p c Hc ltac:(done) x b Hxe). rewrite HD. by destruct (Z.eqb_spec idx c).
Qed.

Lemma upheap_loop_ok fuel d v idx :
  0 <= idx < len d -> idx <= Z.of_nat fuel -> up_ok (filled d idx v) idx ->
  exists d' i, upheap_loop cmp fuel d v idx = Some (d', i) /\ 0 <= i < len d' /\ len d' = len d /\
    heap_data cmp (filled d' i v) /\ filled d' i v ≡ₚ filled d idx v.
Proof.
  revert d idx. induction fuel as [|fuel IH]; intros d idx Hi Hf Hok; simpl;
    (destruct (Z.ltb_spec 0 idx); [|exists d, idx; split_and!; try done; try lia; eapply up_ok_done; [done|]; intros p Hp; destruct Hp; lia]); [lia|].
  set (p := get_parent idx).
  assert (Hp : child p idx) by (unfold child, p, get_parent; Z.to_euclidean_division_equations; lia).
  destruct (zget_is_Some d p) as [x Hx]; [destruct Hp; lia|]. rewrite Hx. simpl.
  destruct (cmp x v) eqn:E; simpl.
  - rewrite (zset_in_range d idx x Hi). simpl. fold (filled d idx x).
    destruct (IH (filled d idx x) p) as (d' & i & -> & Hi' & Hl & Hh & Hp').
    + rewrite filled_len. destruct Hp; lia.
    + destruct Hp; lia.
    + by apply up_ok_step.
    + exists d', i. rewrite filled_len in Hl. split_and!; try done; try lia.
      rewrite Hp'. apply filled_move; [done|done|destruct Hp; lia].
  - exists d, idx. split_and!; try done; try lia. eapply up_ok_done; [done|]. intros q Hq a b Ha Hb.
    assert (q = p) as -> by (destruct Hp, Hq; lia). rewrite filled_get in Ha, Hb by lia.
    rewrite Z.eqb_refl in Hb. destruct (Z.eqb_spec idx p); [destruct Hp; lia|]. congruence.
Qed.

(** Every edge holds but those below [idx], which the parent of [idx] respects. *)
Record down_ok D (idx : Z) : Prop := {
  down_edges i j : child i j -> i <> idx -> edge cmp D i j;
  down_skip p c : child p idx -> child idx c -> edge cmp D p c;
}.

Lemma down_ok_done D idx : down_ok D idx -> (forall c, child idx c -> edge cmp D idx c) -> heap_data cmp D.
Proof. intros [] H i j Hc. destruct (decide (i = idx)) as [->|]; [by apply H|by apply down_edges0]. Qed.

Lemma down_ok_step d idx c v y :
  0 <= idx < len d -> child idx c -> d !z c = Some y -> cmp v y = true ->
  (forall c', child idx c' -> edge cmp d c c') ->
  down_ok (filled d idx v) idx -> down_ok (filled (filled d idx y) c v) c.
Proof.
  intros Hi Hc Hy Hlt Hmax [He Hs]. pose proof (sw_asym _ _ Hlt) as Hyv. pose proof (zget_range _ _ _ Hy) as Hcr.
  assert (Hg : forall j, filled (filled d idx y) c v !z j =
    if c =? j then Some v else if idx =? j then Some y else d !z j)
    by (intros j; rewrite filled_get by (rewrite filled_len; lia); by rewrite filled_get by lia).
  assert (HD : forall j, filled d idx v !z j = if idx =? j then Some v else d !z j) by (intros; by apply filled_get).
  assert (Hci : c <> idx) by (destruct Hc; lia).
  assert (Hye : filled d idx v !z c = Some y) by (rewrite HD; destruct (Z.eqb_spec idx c); [lia|done]).
  split; unfold edge; setoid_rewrite Hg.
  - intros i j Hij Hn a b Ha Hb. destruct (Z.eqb_spec c i); [done|].
    destruct (Z.eqb_spec idx i) as [<-|].
    + simplify_eq. destruct (Z.eqb_spec c j); simplify_eq; [done|]. destruct (Z.eqb_spec idx j); [destruct Hij; lia|].
      by apply (Hmax j Hij).
    + destruct (Z.eqb_spec c j) as [<-|]; [destruct Hij, Hc; lia|].
      destruct (Z.eqb_spec idx j) as [<-|]; simplify_eq.
      * apply (Hs i c Hij Hc a b); [|done]. rewrite HD. by destruct (Z.eqb_spec idx i).
      * apply (He i j Hij ltac:(done) a b); rewrite HD; [by destruct (Z.eqb_spec idx i)|by destruct (Z.eqb_spec idx j)].
  - intros q e Hq Hce a b Ha Hb. assert (q = idx) as -> by (destruct Hq, Hc; lia).
    destruct (Z.eqb_spec c idx); [done|]. rewrite Z.eqb_refl in Ha. simplify_eq.
    destruct (Z.eqb_spec c e); [destruct Hce; lia|]. destruct (Z.eqb_spec idx e); [destruct Hce, Hc; lia|].
    apply (He c e Hce Hci a b Hye). rewrite HD. by destruct (Z.eqb_spec idx e).
Qed.

Lemma edge_refl D c : edge cmp D c c.
Proof.
  intros a b Ha Hb. assert (a = b) as -> by congruence. destruct (cmp b b) eqn:E; [|done]. by rewrite (sw_asym _ _ E) in E.
Qed.

Lemma pick_larger_ok d idx :
  0 <= idx -> 2 * idx + 1 < len d ->
  exists c, (if 2 * idx + 1 + 1 <? len d then
               l ← d !z (2 * idx + 1); r ← d !z (2 * idx + 1 + 1);
               Some (if cmp l r then 2 * idx + 1 + 1 else 2 * idx + 1)
             else Some (2 * idx + 1)) = Some c /\
    child idx c /\ c < len d /\ forall c', child idx c' -> edge cmp d c c'.
Proof.
  intros Hi Hl. replace (2 * idx + 1 + 1) with (2 * idx + 2) by lia. destruct (Z.ltb_spec (2 * idx + 2) (len d)).
  - destruct (zget_is_Some d (2 * idx + 1) ltac:(lia)) as [l Hlg]. destruct (zget_is_Some d (2 * idx + 2) ltac:(lia)) as [r Hrg].
    rewrite Hlg, Hrg. simpl. destruct (cmp l r) eqn:E; eexists; (split_and!; [done|unfold child; lia|lia|]);
      intros c' [_ [->| ->]]; try apply edge_refl; intros a b Ha Hb; simplify_eq; [by apply sw_asym|done].
  - eexists. split_and!; [done|unfold child; lia|lia|]. intros c' [_ [->| ->]]; [apply edge_refl|].
    intros a b _ Hb%zget_range. lia.
Qed.

(** The child picked is a largest one. *)
Lemma pick_child_ok cache d idx :
  0 <= idx -> get_left idx < len d -> (idx = 0 -> cache_ok cmp d cache) ->
  exists c, pick_child cmp cache d idx = Some c /\ child idx c /\ c < len d /\
    forall c', child idx c' -> edge cmp d c c'.
Proof.
  intros Hi Hl Hcache. unfold pick_child, get_left in *. destruct (Z.eqb_spec idx 0) as [->|]; simpl.
  - destruct (Z.ltb_spec cache (len d)); [|by apply (pick_larger_ok d 0)].
    destruct (Hcache eq_refl ltac:(done)) as [Hc Hm]. exists cache. split_and!; done.
  - by apply pick_larger_ok.
Qed.

(** What the cache says of the root's children is kept when only the root changes. *)
Lemma cache_root d v cache : cache_ok cmp d cache -> cache_ok cmp (filled d 0 v) cache.
Proof.
  intros H Hc. rewrite filled_len in Hc. destruct (H Hc) as [Hch Hm]. split; [done|]. intros c Hcc a b Ha Hb.
  assert (0 < len d) by (destruct Hch; lia). rewrite filled_get in Ha by lia. rewrite filled_get in Hb by lia.
  destruct (Z.eqb_spec 0 cache); [destruct Hch; lia|]. destruct (Z.eqb_spec 0 c); [destruct Hcc; lia|].
  by apply (Hm c Hcc).
Qed.

Lemma downheap_loop_ok fuel cache d v idx pc :
  0 <= idx < len d -> len d < Z.of_nat fuel + get_left idx -> down_ok (filled d idx v) idx ->
  (idx = 0 -> cache_ok cmp d cache /\ pc = kMaxSizet) -> len d <= kMaxSizet ->
  exists d' i pc', downheap_loop cmp fuel cache d v idx pc = Some (d', i, pc') /\ 0 <= i < len d' /\ len d' = len d /\
    heap_data cmp (filled d' i v) /\ filled d' i v ≡ₚ filled d idx v /\ (i = 0 -> cache_ok cmp (filled d' i v) pc').
Proof.
  revert d idx pc. induction fuel as [|fuel IH]; intros d idx pc Hi Hf Hok Hc Hk; simpl;
    (destruct (Z.leb_spec (len d) (get_left idx)) as [Hl|Hl];
      [exists d, idx, pc; split_and!; try done; try lia;
        [eapply down_ok_done; [done|]; intros c Hc' a b _ Hb%zget_range; rewrite filled_len in Hb; unfold get_left in *; destruct Hc'; lia
        |intros H0; destruct (Hc H0) as [_ ->]; apply cache_none; by rewrite filled_len]|]); [lia|].
  destruct (pick_child_ok cache d idx) as (c & -> & Hch & Hcl & Hmax); [lia|done|intros H0; by apply Hc|]. simpl.
  destruct (zget_is_Some d c) as [y Hy]; [destruct Hch; lia|]. rewrite Hy. simpl. destruct (cmp v y) eqn:E; simpl.
  - rewrite (zset_in_range d idx y Hi). simpl. fold (filled d idx y).
    destruct (IH (filled d idx y) c c) as (d' & i & pc' & -> & Hi' & Hl' & Hh & Hp & Hcc).
    + rewrite filled_len. destruct Hch; lia.
    + rewrite filled_len. unfold get_left in *. destruct Hch; lia.
    + by apply down_ok_step.
    + intros ->. destruct Hch; lia.
    + by rewrite filled_len.
    + rewrite filled_len in Hl'. exists d', i, pc'. split_and!; try done; try lia.
      rewrite Hp. apply filled_move; [done|done|destruct Hch; lia].
  - assert (Hedge : forall c', child idx c' -> edge cmp (filled d idx v) idx c').
    { intros c' Hc' a b Ha Hb. rewrite filled_get in Ha by lia. rewrite filled_get in Hb by lia. rewrite Z.eqb_refl in Ha.
      destruct (Z.eqb_spec idx c'); [destruct Hc'; lia|]. simplify_eq. apply (sw_trans _ y); [done|]. by apply (Hmax c' Hc'). }
    exists d, idx, c. split_and!; try done; try lia; [by eapply down_ok_done|]. intros ->. apply cache_root. by intros _.
Qed.
End Moves.

(** ** The operations *)

Section Ops.
Context {A : Type} (cmp : A -> A -> bool) `{!StrictWeak cmp}.
Implicit Types (h : BinaryHeap A) (d : list A) (v x : A).

Lemma zset_filled d i v : 0 <= i < len d -> zset d i v = Some (filled d i v).
Proof. apply zset_in_range. Qed.

Lemma downheap_ok d cache :
  d <> [] -> len d <= kMaxSizet -> heap_below cmp d -> cache_ok cmp d cache ->
  exists h', downheap cmp (mkHeap d cache) 0 = Some h' /\ heap_ok cmp h' /\ data_ h' ≡ₚ d.
Proof.
  intros Hne Hk Hb Hc. assert (Hpos : 0 < len d) by (destruct d; [done|]; unfold zlen; simpl; lia).
  destruct (zget_is_Some d 0 ltac:(lia)) as [v Hv]. unfold downheap. cbn [data_ root_cmp_cache_]. rewrite Hv. cbn [mbind option_bind].
  assert (Hf : filled d 0 v = d) by (apply list_insert_id; by apply zget_Some in Hv as [_ ?]).
  destruct (downheap_loop_ok cmp (length d) cache d v 0 kMaxSizet) as (d' & i & pc & -> & Hi & Hl & Hh & Hp & Hcc).
  - lia.
  - unfold get_left, zlen. lia.
  - rewrite Hf. split; [intros i j Hij Hi0; by apply Hb|]. intros p c [? ?]; lia.
  - done.
  - done.
  - cbn [mbind option_bind]. rewrite zset_filled by done. simpl. eexists. split; [done|]. rewrite Hf in Hp. split; [|done]. split; [done|]. simpl.
    destruct (Z.eqb_spec i 0); [by apply Hcc|]. apply cache_none. rewrite filled_len. lia.
Qed.

Lemma heap_push_ok v h :
  heap_ok cmp h -> len (data_ h) < kMaxSizet ->
  exists h', heap_push cmp v h = Some h' /\ heap_ok cmp h' /\ data_ h' ≡ₚ v :: data_ h.
Proof.
  intros [Hd _] Hk. unfold heap_push, upheap. cbn [data_]. set (d := data_ h ++ [v]).
  assert (Hl : len d = len (data_ h) + 1) by (unfold d; by rewrite zlen_app). pose proof (zlen_nonneg (data_ h)).
  assert (Hv : d !z (len d - 1) = Some v).
  { apply zget_Some. split; [lia|]. rewrite Hl. replace (Z.to_nat (len (data_ h) + 1 - 1)) with (length (data_ h)) by zlia.
    apply list_lookup_middle. done. }
  rewrite Hv. cbn [mbind option_bind].
  assert (Hf : filled d (len d - 1) v = d) by (apply list_insert_id; by apply zget_Some in Hv as [_ ?]).
  assert (Hget : forall j, j < len d - 1 -> d !z j = data_ h !z j).
  { intros j Hj. destruct (Z.lt_ge_cases j 0); [by rewrite !(proj2 (zget_None _ _)) by lia|].
    unfold zget. destruct (Z.leb_spec 0 j); [|lia]. unfold d. by rewrite lookup_app_l by zlia. }
  destruct (upheap_loop_ok cmp (Z.to_nat (len d - 1)) d v (len d - 1)) as (d' & i & -> & Hi & Hl' & Hh & Hp); [lia|lia| |].
  - rewrite Hf. split.
    + intros i j Hij Hj a b Ha Hb. pose proof (zget_range _ _ _ Hb). assert (j < len d - 1) by lia.
      rewrite Hget in Hb by done. rewrite Hget in Ha by (destruct Hij; lia). by apply (Hd i j).
    + intros p c _ Hc a b _ Hb%zget_range. destruct Hc. lia.
  - cbn [mbind option_bind]. rewrite zset_filled by done. simpl. eexists. split; [done|]. split; [split; [done|]|]; simpl.
    + apply cache_none. rewrite filled_len. lia.
    + rewrite Hp, Hf. unfold d. by rewrite (Permutation_app_comm (data_ h)).
Qed.

Lemma replace_top_ok v h x rest :
  heap_below_ok cmp h -> data_ h = x :: rest -> len (data_ h) <= kMaxSizet ->
  exists h', replace_top cmp v h = Some h' /\ heap_ok cmp h' /\ data_ h' ≡ₚ v :: rest.
Proof.
  intros [Hb Hc] Hd Hk. assert (Hpos : 0 < len (data_ h)) by (rewrite Hd; unfold zlen; simpl; lia).
  unfold replace_top. rewrite zset_filled by lia. cbn [mbind option_bind].
  assert (Hf : filled (data_ h) 0 v = v :: rest) by (by rewrite Hd).
  destruct (downheap_ok (filled (data_ h) 0 v) (root_cmp_cache_ h)) as (h' & -> & Hh & Hp).
  - by rewrite Hf.
  - by rewrite filled_len.
  - intros i j Hij Hi a b Ha Hbj. rewrite filled_get in Ha by lia. rewrite filled_get in Hbj by lia.
    destruct (Z.eqb_spec 0 i); [lia|]. destruct (Z.eqb_spec 0 j); [destruct Hij; lia|]. by apply (Hb i j).
  - by apply cache_root.
  - exists h'. split_and!; [done|done|by rewrite Hp, Hf].
Qed.

(** A shorter array with another root. *)
Lemma below_prefix d d' :
  len d' <= len d -> (forall j, 0 < j < len d' -> d' !z j = d !z j) -> heap_below cmp d -> heap_below cmp d'.
Proof.
  intros Hl Hg Hb i j Hij Hi a b Ha Hbj. pose proof (zget_range _ _ _ Hbj).
  rewrite Hg in Ha by (destruct Hij; lia). rewrite Hg in Hbj by (destruct Hij; lia). by apply (Hb i j).
Qed.

Lemma cache_prefix d d' cache :
  len d' <= len d -> (forall j, 0 < j < len d' -> d' !z j = d !z j) -> cache_ok cmp d cache -> cache_ok cmp d' cache.
Proof.
  intros Hl Hg Hc Hlt. destruct (Hc ltac:(lia)) as [Hch Hm]. split; [done|]. intros c Hcc a b Ha Hb.
  pose proof (zget_range _ _ _ Hb). rewrite Hg in Ha by (destruct Hch; lia). rewrite Hg in Hb by (destruct Hcc; lia).
  by apply (Hm c Hcc).
Qed.

Lemma heap_pop_ok h x rest :
  heap_below_ok cmp h -> data_ h = x :: rest -> len (data_ h) <= kMaxSizet ->
  exists h', heap_pop cmp h = Some h' /\ heap_ok cmp h' /\ data_ h' ≡ₚ rest.
Proof.
  intros [Hb Hc] Hd Hk. unfold heap_pop. destruct (last_is_Some (data_ h)) as [_ Hl].
  destruct Hl as [back Hback]; [by rewrite Hd|]. rewrite Hback. cbn [mbind option_bind].
  assert (Hpos : 0 < len (data_ h)) by (rewrite Hd; unfold zlen; simpl; lia).
  rewrite zset_filled by lia. cbn [mbind option_bind].
  assert (Hf : filled (data_ h) 0 back = back :: rest) by (by rewrite Hd). rewrite Hf.
  destruct (decide (rest = [])) as [->|Hne]; [eexists; split_and!; [done| |done]; split; [|by intros ?]; intros i j _ a b Ha%zget_range; unfold zlen in Ha; simpl in Ha; lia|].
  destruct (exists_last Hne) as (init & z & Hrest). assert (z = back) as ->.
  { rewrite Hd, Hrest, app_comm_cons, last_snoc in Hback. congruence. }
  assert (Ht : take (length (back :: rest) - 1) (back :: rest) = back :: init).
  { rewrite Hrest. simpl. rewrite length_app. simpl. replace (length init + 1 - 0)%nat with (S (length init)) by lia.
    simpl. by rewrite take_app_length. }
  rewrite Ht. destruct (Z.eqb_spec (len (back :: init)) 0) as [E|_]; [unfold zlen in E; simpl in E; lia|].
  assert (Hlen : len (back :: init) <= len (data_ h)) by (rewrite Hd, Hrest; unfold zlen; simpl; rewrite length_app; lia).
  assert (Hget : forall j, 0 < j < len (back :: init) -> (back :: init) !z j = data_ h !z j).
  { intros j Hj. unfold zget. destruct (Z.leb_spec 0 j); [|lia]. destruct (Z.to_nat j) as [|n] eqn:En; [lia|].
    rewrite Hd, Hrest. simpl. rewrite lookup_app_l; [done|]. unfold zlen in Hj. simpl in Hj. lia. }
  destruct (downheap_ok (back :: init) (root_cmp_cache_ h)) as (h' & -> & Hh & Hp);
    [done|lia|by eapply below_prefix|by eapply cache_prefix|].
  exists h'. split_and!; [done|done|]. rewrite Hp, Hrest. by rewrite (Permutation_app_comm init).
Qed.
End Ops.

(** ** Sequences of operations *)

Inductive heap_op (A : Type) := Push (v : A) | ReplaceTop (v : A) | Pop.
Arguments Push {A} _.
Arguments ReplaceTop {A} _.
Arguments Pop {A}.

Section Runs.
Context {A : Type} (cmp : A -> A -> bool).
Implicit Types (h : BinaryHeap A) (ops : list (heap_op A)) (b : list A).

Definition heap_step h (op : heap_op A) : option (BinaryHeap A) :=
  match op with Push v => heap_push cmp v h | ReplaceTop v => replace_top cmp v h | Pop => heap_pop cmp h end.

Fixpoint heap_run h ops : option (BinaryHeap A) :=
  match ops with [] => Some h | op :: ops => h ← heap_step h op; heap_run h ops end.

(** The specification: a bag from which a maximal element is taken. *)
Definition maximal x b : Prop := Forall (fun y => cmp x y = false) b.

Definition bag_step b (op : heap_op A) b' : Prop :=
  match op with
  | Push v => b' ≡ₚ v :: b
  | ReplaceTop v => exists x rest, b ≡ₚ x :: rest /\ maximal x b /\ b' ≡ₚ v :: rest
  | Pop => exists x, b ≡ₚ x :: b' /\ maximal x b
  end.

Fixpoint bag_run b ops b' : Prop :=
  match ops with [] => b' ≡ₚ b | op :: ops => exists b1, bag_step b op b1 /\ bag_run b1 ops b' end.

(** The sizes along the run: [replace_top] and [pop] need an element. *)
Fixpoint legal_heap_ops (n : Z) ops : Prop :=
  n <= kMaxSizet /\
  match ops with
  | [] => True
  | Push _ :: ops => n < kMaxSizet /\ legal_heap_ops (n + 1) ops
  | ReplaceTop _ :: ops => 0 < n /\ legal_heap_ops n ops
  | Pop :: ops => 0 < n /\ legal_heap_ops (n - 1) ops
  end.

Lemma heap_run_ok `{!StrictWeak cmp} h ops :
  heap_ok cmp h -> legal_heap_ops (len (data_ h)) ops ->
  exists h', heap_run h ops = Some h' /\ heap_ok cmp h' /\ bag_run (data_ h) ops (data_ h').
Proof.
  revert h. induction ops as [|op ops IH]; intros h Hok Hl; [exists h; split_and!; [done|done|simpl; reflexivity]|]. simpl in Hl.
  assert (Hstep : exists h1, heap_step h op = Some h1 /\ heap_ok cmp h1 /\ bag_step (data_ h) op (data_ h1) /\
    legal_heap_ops (len (data_ h1)) ops).
  { assert (Htop : 0 < len (data_ h) -> exists x rest, data_ h = x :: rest /\ maximal x (data_ h)).
    { intros Hp. destruct (data_ h) as [|x rest] eqn:Hd; [done|]. exists x, rest. split; [done|]. rewrite <- Hd.
      apply (heap_top_max cmp h x Hok). unfold heap_top. by rewrite Hd. }
    destruct op as [v|v|]; simpl; destruct Hl as (Hk & Hn & Hl).
    - destruct (heap_push_ok cmp v h Hok Hn) as (h1 & -> & Hok1 & Hp). exists h1. split_and!; [done|done|done|].
      unfold zlen in *. rewrite Hp. simpl. by replace (Z.of_nat (S (length (data_ h)))) with (Z.of_nat (length (data_ h)) + 1) by lia.
    - destruct (Htop Hn) as (x & rest & Hd & Hm).
      destruct (replace_top_ok cmp v h x rest (heap_ok_below _ _ Hok) Hd Hk) as (h1 & -> & Hok1 & Hp).
      exists h1. split_and!; [done|done|exists x, rest; by rewrite Hd at 1|]. unfold zlen in *. rewrite Hp. by rewrite Hd in Hl.
    - destruct (Htop Hn) as (x & rest & Hd & Hm).
      destruct (heap_pop_ok cmp h x rest (heap_ok_below _ _ Hok) Hd Hk) as (h1 & -> & Hok1 & Hp).
      exists h1. split_and!; [done|done|exists x; split; [by rewrite Hd, Hp|done]|]. unfold zlen in *. rewrite Hp.
      rewrite Hd in Hl. simpl in Hl. by replace (Z.of_nat (length rest)) with (Z.of_nat (S (length rest)) - 1) by lia. }
  destruct Hstep as (h1 & Hs & Hok1 & Hb & Hl1). destruct (IH h1 Hok1 Hl1) as (h' & Hr & Hok' & Hrun).
  exists h'. simpl. rewrite Hs. split_and!; [done|done|by exists (data_ h1)].
Qed.
End Runs.

(** C35. The binary heap refines a bag from which a maximal element is taken: any
    sequence of pushes, replacements of the top and pops on an empty heap, in which a top
    is replaced or popped only when there is one, succeeds and leaves the elements the bag has, and the top it then shows is maximal, also when
    the comparison of the root's children was answered from the cache. *)
Theorem heap_refines_bag {A} (cmp : A -> A -> bool) `{!StrictWeak cmp} (ops : list (heap_op A)) :
  legal_heap_ops 0 ops ->
  exists h, heap_run cmp heap_empty_ ops = Some h /\ bag_run cmp [] ops (data_ h) /\
    forall x, heap_top h = Some x -> maximal cmp x (data_ h).
Proof.
  intros Hl. destruct (heap_run_ok cmp heap_empty_ ops) as (h & Hr & Hok & Hb).
  - split; [|by apply cache_none]. intros i j _ a b Ha%zget_range. unfold zlen in Ha. simpl in Ha. lia.
  - done.
  - exists h. split_and!; [done|done|]. intros x Hx. by apply heap_top_max.
Qed.

#[local] Instance ltb_strict_weak : StrictWeak Z.ltb.
Proof. split; intros *; rewrite ?Z.ltb_lt, ?Z.ltb_ge; lia. Qed.

Lemma heap_refines_bag_witness :
  heap_top <$> heap_run Z.ltb heap_empty_ [Push 3; Push 7; Push 5; Pop; ReplaceTop 4; Push 1] = Some (Some 4) /\
  exists h, heap_run Z.ltb heap_empty_ [Push 3; Push 7; Push 5; Pop; ReplaceTop 4; Push 1] = Some h /\
    bag_run Z.ltb [] [Push 3; Push 7; Push 5; Pop; ReplaceTop 4; Push 1] (data_ h).
Proof.
  split; [by vm_compute|].
  destruct (heap_refines_bag Z.ltb [Push 3; Push 7; Push 5; Pop; ReplaceTop 4; Push 1]) as (h & Hr & Hb & _).
  - simpl. unfold kMaxSizet. lia.
  - exists h. split; [exact Hr|exact Hb].
Defined.
