(* ===== verification/MergingIter.v ===== *)
(** * The merging iterator (table/merging_iterator.cc, table/iter_heap.h, table/iterator_wrapper.h)

    Children are named by their index where the code has pointers to their wrappers; a
    wrapper's cached key is the key of its child.  An assertion that fails is [None]. *)

From S2P Require Import Prelude Coding Comparator DbFormat VersionEdit NvmAlloc SstableMeta L0Table Iterator Heap.

Inductive Direction := kForward | kReverse.

#[export] Instance Direction_eq_dec : EqDecision Direction.
Proof. solve_decision. Defined.

Record MergingIterator (T : Type) := mkMI {
  children_ : list T;
  mi_current_ : option nat;
  mi_status_ : Status;
  direction_ : Direction;
  minHeap_ : BinaryHeap nat;
  maxHeap_ : option (BinaryHeap nat);
  prefix_seek_mode_ : bool;
}.
Arguments mkMI {T} _ _ _ _ _ _ _.
Arguments children_ {T} _.
Arguments mi_current_ {T} _.
Arguments mi_status_ {T} _.
Arguments direction_ {T} _.
Arguments minHeap_ {T} _.
Arguments maxHeap_ {T} _.
Arguments prefix_seek_mode_ {T} _.

Section Merging.
Context {T : Type} (it : InternalIterator T) (icmp : Comparator).
Implicit Types (m : MergingIterator T) (cs : list T).

Definition iter_key cs (i : nat) : bytes := default [] (s ← cs !! i; it_key it s).

Definition MaxIteratorComparator cs (a b : nat) : bool := Compare icmp (iter_key cs a) (iter_key cs b) <? 0.
Definition MinIteratorComparator cs (a b : nat) : bool := 0 <? Compare icmp (iter_key cs a) (iter_key cs b).

Definition considerStatus (s status_ : Status) : Status :=
  if negb (Status_ok s) && Status_ok status_ then s else status_.

Definition CurrentForward m : option nat := heap_top (minHeap_ m).
Definition CurrentReverse m : option nat := h ← maxHeap_ m; heap_top h.

Definition MI_Valid m : bool := bool_decide (is_Some (mi_current_ m)) && Status_ok (mi_status_ m).

(** The loop over the children: moves each with [op] and pushes the valid ones. *)
Fixpoint push_children (less : list T -> nat -> nat -> bool) (op : nat -> T -> option T)
    (todo before : list T) (h : BinaryHeap nat) (st : Status) : option (list T * BinaryHeap nat * Status) :=
  match todo with
  | [] => Some (before, h, st)
  | c :: todo =>
      let i := length before in
      c ← op i c;
      if it_Valid it c then
        h ← heap_push (less (before ++ c :: todo)) i h;
        push_children less op todo (before ++ [c]) h st
      else push_children less op todo (before ++ [c]) h (considerStatus (it_status it c) st)
  end.

Definition MergingIterator_make (cs : list T) (prefix_seek_mode : bool) : option (MergingIterator T) :=
  '(cs, h, st) ← push_children MinIteratorComparator (fun _ c => Some c) cs [] heap_empty_ Status_OK;
  Some (mkMI cs (heap_top h) st kForward h None prefix_seek_mode).

(** The pointer pushed is that of a local copy of the wrapper, which is gone when the
    call returns: only an iterator that is not valid can be added. *)
Definition MI_AddIterator (iter : T) m : option (MergingIterator T) :=
  if negb (bool_decide (direction_ m = kForward)) || it_Valid it iter then None
  else Some (mkMI (children_ m ++ [iter]) (mi_current_ m) (considerStatus (it_status it iter) (mi_status_ m))
               (direction_ m) (minHeap_ m) (maxHeap_ m) (prefix_seek_mode_ m)).

Definition cleared_max m : option (BinaryHeap nat) := (fun _ => heap_empty_) <$> maxHeap_ m.

(** [ClearHeaps], the loop over the children and [CurrentForward]. *)
Definition seek_forward (op : T -> option T) m : option (MergingIterator T) :=
  '(cs, h, st) ← push_children MinIteratorComparator (fun _ => op) (children_ m) [] heap_empty_ Status_OK;
  Some (mkMI cs (heap_top h) st kForward h (cleared_max m) (prefix_seek_mode_ m)).

Definition seek_reverse (op : T -> option T) m : option (MergingIterator T) :=
  '(cs, h, st) ← push_children MaxIteratorComparator (fun _ => op) (children_ m) [] heap_empty_ Status_OK;
  Some (mkMI cs (heap_top h) st kReverse heap_empty_ (Some h) (prefix_seek_mode_ m)).

Definition MI_SeekToFirst m := seek_forward (it_SeekToFirst it) m.
Definition MI_SeekToLast m := seek_reverse (it_SeekToLast it) m.
Definition MI_Seek (target : bytes) m := seek_forward (it_Seek it target) m.
Definition MI_SeekForPrev (target : bytes) m := seek_reverse (it_SeekForPrev it target) m.

Definition MI_key m : option bytes :=
  if MI_Valid m then i ← mi_current_ m; c ← children_ m !! i; it_key it c else None.

Definition MI_value m : option bytes :=
  if MI_Valid m then i ← mi_current_ m; c ← children_ m !! i; it_value it c else None.

(** One child on a change of direction: it seeks to the target and leaves it. *)
Definition turn_child (seek : bytes -> T -> option T) (step : T -> option T) (current_ : option nat)
    (target : bytes) (i : nat) (c : T) (st : Status) : option (T * Status) :=
  if bool_decide (Some i = current_) then Some (c, st)
  else
    c ← seek target c;
    let st := considerStatus (it_status it c) st in
    if it_Valid it c then
      k ← it_key it c;
      if Compare icmp target k =? 0 then c ← step c; Some (c, considerStatus (it_status it c) st)
      else Some (c, st)
    else Some (c, st).

Fixpoint turn_children (less : list T -> nat -> nat -> bool) (seek : bytes -> T -> option T) (step : T -> option T)
    (current_ : option nat) (target : bytes) (todo before : list T) (h : BinaryHeap nat) (st : Status)
  : option (list T * BinaryHeap nat * Status) :=
  match todo with
  | [] => Some (before, h, st)
  | c :: todo =>
      let i := length before in
      '(c, st) ← turn_child seek step current_ target i c st;
      h ← (if it_Valid it c then heap_push (less (before ++ c :: todo)) i h else Some h);
      turn_children less seek step current_ target todo (before ++ [c]) h st
  end.

Definition SwitchToForward m : option (MergingIterator T) :=
  target ← MI_key m;
  '(cs, h, st) ← turn_children MinIteratorComparator (it_Seek it) (it_Next it) (mi_current_ m) target
                   (children_ m) [] heap_empty_ (mi_status_ m);
  Some (mkMI cs (mi_current_ m) st kForward h (cleared_max m) (prefix_seek_mode_ m)).

Definition SwitchToReverse m : option (MergingIterator T) :=
  target ← MI_key m;
  '(cs, h, st) ← turn_children MaxIteratorComparator (it_SeekForPrev it) (it_Prev it) (mi_current_ m) target
                   (children_ m) [] heap_empty_ (mi_status_ m);
  Some (mkMI cs (if prefix_seek_mode_ m then mi_current_ m else heap_top h) st kReverse heap_empty_ (Some h)
          (prefix_seek_mode_ m)).

(** The current child moves and takes its place in the heap again. *)
Definition move_current (less : list T -> nat -> nat -> bool) (step : T -> option T) (h : BinaryHeap nat) m
  : option (list T * BinaryHeap nat * Status) :=
  i ← mi_current_ m;
  c ← children_ m !! i;
  c ← step c;
  let cs := <[i := c]> (children_ m) in
  if it_Valid it c then h ← replace_top (less cs) i h; Some (cs, h, mi_status_ m)
  else h ← heap_pop (less cs) h; Some (cs, h, considerStatus (it_status it c) (mi_status_ m)).

Definition MI_Next m : option (MergingIterator T) :=
  if MI_Valid m then
    m ← (if bool_decide (direction_ m = kForward) then Some m else SwitchToForward m);
    if bool_decide (mi_current_ m = CurrentForward m) then
      '(cs, h, st) ← move_current MinIteratorComparator (it_Next it) (minHeap_ m) m;
      Some (mkMI cs (heap_top h) st (direction_ m) h (maxHeap_ m) (prefix_seek_mode_ m))
    else None
  else None.

Definition MI_Prev m : option (MergingIterator T) :=
  if MI_Valid m then
    m ← (if bool_decide (direction_ m = kReverse) then Some m else SwitchToReverse m);
    if bool_decide (mi_current_ m = CurrentReverse m) then
      h ← maxHeap_ m;
      '(cs, h, st) ← move_current MaxIteratorComparator (it_Prev it) h m;
      Some (mkMI cs (heap_top h) st (direction_ m) (minHeap_ m) (Some h) (prefix_seek_mode_ m))
    else None
  else None.

Definition MergingIter : InternalIterator (MergingIterator T) :=
  mkIter _ MI_Valid MI_SeekToFirst MI_SeekToLast MI_Seek MI_SeekForPrev MI_Next MI_Prev MI_key MI_value mi_status_.

(** [NewMergingIterator]: the inner [None] is the empty iterator, one iterator is
    returned as it is. *)
Definition NewMergingIterator (cs : list T) (prefix_seek_mode : bool) : option (option (T + MergingIterator T)) :=
  match cs with
  | [] => Some None
  | [c] => Some (Some (inl c))
  | _ => m ← MergingIterator_make cs prefix_seek_mode; Some (Some (inr m))
  end.

(** [MergeIteratorBuilder]: a single iterator is used as it is. *)
Record MergeIteratorBuilder := mkMB { merge_iter : MergingIterator T; first_iter : option T; use_merging_iter : bool }.

Definition MergeIteratorBuilder_make (prefix_seek_mode : bool) : option MergeIteratorBuilder :=
  m ← MergingIterator_make [] prefix_seek_mode; Some (mkMB m None false).

Definition MB_AddIterator (iter : T) (b : MergeIteratorBuilder) : option MergeIteratorBuilder :=
  b ← match use_merging_iter b, first_iter b with
      | false, Some f => m ← MI_AddIterator f (merge_iter b); Some (mkMB m None true)
      | _, _ => Some b
      end;
  if use_merging_iter b then m ← MI_AddIterator iter (merge_iter b); Some (mkMB m (first_iter b) true)
  else Some (mkMB (merge_iter b) (Some iter) false).

(** The outer [option] of the result is a null pointer. *)
Definition MB_Finish (b : MergeIteratorBuilder) : option (T + MergingIterator T) :=
  if use_merging_iter b then Some (inr (merge_iter b)) else inl <$> first_iter b.
End Merging.

(** ** The heap of the valid children *)

(** A heap only depends on the comparison of its own elements. *)
Lemma heap_ok_ext {A} (cmp cmp' : A -> A -> bool) (h : BinaryHeap A) :
  (forall a b, a ∈ data_ h -> b ∈ data_ h -> cmp a b = cmp' a b) -> heap_ok cmp h -> heap_ok cmp' h.
Proof.
  intros He [Hd Hc].
  assert (Hedge : forall i j, edge cmp (data_ h) i j -> edge cmp' (data_ h) i j).
  { intros i j H a b Ha Hb. rewrite <- He; [by apply H|..]; apply zget_Some in Ha as [_ Ha], Hb as [_ Hb];
      by eapply list_elem_of_lookup_2. }
  split; [intros i j Hij; by apply Hedge, Hd|]. intros Hlt. destruct (Hc Hlt) as [Hch Hm]. split; [done|].
  intros c Hcc. by apply Hedge, Hm.
Qed.

(** After a change of the top element's key the rest of the heap is as before. *)
Lemma heap_below_ext {A} (cmp cmp' : A -> A -> bool) (h : BinaryHeap A) x rest :
  data_ h = x :: rest -> (forall a b, a ∈ rest -> b ∈ rest -> cmp a b = cmp' a b) ->
  heap_ok cmp h -> heap_below_ok cmp' h.
Proof.
  intros Hx He [Hd Hc].
  assert (Hin : forall i y, i <> 0 -> data_ h !z i = Some y -> y ∈ rest).
  { intros i y Hi [H0 Hy]%zget_Some. rewrite Hx in Hy. destruct (Z.to_nat i) as [|n] eqn:E; [lia|].
    by eapply list_elem_of_lookup_2. }
  assert (Hedge : forall i j, i <> 0 -> j <> 0 -> edge cmp (data_ h) i j -> edge cmp' (data_ h) i j).
  { intros i j Hi Hj H a b Ha Hb. rewrite <- He; [by apply H|by apply (Hin i)|by apply (Hin j)]. }
  split.
  - intros i j Hij Hi. apply Hedge; [done|destruct Hij; lia|by apply Hd].
  - intros Hlt. destruct (Hc Hlt) as [Hch Hm]. split; [done|]. intros c Hcc.
    apply Hedge; [destruct Hch; lia|destruct Hcc; lia|by apply Hm].
Qed.

Section Children.
Context {T : Type} (it : InternalIterator T) (icmp : Comparator) {Laws : ComparatorLaws icmp}.
Implicit Types (m : MergingIterator T) (cs : list T) (h : BinaryHeap nat).

(** The comparisons look at keys only. *)
Class KeyOrder (less : list T -> nat -> nat -> bool) := {
  ko_weak cs :: StrictWeak (less cs);
  ko_keys cs cs' a b : iter_key it cs a = iter_key it cs' a -> iter_key it cs b = iter_key it cs' b ->
    less cs a b = less cs' a b;
}.

#[export] Instance min_key_order : KeyOrder (MinIteratorComparator it icmp).
Proof.
  split; [intros cs; split|]; unfold MinIteratorComparator.
  - intros x y. rewrite Z.ltb_lt, Z.ltb_ge. intros H. apply (cmp_lt_gt icmp) in H. lia.
  - intros x y z. rewrite !Z.ltb_ge. apply (cmp_trans (c := icmp)).
  - by intros cs cs' a b -> ->.
Qed.

#[export] Instance max_key_order : KeyOrder (MaxIteratorComparator it icmp).
Proof.
  split; [intros cs; split|]; unfold MaxIteratorComparator.
  - intros x y. rewrite Z.ltb_lt, Z.ltb_ge. intros H. apply (cmp_lt_gt icmp) in H. lia.
  - intros x y z. rewrite !Z.ltb_ge, <- !(cmp_le_ge icmp). intros H1 H2. exact (cmp_trans (c := icmp) _ _ _ H2 H1).
  - by intros cs cs' a b -> ->.
Qed.

(** The heap holds exactly the valid children. *)
Definition holds_valid cs h : Prop :=
  NoDup (data_ h) /\ forall i, i ∈ data_ h <-> exists c, cs !! i = Some c /\ it_Valid it c = true.

Lemma holds_valid_size cs h : holds_valid cs h -> len (data_ h) <= len cs.
Proof.
  intros [Hn Hv]. unfold zlen. rewrite <- (length_seq (length cs) 0). apply Nat2Z.inj_le, NoDup_incl_length; [by apply NoDup_ListNoDup|].
  intros i Hi%list_elem_of_In%Hv. destruct Hi as (c & Hc & _). apply in_seq. apply lookup_lt_Some in Hc. lia.
Qed.

Lemma iter_key_app cs cs' i : (i < length cs)%nat -> iter_key it (cs ++ cs') i = iter_key it cs i.
Proof. intros Hi. unfold iter_key. by rewrite lookup_app_l. Qed.

(** Pushing one more child. *)
Lemma push_child_ok less `{!KeyOrder less} before c todo h :
  heap_ok (less before) h -> holds_valid before h -> it_Valid it c = true -> len (before ++ c :: todo) < kMaxSizet ->
  exists h', heap_push (less (before ++ c :: todo)) (length before) h = Some h' /\
    heap_ok (less (before ++ [c])) h' /\ holds_valid (before ++ [c]) h'.
Proof.
  intros Hok Hv Hc Hl. pose proof (holds_valid_size _ _ Hv) as Hsz. rewrite zlen_app in Hl. pose proof (zlen_nonneg (c :: todo)).
  assert (Hin : forall a, a ∈ data_ h -> (a < length before)%nat).
  { intros a Ha%(proj2 Hv). destruct Ha as (x & Hx & _). by eapply lookup_lt_Some. }
  destruct (heap_push_ok (less (before ++ c :: todo)) (length before) h) as (h' & Hp & Hok' & Hperm).
  - eapply heap_ok_ext; [|exact Hok]. intros a b Ha%Hin Hb%Hin. apply ko_keys; by rewrite iter_key_app.
  - lia.
  - exists h'. split_and!; [done| |split].
    + eapply heap_ok_ext; [|exact Hok']. intros a b Ha Hb. rewrite Hperm in Ha. rewrite Hperm in Hb.
      assert (Hlt : forall a, a ∈ length before :: data_ h -> (a < length (before ++ [c]))%nat).
      { intros a' [->|Ha'%Hin]%elem_of_cons; rewrite length_app; simpl; lia. }
      change (c :: todo) with ([c] ++ todo). rewrite app_assoc. apply ko_keys; rewrite iter_key_app; auto.
    + rewrite Hperm. constructor; [|by destruct Hv]. intros Ha%Hin. lia.
    + intros i. rewrite Hperm, elem_of_cons, (proj2 Hv). split.
      * intros [->|(x & Hx & Hvx)]; [exists c; split; [by apply list_lookup_middle|done]|].
        exists x. split; [|done]. by apply lookup_app_l_Some.
      * intros (x & Hx & Hvx). apply lookup_app_Some in Hx as [Hx|[Hge Hx]]; [right; by exists x|].
        left. destruct (i - length before)%nat eqn:E; [lia|done].
Qed.

(** A child that is not valid stays out. *)
Lemma skip_child_ok less `{!KeyOrder less} before c h :
  heap_ok (less before) h -> holds_valid before h -> it_Valid it c = false ->
  heap_ok (less (before ++ [c])) h /\ holds_valid (before ++ [c]) h.
Proof.
  intros Hok [Hn Hv] Hc. split.
  - eapply heap_ok_ext; [|exact Hok]. intros a b Ha%Hv Hb%Hv. destruct Ha as (? & ?%lookup_lt_Some & _), Hb as (? & ?%lookup_lt_Some & _).
    apply ko_keys; by rewrite iter_key_app.
  - split; [done|]. intros i. rewrite Hv. split; intros (x & Hx & Hvx); exists x; (split; [|done]).
    + by apply lookup_app_l_Some.
    + apply lookup_app_Some in Hx as [Hx|[Hge Hx]]; [done|]. destruct (i - length before)%nat; simpl in Hx; [|done]. congruence.
Qed.
End Children.

Section Loops.
Context {T : Type} (it : InternalIterator T) (icmp : Comparator) {Laws : ComparatorLaws icmp}.
Context (over : T -> list (bytes * bytes) -> Z -> Prop) `{!ScanLaws icmp it over}.
Context (less : list T -> nat -> nat -> bool) `{!KeyOrder it less}.
Implicit Types (m : MergingIterator T) (cs : list T) (h : BinaryHeap nat) (recss : list (list (bytes * bytes))) (ps : list Z).

Lemma push_children_ok (op : nat -> T -> option T) (R : list (bytes * bytes) -> Z -> Prop) todo recss ps before h :
  (forall i s recs p, over s recs p -> exists s' q, op i s = Some s' /\ over s' recs q /\ R recs q) ->
  Forall3 over todo recss ps -> heap_ok (less before) h -> holds_valid it before h -> len (before ++ todo) < kMaxSizet ->
  exists cs' qs h', push_children it less op todo before h Status_OK = Some (before ++ cs', h', Status_OK) /\
    Forall3 over cs' recss qs /\ Forall2 R recss qs /\ heap_ok (less (before ++ cs')) h' /\ holds_valid it (before ++ cs') h'.
Proof.
  intros Hop Hall. revert before h. induction Hall as [|c recs p todo recss ps Hc Hall IH]; intros before h Hok Hv Hl.
  { exists [], [], h. rewrite app_nil_r. split_and!; try done; constructor. }
  destruct (Hop (length before) c recs p Hc) as (c' & q & Hopc & Hc' & HR). simpl. rewrite Hopc. cbn [mbind option_bind].
  assert (Hl' : len ((before ++ [c']) ++ todo) < kMaxSizet).
  { rewrite !zlen_app in *. unfold zlen in *. simpl in *. lia. }
  assert (Hnext : exists h1, (if it_Valid it c' then
      h ← heap_push (less (before ++ c' :: todo)) (length before) h; push_children it less op todo (before ++ [c']) h Status_OK
      else push_children it less op todo (before ++ [c']) h (considerStatus (it_status it c') Status_OK)) =
      push_children it less op todo (before ++ [c']) h1 Status_OK /\
      heap_ok (less (before ++ [c'])) h1 /\ holds_valid it (before ++ [c']) h1).
  { destruct (it_Valid it c') eqn:Hvc.
    - destruct (push_child_ok it less before c' todo h Hok Hv Hvc) as (h1 & -> & ? & ?); [|by exists h1].
      rewrite <- app_assoc in Hl'. exact Hl'.
    - rewrite (sc_status _ _ _ Hc'). exists h. split; [done|]. by apply skip_child_ok. }
  destruct Hnext as (h1 & -> & Hok1 & Hv1). destruct (IH (before ++ [c']) h1 Hok1 Hv1 Hl') as (cs' & qs & h' & -> & Ho & HRs & Hk & Hv').
  exists (c' :: cs'), (q :: qs), h'. rewrite <- app_assoc in *. split_and!; [done|by constructor|by constructor|done|done].
Qed.

(** The current child, at the top of the heap, has moved. *)
Lemma move_current_ok step h m i c c' :
  heap_ok (less (children_ m)) h -> holds_valid it (children_ m) h -> heap_top h = Some i -> mi_current_ m = Some i ->
  children_ m !! i = Some c -> step c = Some c' -> it_status it c' = Status_OK -> mi_status_ m = Status_OK ->
  len (children_ m) <= kMaxSizet ->
  exists h', move_current it less step h m = Some (<[i := c']> (children_ m), h', Status_OK) /\
    heap_ok (less (<[i := c']> (children_ m))) h' /\ holds_valid it (<[i := c']> (children_ m)) h'.
Proof.
  intros Hok Hv Htop Hcur Hc Hs Hst Hms Hl. unfold move_current. rewrite Hcur. cbn [mbind option_bind]. rewrite Hc.
  cbn [mbind option_bind]. rewrite Hs. cbn [mbind option_bind]. rewrite Hms. set (cs := <[i := c']> (children_ m)).
  destruct (data_ h) as [|x rest] eqn:Hd; [unfold heap_top in Htop; by rewrite Hd in Htop|].
  assert (x = i) as -> by (unfold heap_top in Htop; rewrite Hd in Htop; by injection Htop).
  pose proof (holds_valid_size it _ _ Hv) as Hsz. destruct Hv as [Hn Hin]. rewrite Hd in Hn, Hin. inversion_clear Hn as [|?? Hni Hn'].
  assert (Hci : cs !! i = Some c') by (apply list_lookup_insert_eq; by eapply lookup_lt_Some).
  assert (Hne : forall j, j <> i -> cs !! j = children_ m !! j) by (intros; by apply list_lookup_insert_ne).
  assert (Hrest : forall j, j ∈ rest -> j <> i) by (intros j Hj ->; done).
  assert (Hb : heap_below_ok (less cs) h).
  { eapply heap_below_ext; [exact Hd| |exact Hok]. intros a b Ha%Hrest Hb%Hrest. apply (ko_keys it); unfold iter_key; by rewrite Hne. }
  assert (Hmem : forall j, j ∈ rest <-> j <> i /\ exists x, cs !! j = Some x /\ it_Valid it x = true).
  { intros j. split.
    - intros Hj. split; [by apply Hrest|]. rewrite Hne by (by apply Hrest). apply Hin. set_solver.
    - intros [Hj Hex]. rewrite Hne in Hex by done. apply Hin in Hex. set_solver. }
  destruct (it_Valid it c') eqn:Hvc.
  - destruct (replace_top_ok (less cs) i h i rest Hb Hd ltac:(lia)) as (h' & -> & Hok' & Hp). exists h'.
    split_and!; [done|done|]. split; [rewrite Hp; by constructor|]. intros j. rewrite Hp, elem_of_cons, Hmem. split.
    + intros [->|[_ Hj]]; [by exists c'|done].
    + intros Hj. destruct (decide (j = i)) as [->|]; [by left|by right].
  - destruct (heap_pop_ok (less cs) h i rest Hb Hd ltac:(lia)) as (h' & -> & Hok' & Hp). exists h'. rewrite Hst.
    split_and!; [done|done|]. split; [by rewrite Hp|]. intros j. rewrite Hp, Hmem. split; [tauto|].
    intros Hj. split; [|done]. intros ->. destruct Hj as (x & Hx & Hvx). congruence.
Qed.
End Loops.

(** ** Forward iteration *)

Section Forward.
Context {T : Type} (it : InternalIterator T) (icmp : Comparator) {Laws : ComparatorLaws icmp}.
Context (over : T -> list (bytes * bytes) -> Z -> Prop) `{!ScanLaws icmp it over}.
Implicit Types (m : MergingIterator T) (cs : list T) (recss : list (list (bytes * bytes))) (ps : list Z) (all : list (bytes * bytes)).

(** The records the children have not passed. *)
Definition pending recss ps : list (bytes * bytes) := mjoin (zip_with (fun recs p => drop (Z.to_nat p) recs) recss ps).

Lemma elem_of_pending recss ps r :
  r ∈ pending recss ps <-> exists i recs p, recss !! i = Some recs /\ ps !! i = Some p /\ r ∈ drop (Z.to_nat p) recs.
Proof.
  unfold pending. rewrite list_elem_of_join. split.
  - intros (l & Hr & [i Hi]%list_elem_of_lookup). apply lookup_zip_with_Some in Hi as (recs & p & -> & Hrecs & Hp). eauto 6.
  - intros (i & recs & p & Hrecs & Hp & Hr). eexists. split; [exact Hr|]. apply (list_elem_of_lookup_2 _ i).
    apply lookup_zip_with_Some. eauto.
Qed.

Lemma pending_step recss ps i recs p r :
  recss !! i = Some recs -> ps !! i = Some p -> recs !z p = Some r ->
  pending recss ps ≡ₚ r :: pending recss (<[i := p + 1]> ps).
Proof.
  intros Hrecs Hp [Hp0 Hr]%zget_Some. revert recss i Hrecs Hp. induction ps as [|q ps IH]; intros [|rs recss] [|i] Hrecs Hp; simpl in *; try done.
  - injection Hrecs as ->. injection Hp as ->. unfold pending. simpl. rewrite (drop_S _ _ _ Hr). simpl.
    by replace (Z.to_nat (p + 1)) with (S (Z.to_nat p)) by lia.
  - unfold pending in *. simpl. rewrite (IH recss i Hrecs Hp). symmetry. apply Permutation_middle.
Qed.

Record fwd m recss ps : Prop := {
  fw_over : Forall3 over (children_ m) recss ps;
  fw_pos : Forall (fun p => 0 <= p) ps;
  fw_heap : heap_ok (MinIteratorComparator it icmp (children_ m)) (minHeap_ m);
  fw_valid : holds_valid it (children_ m) (minHeap_ m);
  fw_current : mi_current_ m = heap_top (minHeap_ m);
  fw_dir : direction_ m = kForward;
}.

Lemma children_at cs recss ps i c :
  Forall3 over cs recss ps -> cs !! i = Some c ->
  exists recs p, recss !! i = Some recs /\ ps !! i = Some p /\ over c recs p.
Proof. intros H Hc. destruct (Forall3_lookup_l _ _ _ _ _ _ H Hc) as (recs & p & ? & ? & ?). eauto. Qed.

Lemma valid_at c recs p : over c recs p -> 0 <= p -> it_Valid it c = true -> exists k v, recs !z p = Some (k, v) /\ it_key it c = Some k /\ it_value it c = Some v.
Proof.
  intros Ho Hp Hv. rewrite (sc_valid _ _ _ Ho) in Hv. apply bool_decide_eq_true in Hv.
  destruct (zget_is_Some recs p Hv) as [[k v] Hkv]. exists k, v. split; [done|]. exact (sc_key _ _ _ _ _ Ho Hkv).
Qed.

(** The current child holds the least record that is left. *)
Lemma fwd_current_ok m recss ps i :
  fwd m recss ps -> mi_current_ m = Some i ->
  exists c recs p k v, children_ m !! i = Some c /\ recss !! i = Some recs /\ ps !! i = Some p /\ over c recs p /\ 0 <= p /\
    recs !z p = Some (k, v) /\ it_key it c = Some k /\ it_value it c = Some v /\
    forall r, r ∈ pending recss ps -> Compare icmp k r.1 <= 0.
Proof.
  intros [Ho Hpos Hheap [Hn Hv] Hcur _] Hi. rewrite Hi in Hcur. symmetry in Hcur.
  assert (Hin : i ∈ data_ (minHeap_ m)) by (apply head_Some_elem_of; exact Hcur).
  apply Hv in Hin as (c & Hc & Hvc). destruct (children_at _ _ _ _ _ Ho Hc) as (recs & p & Hrecs & Hp & Hoc).
  pose proof (Forall_lookup_1 _ _ _ _ Hpos Hp) as Hp0. destruct (valid_at _ _ _ Hoc Hp0 Hvc) as (k & v & Hkv & Hk & Hval).
  exists c, recs, p, k, v. split_and!; try done. intros r (j & rj & pj & Hrj & Hpj & Hr)%elem_of_pending.
  pose proof (heap_top_max _ _ _ Hheap Hcur) as Hmax. rewrite Forall_forall in Hmax.
  destruct (Forall3_lookup_m _ _ _ _ _ _ Ho Hrj) as (cj & pj' & Hcj & Hpj' & Hocj). assert (pj' = pj) as -> by congruence.
  pose proof (Forall_lookup_1 _ _ _ _ Hpos Hpj) as Hpj0.
  apply list_elem_of_lookup in Hr as [n Hr]. rewrite lookup_drop in Hr. pose proof (lookup_lt_Some _ _ _ Hr).
  assert (Hvj : it_Valid it cj = true) by (rewrite (sc_valid _ _ _ Hocj); apply bool_decide_eq_true; zlia).
  destruct (valid_at _ _ _ Hocj Hpj0 Hvj) as (kj & vj & Hkj & Hkeyj & _).
  assert (Hj : j ∈ data_ (minHeap_ m)) by (apply Hv; eauto). specialize (Hmax j Hj).
  unfold MinIteratorComparator, iter_key in Hmax. rewrite Hc, Hcj in Hmax. simpl in Hmax. rewrite Hk, Hkeyj in Hmax. simpl in Hmax.
  apply Z.ltb_ge in Hmax. apply (cmp_trans (c := icmp) _ kj); [done|].
  apply (recs_sorted_le icmp rj pj (Z.of_nat (Z.to_nat pj + n)) (kj, vj) r (sc_sorted _ _ _ Hocj)); [done|by rewrite zget_nat|lia].
Qed.

Lemma fwd_end m recss ps : fwd m recss ps -> mi_current_ m = None -> pending recss ps = [].
Proof.
  intros [Ho Hpos _ [_ Hv] Hcur _] Hi. rewrite Hi in Hcur. destruct (pending recss ps) as [|r l] eqn:Hp; [done|].
  assert (Hr : r ∈ pending recss ps) by (rewrite Hp; set_solver). apply elem_of_pending in Hr as (j & rj & pj & Hrj & Hpj & Hr).
  destruct (Forall3_lookup_m _ _ _ _ _ _ Ho Hrj) as (cj & pj' & Hcj & Hpj' & Hocj). assert (pj' = pj) as -> by congruence.
  pose proof (Forall_lookup_1 _ _ _ _ Hpos Hpj) as Hpj0. apply list_elem_of_lookup in Hr as [n Hr]. rewrite lookup_drop in Hr.
  pose proof (lookup_lt_Some _ _ _ Hr).
  assert (Hj : j ∈ data_ (minHeap_ m)).
  { apply Hv. exists cj. split; [done|]. rewrite (sc_valid _ _ _ Hocj). apply bool_decide_eq_true. zlia. }
  unfold heap_top in Hcur. destruct (data_ (minHeap_ m)); [by apply not_elem_of_nil in Hj|done].
Qed.

(** [m] merges children that read [recss]; together they hold the records [all]. *)
Record merges m recss all : Prop := {
  mg_sorted : recs_sorted icmp all;
  mg_perm : all ≡ₚ mjoin recss;
  mg_count : len recss < kMaxSizet;
  mg_status : mi_status_ m = Status_OK;
}.

Definition merge_over m all (p : Z) : Prop :=
  exists recss ps, merges m recss all /\ Forall3 over (children_ m) recss ps /\
    ((p = -1 /\ mi_current_ m = None) \/
     (0 <= p <= len all /\ fwd m recss ps /\ drop (Z.to_nat p) all ≡ₚ pending recss ps)).

Lemma heap_empty_ok cs : heap_ok (MinIteratorComparator it icmp cs) heap_empty_ /\ holds_valid it [] heap_empty_.
Proof.
  split; [split; [|by apply cache_none]|split; [constructor|]].
  - intros i j _ a b Ha%zget_range. unfold zlen in Ha. simpl in Ha. lia.
  - intros i. split; [intros H; by apply not_elem_of_nil in H|intros (c & Hc & _); done].
Qed.

(** A seek of all children gives a forward position. *)
Lemma seek_forward_ok op (R : list (bytes * bytes) -> Z -> Prop) m recss all ps :
  (forall s recs p, over s recs p -> exists s' q, op s = Some s' /\ over s' recs q /\ R recs q) ->
  (forall recs q, R recs q -> 0 <= q) ->
  merges m recss all -> Forall3 over (children_ m) recss ps ->
  exists m' qs, seek_forward it icmp op m = Some m' /\ merges m' recss all /\ fwd m' recss qs /\ Forall2 R recss qs.
Proof.
  intros Hop HR [] Ho. unfold seek_forward. destruct (heap_empty_ok []) as [Hh Hv].
  destruct (push_children_ok it icmp over (MinIteratorComparator it icmp) (fun _ => op) R (children_ m) recss ps [] heap_empty_)
    as (cs & qs & h & -> & Ho' & HRs & Hok & Hvs); [intros _; apply Hop|done|done|done| |].
  { destruct (Forall3_length_lm _ _ _ _ Ho). simpl. unfold zlen in *. by rewrite (Forall3_length_lm _ _ _ _ Ho). }
  simpl. eexists _, qs. split_and!; [done|done| |done]. constructor; simpl; try done.
  apply Forall_forall. intros q [i Hi]%list_elem_of_lookup. destruct (Forall2_lookup_r _ _ _ _ _ HRs Hi) as (recs & _ & Hq). eauto.
Qed.

Lemma pending_zero recss qs : Forall2 (fun _ q => q = 0) recss qs -> pending recss qs = mjoin recss.
Proof. induction 1 as [|recs q recss qs -> _ IH]; [done|]. unfold pending in *. simpl. by rewrite IH. Qed.

Lemma pending_seek recss qs cs ps target :
  Forall3 over cs recss ps -> Forall2 (fun recs q => first_from icmp recs target q) recss qs ->
  pending recss qs = filter (fun r => 0 <= Compare icmp r.1 target) (mjoin recss).
Proof.
  intros Ho. revert qs. induction Ho as [|c recs p cs recss ps Hc _ IH]; intros qs Hq; inversion_clear Hq as [|??? qs' Hf Hqs]; [done|].
  unfold pending in *. simpl. rewrite (IH qs' Hqs), filter_app. f_equal. apply drop_first_from; [done|by eapply sc_sorted|done].
Qed.

Lemma merge_valid m all p : merge_over m all p -> MI_Valid m = bool_decide (0 <= p < len all).
Proof.
  intros (recss & ps & [_ _ _ Hst] & _ & Hp). unfold MI_Valid. rewrite Hst. simpl. rewrite andb_true_r.
  destruct Hp as [[-> ->]|(Hp & Hf & Hperm)].
  { rewrite !bool_decide_false; [done|lia|by intros [? ?]]. }
  destruct (mi_current_ m) as [i|] eqn:Hcur.
  - destruct (fwd_current_ok m recss ps i Hf Hcur) as (c & recs & q & k & v & _ & Hr & Hq & _ & Hq0 & Hkv & _).
    rewrite !bool_decide_true; [done| |done]. assert (Hlen := Permutation_length Hperm). rewrite length_drop in Hlen.
    rewrite (Permutation_length (pending_step _ _ _ _ _ _ Hr Hq Hkv)) in Hlen. simpl in Hlen. zlia.
  - rewrite (fwd_end m recss ps Hf Hcur) in Hperm. apply Permutation_nil_r in Hperm.
    apply (f_equal length) in Hperm. rewrite length_drop in Hperm. simpl in Hperm.
    rewrite !bool_decide_false; [done|zlia|by intros [? ?]].
Qed.

(** At a position of [all] the current child holds that record. *)
Lemma merge_current m recss ps all p k v :
  recs_sorted icmp all -> fwd m recss ps -> drop (Z.to_nat p) all ≡ₚ pending recss ps -> all !z p = Some (k, v) ->
  exists i c recs q, mi_current_ m = Some i /\ children_ m !! i = Some c /\ recss !! i = Some recs /\ ps !! i = Some q /\
    over c recs q /\ 0 <= q /\ recs !z q = Some (k, v) /\ it_key it c = Some k /\ it_value it c = Some v.
Proof.
  intros Hs Hf Hperm [Hp Hkv]%zget_Some. destruct (mi_current_ m) as [i|] eqn:Hcur.
  2: { rewrite (fwd_end m recss ps Hf Hcur) in Hperm. apply Permutation_nil_r in Hperm. by rewrite (drop_S _ _ _ Hkv) in Hperm. }
  destruct (fwd_current_ok m recss ps i Hf Hcur) as (c & recs & q & k' & v' & Hc & Hr & Hq & Ho & Hq0 & Hkv' & Hk & Hv & Hmin).
  assert (H1 : (k, v) ∈ pending recss ps) by (rewrite <- Hperm, (drop_S _ _ _ Hkv); set_solver).
  assert (H2 : (k', v') ∈ drop (Z.to_nat p) all) by (rewrite Hperm, (pending_step _ _ _ _ _ _ Hr Hq Hkv'); set_solver).
  pose proof (Hmin _ H1) as Hle. simpl in Hle. apply list_elem_of_lookup in H2 as [n Hn]. rewrite lookup_drop in Hn.
  assert (n = 0%nat) as ->.
  { destruct n as [|n]; [done|]. pose proof (StronglySorted_lookup_lt _ _ _ _ _ _ Hs (ltac:(lia) : (Z.to_nat p < Z.to_nat p + S n)%nat) Hkv Hn) as Hlt.
    simpl in Hlt. apply (cmp_lt_gt icmp) in Hlt. lia. }
  rewrite Nat.add_0_r, Hkv in Hn. injection Hn as <- <-. exists i, c, recs, q. done.
Qed.

Lemma children_move cs recss ps i c recs p :
  Forall3 over cs recss ps -> recss !! i = Some recs -> over c recs p ->
  Forall3 over (<[i := c]> cs) recss (<[i := p]> ps).
Proof.
  intros H. revert i. induction H as [|c0 r0 p0 cs recss ps Hc H IH]; intros [|i] Hr Ho; simpl in *; try done.
  - injection Hr as ->. by constructor.
  - constructor; [done|]. by apply IH.
Qed.

Lemma merge_next m all p :
  merge_over m all p -> 0 <= p < len all -> exists m', MI_Next it icmp m = Some m' /\ merge_over m' all (p + 1).
Proof.
  intros Hm Hp. pose proof (merge_valid m all p Hm) as Hval. rewrite bool_decide_true in Hval by done.
  destruct Hm as (recss & ps & Hmg & Ho & [[-> _]|(_ & Hf & Hperm)]); [lia|].
  destruct (zget_is_Some all p Hp) as [[k v] Hkv].
  destruct (merge_current m recss ps all p k v (mg_sorted _ _ _ Hmg) Hf Hperm Hkv)
    as (i & c & recs & q & Hcur & Hc & Hr & Hq & Hoc & Hq0 & Hkv' & _ & _).
  destruct (sc_next _ _ _ Hoc) as (c' & Hnext & Hoc'); [pose proof (zget_range _ _ _ Hkv'); lia|].
  pose proof Hf as [_ Hpos Hheap Hv Hcm Hdir]. unfold MI_Next. rewrite Hval, Hdir. simpl. unfold CurrentForward.
  rewrite bool_decide_true by done. rewrite Hcur in Hcm.
  destruct (move_current_ok it icmp over (MinIteratorComparator it icmp) (it_Next it) (minHeap_ m) m i c c')
    as (h' & -> & Hok' & Hv'); try done; [by eapply sc_status|by destruct Hmg| |].
  { pose proof (mg_count _ _ _ Hmg). unfold zlen in *. rewrite (Forall3_length_lm _ _ _ _ Ho). lia. }
  assert (Ho' : Forall3 over (<[i := c']> (children_ m)) recss (<[i := q + 1]> ps)).
  { by eapply children_move. }
  simpl. eexists. split; [done|]. exists recss, (<[i := q + 1]> ps). split_and!; [by destruct Hmg|done|].
  right. split_and!; [lia|lia| |].
  - constructor; simpl; try done. apply Forall_insert; [done|lia].
  - apply zget_Some in Hkv as [_ Hkv]. rewrite (drop_S _ _ _ Hkv), (pending_step _ _ _ _ _ _ Hr Hq Hkv') in Hperm.
    apply Permutation_cons_inv in Hperm. by replace (Z.to_nat (p + 1)) with (S (Z.to_nat p)) by lia.
Qed.

#[export] Instance merge_scan_laws : ScanLaws icmp (MergingIter it icmp) merge_over.
Proof.
  split; simpl.
  - intros m all p (recss & ps & [] & _). done.
  - intros m all p (recss & ps & _ & _ & [[-> _]|(Hp & _)]); [pose proof (zlen_nonneg all)|]; lia.
  - intros m all p (recss & ps & [] & _). done.
  - apply merge_valid.
  - intros m all p k v Hm Hkv. unfold MI_key, MI_value. rewrite (merge_valid m all p Hm).
    rewrite bool_decide_true by (by eapply zget_range).
    destruct Hm as (recss & ps & Hmg & _ & [[-> _]|(_ & Hf & Hperm)]); [apply zget_range in Hkv; lia|].
    destruct (merge_current m recss ps all p k v (mg_sorted _ _ _ Hmg) Hf Hperm Hkv)
      as (i & c & recs & q & -> & Hc & _ & _ & _ & _ & _ & Hk & Hv). simpl. by rewrite Hc.
  - intros m all p (recss & ps & Hmg & Ho & _).
    destruct (seek_forward_ok (it_SeekToFirst it) (fun _ q => q = 0) m recss all ps) as (m' & qs & Hseek & Hmg' & Hf & Hq); [|by intros ? ? ->|done|done|].
    { intros s recs q Hs. destruct (sc_first _ _ _ Hs) as (s' & ? & ?). eauto. }
    exists m'. split; [exact Hseek|]. exists recss, qs. split_and!; [done|by destruct Hf|]. right.
    split_and!; [done|apply zlen_nonneg|done|]. rewrite (pending_zero _ _ Hq). by destruct Hmg.
  - apply merge_next.
Qed.

#[export] Instance merge_seek_law `{!SeekLaw icmp it over} : SeekLaw icmp (MergingIter it icmp) merge_over.
Proof.
  split. simpl. intros m all p target (recss & ps & Hmg & Ho & _).
  destruct (seek_forward_ok (it_Seek it target) (fun recs q => first_from icmp recs target q) m recss all ps)
    as (m' & qs & Hseek & Hmg' & Hf & Hq); [|by intros ? ? [[? _] _]|done|done|].
  { intros s recs q Hs. destruct (sc_seek _ _ _ target Hs) as (s' & q' & ? & ? & ?). eauto. }
  destruct (first_from_exists icmp all target) as [q Hqa]; [by destruct Hmg|].
  exists m', q. split_and!; [exact Hseek| |done]. exists recss, qs. split_and!; [done|by destruct Hf|]. right.
  destruct Hqa as [Hr Hba]. split_and!; [lia|lia|done|]. rewrite (pending_seek _ _ _ _ _ Ho Hq).
  rewrite (drop_first_from icmp all target q) by (done || by destruct Hmg). by rewrite (mg_perm _ _ _ Hmg).
Qed.
End Forward.

(** ** Construction *)

Section Make.
Context {T : Type} (it : InternalIterator T) (icmp : Comparator) {Laws : ComparatorLaws icmp}.
Context (over : T -> list (bytes * bytes) -> Z -> Prop) `{!ScanLaws icmp it over}.
Implicit Types (m : MergingIterator T) (cs : list T) (recss : list (list (bytes * bytes))).

(** Children that have not been positioned. *)
Definition unpositioned cs recss : Prop := Forall2 (fun c recs => over c recs (-1)) cs recss.

Lemma unpositioned_over cs recss : unpositioned cs recss -> Forall3 over cs recss (replicate (length cs) (-1)).
Proof. induction 1; simpl; by constructor. Qed.

Lemma unpositioned_invalid c recs : over c recs (-1) -> it_Valid it c = false /\ it_status it c = Status_OK.
Proof.
  intros H. split; [|by eapply sc_status]. rewrite (sc_valid _ _ _ H). by rewrite bool_decide_false by lia.
Qed.

Lemma push_unpositioned cs recss before h :
  unpositioned cs recss ->
  push_children it (MinIteratorComparator it icmp) (fun _ c => Some c) cs before h Status_OK = Some (before ++ cs, h, Status_OK).
Proof.
  intros H. revert before. induction H as [|c recs cs recss Hc _ IH]; intros before; [by rewrite app_nil_r|].
  destruct (unpositioned_invalid c recs Hc) as [Hv Hs]. simpl. rewrite Hv, Hs. rewrite IH. by rewrite <- app_assoc.
Qed.

Lemma MergingIterator_make_ok cs recss all prefix :
  unpositioned cs recss -> recs_sorted icmp all -> all ≡ₚ mjoin recss -> len cs < kMaxSizet ->
  exists m, MergingIterator_make it icmp cs prefix = Some m /\ merge_over it icmp over m all (-1).
Proof.
  intros Hu Hs Hp Hl. unfold MergingIterator_make. rewrite (push_unpositioned cs recss [] heap_empty_ Hu). simpl. eexists. split; [done|].
  exists recss, (replicate (length cs) (-1)). split_and!; [|by apply unpositioned_over|by left].
  constructor; simpl; try done. pose proof (Forall2_length _ _ _ Hu). unfold zlen in *. lia.
Qed.

(** Adding an unpositioned iterator. *)
Definition adds m cs : Prop :=
  children_ m = cs /\ mi_current_ m = None /\ mi_status_ m = Status_OK /\ direction_ m = kForward.

Lemma MI_AddIterator_ok m cs c recs :
  adds m cs -> over c recs (-1) -> exists m', MI_AddIterator it c m = Some m' /\ adds m' (cs ++ [c]).
Proof.
  intros (<- & Hc & Hs & Hd) Ho. destruct (unpositioned_invalid c recs Ho) as [Hv Hst].
  unfold MI_AddIterator. rewrite Hd, Hv. simpl. eexists. split; [done|]. unfold adds. simpl. by rewrite Hst, Hs.
Qed.

(** What the builder holds after [cs]: one iterator as it is, or all in the merger. *)
Definition builder_holds (b : MergeIteratorBuilder (T := T)) cs : Prop :=
  match cs with
  | [] => use_merging_iter b = false /\ first_iter b = None /\ adds (merge_iter b) []
  | [c] => use_merging_iter b = false /\ first_iter b = Some c /\ adds (merge_iter b) []
  | _ => use_merging_iter b = true /\ adds (merge_iter b) cs
  end.

Lemma MB_AddIterator_ok b cs recss c recs :
  builder_holds b cs -> unpositioned cs recss -> over c recs (-1) ->
  exists b', MB_AddIterator it c b = Some b' /\ builder_holds b' (cs ++ [c]).
Proof.
  intros Hb Hu Ho. unfold MB_AddIterator. destruct cs as [|c1 [|c2 cs]]; simpl in Hb.
  - destruct Hb as (Hu' & Hf & Ha). rewrite Hu', Hf. simpl. rewrite Hu'. simpl. eexists. by split.
  - destruct Hb as (Hu' & Hf & Ha). rewrite Hu', Hf. simpl. inversion_clear Hu as [|?? ?? Hc1 _].
    destruct (MI_AddIterator_ok _ _ _ _ Ha Hc1) as (m1 & -> & Ha1). simpl.
    destruct (MI_AddIterator_ok _ _ _ _ Ha1 Ho) as (m2 & -> & Ha2). simpl. eexists. split; [done|]. done.
  - destruct Hb as (Hu' & Ha). rewrite Hu'. simpl. rewrite Hu'.
    destruct (MI_AddIterator_ok _ _ _ _ Ha Ho) as (m1 & -> & Ha1). simpl. eexists. split; [done|]. done.
Qed.
End Make.

Section MergeClaims.
Context {T : Type} (it : InternalIterator T) (icmp : Comparator) {Laws : ComparatorLaws icmp}.
Context (over : T -> list (bytes * bytes) -> Z -> Prop) `{!ScanLaws icmp it over, !SeekLaw icmp it over}.

(** C32. A merging iterator over iterators that keep the contract of InternalIterator
    keeps it too: whatever the number of children, after SeekToFirst it yields all
    records of all children in the order of their keys, after Seek those at or past
    the target, each record once, and then becomes invalid. *)
Theorem merging_iterator_correct cs recss all prefix target :
  unpositioned over cs recss -> recs_sorted icmp all -> all ≡ₚ mjoin recss -> len cs < kMaxSizet ->
  exists m m1 m2, MergingIterator_make it icmp cs prefix = Some m /\
    MI_SeekToFirst it icmp m = Some m1 /\ collect (MergingIter it icmp) (length all) m1 = Some all /\
    MI_Seek it icmp target m1 = Some m2 /\
    collect (MergingIter it icmp) (length all) m2 = Some (filter (fun r => 0 <= Compare icmp r.1 target) all).
Proof.
  intros Hu Hs Hp Hl. destruct (MergingIterator_make_ok it icmp over cs recss all prefix Hu Hs Hp Hl) as (m & Hm & Ho).
  destruct (sc_first (it := MergingIter it icmp) _ _ _ Ho) as (m1 & Hm1 & Ho1).
  destruct (sc_seek (it := MergingIter it icmp) _ _ _ target Ho1) as (m2 & q & Hm2 & Ho2 & Hq).
  exists m, m1, m2. split_and!; [done|exact Hm1| |exact Hm2|].
  - rewrite (collect_from _ icmp _ (length all) m1 all 0 Ho1) by (unfold zlen; lia). done.
  - rewrite (collect_from _ icmp _ (length all) m2 all q Ho2) by (destruct Hq; unfold zlen; lia).
    f_equal. by apply drop_first_from.
Qed.
End MergeClaims.

(** ** A small instance: iterators over lists *)

Definition list_seek (icmp : Comparator) (target : bytes) (l : list (bytes * bytes)) : Z :=
  match list_find (fun r => 0 <= Compare icmp r.1 target) l with Some (n, _) => Z.of_nat n | None => len l end.

Definition ListIter (icmp : Comparator) : InternalIterator (list (bytes * bytes) * Z) :=
  mkIter _ (fun s => bool_decide (0 <= s.2 < len s.1)) (fun s => Some (s.1, 0)) (fun s => Some (s.1, len s.1 - 1))
    (fun t s => Some (s.1, list_seek icmp t s.1)) (fun _ s => Some s) (fun s => Some (s.1, s.2 + 1)) (fun s => Some (s.1, s.2 - 1))
    (fun s => fst <$> s.1 !z s.2) (fun s => snd <$> s.1 !z s.2) (fun _ => Status_OK).

Definition list_over (icmp : Comparator) (s : list (bytes * bytes) * Z) (recs : list (bytes * bytes)) (p : Z) : Prop :=
  s = (recs, p) /\ recs_sorted icmp recs /\ -1 <= p <= len recs.

#[local] Instance list_scan_laws icmp : ScanLaws icmp (ListIter icmp) (list_over icmp).
Proof.
  split; simpl; intros s recs p; try by intros (-> & ? & ?).
  - intros k v (-> & _ & _) Hkv. simpl. by rewrite Hkv.
  - intros (-> & Hs & Hp). eexists. split; [done|]. split_and!; [done|done|lia|apply zlen_nonneg].
  - intros (-> & Hs & Hp) Hlt. eexists. split; [done|]. split_and!; [done|done|simpl; lia|simpl; lia].
Qed.

#[local] Instance list_seek_law icmp : SeekLaw icmp (ListIter icmp) (list_over icmp).
Proof.
  split. intros s recs p target (-> & Hs & Hp). simpl. eexists _, (list_seek icmp target recs).
  assert (Hf : first_from icmp recs target (list_seek icmp target recs)).
  { unfold list_seek. destruct (list_find _ recs) as [[n r]|] eqn:E.
    - apply list_find_Some in E as (Hn & Hr & Hb). pose proof (lookup_lt_Some _ _ _ Hn).
      split_and!; [lia|zlia|intros j r' [? Hj]%zget_Some Hlt; specialize (Hb _ _ Hj ltac:(lia)); lia|].
      intros r'. rewrite zget_nat. congruence.
    - apply list_find_None in E. split_and!; [apply zlen_nonneg|done| |intros r' H%zget_range; lia].
      intros j r' [? Hj]%zget_Some _. rewrite Forall_forall in E. apply list_elem_of_lookup_2, E in Hj. lia. }
  split_and!; [done| |done]. destruct Hf as [Hr _]. split_and!; [done|done|lia|lia].
Qed.

Lemma merging_iterator_correct_witness :
  exists m m1, MergingIterator_make (ListIter BytewiseComparator) BytewiseComparator
      [([([Byte.x61], []); ([Byte.x63], [])], -1); ([([Byte.x62], [])], -1)] false = Some m /\
    MI_SeekToFirst (ListIter BytewiseComparator) BytewiseComparator m = Some m1 /\
    collect (MergingIter (ListIter BytewiseComparator) BytewiseComparator) 3 m1 =
      Some [([Byte.x61], []); ([Byte.x62], []); ([Byte.x63], [])].
Proof.
  destruct (merging_iterator_correct (ListIter BytewiseComparator) BytewiseComparator (list_over BytewiseComparator)
    [([([Byte.x61], []); ([Byte.x63], [])], -1); ([([Byte.x62], [])], -1)]
    [[([Byte.x61], []); ([Byte.x63], [])]; [([Byte.x62], [])]]
    [([Byte.x61], []); ([Byte.x62], []); ([Byte.x63], [])] false [Byte.x62]) as (m & m1 & _ & Hm & H1 & Hc & _).
  - repeat constructor; by vm_compute.
  - repeat constructor; by vm_compute.
  - simpl. constructor. constructor.
  - by vm_compute.
  - exists m, m1. split; [exact Hm|split; [exact H1|exact Hc]].
Defined.
