(* ===== verification/NvmCf.v ===== *)
(** * The NVM module of a column family (utilities/nvm_mod/nvm_cf_mod.h, nvm_cf_mod.cc)

    [NvmCfModule] joins the slot pool and the table metadata: room for a new table,
    deletion, point lookup through the level-0 tables with the cross-table hints, and
    recovery.  A version's level 0 is the list of its [FileMetaData], newest first. *)

From S2P Require Import Prelude Coding Comparator DbFormat VersionEdit NvmAlloc SstableMeta L0Table.

(** The options the module reads (include/rocksdb/nvm_option.h). *)
Record NvmCfOptions := mkNvmOpt {
  use_nvm_module : bool;
  pmem_path : bytes;
  Level0_column_compaction_trigger_size : Z;
  Level0_column_compaction_slowdown_size : Z;
  Level0_column_compaction_stop_size : Z;
  Column_compaction_no_L1_select_L0 : Z;
  Column_compaction_have_L1_select_L0 : Z;
  nvm_write_buffer_size : Z;
  nvm_max_write_buffer_number : Z;
  nvm_level0_stop_writes_trigger : Z;
  nvm_target_file_size_base : Z;
}.

(** The setup the user gives (struct NvmSetup). *)
Record NvmSetup := mkSetup {
  su_use_nvm_module : bool;
  su_pmem_path : bytes;
  su_trigger_size : Z;
  su_slowdown_size : Z;
  su_stop_size : Z;
  su_no_L1_select_L0 : Z;
  su_have_L1_select_L0 : Z;
}.

Definition NvmCfOptions_make (setup : NvmSetup) (write_buffer_size max_write_buffer_number
    level0_stop_writes_trigger target_file_size_base : Z) : NvmCfOptions :=
  mkNvmOpt (su_use_nvm_module setup) (su_pmem_path setup) (su_trigger_size setup)
    (su_slowdown_size setup) (su_stop_size setup) (su_no_L1_select_L0 setup)
    (su_have_L1_select_L0 setup) write_buffer_size max_write_buffer_number
    level0_stop_writes_trigger target_file_size_base.

Record NvmCfModule := mkNvmCf {
  sst_meta_ : SstableMetadata;
  ptr_sst_ : PersistentSstable;
  open_by_creat_ : bool;
}.

Definition level0_table_num (o : NvmCfOptions) : Z :=
  wrap64 (wrap64 (Level0_column_compaction_stop_size o / nvm_write_buffer_size o + 1) * 2).

(** [exists_] is whether the pool file [pol_path] was there before; [None] for a
    failed mapping or a division by a zero write buffer size. *)
Definition NvmCfModule_make `{Pmem} (o : NvmCfOptions) (pol_path : bytes) (exists_ : bool)
  : option NvmCfModule :=
  if nvm_write_buffer_size o =? 0 then None
  else
    sst ← PersistentSstable_make pol_path (wrap64 (nvm_write_buffer_size o + 8 * 1024 * 1024))
            (level0_table_num o);
    Some (mkNvmCf SstableMetadata_make sst (negb exists_)).

Definition cf_set (m : SstableMetadata) (p : PersistentSstable) (cf : NvmCfModule) : NvmCfModule :=
  mkNvmCf m p (open_by_creat_ cf).

(** The slot address and the file entry, [None] inside when no slot is free. *)
Definition AddL0TableRoom (cf : NvmCfModule) (filenum : Z) : option (option (Z * nat) * NvmCfModule) :=
  '(r, sst) ← AllocSstable (ptr_sst_ cf);
  match r with
  | None => Some (None, cf_set (sst_meta_ cf) sst cf)
  | Some (tmp, index) =>
      if index =? -1 then Some (None, cf_set (sst_meta_ cf) sst cf)
      else
        let '(filetmp, meta) := SstableMetadata_AddFile (sst_meta_ cf) filenum index in
        Some (Some (tmp, filetmp), cf_set meta sst cf)
  end.

Definition DeleteL0file (cf : NvmCfModule) (filenumber : Z) : option NvmCfModule :=
  tmp ← FindFile (sst_meta_ cf) filenumber true;
  match tmp with
  | None => Some cf
  | Some p =>
      fe ← fheap (sst_meta_ cf) !! p;
      sst ← DeleteSstable (ptr_sst_ cf) (sstable_index fe);
      meta ← DeteleFile (sst_meta_ cf) filenumber;
      Some (cf_set meta sst cf)
  end.

(** ** Lookup *)

Section Lookup.
Context (ucmp : Comparator).

(** -1, 0 or 1 as the user key is below, in or above the range. *)
Definition UserKeyCompareRange (user_key start end_ : bytes) : Z :=
  if Compare ucmp user_key (ExtractUserKey start) <? 0 then -1
  else if 0 <? Compare ucmp user_key (ExtractUserKey end_) then 1
  else 0.

Definition UserKeyInRange (user_key start end_ : bytes) : bool :=
  negb ((Compare ucmp user_key (ExtractUserKey start) <? 0) ||
        (0 <? Compare ucmp user_key (ExtractUserKey end_))).

(** The loop: [inl mid] when the key is found, [inr (left, right)] when it is not.
    The interval shrinks in every round, so its size is fuel enough.  Sums are those of
    [int]. *)
Fixpoint BinarySearch_loop (keys : list KeysMetadata) (user_key : bytes) (fuel : nat)
    (left right : Z) : option (Z + Z * Z) :=
  if left <=? right then
    match fuel with
    | O => None
    | S fuel =>
        let mid := Z.quot (i32 (left + right)) 2 in
        k ← keys !z mid;
        let compare_result := Compare ucmp (ExtractUserKey (km_key k)) user_key in
        if 0 <? compare_result then BinarySearch_loop keys user_key fuel left (i32 (mid - 1))
        else if compare_result <? 0 then BinarySearch_loop keys user_key fuel (i32 (mid + 1)) right
        else Some (inl mid)
    end
  else Some (inr (left, right)).

(** A hint is used when it is a visible position of this table. *)
Definition hint_or (hint default first_key_index keys_num : Z) : Z :=
  if (first_key_index <=? hint) && (hint <? keys_num) then hint else default.

(** [inl find_index], or [inr (pre_left, pre_right)] as they are left for the caller. *)
Definition BinarySearchInFile (file : FileEntry) (first_key_index : Z) (user_key : bytes)
    (pre_left pre_right : Z) : option (Z + Z * Z) :=
  let n := i32 (keys_num file) in
  let left := hint_or pre_left first_key_index first_key_index n in
  let right := hint_or pre_right (i32 (keys_num file - 1)) first_key_index n in
  r ← BinarySearch_loop (keys_meta file) user_key (Z.to_nat (right - left + 1)) left right;
  Some (match r with inl mid => inl mid | inr (l, r) => inr (r, l) end).

(** The loop of [Get] over the tables found and their first visible keys: the table
    and position of the key, or [None] when no table has it. *)
Fixpoint Get_loop (files : list (FileEntry * Z)) (user_key : bytes)
    (pre_left pre_right next_file_num : Z) : option (option (FileEntry * Z)) :=
  match files with
  | [] => Some None
  | (file, first) :: files =>
      let '(pre_left, pre_right) :=
        if negb (next_file_num =? filenum file) then (-1, -1) else (pre_left, pre_right) in
      start ← keys_meta file !z first;
      last ← keys_meta file !z (wrap64 (keys_num file - 1));
      let com_result := UserKeyCompareRange user_key (km_key start) (km_key last) in
      if com_result =? 0 then
        r ← BinarySearchInFile file (i32 first) user_key pre_left pre_right;
        match r with
        | inl find_index => Some (Some (file, find_index))
        | inr (pre_left, pre_right) =>
            let n := i32 (keys_num file) in
            pre_left ← (if (i32 first <=? pre_left) && (pre_left <? n)
                        then k ← keys_meta file !z pre_left; Some (i32 (km_next k - 1))
                        else Some pre_left);
            pre_right ← (if (i32 first <=? pre_right) && (pre_right <? n)
                         then k ← keys_meta file !z pre_right; Some (km_next k)
                         else Some pre_right);
            Get_loop files user_key pre_left pre_right (key_point_filenum file)
        end
      else if com_result <? 0 then
        Get_loop files user_key (-1) (km_next start) (key_point_filenum file)
      else
        Get_loop files user_key (i32 (km_next last - 1)) (-1) (key_point_filenum file)
  end.

(** The value, [None] inside when the key is in no level-0 table. *)
Definition NvmCf_Get (cf : NvmCfModule) (L0files : list FileMetaData) (lkey : LookupKey)
  : option (option bytes) :=
  findfiles ← GetL0Files (sst_meta_ cf) L0files;
  files ← mapM (fun p => fheap (sst_meta_ cf) !! p) findfiles;
  r ← Get_loop (zip files (f_first_key_index <$> L0files)) (lk_user_key lkey) (-1) (-1) 0;
  match r with
  | None => Some None
  | Some (file, find_index) =>
      data_addr ← GetIndexPtr (ptr_sst_ cf) (sstable_index file);
      value ← GetValueInFile (raw_ (ptr_sst_ cf)) data_addr file find_index;
      Some (Some value)
  end.
End Lookup.

(** ** Recovery *)

(** One round of [RecoverFromStorageInfo]. *)
Definition RecoverFile (cf : NvmCfModule) (f : FileMetaData) : option NvmCfModule :=
  tmp ← FindFile (sst_meta_ cf) (GetNumber (f_fd f)) true;
  match tmp with
  | Some _ => Some cf
  | None =>
      sst ← RecoverAddSstable (ptr_sst_ cf) (f_nvm_sstable_index f);
      let '(p, meta) :=
        SstableMetadata_AddFile (sst_meta_ cf) (GetNumber (f_fd f)) (f_nvm_sstable_index f) in
      file_ptr ← GetIndexPtr sst (f_nvm_sstable_index f);
      buf ← mem_read (raw_ sst) (file_ptr + f_raw_file_size f) (f_nvm_meta_size f);
      keys ← recover_keys buf (Z.to_nat (f_keys_num f)) 0;
      Some (cf_set (store_entry meta p
              (mkFE (GetNumber (f_fd f)) (f_nvm_sstable_index f) keys (f_keys_num f)
                 (f_key_point_filenum f))) sst cf)
  end.

(** The oldest table first, so that the list ends up newest first. *)
Definition RecoverFromStorageInfo (cf : NvmCfModule) (L0files : list FileMetaData)
  : option NvmCfModule :=
  if len L0files =? 0 then Some cf
  else if open_by_creat_ cf then Some cf
  else foldl (fun acc f => cf ← acc; RecoverFile cf f) (Some cf) (reverse L0files).

(** ** Binary search in one table *)

Section Search.
Context (ucmp : Comparator) {Laws : ComparatorLaws ucmp}.
Implicit Types (keys : list KeysMetadata) (u : bytes) (k : KeysMetadata).

Abbreviation icmp := (InternalKeyComparator ucmp).
Definition ukey k : bytes := ExtractUserKey (km_key k).

(** The keys at the positions from [a] up to [b] are below, or above, [u]. *)
Definition all_below keys u (a b : Z) : Prop :=
  forall j k, a <= j < b -> keys !z j = Some k -> Compare ucmp (ukey k) u < 0.
Definition all_above keys u (a b : Z) : Prop :=
  forall j k, a <= j < b -> keys !z j = Some k -> 0 < Compare ucmp (ukey k) u.

Lemma keys_user_le keys i j a b :
  keys_sorted icmp keys -> i <= j -> keys !z i = Some a -> keys !z j = Some b ->
  Compare ucmp (ukey a) (ukey b) <= 0.
Proof.
  intros Hs Hij [Hi Ha]%zget_Some [Hj Hb]%zget_Some. destruct (decide (i = j)) as [->|Hne].
  - assert (a = b) as -> by congruence. rewrite (cmp_refl ucmp). lia.
  - apply icmp_le_user. apply Z.lt_le_incl.
    exact (StronglySorted_lookup_lt _ _ (Z.to_nat i) (Z.to_nat j) _ _ Hs ltac:(lia) Ha Hb).
Qed.

Lemma below_from keys u m k a :
  keys_sorted icmp keys -> keys !z m = Some k -> Compare ucmp (ukey k) u < 0 ->
  all_below keys u a (m + 1).
Proof.
  intros Hs Hm Hlt j k' Hj Hk'. eapply (cmp_le_lt_trans ucmp); [|exact Hlt].
  by eapply (keys_user_le keys j m); [|lia|..].
Qed.

Lemma above_from keys u m k b :
  keys_sorted icmp keys -> keys !z m = Some k -> 0 < Compare ucmp (ukey k) u ->
  all_above keys u m b.
Proof.
  intros Hs Hm Hgt j k' Hj Hk'. apply (cmp_lt_gt ucmp). apply (cmp_lt_gt ucmp) in Hgt.
  eapply (cmp_lt_le_trans ucmp); [exact Hgt|]. by eapply (keys_user_le keys m j); [|lia|..].
Qed.

(** What a search over the visible positions from [first] returns. *)
Definition search_ok keys u (first : Z) (r : Z + Z * Z) : Prop :=
  match r with
  | inl m => first <= m < len keys /\ exists k, keys !z m = Some k /\ Compare ucmp (ukey k) u = 0
  | inr (l, r) => l = r + 1 /\ first <= l <= len keys /\
                  all_below keys u first l /\ all_above keys u l (len keys)
  end.

Lemma BinarySearch_loop_ok keys u first fuel left right :
  keys_sorted icmp keys -> len keys <= 2 ^ 30 -> 0 <= first <= left -> left <= right + 1 -> right < len keys ->
  right - left + 1 <= Z.of_nat fuel ->
  all_below keys u first left -> all_above keys u (right + 1) (len keys) ->
  exists r, BinarySearch_loop ucmp keys u fuel left right = Some r /\ search_ok keys u first r.
Proof.
  intros Hs Hc. revert left right. induction fuel as [|fuel IH]; intros left right Hf Hlr Hr Hfu Hb Ha; simpl;
    (destruct (Z.leb_spec left right);
     [|eexists; split; [done|]; simpl; replace left with (right + 1) in * by lia; split_and!; (done || lia)]).
  { lia. }
  assert (Hmid : left <= Z.quot (left + right) 2 <= right).
  { rewrite Z.quot_div_nonneg by lia. split; [apply Z.div_le_lower_bound|apply Z.div_le_upper_bound]; lia. }
  rewrite (i32_id (left + right)) by lia. set (mid := Z.quot (left + right) 2) in *. rewrite !i32_id by lia.
  destruct (zget_is_Some keys mid) as [k Hk]; [lia|]. rewrite Hk. simpl. fold (ukey k).
  destruct (Z.ltb_spec 0 (Compare ucmp (ukey k) u)); [|destruct (Z.ltb_spec (Compare ucmp (ukey k) u) 0)].
  - apply IH; [lia..|done|]. replace (mid - 1 + 1) with mid by lia. by eapply above_from.
  - apply IH; [lia..| |done]. by eapply below_from.
  - eexists. split; [done|]. simpl. split; [lia|]. exists k. split; [done|lia].
Qed.

(** A hint for the left (right) bound is sound when it is not a visible position or
    its key is below (above) the user key. *)
Definition left_hint keys u (first h : Z) : Prop :=
  first <= h < len keys -> forall k, keys !z h = Some k -> Compare ucmp (ukey k) u < 0.
Definition right_hint keys u (first h : Z) : Prop :=
  first <= h < len keys -> forall k, keys !z h = Some k -> 0 < Compare ucmp (ukey k) u.

Lemma left_bound keys u first pl :
  keys_sorted icmp keys -> 0 <= first < len keys -> left_hint keys u first pl ->
  let l := hint_or pl first first (len keys) in
  first <= l < len keys /\ all_below keys u first l /\
  (l = first \/ all_below keys u first (l + 1)).
Proof.
  intros Hs Hf Hpl. unfold hint_or.
  destruct (Z.leb_spec first pl), (Z.ltb_spec pl (len keys)); simpl;
    try (split_and!; [lia|lia|intros j k ?; lia|by left]).
  destruct (zget_is_Some keys pl) as [k Hk]; [lia|].
  assert (Hb : all_below keys u first (pl + 1)) by (eapply below_from; [done|done|by apply Hpl]).
  split_and!; [lia|lia| |by right]. intros j k' Hj. apply Hb. lia.
Qed.

Lemma right_bound keys u first pr :
  keys_sorted icmp keys -> 0 <= first < len keys -> right_hint keys u first pr ->
  let r := hint_or pr (len keys - 1) first (len keys) in
  first <= r < len keys /\ all_above keys u (r + 1) (len keys) /\
  (r = len keys - 1 \/ all_above keys u r (len keys)).
Proof.
  intros Hs Hf Hpr. unfold hint_or.
  destruct (Z.leb_spec first pr), (Z.ltb_spec pr (len keys)); simpl;
    try (split_and!; [lia|lia|intros j k ?; lia|by left]).
  destruct (zget_is_Some keys pr) as [k Hk]; [lia|].
  assert (Ha : all_above keys u pr (len keys)) by (eapply above_from; [done|done|by apply Hpr]).
  split_and!; [lia|lia| |by right]. intros j k' Hj. apply Ha. lia.
Qed.

Lemma BinarySearchInFile_ok fe u first pl pr :
  keys_sorted icmp (keys_meta fe) -> entry_wf fe -> 0 <= first < len (keys_meta fe) ->
  len (keys_meta fe) <= 2 ^ 30 ->
  left_hint (keys_meta fe) u first pl -> right_hint (keys_meta fe) u first pr ->
  exists r, BinarySearchInFile ucmp fe first u pl pr = Some r /\
    search_ok (keys_meta fe) u first
      (match r with inl m => inl m | inr (pl, pr) => inr (pr, pl) end).
Proof.
  intros Hs Hwf Hf Hlen Hpl Hpr. unfold BinarySearchInFile. rewrite Hwf, !i32_id by lia.
  destruct (left_bound _ _ _ _ Hs Hf Hpl) as (Hl & Hlb & Hl').
  destruct (right_bound _ _ _ _ Hs Hf Hpr) as (Hr & Hra & Hr').
  set (l := hint_or pl _ _ _) in *. set (r := hint_or pr _ _ _) in *. set (keys := keys_meta fe) in *.
  assert (l <= r).
  { destruct Hl' as [->|Hl']; [lia|]. destruct Hr' as [->|Hr']; [lia|].
    destruct (Z.le_gt_cases l r); [done|]. destruct (zget_is_Some keys r) as [k Hk]; [lia|].
    specialize (Hl' r k ltac:(lia) Hk). specialize (Hr' r k ltac:(lia) Hk). lia. }
  destruct (BinarySearch_loop_ok keys u first (Z.to_nat (r - l + 1)) l r) as (res & -> & Hres);
    [done|done|lia..|done|done|].
  simpl. destruct res as [m|[a b]]; eexists; (split; [done|exact Hres]).
Qed.
End Search.

(** ** Lookup through the tables *)

Section GetLoop.
Context (ucmp : Comparator) {Laws : ComparatorLaws ucmp}.
Implicit Types (u : bytes) (fe old : FileEntry) (files : list (FileEntry * Z)).

Abbreviation icmp := (InternalKeyComparator ucmp).

(** A table with its first visible key. *)
Record table_ok (ff : FileEntry * Z) : Prop := {
  tk_sorted : keys_sorted icmp (keys_meta ff.1);
  tk_wf : entry_wf ff.1;
  tk_first : 0 <= ff.2 < len (keys_meta ff.1);
  tk_count : len (keys_meta ff.1) <= 2 ^ 30;
  tk_next : Forall (fun k => int_range (km_next k)) (keys_meta ff.1);
}.

(** The table shows a key with user key [u]. *)
Definition has_key u (ff : FileEntry * Z) : Prop :=
  exists j k, ff.2 <= j /\ keys_meta ff.1 !z j = Some k /\ Compare ucmp (ukey k) u = 0.

(** The hints of [fe] are right for [old] when they are meant for it. *)
Definition hints_between fe old : Prop :=
  key_point_filenum fe = filenum old ->
  forall j k, keys_meta fe !z j = Some k -> hint_sound icmp (keys_meta old) (km_key k) (km_next k).

Lemma left_hint_next old u k first :
  0 <= first -> len (keys_meta old) <= 2 ^ 30 -> int_range (km_next k) -> Compare ucmp (ukey k) u < 0 ->
  hint_sound icmp (keys_meta old) (km_key k) (km_next k) -> left_hint ucmp (keys_meta old) u first (i32 (km_next k - 1)).
Proof.
  intros Hf Hc Hn Hlt Hh Hr o [Ho0 Ho]%zget_Some. unfold int_range in Hn.
  destruct (decide (km_next k = - 2 ^ 31)) as [E|]; 
    [rewrite E in Hr; change (i32 (- 2 ^ 31 - 1)) with (2 ^ 31 - 1) in Hr; lia|].
  rewrite i32_id in Hr, Ho0, Ho by lia. destruct Hh as [_ Hall]; [lia|].
  specialize (Hall (Z.to_nat (km_next k - 1)) o ltac:(lia) Ho).
  eapply (cmp_le_lt_trans ucmp); [|exact Hlt]. apply icmp_le_user. lia.
Qed.

Lemma right_hint_next old u k first :
  0 <= first -> 0 < Compare ucmp (ukey k) u -> hint_sound icmp (keys_meta old) (km_key k) (km_next k) ->
  right_hint ucmp (keys_meta old) u first (km_next k).
Proof.
  intros Hf Hgt Hh Hr o [Ho0 Ho]%zget_Some. destruct Hh as [(o' & Ho' & Hge) _]; [lia|].
  assert (o' = o) as -> by congruence.
  apply (cmp_lt_gt ucmp). apply (cmp_lt_gt ucmp) in Hgt.
  eapply (cmp_lt_le_trans ucmp); [exact Hgt|]. apply icmp_le_user.
  apply (cmp_le_ge (InternalKeyComparator ucmp)). exact Hge.
Qed.

Lemma hint_out keys u first h :
  h < 0 -> 0 <= first -> left_hint ucmp keys u first h /\ right_hint ucmp keys u first h.
Proof. intros. split; intros ?; lia. Qed.

(** The hints the next table is entered with. *)
Definition entry_hints files u (pl pr nf : Z) : Prop :=
  match files with
  | [] => True
  | (fe, first) :: _ => nf = filenum fe ->
      left_hint ucmp (keys_meta fe) u first pl /\ right_hint ucmp (keys_meta fe) u first pr
  end.

Fixpoint chained files : Prop :=
  match files with
  | [] => True
  | (fe, _) :: files =>
      match files with (old, _) :: _ => hints_between fe old | [] => True end /\ chained files
  end.

(** The result of a lookup: a position of the key in the first table that shows it. *)
Definition get_ok files u (r : option (FileEntry * Z)) : Prop :=
  match r with
  | Some (fe, m) =>
      exists i first k, files !! i = Some (fe, first) /\ first <= m /\
        keys_meta fe !z m = Some k /\ Compare ucmp (ukey k) u = 0 /\
        forall i' ff, (i' < i)%nat -> files !! i' = Some ff -> ~ has_key u ff
  | None => forall ff, ff ∈ files -> ~ has_key u ff
  end.

Lemma get_ok_cons ff files u r : ~ has_key u ff -> get_ok files u r -> get_ok (ff :: files) u r.
Proof.
  intros Hno. destruct r as [[fe m]|]; simpl.
  - intros (i & first & k & Hi & Hm & Hk & Hc & Hlt). exists (S i), first, k. split_and!; [done..|].
    intros [|i'] ff' Hi'; simpl; [by intros [= <-]|]. apply Hlt. lia.
  - intros H ff' [->|]%elem_of_cons; auto.
Qed.

(** A bound for the next table: none, or taken from a key of this one. *)
Definition left_from fe u (h : Z) : Prop :=
  h < 0 \/ exists j k, int_range (km_next k) /\ keys_meta fe !z j = Some k /\ Compare ucmp (ukey k) u < 0 /\ h = i32 (km_next k - 1).
Definition right_from fe u (h : Z) : Prop :=
  h < 0 \/ exists j k, keys_meta fe !z j = Some k /\ 0 < Compare ucmp (ukey k) u /\ h = km_next k.

Lemma entry_hints_from fe first files u pl pr :
  chained ((fe, first) :: files) -> Forall table_ok files -> left_from fe u pl -> right_from fe u pr ->
  entry_hints files u pl pr (key_point_filenum fe).
Proof.
  intros [Hch _] Hfiles Hl Hr. destruct files as [|[old first'] files]; [done|]. intros Heq.
  inversion_clear Hfiles as [|?? [_ _ Hf Hc _] _]. simpl in Hf, Hc. split.
  - destruct Hl as [?|(j & k & Hn & Hk & Hlt & ->)]; [apply hint_out; lia|].
    apply left_hint_next; [lia|done|done|done|by eapply Hch].
  - destruct Hr as [?|(j & k & Hk & Hlt & ->)]; [apply hint_out; lia|].
    apply right_hint_next; [lia|done|by eapply Hch].
Qed.

Lemma no_key_all fe first u l :
  first <= l -> all_below ucmp (keys_meta fe) u first l ->
  all_above ucmp (keys_meta fe) u l (len (keys_meta fe)) -> ~ has_key u (fe, first).
Proof.
  intros Hl Hb Ha (j & k & Hj & Hk & He). simpl in *. pose proof (zget_range _ _ _ Hk).
  destruct (Z.lt_ge_cases j l); [specialize (Hb j k ltac:(lia) Hk)|specialize (Ha j k ltac:(lia) Hk)]; lia.
Qed.

(** One table: it decides the lookup, or shows no such key and passes on sound hints. *)
Lemma get_table fe first files u pl pr :
  table_ok (fe, first) ->
  left_hint ucmp (keys_meta fe) u first pl -> right_hint ucmp (keys_meta fe) u first pr ->
  (exists m k, Get_loop ucmp ((fe, first) :: files) u pl pr (filenum fe) = Some (Some (fe, m)) /\
     first <= m /\ keys_meta fe !z m = Some k /\ Compare ucmp (ukey k) u = 0) \/
  (exists pl' pr', Get_loop ucmp ((fe, first) :: files) u pl pr (filenum fe) =
     Get_loop ucmp files u pl' pr' (key_point_filenum fe) /\
     ~ has_key u (fe, first) /\ left_from fe u pl' /\ right_from fe u pr').
Proof.
  intros [Hs Hwf Hf Hc Hn] Hpl Hpr. simpl in *.
  assert (Hnext : forall j k, keys_meta fe !z j = Some k -> int_range (km_next k)).
  { intros j k [_ Hk]%zget_Some. rewrite Forall_lookup in Hn. by eapply Hn. } rewrite Z.eqb_refl. simpl.
  destruct (zget_is_Some (keys_meta fe) first Hf) as [start Hst]. rewrite Hst. simpl.
  rewrite Hwf, (wrap_id 64), !i32_id by lia.
  destruct (zget_is_Some (keys_meta fe) (len (keys_meta fe) - 1)) as [last Hla]; [lia|]. rewrite Hla. simpl.
  unfold UserKeyCompareRange. fold (ukey start). fold (ukey last).
  destruct (Z.ltb_spec (Compare ucmp u (ukey start)) 0) as [Hlt|Hge]; [|destruct (Z.ltb_spec 0 (Compare ucmp u (ukey last))) as [Hgt|Hle]]; simpl.
  - apply (cmp_lt_gt ucmp) in Hlt. right. do 2 eexists. split_and!; [done| |by left|right; eauto].
    apply (no_key_all fe first u first); [lia|intros ? ? ?; lia|by eapply above_from].
  - apply (cmp_lt_gt ucmp) in Hgt. right. do 2 eexists. split_and!; [done| |right; do 2 eexists; split_and!; [by eapply Hnext|done|done|done]|by left].
    apply (no_key_all fe first u (len (keys_meta fe))); [lia| |intros ? ? ?; lia].
    replace (len (keys_meta fe)) with (len (keys_meta fe) - 1 + 1) by lia. by eapply below_from.
  - destruct (BinarySearchInFile_ok ucmp fe u first pl pr) as (r & -> & Hr); try done. simpl.
    destruct r as [m|[pl' pr']].
    { left. destruct Hr as (Hm & k & Hk & He). exists m, k. split_and!; (done || lia). }
    right. destruct Hr as (-> & Hlr & Hb & Ha).
    assert (first <= pl').
    { destruct (Z.le_gt_cases first pl'); [done|]. apply (cmp_le_ge ucmp) in Hge.
      specialize (Ha first start ltac:(lia) Hst). lia. }
    assert (pl' + 1 < len (keys_meta fe)).
    { destruct (Z.lt_ge_cases (pl' + 1) (len (keys_meta fe))); [done|]. apply (cmp_le_ge ucmp) in Hle.
      specialize (Hb _ last ltac:(split; [|instantiate (1 := len (keys_meta fe) - 1)]; lia) Hla). lia. }
    destruct (zget_is_Some (keys_meta fe) pl') as [kl Hkl]; [lia|].
    destruct (zget_is_Some (keys_meta fe) (pl' + 1)) as [kr Hkr]; [lia|].
    exists (i32 (km_next kl - 1)), (km_next kr). split_and!.
    + replace ((first <=? pl') && (pl' <? len (keys_meta fe))) with true by lia.
      replace ((first <=? pl' + 1) && (pl' + 1 <? len (keys_meta fe))) with true by lia.
      rewrite Hkl, Hkr. done.
    + by apply (no_key_all fe first u (pl' + 1)); [lia|..].
    + right. exists pl', kl. split_and!; [by eapply Hnext|done|apply (Hb pl'); [lia|done]|done].
    + right. exists (pl' + 1), kr. split_and!; [done|apply (Ha (pl' + 1)); [lia|done]|done].
Qed.

Lemma Get_loop_reset fe first files u pl pr nf :
  nf <> filenum fe ->
  Get_loop ucmp ((fe, first) :: files) u pl pr nf =
  Get_loop ucmp ((fe, first) :: files) u (-1) (-1) (filenum fe).
Proof. intros H. simpl. apply Z.eqb_neq in H. rewrite H, Z.eqb_refl. done. Qed.

(** Whatever is found is found in one of the tables. *)
Lemma Get_loop_file files u pl pr nf fe m :
  Get_loop ucmp files u pl pr nf = Some (Some (fe, m)) -> exists i first, files !! i = Some (fe, first).
Proof.
  revert pl pr nf. induction files as [|[fe' first'] files IH]; intros pl pr nf H; [done|].
  assert (Hrec : forall a b c, Get_loop ucmp files u a b c = Some (Some (fe, m)) -> exists i first, ((fe', first') :: files) !! i = Some (fe, first)).
  { intros a b c (i & first & Hi)%IH. by exists (S i), first. }
  cbn [Get_loop] in H. destruct (if _ : bool then _ else _) as [pl' pr']. inv_bind H. inv_bind H.
  destruct (_ =? 0); [|by destruct (_ <? 0); eapply Hrec]. inv_bind H. destruct x1 as [j|[l r]].
  - injection H as -> _. by exists 0%nat, first'.
  - inv_bind H. inv_bind H. by eapply Hrec.
Qed.

Lemma Get_loop_ok files u pl pr nf :
  Forall table_ok files -> chained files -> entry_hints files u pl pr nf ->
  exists r, Get_loop ucmp files u pl pr nf = Some r /\ get_ok files u r.
Proof.
  intros Hfiles. revert pl pr nf. induction Hfiles as [|[fe first] files Ht Hfiles IH]; intros pl pr nf Hch Hh.
  { exists None. split; [done|]. intros ff Hff. by apply elem_of_nil in Hff. }
  assert (exists pl0 pr0, Get_loop ucmp ((fe, first) :: files) u pl pr nf =
    Get_loop ucmp ((fe, first) :: files) u pl0 pr0 (filenum fe) /\
    left_hint ucmp (keys_meta fe) u first pl0 /\ right_hint ucmp (keys_meta fe) u first pr0)
    as (pl0 & pr0 & -> & Hpl & Hpr).
  { destruct (decide (nf = filenum fe)) as [->|Hne]; [destruct (Hh eq_refl); eauto|].
    exists (-1), (-1). split; [by apply Get_loop_reset|]. apply hint_out; [lia|by destruct Ht; simpl in *; lia]. }
  destruct (get_table fe first files u pl0 pr0 Ht Hpl Hpr) as
    [(m & k & -> & Hm & Hk & He)|(pl' & pr' & -> & Hno & Hl & Hr)].
  - exists (Some (fe, m)). split; [done|]. exists 0%nat, first, k. split_and!; (done || lia).
  - destruct (IH pl' pr' (key_point_filenum fe)) as (r & Hr' & Hok).
    + by destruct Hch.
    + by eapply entry_hints_from.
    + exists r. split; [done|]. by apply get_ok_cons.
Qed.
End GetLoop.

(** ** The module as a list of tables

    The abstract state: the number and the records of each table, newest first. *)

Abbreviation records := (list (bytes * bytes)).

Section Module.
Context (ucmp : Comparator) {Laws : ComparatorLaws ucmp}.
Implicit Types (cf : NvmCfModule) (db : list (Z * records)) (fe : FileEntry).

Abbreviation icmp := (InternalKeyComparator ucmp).

(** The entry [fe] and its slot of the pool hold the table [t]. *)
Record table_in (p : PersistentSstable) fe (t : Z * records) : Prop := {
  ti_number : filenum fe = t.1;
  ti_layout : entry_keys (keys_meta fe) = layout 0 t.2;
  ti_sorted : keys_sorted icmp (keys_meta fe);
  ti_data : mem_read (raw_ p) (sstable_index fe * each_size_ p) (len (table_data t.2)) =
            Some (table_data t.2);
  ti_size : len (table_data t.2) < 2 ^ 62;
  ti_meta : keys_meta fe <> [] ->
    mem_read (raw_ p) (sstable_index fe * each_size_ p + len (table_data t.2)) (meta_size t.2) =
    Some (encode_keys_meta (keys_meta fe));
  ti_fits : len (table_data t.2) + meta_size t.2 <= each_size_ p;
  ti_wf : Forall km_wf (keys_meta fe);
}.

Definition slots (s : SstableMetadata) : gset Z := list_to_set (sstable_index <$> entries s).

Record nvm_ok cf db : Prop := {
  no_tables : tables_ok (sst_meta_ cf);
  no_pool : pool_ok (ptr_sst_ cf) (slots (sst_meta_ cf));
  no_slots : NoDup (sstable_index <$> entries (sst_meta_ cf));
  no_db : Forall2 (table_in (ptr_sst_ cf)) (entries (sst_meta_ cf)) db;
  no_hints fe old : fe ∈ entries (sst_meta_ cf) -> old ∈ entries (sst_meta_ cf) ->
    hints_between ucmp fe old;
}.

(** Tables in which the sum of two positions is an [int]. *)
Definition small_tables cf : Prop := Forall (fun fe => len (keys_meta fe) < 2 ^ 30) (entries (sst_meta_ cf)).

(** The records of a table, and those of a version's file: from its first key on. *)
Definition db_find db (n : Z) : records := default [] ((list_to_map db : gmap Z records) !! n).

Definition visible db (f : FileMetaData) : records :=
  drop (Z.to_nat (f_first_key_index f)) (db_find db (GetNumber (f_fd f))).

(** A version's level 0 is a part of the tables, in order, each with a visible key. *)
Definition version_ok db (L0files : list FileMetaData) : Prop :=
  sublist (numbers L0files) db.*1 /\
  Forall (fun f => 0 <= f_first_key_index f < len (db_find db (GetNumber (f_fd f)))) L0files.

Lemma entry_keys_lookup fe (t : Z * records) (j : nat) k :
  entry_keys (keys_meta fe) = layout 0 t.2 -> keys_meta fe !! j = Some k ->
  exists v, t.2 !! j = Some (km_key k, v) /\
    k = mkKM (km_key k) (km_next k) (len (table_data (take j t.2))) (len (km_key k) + len v + 16).
Proof.
  intros Hl Hk. pose proof (f_equal (.!! j) Hl) as Hj. unfold entry_keys in Hj.
  rewrite list_lookup_fmap, Hk in Hj. simpl in Hj.
  destruct (t.2 !! j) as [[k0 v]|] eqn:Ht.
  - rewrite (layout_lookup 0 _ _ _ _ Ht) in Hj. injection Hj as Hk0 Ho Hs. subst k0.
    exists v. split; [done|]. destruct k. simpl in *. by rewrite Ho, Hs.
  - rewrite lookup_ge_None_2 in Hj; [done|]. rewrite layout_length. by apply lookup_ge_None.
Qed.

Lemma keys_length fe (t : Z * records) :
  entry_keys (keys_meta fe) = layout 0 t.2 -> len (keys_meta fe) = len t.2.
Proof.
  intros H%(f_equal length). unfold entry_keys in H. rewrite length_fmap, layout_length in H.
  unfold zlen. by rewrite H.
Qed.

(** The value at a key's position. *)
Lemma table_in_value p fe t (j : nat) k v :
  table_in p fe t -> t.2 !! j = Some (k, v) ->
  GetValueInFile (raw_ p) (sstable_index fe * each_size_ p) fe (Z.of_nat j) = Some v.
Proof.
  intros [_ Hl _ Hd Hs _ _ _] Hj.
  assert (Hlen : (j < length (keys_meta fe))%nat).
  { pose proof (keys_length fe t Hl). apply lookup_lt_Some in Hj. zlia. }
  destruct (lookup_lt_is_Some_2 _ _ Hlen) as [m Hm].
  destruct (entry_keys_lookup fe t j m Hl Hm) as (v' & Hv' & Heq). rewrite Hj in Hv'. injection Hv' as -> <-.
  pose proof (table_data_lookup t.2 j _ _ Hj) as Ht. pose proof Ht as (? & ? & ? & _)%mem_read_Some.
  eapply GetValueInFile_record; [rewrite zget_nat, Hm; f_equal; exact Heq|done| |lia].
  by rewrite (mem_read_sub _ _ _ _ _ _ Hd) by lia.
Qed.

Lemma db_numbers cf db : nvm_ok cf db -> db.*1 = filenum <$> entries (sst_meta_ cf).
Proof.
  intros [_ _ _ H _]. induction H as [|fe t es db [] _ IH]; [done|]. rewrite !fmap_cons. congruence.
Qed.

Lemma db_find_entry cf db fe :
  nvm_ok cf db -> fe ∈ entries (sst_meta_ cf) ->
  table_in (ptr_sst_ cf) fe (filenum fe, db_find db (filenum fe)).
Proof.
  intros Hok [i Hi]%list_elem_of_lookup. pose proof (db_numbers cf db Hok) as Hn.
  destruct Hok as [Ht _ _ Hdb _]. destruct (Forall2_lookup_l _ _ _ _ _ Hdb Hi) as ([n recs] & Hr & Hti).
  pose proof (ti_number _ _ _ Hti) as Hfn. simpl in Hfn. subst n.
  unfold db_find. erewrite elem_of_list_to_map_1.
  - exact Hti.
  - rewrite Hn. by destruct Ht.
  - by eapply list_elem_of_lookup_2.
Qed.

(** The entries of a version's files. *)
Lemma version_entries cf db L0 :
  nvm_ok cf db -> version_ok db L0 ->
  exists ps es, GetL0Files (sst_meta_ cf) L0 = Some ps /\
    mapM (fun p => fheap (sst_meta_ cf) !! p) ps = Some es /\
    filenum <$> es = numbers L0 /\ forall fe, fe ∈ es -> fe ∈ entries (sst_meta_ cf).
Proof.
  intros Hok [Hsub _]. rewrite (db_numbers cf db Hok) in Hsub.
  assert (Hps : points (fheap (sst_meta_ cf)) (files_ (sst_meta_ cf)) (entries (sst_meta_ cf)))
    by (apply meta_points; by destruct Hok as [[] ]).
  destruct (GetL0Files_loop_spec _ _ _ _ Hps Hsub) as (ps & es & Hget & Hpe & Hnum & Hsf).
  exists ps, es. split_and!; [done|by apply mapM_Some|done|].
  intros fe [j Hj]%list_elem_of_lookup. destruct (Forall2_lookup_r _ _ _ _ _ Hpe Hj) as (p & Hp & Hfe).
  assert (p ∈ files_ (sst_meta_ cf)) as [i Hi]%list_elem_of_lookup.
  { apply (sublist_subseteq _ _ Hsf). by eapply list_elem_of_lookup_2. }
  destruct (Forall2_lookup_l _ _ _ _ _ Hps Hi) as (fe' & Hfe' & Heq). simpl in *.
  assert (fe' = fe) as -> by congruence. by eapply list_elem_of_lookup_2.
Qed.

(** What a version shows of a user key. *)
Definition shows (u : bytes) (recs : records) : Prop :=
  exists k v, (k, v) ∈ recs /\ Compare ucmp (ExtractUserKey k) u = 0.

(** The lookup specification: a value of the user key in the newest table that shows it. *)
Definition lookup_spec (tables : list records) (u : bytes) (r : option bytes) : Prop :=
  match r with
  | Some v =>
      exists i recs k, tables !! i = Some recs /\ (k, v) ∈ recs /\
        Compare ucmp (ExtractUserKey k) u = 0 /\
        forall i' recs', (i' < i)%nat -> tables !! i' = Some recs' -> ~ shows u recs'
  | None => forall recs, recs ∈ tables -> ~ shows u recs
  end.

Section Version.
Context (cf : NvmCfModule) (db : list (Z * records)) (L0 : list FileMetaData) (es : list FileEntry).
Hypothesis (Hok : nvm_ok cf db) (Hv : version_ok db L0).
Hypothesis (Hnum : filenum <$> es = numbers L0).
Hypothesis (Hin : forall fe, fe ∈ es -> fe ∈ entries (sst_meta_ cf)).

Abbreviation files := (zip es (f_first_key_index <$> L0)).

Lemma version_lookup i fe first :
  files !! i = Some (fe, first) ->
  exists f, L0 !! i = Some f /\ first = f_first_key_index f /\ filenum fe = GetNumber (f_fd f) /\
    fe ∈ entries (sst_meta_ cf) /\ table_in (ptr_sst_ cf) fe (filenum fe, db_find db (filenum fe)) /\
    0 <= first < len (db_find db (filenum fe)).
Proof.
  intros H. apply lookup_zip_with_Some in H as (x & y & [= <- <-] & He & Hf).
  rewrite list_lookup_fmap in Hf. destruct (L0 !! i) as [f|] eqn:Hl; simpl in Hf; [|done].
  injection Hf as <-. exists f.
  assert (Hn : filenum fe = GetNumber (f_fd f)).
  { pose proof (f_equal (.!! i) Hnum) as Hi. unfold numbers in Hi.
    rewrite !list_lookup_fmap, He, Hl in Hi. simpl in Hi. by injection Hi. }
  assert (Hfe : fe ∈ entries (sst_meta_ cf)) by (apply Hin; by eapply list_elem_of_lookup_2).
  split_and!; [done|done|done|done|by apply db_find_entry|..];
    destruct Hv as [_ Hfirst]; rewrite Forall_lookup in Hfirst; specialize (Hfirst i f Hl); rewrite ?Hn; lia.
Qed.

Lemma version_tables_ok : small_tables cf -> Forall (table_ok ucmp) files.
Proof using Hin Hnum Hok Hv.
  intros Hsm. apply Forall_lookup. intros i [fe first] Hi.
  destruct (version_lookup i fe first Hi) as (f & _ & _ & _ & Hfe & Hti & Hf).
  destruct Hti. pose proof (keys_length fe _ ti_layout0) as Hl. simpl in *.
  destruct (no_tables _ _ Hok) as [_ _ Hwf _]. unfold small_tables in Hsm. rewrite Forall_forall in Hwf, Hsm.
  constructor; simpl; [done|by apply Hwf|lia|specialize (Hsm fe Hfe); simpl in Hsm; lia|].
  eapply Forall_impl; [exact ti_wf0|]. by intros k [].
Qed.

Lemma version_chained : chained ucmp files.
Proof.
  assert (H : forall i fe first, files !! i = Some (fe, first) -> fe ∈ entries (sst_meta_ cf))
    by (intros i fe first Hi; by destruct (version_lookup i fe first Hi) as (? & _ & _ & _ & ? & _)).
  revert H. generalize files. intros fs. induction fs as [|[fe a] fs IH]; intros H; [done|].
  split; [|apply IH; intros i; apply (H (S i))]. destruct fs as [|[old b] fs]; [done|].
  apply (no_hints _ _ Hok); [by apply (H 0%nat _ a)|by apply (H 1%nat _ b)].
Qed.

Lemma version_shows u i fe first f :
  files !! i = Some (fe, first) -> L0 !! i = Some f ->
  shows u (visible db f) -> has_key ucmp u (fe, first).
Proof.
  intros Hi Hf (k & v & Hkv & Hc).
  destruct (version_lookup i fe first Hi) as (f' & Hf' & -> & Hn & _ & [_ Hl _ _ _ _ _ _] & Hr).
  assert (f' = f) as -> by congruence. unfold visible in Hkv. rewrite <- Hn in Hkv. simpl in Hl.
  apply list_elem_of_lookup in Hkv as [j Hj]. rewrite lookup_drop in Hj.
  set (jj := (Z.to_nat (f_first_key_index f) + j)%nat) in *.
  assert (Hlt : (jj < length (keys_meta fe))%nat).
  { pose proof (keys_length fe (filenum fe, db_find db (filenum fe)) Hl) as He. simpl in He.
    apply lookup_lt_Some in Hj. zlia. }
  destruct (lookup_lt_is_Some_2 _ _ Hlt) as [m Hm].
  destruct (entry_keys_lookup fe (filenum fe, db_find db (filenum fe)) jj m Hl Hm) as (v' & Hv' & _).
  simpl in Hv'. rewrite Hj in Hv'. injection Hv' as -> _.
  exists (Z.of_nat jj), m. simpl. rewrite zget_nat. split_and!; [lia|done|done].
Qed.

Lemma version_value u i fe first f (m : Z) k :
  files !! i = Some (fe, first) -> L0 !! i = Some f -> first <= m ->
  keys_meta fe !z m = Some k -> Compare ucmp (ukey k) u = 0 ->
  exists v, (data ← GetIndexPtr (ptr_sst_ cf) (sstable_index fe);
             GetValueInFile (raw_ (ptr_sst_ cf)) data fe m) = Some v /\
    (km_key k, v) ∈ visible db f.
Proof.
  intros Hi Hf Hm [Hm0 Hk]%zget_Some Hc.
  destruct (version_lookup i fe first Hi) as (f' & Hf' & -> & Hn & Hfe & Hti & Hr).
  assert (f' = f) as -> by congruence. pose proof Hti as [_ Hl _ _ _ _ _ _]. simpl in Hl.
  destruct (entry_keys_lookup fe (filenum fe, db_find db (filenum fe)) _ k Hl Hk) as (v & Hv' & _).
  simpl in Hv'. exists v. split.
  - assert (Hs : sstable_index fe ∈ slots (sst_meta_ cf)).
    { apply elem_of_list_to_set, list_elem_of_fmap. eauto. }
    destruct (pool_ptr _ _ _ (no_pool _ _ Hok) Hs) as (-> & _ & _). simpl.
    rewrite <- (Z2Nat.id m) by done. by eapply table_in_value.
  - unfold visible. rewrite <- Hn. apply list_elem_of_lookup.
    exists (Z.to_nat m - Z.to_nat (f_first_key_index f))%nat. rewrite lookup_drop. rewrite <- Hv'.
    f_equal. lia.
Qed.
End Version.
End Module.

Section GetCorrect.
Context (ucmp : Comparator) {Laws : ComparatorLaws ucmp}.

Lemma lookup_user_key u s : lk_user_key (make_LookupKey u s) = u.
Proof. unfold lk_user_key. simpl. apply (ExtractUserKey_footer u). Qed.

Lemma files_lookup (es : list FileEntry) (L0 : list FileMetaData) i f :
  filenum <$> es = numbers L0 -> L0 !! i = Some f ->
  exists fe, zip es (f_first_key_index <$> L0) !! i = Some (fe, f_first_key_index f).
Proof.
  intros Hn Hf. assert (length es = length L0) as Hl.
  { apply (f_equal length) in Hn. unfold numbers in Hn. by rewrite !length_fmap in Hn. }
  destruct (lookup_lt_is_Some_2 es i) as [fe Hfe]; [rewrite Hl; by eapply lookup_lt_Some|].
  exists fe. apply lookup_zip_with_Some. exists fe, (f_first_key_index f).
  split_and!; [done|done|]. by rewrite list_lookup_fmap, Hf.
Qed.

(** [Get] returns a value of the key from the newest table that shows it. *)
Lemma Get_finds cf db L0files u s :
  nvm_ok ucmp cf db -> small_tables cf -> version_ok db L0files ->
  exists r, NvmCf_Get ucmp cf L0files (make_LookupKey u s) = Some r /\
    lookup_spec ucmp (visible db <$> L0files) u r.
Proof.
  intros Hok Hsm Hv. destruct (version_entries ucmp cf db L0files Hok Hv) as (ps & es & Hget & Hmap & Hnum & Hin).
  unfold NvmCf_Get. rewrite Hget. simpl. rewrite Hmap. simpl. rewrite lookup_user_key.
  pose proof (version_tables_ok ucmp cf db L0files es Hok Hv Hnum Hin Hsm) as Ht.
  pose proof (version_chained ucmp cf db L0files es Hok Hv Hnum Hin) as Hch.
  destruct (Get_loop_ok ucmp _ u (-1) (-1) 0 Ht Hch) as (r & -> & Hr).
  { destruct (zip _ _) as [|[fe first] fs]; [done|]. intros _. inversion_clear Ht as [|?? [] _].
    apply hint_out; simpl in *; lia. }
  simpl. destruct r as [[fe m]|]; simpl in Hr.
  - destruct Hr as (i & first & k & Hi & Hm & Hk & Hc & Hno).
    destruct (version_lookup ucmp cf db L0files es Hok Hv Hnum Hin i fe first Hi) as (f & Hf & _).
    destruct (version_value ucmp cf db L0files es Hok Hv Hnum Hin u i fe first f m k) as (v & Hval & Hkv); try done.
    destruct (GetIndexPtr _ _); simpl in *; [|done]. rewrite Hval. simpl. exists (Some v). split; [done|].
    exists i, (visible db f), (km_key k). split_and!; [by rewrite list_lookup_fmap, Hf|done|done|].
    intros i' recs Hlt Hrecs Hsh. rewrite list_lookup_fmap in Hrecs.
    destruct (L0files !! i') as [f'|] eqn:Hf'; simpl in Hrecs; [|done]. injection Hrecs as <-.
    destruct (files_lookup es L0files i' f' Hnum Hf') as [fe' Hfe'].
    apply (Hno i' _ Hlt Hfe'). by eapply (version_shows ucmp cf db L0files es).
  - exists None. split; [done|]. intros recs Hrecs Hsh.
    apply list_elem_of_fmap in Hrecs as (f & -> & [i Hf]%list_elem_of_lookup).
    destruct (files_lookup es L0files i f Hnum Hf) as [fe Hfe].
    apply (Hr (fe, f_first_key_index f)); [by eapply list_elem_of_lookup_2|].
    by eapply (version_shows ucmp cf db L0files es).
Qed.
End GetCorrect.
