(* ===== verification/ColumnPick.v ===== *)
(** * Picking a column compaction (NvmCfModule::PickColumnCompaction)

    A column compaction moves the smallest keys of the level-0 tables in NVM to level 1:
    a prefix of the merged order of their keys, cut by size when no level-1 file is in
    the way, and at the boundaries of the level-1 files otherwise. *)

From S2P Require Import Prelude Coding Comparator DbFormat VersionEdit VersionStorage NvmAlloc SstableMeta KeysMerge L0Table NvmCf.

Record ColumnCompactionItem := mkItem {
  cc_files : list FileEntry;
  cc_keys_num : list Z;
  cc_keys_size : list Z;
  L0select_size : Z;
  L0compactionfiles : list FileMetaData;
  L1compactionfiles : list FileMetaData;
  L0smallest : bytes;
  L0largest : bytes;
}.

(** The scan of [L0files] from [j]: the first visible key and the files after. *)
Fixpoint find_first_key (L0files : list FileMetaData) (filenum_ : Z) : option (Z * list FileMetaData) :=
  match L0files with
  | [] => None
  | f :: L0files =>
      if GetNumber (f_fd f) =? filenum_ then Some (f_first_key_index f, L0files)
      else find_first_key L0files filenum_
  end.

(** [comfiles] and [first_key_indexs]; [None] inside when a file is not in level 0. *)
Fixpoint gather_files (s : SstableMetadata) (numbers_ : list Z) (L0files : list FileMetaData)
  : option (option (list FileEntry * list Z)) :=
  match numbers_ with
  | [] => Some (Some ([], []))
  | n :: numbers_ =>
      tmp ← FindFile s n true;
      p ← tmp;
      fe ← fheap s !! p;
      match find_first_key L0files (filenum fe) with
      | None => Some None
      | Some (first, L0files) =>
          r ← gather_files s numbers_ L0files;
          Some ('(fs, xs) ← r; Some (fe :: fs, first :: xs))
      end
  end.

Record column_pick := mkPick {
  pk_iter : KeysMergeIterator;
  pk_files_index : Z;
  pk_keys_index : Z;
  pk_keys_num : list Z;
  pk_keys_size : list Z;
  all_comption_size : Z;
}.

Definition pk_files (st : column_pick) : list FileEntry := kmi_files (pk_iter st).

(** [GetCurret] and the accounting of the current key. *)
Definition count_key (st : column_pick) : option column_pick :=
  '(fi, ki) ← GetCurret (pk_iter st);
  k ← key_meta_at (pk_files st) fi ki;
  n ← pk_keys_num st !z fi;
  size ← pk_keys_size st !z fi;
  nums ← zset (pk_keys_num st) fi (wrap64 (n + 1));
  sizes ← zset (pk_keys_size st) fi (wrap64 (size + km_size k));
  Some (mkPick (pk_iter st) fi ki nums sizes (wrap64 (all_comption_size st + km_size k))).

Definition set_iter (st : column_pick) (it : KeysMergeIterator) : column_pick :=
  mkPick it (pk_files_index st) (pk_keys_index st) (pk_keys_num st) (pk_keys_size st) (all_comption_size st).

Section Pick.
Context (ucmp : Comparator).

Definition take_key (st : column_pick) : option column_pick :=
  st ← count_key st; it ← KMI_Next ucmp (pk_iter st); Some (set_iter st it).

(** The loop without level-1 files, and [L0largest] when it assigns it. *)
Fixpoint pick_no_L1 (fuel : nat) (stop : Z) (st : column_pick) : option (column_pick * option bytes) :=
  if KMI_Valid (pk_iter st) then
    match fuel with
    | O => None
    | S fuel =>
        if stop <=? all_comption_size st then
          '(nf, nk) ← GetCurret (pk_iter st);
          a ← key_meta_at (pk_files st) (pk_files_index st) (pk_keys_index st);
          b ← user_key_at (pk_files st) nf nk;
          if Compare ucmp (ExtractUserKey (km_key a)) b =? 0
          then st ← take_key st; pick_no_L1 fuel stop st
          else Some (st, Some (km_key a))
        else st ← take_key st; pick_no_L1 fuel stop st
    end
  else Some (st, None).

(** The loop over the boundaries of the level-1 files. *)
Fixpoint pick_have_L1 (fuel : nat) (stop : Z) (L1Ranges : list bytes) (L1Range_index : Z)
    (st : column_pick) : option (column_pick * Z * option bytes) :=
  if KMI_Valid (pk_iter st) then
    match fuel with
    | O => None
    | S fuel =>
        '(fi, ki) ← GetCurret (pk_iter st);
        k ← key_meta_at (pk_files st) fi ki;
        let st := mkPick (pk_iter st) fi ki (pk_keys_num st) (pk_keys_size st) (all_comption_size st) in
        let even := L1Range_index mod 2 =? 0 in
        cond ← (if even then
                  if L1Range_index =? len L1Ranges then Some false
                  else r ← L1Ranges !z L1Range_index;
                       Some (0 <=? Compare ucmp (ExtractUserKey (km_key k)) (ExtractUserKey r))
                else r ← L1Ranges !z L1Range_index;
                     Some (0 <? Compare ucmp (ExtractUserKey (km_key k)) (ExtractUserKey r)));
        if (cond : bool) then
          if negb even && (stop <=? all_comption_size st) then Some (st, L1Range_index, Some (km_key k))
          else pick_have_L1 fuel stop L1Ranges (wrap32 (L1Range_index + 1)) st
        else
          st ← count_key st;
          if even && (stop <=? all_comption_size st) then Some (st, L1Range_index, Some (km_key k))
          else it ← KMI_Next ucmp (pk_iter st);
               pick_have_L1 fuel stop L1Ranges L1Range_index (set_iter st it)
    end
  else Some (st, L1Range_index, None).

(** [L0largest] after the loop: the last key counted when the iterator is at its end. *)
Definition final_largest (st : column_pick) (largest : option bytes) : option bytes :=
  if (0 <? all_comption_size st) && negb (KMI_Valid (pk_iter st)) then
    k ← key_meta_at (pk_files st) (pk_files_index st) (pk_keys_index st); Some (km_key k)
  else Some (default [] largest).

Definition find_L0 (L0files : list FileMetaData) (n : Z) : option FileMetaData :=
  snd <$> list_find (fun f => GetNumber (f_fd f) = n) L0files.

(** The tables that give keys, with what they give. *)
Definition chosen (st : column_pick) : list (FileEntry * Z * Z) :=
  filter (fun x => x.1.2 <> 0) (zip (zip (pk_files st) (pk_keys_num st)) (pk_keys_size st)).

Definition make_item (st : column_pick) (L0files L1files : list FileMetaData) (smallest largest : bytes)
  : ColumnCompactionItem :=
  let cs := chosen st in
  mkItem ((fun x => x.1.1) <$> cs) ((fun x => x.1.2) <$> cs) ((fun x => x.2) <$> cs) (all_comption_size st)
    (omap (fun x => find_L0 L0files (filenum x.1.1)) cs) L1files smallest largest.

Definition L1CompactionSizeStop (select_L0 target_file_size_base : Z) : Z :=
  wrap64 (wrap64 (select_L0 * target_file_size_base) - wrap64 (6 * 1024 * 1024 * select_L0)).

(** The key at the iterator's position, empty when it is at its end. *)
Definition current_key_or_empty (it : KeysMergeIterator) : option bytes :=
  if KMI_Valid it then '(i, j) ← GetCurret it; k ← key_meta_at (kmi_files it) i j; Some (km_key k)
  else Some [].

(** What is picked from the gathered tables. *)
Definition pick_column (o : NvmCfOptions) (vs : VersionStorageInfo) (L0files : list FileMetaData)
    (comfiles : list FileEntry) (first_key_indexs : list Z) : option ColumnCompactionItem :=
  let k_iter := KeysMergeIterator_make comfiles first_key_indexs in
  k_iter ← KMI_SeekToLast ucmp k_iter;
  maxlargest ← current_key_or_empty k_iter;
  k_iter ← KMI_SeekToFirst ucmp k_iter;
  minsmallest ← current_key_or_empty k_iter;
  overlap ← GetOverlappingInputs ucmp vs 1 (Some minsmallest) (Some maxlargest) (-1) true;
  let L1overlapfiles := match overlap with Some (inputs, _, _) => inputs | None => [] end in
  let zeros := replicate (length comfiles) 0 in
  '(fi, ki) ← (if KMI_Valid k_iter then GetCurret k_iter else Some (-1, -1));
  let st := mkPick k_iter fi ki zeros zeros 0 in
  let keys := S (sum_list (length ∘ keys_meta <$> comfiles)) in
  if len L1overlapfiles =? 0 then
    '(st, largest) ← pick_no_L1 keys
        (L1CompactionSizeStop (Column_compaction_no_L1_select_L0 o) (nvm_target_file_size_base o)) st;
    largest ← final_largest st largest;
    Some (make_item st L0files [] minsmallest largest)
  else
    let L1Ranges := mjoin ((fun f => [f_smallest f; f_largest f]) <$> L1overlapfiles) in
    '(st, L1Range_index, largest) ← pick_have_L1 (keys + length L1Ranges)
        (L1CompactionSizeStop (Column_compaction_have_L1_select_L0 o) (nvm_target_file_size_base o))
        L1Ranges 0 st;
    largest ← final_largest st largest;
    Some (make_item st L0files (take (Z.to_nat ((L1Range_index + 1) / 2)) L1overlapfiles) minsmallest largest).

(** The module after the compaction file list is brought up to date, and the item,
    [None] inside for a null result. *)
Definition PickColumnCompaction (o : NvmCfOptions) (cf : NvmCfModule) (vs : VersionStorageInfo)
  : option (NvmCfModule * option ColumnCompactionItem) :=
  L0files ← LevelFiles vs 0;
  s ← UpdateCompactionState (sst_meta_ cf) L0files;
  let cf := cf_set s (ptr_sst_ cf) cf in
  if len (compaction_files s) =? 0 then Some (cf, None)
  else
    r ← gather_files s (compaction_files s) L0files;
    match r with
    | None => Some (cf, None)
    | Some (comfiles, first_key_indexs) =>
        c ← pick_column o vs L0files comfiles first_key_indexs; Some (cf, Some c)
    end.
End Pick.

(** ** The keys chosen *)

Section PickOk.
Context (ucmp : Comparator) {Laws : ComparatorLaws ucmp}.
Context (files : list FileEntry) (firsts : list Z).
Implicit Types (st : column_pick) (it : KeysMergeIterator).

Definition sum_Z (l : list Z) : Z := foldr Z.add 0 l.

Lemma mod_shift_eq a b d : (a + b) mod 2 ^ 64 = (a + (d + b) mod 2 ^ 64 - d mod 2 ^ 64) mod 2 ^ 64.
Proof.
  rewrite <- Zminus_mod_idemp_l, <- (Zplus_mod_idemp_r ((d + b) mod _)), Zmod_mod, Zplus_mod_idemp_r.
  rewrite Zminus_mod_idemp_l, Zminus_mod_idemp_r. f_equal. lia.
Qed.

(** The bytes of the keys [a .. b) of a table. *)
Definition bytes_of (f : FileEntry) (a b : Z) : Z :=
  sum_Z (km_size <$> take (Z.to_nat (b - a)) (drop (Z.to_nat a) (keys_meta f))).

(** Key [j] of table [i] is one of the first [nums] visible keys of its table, or one
    of those after them. *)
Definition picked (nums : list Z) (i j : Z) (u : bytes) : Prop :=
  exists x n, firsts !z i = Some x /\ nums !z i = Some n /\ x <= j < x + n /\ user_key_at files i j = Some u.
Definition kept (nums : list Z) (i j : Z) (u : bytes) : Prop :=
  exists x n, firsts !z i = Some x /\ nums !z i = Some n /\ x + n <= j /\ user_key_at files i j = Some u.

(** The counters describe the keys picked, and no key kept precedes a key picked. *)
Record accounts (nums sizes : list Z) (all : Z) : Prop := {
  ac_lens : length nums = length files /\ length sizes = length files;
  ac_range i x n f : firsts !z i = Some x -> nums !z i = Some n -> files !z i = Some f ->
    0 <= n /\ x + n <= len (keys_meta f);
  ac_sizes i x n f : firsts !z i = Some x -> nums !z i = Some n -> files !z i = Some f ->
    sizes !z i = Some (wrap64 (bytes_of f x (x + n)));
  ac_all : all = wrap64 (sum_Z sizes);
  ac_order i j u i' j' v : picked nums i j u -> kept nums i' j' v -> Compare ucmp u v <= 0;
}.

Record pick_ok st : Prop := {
  po_iter : kmi_valid ucmp (pk_iter st);
  po_files : pk_files st = files;
  po_tables : kmi_tables ucmp files firsts;
  po_nums : kmi_pos (pk_iter st) = zip_with Z.add firsts (pk_keys_num st);
  po_accounts : accounts (pk_keys_num st) (pk_keys_size st) (all_comption_size st);
}.

Lemma kept_is_left st i j u :
  pick_ok st -> kept (pk_keys_num st) i j u <-> is_left (pk_iter st) i j u.
Proof.
  intros []. unfold kept, is_left. unfold pk_files in *. rewrite po_nums0, po_files0. split.
  - intros (x & n & Hx & Hn & Hj & Hu). exists (x + n). split_and!; [|done|done].
    apply zget_Some in Hx as [Hi Hx], Hn as [_ Hn]. apply zget_Some. split; [done|].
    apply lookup_zip_with_Some. eauto.
  - intros (p & [Hi Hp]%zget_Some & Hj & Hu). apply lookup_zip_with_Some in Hp as (x & n & -> & Hx & Hn).
    exists x, n. split_and!; [by apply zget_Some..|done|done].
Qed.

Lemma sum_Z_insert (l : list Z) i x y : l !! i = Some x -> sum_Z (<[i := y]> l) = sum_Z l + y - x.
Proof.
  revert i. induction l as [|a l IH]; intros [|i] H; simpl in *; try done.
  - injection H as ->. unfold sum_Z. simpl. lia.
  - unfold sum_Z in *. simpl. rewrite (IH i H). lia.
Qed.

Lemma sum_Z_app l1 l2 : sum_Z (l1 ++ l2) = sum_Z l1 + sum_Z l2.
Proof. unfold sum_Z. induction l1; simpl; lia. Qed.

Lemma bytes_of_next f a b k :
  0 <= a -> a <= b -> keys_meta f !z b = Some k -> bytes_of f a (b + 1) = bytes_of f a b + km_size k.
Proof.
  intros Ha Hab [_ Hk]%zget_Some. unfold bytes_of.
  replace (Z.to_nat (b + 1 - a)) with (S (Z.to_nat (b - a))) by lia.
  rewrite (take_S_r _ _ k), fmap_app, sum_Z_app; [unfold sum_Z; simpl; lia|].
  rewrite lookup_drop. by replace (Z.to_nat a + Z.to_nat (b - a))%nat with (Z.to_nat b) by lia.
Qed.

(** One more key of table [c]: it becomes picked, the rest stays as it was. *)
Lemma picked_insert nums (c x n : Z) i j u :
  firsts !z c = Some x -> nums !z c = Some n -> 0 <= n ->
  picked (<[Z.to_nat c := n + 1]> nums) i j u <->
  picked nums i j u \/ (i = c /\ j = x + n /\ user_key_at files i j = Some u).
Proof.
  intros Hx Hn Hn0. pose proof (zget_range _ _ _ Hn). unfold picked. split.
  - intros (x' & n' & Hx' & Hn' & Hj & Hu). pose proof (zget_range _ _ _ Hx').
    rewrite zget_insert in Hn' by lia. destruct (Z.eqb_spec c i) as [<-|].
    + assert (x' = x) as -> by congruence. injection Hn' as <-. destruct (decide (j = x + n)); [by right|].
      left. exists x, n. split_and!; [done|done|lia|lia|done].
    + left. exists x', n'. done.
  - intros [(x' & n' & Hx' & Hn' & Hj & Hu)|(-> & -> & Hu)].
    + pose proof (zget_range _ _ _ Hx'). destruct (Z.eqb_spec c i) as [<-|Hne].
      * exists x', (n + 1). rewrite zget_insert, Z.eqb_refl by lia. assert (n' = n) as -> by congruence.
        split_and!; [done|done|lia|lia|done].
      * exists x', n'. rewrite zget_insert by lia. destruct (Z.eqb_spec c i); [done|]. done.
    + exists x, (n + 1). rewrite zget_insert, Z.eqb_refl by lia. split_and!; [done|done|lia|lia|done].
Qed.

Lemma kept_insert nums (c x n : Z) i j u :
  firsts !z c = Some x -> nums !z c = Some n ->
  kept (<[Z.to_nat c := n + 1]> nums) i j u -> kept nums i j u.
Proof.
  intros Hx Hn (x' & n' & Hx' & Hn' & Hj & Hu). pose proof (zget_range _ _ _ Hn). pose proof (zget_range _ _ _ Hx').
  rewrite zget_insert in Hn' by lia. destruct (Z.eqb_spec c i) as [<-|]; [|by exists x', n'].
  injection Hn' as <-. exists x', n. split_and!; [done|done|lia|done].
Qed.

(** The current key, as the counters see it. *)
Lemma current_picked st :
  pick_ok st -> KMI_Valid (pk_iter st) = true ->
  exists c x n f k, c = current_ (pk_iter st) /\ GetCurret (pk_iter st) = Some (c, x + n) /\ files !z c = Some f /\
    firsts !z c = Some x /\ pk_keys_num st !z c = Some n /\ keys_meta f !z (x + n) = Some k /\
    child_current_ (pk_iter st) !z c = Some (x + n) /\ 0 <= x /\ 0 <= n < 2 ^ 31 /\
    key_meta_at files c (x + n) = Some k /\
    forall i j v, kept (pk_keys_num st) i j v -> Compare ucmp (ExtractUserKey (km_key k)) v <= 0.
Proof.
  intros Hok Hv. pose proof (fun i j u => kept_is_left st i j u Hok) as Hk. destruct Hok.
  destruct (current_key ucmp _ po_iter0 Hv) as (f & p & k & Hf & Hc & Hcur & Hkp & Hne & Hkm & Hmin).
  pose proof (kmi_pos_lookup _ _ f p Hf Hc) as Hpos. rewrite po_nums0 in Hpos.
  unfold passed_of in Hpos. destruct (Z.eqb_spec p (-1)) as [|_]; [done|].
  apply zget_Some in Hpos as [H0 Hpos]. apply lookup_zip_with_Some in Hpos as (x & n & -> & Hx & Hn).
  unfold pk_files in *. rewrite po_files0 in *.
  assert (Hx' : firsts !z current_ (pk_iter st) = Some x) by (by apply zget_Some).
  assert (Hn' : pk_keys_num st !z current_ (pk_iter st) = Some n) by (by apply zget_Some).
  pose proof (kt_first _ _ _ po_tables0 _ f x Hf Hx') as Hxr. pose proof (kt_num _ _ _ po_tables0 _ f Hf) as [_ Hlt].
  pose proof (ac_range _ _ _ po_accounts0 _ x n f Hx' Hn' Hf).
  exists (current_ (pk_iter st)), x, n, f, k. split_and!; try done; try lia.
  intros i j v Hkept. apply Hk in Hkept. by apply (Hmin i j v).
Qed.

(** Counting the current key; the iterator stays. *)
Lemma count_key_ok st :
  pick_ok st -> KMI_Valid (pk_iter st) = true ->
  exists st' c x n k, count_key st = Some st' /\ c = current_ (pk_iter st) /\
    child_current_ (pk_iter st) !z c = Some (x + n) /\ key_meta_at files c (x + n) = Some k /\
    firsts !z c = Some x /\ pk_keys_num st !z c = Some n /\ 0 <= n /\
    pk_iter st' = pk_iter st /\ pk_files_index st' = c /\ pk_keys_index st' = x + n /\
    pk_keys_num st' = <[Z.to_nat c := n + 1]> (pk_keys_num st) /\
    accounts (pk_keys_num st') (pk_keys_size st') (all_comption_size st') /\
    picked (pk_keys_num st') c (x + n) (ExtractUserKey (km_key k)) /\
    (forall i j v, picked (pk_keys_num st') i j v ->
       picked (pk_keys_num st) i j v \/ v = ExtractUserKey (km_key k)) /\
    (forall i j v, kept (pk_keys_num st) i j v -> Compare ucmp (ExtractUserKey (km_key k)) v <= 0) /\
    (forall i j v, picked (pk_keys_num st) i j v -> Compare ucmp v (ExtractUserKey (km_key k)) <= 0).
Proof.
  intros Hok Hv.
  destruct (current_picked st Hok Hv) as (c & x & n & f & k & Hcc & Hcur & Hf & Hx & Hn & Hk & Hch & Hx0 & Hn0 & Hkm & Hmin).
  pose proof Hok as [_ Hfs _ _ Hacc]. pose proof Hacc as [[Hl1 Hl2] Hrng Hsz Hall Hord].
  pose proof (zget_range _ _ _ Hn) as Hcr. pose proof (zget_range _ _ _ Hk) as Hkr.
  pose proof (Hsz c x n f Hx Hn Hf) as Hszc.
  unfold count_key. rewrite Hcur, Hfs. simpl. rewrite Hkm. simpl. rewrite Hn. simpl. rewrite Hszc. simpl.
  rewrite (zset_in_range (pk_keys_num st)) by lia. simpl.
  rewrite (zset_in_range (pk_keys_size st)) by (unfold zlen in *; lia). simpl.
  rewrite (wrap_id 64 (n + 1)) by lia. rewrite wrap_add_l.
  assert (Hu : user_key_at files c (x + n) = Some (ExtractUserKey (km_key k))) by (unfold user_key_at; by rewrite Hkm).
  assert (Hkeptc : kept (pk_keys_num st) c (x + n) (ExtractUserKey (km_key k))) by (exists x, n; split_and!; [done|done|lia|done]).
  eexists _, c, x, n, k. simpl. split_and!; try done; try lia.
  - constructor; simpl.
    + by rewrite !length_insert.
    + intros i xi ni fi Hxi Hni Hfi. pose proof (zget_range _ _ _ Hxi). rewrite zget_insert in Hni by lia.
      destruct (Z.eqb_spec c i) as [<-|]; [|by eapply Hrng]. injection Hni as <-.
      assert (xi = x) as -> by congruence. assert (fi = f) as -> by congruence. lia.
    + intros i xi ni fi Hxi Hni Hfi. pose proof (zget_range _ _ _ Hxi). rewrite zget_insert in Hni by lia.
      rewrite zget_insert by (unfold zlen in *; lia). destruct (Z.eqb_spec c i) as [<-|]; [|by eapply Hsz].
      injection Hni as <-. assert (xi = x) as -> by congruence. assert (fi = f) as -> by congruence.
      rewrite Z.add_assoc, (bytes_of_next f x (x + n) k) by (try done; lia). done.
    + apply zget_Some in Hszc as [_ Hszc]. rewrite (sum_Z_insert _ _ _ _ Hszc), Hall, wrap_add_l.
      unfold wrap. apply mod_shift_eq.
    + intros i j u i' j' v Hp Hkp%(kept_insert _ c x n); [|done|done]. apply (picked_insert _ c x n) in Hp; [|done|done|lia].
      destruct Hp as [Hp|(-> & -> & Hu')]; [by eapply Hord|].
      assert (u = ExtractUserKey (km_key k)) as -> by congruence. by eapply Hmin.
  - simpl. apply (picked_insert _ c x n); [done|done|lia|]. by right.
  - simpl. intros i j v Hp. apply (picked_insert _ c x n) in Hp; [|done|done|lia].
    destruct Hp as [Hp|(-> & -> & Hu')]; [by left|right; congruence].
  - intros i j v Hp. by eapply Hord.
Qed.

Lemma take_key_ok st :
  pick_ok st -> KMI_Valid (pk_iter st) = true ->
  exists st' u, take_key ucmp st = Some st' /\ pick_ok st' /\
    S (keys_left (pk_iter st')) = keys_left (pk_iter st) /\
    picked (pk_keys_num st') (pk_files_index st') (pk_keys_index st') u /\
    (forall i j v, picked (pk_keys_num st') i j v -> Compare ucmp v u <= 0) /\
    (forall i j v, picked (pk_keys_num st') i j v -> picked (pk_keys_num st) i j v \/ v = u) /\
    exists k, key_meta_at files (pk_files_index st') (pk_keys_index st') = Some k /\ u = ExtractUserKey (km_key k) /\
      GetCurret (pk_iter st) = Some (pk_files_index st', pk_keys_index st').
Proof.
  intros Hok Hv. destruct (count_key_ok st Hok Hv) as
    (st1 & c & x & n & k & Hcnt & Hc & Hch & Hkm & Hx & Hn & Hn0 & Hit & Hfi & Hki & Hnums & Hacc & Hpk & Hnew & Hmin & Hmax).
  destruct Hok. destruct (KMI_Next_ok ucmp _ po_iter0 Hv) as (it' & c' & Hnext & Hval & Hc' & Hfs & _ & Hp & Hm).
  rewrite <- Hc in *. assert (c' = x + n) as -> by congruence.
  unfold take_key. rewrite Hcnt. simpl. rewrite Hit, Hnext. simpl. eexists _, (ExtractUserKey (km_key k)).
  split; [done|]. simpl. rewrite Hfi, Hki. split_and!; [|done|done| |done|].
  - constructor; simpl; [done| |done| |done].
    + unfold pk_files in *. simpl. by rewrite Hfs.
    + rewrite Hp, po_nums0, Hnums, <- Z.add_assoc.
      apply zget_Some in Hx as [_ Hx]. rewrite <- (list_insert_id firsts (Z.to_nat c) x Hx) at 2.
      by rewrite <- insert_zip_with.
  - intros i j v [Hpv| ->]%Hnew; [by eapply Hmax|by rewrite (cmp_refl ucmp)].
  - exists k. split_and!; [done|done|]. unfold GetCurret. rewrite <- Hc, Hch. done.
Qed.

(** The last key looked at bounds the keys picked; before any key is picked it is the
    current one. *)
Definition last_ok st : Prop :=
  exists k, key_meta_at files (pk_files_index st) (pk_keys_index st) = Some k /\
    (forall i j v, picked (pk_keys_num st) i j v -> Compare ucmp v (ExtractUserKey (km_key k)) <= 0) /\
    (picked (pk_keys_num st) (pk_files_index st) (pk_keys_index st) (ExtractUserKey (km_key k)) \/
     GetCurret (pk_iter st) = Some (pk_files_index st, pk_keys_index st)).

Definition nothing_kept st : Prop := forall i j v, ~ kept (pk_keys_num st) i j v.

Lemma take_key_last st :
  pick_ok st -> KMI_Valid (pk_iter st) = true ->
  exists st', take_key ucmp st = Some st' /\ pick_ok st' /\ last_ok st' /\
    S (keys_left (pk_iter st')) = keys_left (pk_iter st) /\
    exists u, picked (pk_keys_num st') (pk_files_index st') (pk_keys_index st') u.
Proof.
  intros Hok Hv. destruct (take_key_ok st Hok Hv) as (st' & u & Ht & Hok' & Hm & Hp & Hmax & _ & k & Hk & -> & _).
  exists st'. split_and!; [done|done| |done|by eauto]. exists k. split_and!; [done|done|by left].
Qed.

Lemma invalid_nothing_kept st : pick_ok st -> KMI_Valid (pk_iter st) = false -> nothing_kept st.
Proof.
  intros Hok Hv i j v Hk. apply (kept_is_left st i j v Hok) in Hk. destruct Hok.
  by destruct (invalid_done ucmp _ i j v po_iter0 Hv).
Qed.

(** The result of the loop without level-1 files. *)
Definition no_L1_result (stop : Z) st (lg : option bytes) : Prop :=
  (KMI_Valid (pk_iter st) = false /\ lg = None /\ nothing_kept st) \/
  (KMI_Valid (pk_iter st) = true /\ stop <= all_comption_size st /\
   (exists k, key_meta_at files (pk_files_index st) (pk_keys_index st) = Some k /\ lg = Some (km_key k)) /\
   (exists u, picked (pk_keys_num st) (pk_files_index st) (pk_keys_index st) u) /\
   forall i j u i' j' v, picked (pk_keys_num st) i j u -> kept (pk_keys_num st) i' j' v -> Compare ucmp u v < 0).

(** Stopping in front of a key that differs from the last one separates the keys. *)
Lemma stop_separates st k c :
  pick_ok st -> last_ok st -> KMI_Valid (pk_iter st) = true -> GetCurret (pk_iter st) = Some c ->
  key_meta_at files (pk_files_index st) (pk_keys_index st) = Some k ->
  (forall b, user_key_at files c.1 c.2 = Some b -> Compare ucmp (ExtractUserKey (km_key k)) b <> 0) ->
  (exists u, picked (pk_keys_num st) (pk_files_index st) (pk_keys_index st) u) /\
  forall i j u i' j' v, picked (pk_keys_num st) i j u -> kept (pk_keys_num st) i' j' v -> Compare ucmp u v < 0.
Proof.
  intros Hok (k' & Hk' & Hmax & Hlast) Hv Hc Hk Hne. assert (k' = k) as -> by congruence.
  destruct (current_picked st Hok Hv) as (c' & x & n & f & kc & Hcc & Hcur & Hf & Hx & Hn & Hkc & Hch & Hx0 & Hn0 & Hkm & Hmin).
  rewrite Hcur in Hc. injection Hc as <-. simpl in Hne.
  assert (Hu : user_key_at files c' (x + n) = Some (ExtractUserKey (km_key kc))) by (unfold user_key_at; by rewrite Hkm).
  specialize (Hne _ Hu). destruct Hlast as [Hp|Hcur2].
  - split; [by eauto|]. intros i j u i' j' v Hpu Hkv.
    assert (Hkc' : kept (pk_keys_num st) c' (x + n) (ExtractUserKey (km_key kc))) by (exists x, n; split_and!; [done|done|lia|done]).
    destruct Hok. pose proof (ac_order _ _ _ po_accounts0 _ _ _ _ _ _ Hp Hkc') as Hle.
    eapply (cmp_le_lt_trans ucmp); [by eapply Hmax|]. eapply (cmp_lt_le_trans ucmp); [|by eapply Hmin]. lia.
  - rewrite Hcur in Hcur2. injection Hcur2 as H1 H2. rewrite <- H1, <- H2, Hkm in Hk. injection Hk as ->.
    by rewrite (cmp_refl ucmp) in Hne.
Qed.

Lemma pick_no_L1_ok fuel stop st :
  pick_ok st -> last_ok st -> (keys_left (pk_iter st) < fuel)%nat ->
  exists st' lg, pick_no_L1 ucmp fuel stop st = Some (st', lg) /\ pick_ok st' /\ last_ok st' /\
    no_L1_result stop st' lg /\
    ((exists i j u, picked (pk_keys_num st) i j u) \/ KMI_Valid (pk_iter st) = true ->
     exists u, picked (pk_keys_num st') (pk_files_index st') (pk_keys_index st') u).
Proof.
  revert st. induction fuel as [|fuel IH]; intros st Hok Hlast Hfuel; [lia|]. simpl.
  destruct (KMI_Valid (pk_iter st)) eqn:Hv.
  2: { exists st, None. split_and!; [done|done|done|left; split_and!; [done|done|by apply invalid_nothing_kept]|].
       intros [_|?]; [|done]. destruct Hlast as (k & _ & _ & [Hp|Hc]); [by eauto|]. unfold GetCurret in Hc.
       unfold KMI_Valid in Hv. apply negb_false_iff, Z.eqb_eq in Hv. rewrite Hv in Hc.
       destruct (child_current_ (pk_iter st) !z (-1)) eqn:E; [by apply zget_range in E; lia|done]. }
  assert (Hstep : exists st' lg, (st ← take_key ucmp st; pick_no_L1 ucmp fuel stop st) = Some (st', lg) /\ pick_ok st' /\
    last_ok st' /\ no_L1_result stop st' lg /\ exists u, picked (pk_keys_num st') (pk_files_index st') (pk_keys_index st') u).
  { destruct (take_key_last st Hok Hv) as (st1 & -> & Hok1 & Hl1 & Hm & u & Hu). simpl.
    destruct (IH st1 Hok1 Hl1 ltac:(lia)) as (st2 & lg & Hr & Hok2 & Hl2 & Hres & Hp). exists st2, lg. split_and!; eauto 6. }
  destruct (Z.leb_spec stop (all_comption_size st)) as [Hst|_].
  2: { destruct Hstep as (st' & lg & ? & ? & ? & ? & ?). exists st', lg. split_and!; try done. }
  destruct (current_picked st Hok Hv) as (c & x & n & f & kc & _ & Hcur & _ & _ & _ & _ & _ & _ & _ & Hkm & _).
  pose proof Hlast as (k & Hk & _). rewrite Hcur. simpl. rewrite (po_files _ Hok), Hk. simpl.
  unfold user_key_at at 1. rewrite Hkm. simpl. destruct (Z.eqb_spec (Compare ucmp (ExtractUserKey (km_key k)) (ExtractUserKey (km_key kc))) 0) as [_|Hne].
  - destruct Hstep as (st' & lg & ? & ? & ? & ? & ?). exists st', lg. split_and!; try done.
  - destruct (stop_separates st k (c, x + n) Hok Hlast Hv Hcur Hk) as [Hpk Hsep].
    { intros b Hb. simpl in Hb. unfold user_key_at in Hb. rewrite Hkm in Hb. simpl in Hb. by injection Hb as <-. }
    exists st, (Some (km_key k)). split_and!; try done. right. split_and!; [done|done|by eauto|done|done].
Qed.

(** ** Cutting at the level-1 boundaries *)

(** Smallest and largest keys of files one after the other: even positions are
    smallest keys, a file ends before the next one begins. *)
Record ranges_ok (R : list bytes) : Prop := {
  ro_len : len R < 2 ^ 32;
  ro_even : len R mod 2 = 0;
  ro_sorted a b ra rb : R !z a = Some ra -> R !z b = Some rb -> a <= b ->
    Compare ucmp (ExtractUserKey ra) (ExtractUserKey rb) <= 0;
  ro_gap a b ra rb : R !z a = Some ra -> R !z b = Some rb -> a mod 2 = 1 -> b mod 2 = 0 -> a < b ->
    Compare ucmp (ExtractUserKey ra) (ExtractUserKey rb) < 0;
}.

(** The keys picked lie before the boundaries not reached: strictly before the smallest
    key of every file not entered. *)
Definition before_ranges (R : list bytes) (idx : Z) (nums : list Z) : Prop :=
  forall i j v e r, picked nums i j v -> R !z e = Some r -> idx <= e ->
    Compare ucmp v (ExtractUserKey r) <= 0 /\ (e mod 2 = 0 -> Compare ucmp v (ExtractUserKey r) < 0).

Definition have_L1_result (stop idx : Z) st (lg : option bytes) : Prop :=
  (lg = None /\ KMI_Valid (pk_iter st) = false /\ nothing_kept st) \/
  (stop <= all_comption_size st /\ idx mod 2 = 1 /\
   forall i j u i' j' v, picked (pk_keys_num st) i j u -> kept (pk_keys_num st) i' j' v -> Compare ucmp u v < 0) \/
  (stop <= all_comption_size st /\ idx mod 2 = 0 /\
   exists u, picked (pk_keys_num st) (pk_files_index st) (pk_keys_index st) u).

Lemma before_ranges_mono R idx idx' nums : idx <= idx' -> before_ranges R idx nums -> before_ranges R idx' nums.
Proof. intros Hi H i j v e r Hp He Hie. apply (H i j v e r); [done|done|lia]. Qed.

(** Picking a key that has not passed the boundary [idx]. *)
Lemma before_ranges_pick R idx nums nums' u :
  ranges_ok R -> before_ranges R idx nums ->
  (forall i j v, picked nums' i j v -> picked nums i j v \/ v = u) ->
  (forall r, R !z idx = Some r -> if idx mod 2 =? 0 then Compare ucmp u (ExtractUserKey r) < 0
                                  else Compare ucmp u (ExtractUserKey r) <= 0) ->
  0 <= idx <= len R -> before_ranges R idx nums'.
Proof.
  intros HR Hb Hnew Hu Hidx i j v e r Hp He Hie. apply Hnew in Hp as [Hp| ->]; [by apply (Hb i j v e r)|].
  pose proof (zget_range _ _ _ He) as Her. destruct (zget_is_Some R idx ltac:(lia)) as [ri Hri].
  specialize (Hu ri Hri). pose proof (ro_sorted _ HR idx e ri r Hri He Hie) as Hs.
  destruct (Z.eqb_spec (idx mod 2) 0) as [Hev|Hod].
  - pose proof (cmp_lt_le_trans ucmp _ _ _ Hu Hs). split; [lia|done].
  - split; [by eapply (cmp_trans (c := ucmp))|]. intros Hee. eapply (cmp_le_lt_trans ucmp); [exact Hu|].
    apply (ro_gap _ HR idx e); try done; [pose proof (Z.mod_pos_bound idx 2); lia|].
    destruct (decide (idx = e)) as [->|]; [congruence|lia].
Qed.

(** The test at a boundary: the key has reached it, or may be picked. *)
Lemma boundary_test R idx k :
  ranges_ok R -> 0 <= idx <= len R ->
  exists b, (if idx mod 2 =? 0 then
       if idx =? len R then Some false
       else r ← R !z idx; Some (0 <=? Compare ucmp (ExtractUserKey k) (ExtractUserKey r))
     else r ← R !z idx; Some (0 <? Compare ucmp (ExtractUserKey k) (ExtractUserKey r))) = Some b /\
    if b : bool then idx < len R /\
      forall r, R !z idx = Some r -> if idx mod 2 =? 0 then True else 0 < Compare ucmp (ExtractUserKey k) (ExtractUserKey r)
    else forall r, R !z idx = Some r -> if idx mod 2 =? 0 then Compare ucmp (ExtractUserKey k) (ExtractUserKey r) < 0
                                        else Compare ucmp (ExtractUserKey k) (ExtractUserKey r) <= 0.
Proof.
  intros HR Hi. pose proof (ro_even _ HR) as Hev.
  destruct (Z.eqb_spec (idx mod 2) 0) as [He|Ho].
  - destruct (Z.eqb_spec idx (len R)) as [->|Hne].
    + exists false. split; [done|]. intros r Hr%zget_range. lia.
    + destruct (zget_is_Some R idx ltac:(lia)) as [r Hr]. rewrite Hr. simpl. eexists. split; [done|].
      destruct (Z.leb_spec 0 (Compare ucmp (ExtractUserKey k) (ExtractUserKey r))); [split; [lia|done]|].
      intros r' Hr'. congruence.
  - destruct (decide (idx = len R)) as [->|Hne]; [done|].
    destruct (zget_is_Some R idx ltac:(lia)) as [r Hr]. rewrite Hr. simpl. eexists. split; [done|].
    destruct (Z.ltb_spec 0 (Compare ucmp (ExtractUserKey k) (ExtractUserKey r))); [split; [lia|]|];
      intros r' Hr'; congruence.
Qed.

Lemma pick_have_L1_ok fuel stop R idx st :
  ranges_ok R -> pick_ok st -> 0 <= idx <= len R -> before_ranges R idx (pk_keys_num st) ->
  (keys_left (pk_iter st) + Z.to_nat (len R - idx) < fuel)%nat ->
  (exists k, key_meta_at files (pk_files_index st) (pk_keys_index st) = Some k) ->
  exists st' idx' lg, pick_have_L1 ucmp fuel stop R idx st = Some (st', idx', lg) /\ 0 <= idx' <= len R /\
    pk_files st' = files /\ (exists k, key_meta_at files (pk_files_index st') (pk_keys_index st') = Some k) /\
    accounts (pk_keys_num st') (pk_keys_size st') (all_comption_size st') /\
    before_ranges R idx' (pk_keys_num st') /\ have_L1_result stop idx' st' lg.
Proof.
  intros HR. revert idx st. induction fuel as [|fuel IH]; intros idx st Hok Hidx Hb Hfuel Hlk; [lia|]. simpl.
  destruct (KMI_Valid (pk_iter st)) eqn:Hv.
  2: { exists st, idx, None. split_and!; [done|lia|lia|by destruct Hok|done|by destruct Hok|done|].
       left. split_and!; [done|done|by apply invalid_nothing_kept]. }
  destruct (current_picked st Hok Hv) as (c & x & n & f & k & _ & Hcur & _ & _ & _ & _ & _ & _ & _ & Hkm & Hmin).
  rewrite Hcur. simpl. rewrite (po_files _ Hok), Hkm. simpl.
  set (st1 := mkPick (pk_iter st) c (x + n) (pk_keys_num st) (pk_keys_size st) (all_comption_size st)).
  assert (Hok1 : pick_ok st1) by (by destruct Hok).
  destruct (boundary_test R idx (km_key k) HR Hidx) as (b & -> & Hbt). simpl. destruct b.
  - destruct Hbt as [Hlt Hbt]. destruct (negb (idx mod 2 =? 0) && (stop <=? all_comption_size st)) eqn:Hbr.
    + apply andb_true_iff in Hbr as [Hodd Hst]. apply negb_true_iff in Hodd. apply Z.leb_le in Hst.
      exists st1, idx, (Some (km_key k)). split_and!; [done|lia|lia|by destruct Hok1|by eauto|by destruct Hok1|done|].
      right. left. rewrite Hodd in Hbt. apply Z.eqb_neq in Hodd. pose proof (Z.mod_pos_bound idx 2 ltac:(lia)).
      split_and!; [done|lia|]. intros i j u i' j' v Hp Hkv.
      destruct (zget_is_Some R idx ltac:(lia)) as [r Hr]. destruct (Hb i j u idx r Hp Hr ltac:(lia)) as [Hur _].
      eapply (cmp_le_lt_trans ucmp); [exact Hur|]. eapply (cmp_lt_le_trans ucmp); [|by apply (Hmin i' j' v)].
      apply (cmp_lt_gt ucmp). by apply Hbt.
    + rewrite wrap_id by (pose proof (ro_len _ HR); lia).
      apply (IH (idx + 1) st1); [done|lia| |simpl; lia|by eauto]. eapply before_ranges_mono; [|exact Hb]. lia.
  - destruct (take_key_ok st1 Hok1 Hv) as (st3 & u & Ht & Hok3 & Hm & Hp & _ & Hnew & k' & Hk' & -> & Hcur').
    unfold take_key in Ht. destruct (count_key st1) as [st2|] eqn:Hcnt; simpl in Ht; [|done]. simpl.
    destruct (KMI_Next ucmp (pk_iter st2)) as [it'|] eqn:Hn; simpl in Ht; [|done]. injection Ht as <-. simpl in *.
    rewrite Hcur in Hcur'. injection Hcur' as Hc1 Hc2. rewrite <- Hc1, <- Hc2, Hkm in Hk'. injection Hk' as <-.
    assert (Hb3 : before_ranges R idx (pk_keys_num st2)) by (by eapply (before_ranges_pick R idx (pk_keys_num st))).
    destruct ((idx mod 2 =? 0) && (stop <=? all_comption_size st2)) eqn:Hbr.
    + apply andb_true_iff in Hbr as [Hev Hst]. apply Z.eqb_eq in Hev. apply Z.leb_le in Hst.
      exists st2, idx, (Some (km_key k)). split_and!; [done|lia|lia| |rewrite <- Hc1, <- Hc2; by eauto|by destruct Hok3|done|].
      * destruct (count_key_ok st1 Hok1 Hv) as (st2' & ? & ? & ? & ? & Hcnt' & _ & _ & _ & _ & _ & _ & Hit & _).
        assert (st2' = st2) as -> by congruence. unfold pk_files. rewrite Hit. by destruct Hok1.
      * right. right. split_and!; [done|done|by eauto].
    + destruct (IH idx (set_iter st2 it')) as (st' & idx' & lg & Hr & ?); [done|lia|done|simpl in *; lia
        |simpl; rewrite <- Hc1, <- Hc2; by eauto|].
      exists st', idx', lg. by split.
Qed.

(** ** The start of a pick *)

Lemma keys_left_bound it :
  kmi_ok ucmp it -> (keys_left it <= sum_list (length ∘ keys_meta <$> kmi_files it))%nat.
Proof.
  intros Hok. pose proof (kk_child _ _ Hok) as Hlen. unfold keys_left.
  assert (Hpos : forall i f c, kmi_files it !! i = Some f -> child_current_ it !! i = Some c -> 0 <= passed_of c f).
  { intros i f c Hf Hc. pose proof (kk_pos _ _ Hok (Z.of_nat i) f c) as H. rewrite !zget_nat in H.
    specialize (H Hf Hc). unfold passed_of. pose proof (zlen_nonneg (keys_meta f)). destruct (Z.eqb_spec c (-1)); lia. }
  revert Hpos Hlen. generalize (child_current_ it). induction (kmi_files it) as [|f fs IH]; intros [|c cs] Hpos Hlen;
    simpl in *; try lia.
  pose proof (Hpos 0%nat f c eq_refl eq_refl).
  assert (Hl : length cs = length fs) by lia. specialize (IH cs (fun i => Hpos (S i)) Hl).
  unfold zlen, compose in *. change (list_fmap FileEntry nat) with (@fmap list _ FileEntry nat). lia.
Qed.

Lemma replicate_zget {A} (n : nat) (x y : A) i : replicate n x !z i = Some y -> y = x.
Proof. intros [_ H]%zget_Some. apply lookup_replicate in H. tauto. Qed.

Lemma nothing_picked i j u : ~ picked (replicate (length files) 0) i j u.
Proof. intros (x & n & _ & Hn & Hj & _). apply replicate_zget in Hn. lia. Qed.

Lemma accounts_start :
  kmi_tables ucmp files firsts -> accounts (replicate (length files) 0) (replicate (length files) 0) 0.
Proof.
  intros Ht. constructor.
  - by rewrite length_replicate.
  - intros i x n f Hx ->%replicate_zget Hf. pose proof (kt_first _ _ _ Ht i f x Hf Hx). lia.
  - intros i x n f Hx Hn Hf. pose proof (replicate_zget _ _ _ _ Hn) as ->. rewrite Hn, Z.add_0_r.
    unfold bytes_of. by rewrite Z.sub_diag.
  - clear Ht. induction (length files) as [|n IH]; [done|]. simpl. exact IH.
  - intros i j u i' j' v Hp. by destruct (nothing_picked i j u).
Qed.

Definition start_pick it (fi ki : Z) : column_pick :=
  mkPick it fi ki (replicate (length files) 0) (replicate (length files) 0) 0.

Lemma pick_start :
  kmi_tables ucmp files firsts -> files <> [] ->
  exists it0 it1 fi ki kmax kmin,
    KMI_SeekToLast ucmp (KeysMergeIterator_make files firsts) = Some it0 /\
    current_key_or_empty it0 = Some (km_key kmax) /\
    KMI_SeekToFirst ucmp it0 = Some it1 /\ current_key_or_empty it1 = Some (km_key kmin) /\
    KMI_Valid it1 = true /\ GetCurret it1 = Some (fi, ki) /\
    pick_ok (start_pick it1 fi ki) /\ last_ok (start_pick it1 fi ki) /\
    (keys_left it1 <= sum_list (length ∘ keys_meta <$> files))%nat /\
    (exists i j, key_meta_at files i j = Some kmax) /\
    (forall i j u, user_key_at files i j = Some u -> Compare ucmp u (ExtractUserKey (km_key kmax)) <= 0) /\
    (forall i j u, kept (replicate (length files) 0) i j u -> Compare ucmp (ExtractUserKey (km_key kmin)) u <= 0).
Proof.
  intros Ht Hne.
  destruct (KMI_SeekToLast_ok ucmp (KeysMergeIterator_make files firsts) Ht Hne) as
    (it0 & i0 & c0 & u0 & H0 & Hv0 & Hc0 & Hu0 & Hf0 & Hx0 & Hmax). simpl in *.
  unfold user_key_at in Hu0. destruct (key_meta_at files i0 c0) as [kmax|] eqn:Hkmax; simpl in Hu0; [|done].
  injection Hu0 as <-.
  destruct (KMI_SeekToFirst_ok ucmp it0) as (it1 & H1 & Hval & Hf1 & Hx1 & Hp1); [by rewrite Hf0, Hx0|].
  rewrite Hf0 in Hf1. rewrite Hx0 in Hp1.
  set (fi := current_ it1). destruct (KMI_Valid it1) eqn:Hv1.
  2: { exfalso. destruct files as [|f0 fs] eqn:Efs; [done|]. rewrite <- Efs in *.
       assert (Hf : files !z 0 = Some f0) by (by rewrite Efs).
       destruct (zget_is_Some firsts 0) as [x Hx].
       { pose proof (zget_range _ _ _ Hf). pose proof (kt_len _ _ _ Ht). unfold zlen in *. lia. }
       pose proof (kt_first _ _ _ Ht 0 f0 x Hf Hx) as Hxr.
       destruct (zget_is_Some (keys_meta f0) x Hxr) as [k Hk].
       apply (invalid_done ucmp it1 0 x (ExtractUserKey (km_key k)) Hval Hv1).
       exists x. rewrite Hp1, Hf1. split_and!; [done|lia|]. unfold user_key_at, key_meta_at. rewrite Hf. simpl. by rewrite Hk. }
  destruct (current_key ucmp it1 Hval Hv1) as (f & c & k & Hf & Hc & Hcur & Hk & Hnc & Hkm & _).
  assert (Hst : pick_ok (start_pick it1 fi c)).
  { constructor; simpl; [done|done|done| |by apply accounts_start]. rewrite Hp1.
    apply list_eq. intros i. rewrite lookup_zip_with. destruct (firsts !! i) as [x|] eqn:Hx; simpl; [|done].
    rewrite lookup_replicate_2; simpl; [by rewrite Z.add_0_r|].
    apply lookup_lt_Some in Hx. pose proof (kt_len _ _ _ Ht). lia. }
  rewrite Hf1 in *. exists it0, it1, fi, c, kmax, k. split_and!; try done.
  - unfold current_key_or_empty. rewrite Hv0, Hc0. simpl. by rewrite Hf0, Hkmax.
  - unfold current_key_or_empty. rewrite Hv1, Hcur. simpl. by rewrite Hf1, Hkm.
  - exists k. simpl. split_and!; [done| |by right]. intros i j v Hp. by destruct (nothing_picked i j v).
  - destruct Hval as [Hok _]. pose proof (keys_left_bound it1 Hok) as Hb. by rewrite Hf1 in Hb.
  - eauto.
  - intros i j u Hkp. destruct (current_picked _ Hst Hv1) as (c' & x & n & f' & k' & Hcc & Hcur' & _ & _ & _ & _ & _ & _ & _ & Hkm' & Hmin).
    simpl in Hcur'. rewrite Hcur in Hcur'. injection Hcur' as Hc1 Hc2. rewrite <- Hc1, <- Hc2, Hkm in Hkm'.
    injection Hkm' as <-. by apply (Hmin i j u).
Qed.

(** Bytes are counted only when a key is picked. *)
Lemma accounts_some nums sizes all :
  kmi_tables ucmp files firsts -> accounts nums sizes all -> 0 < all -> exists i j u, picked nums i j u.
Proof.
  intros Ht [[Hl1 Hl2] Hrng Hsz -> _] Hpos.
  destruct (decide (Exists (fun n => n <> 0) nums)) as [(n & [i Hn]%list_elem_of_lookup & Hne)%Exists_exists|Hall].
  - assert (Hlt : (i < length files)%nat) by (apply lookup_lt_Some in Hn; lia).
    destruct (lookup_lt_is_Some_2 files i Hlt) as [f Hf].
    destruct (lookup_lt_is_Some_2 firsts i) as [x Hx]; [by rewrite (kt_len _ _ _ Ht)|].
    rewrite <- zget_nat in Hn. rewrite <- zget_nat in Hf. rewrite <- zget_nat in Hx.
    destruct (Hrng _ _ _ _ Hx Hn Hf). pose proof (kt_first _ _ _ Ht _ _ _ Hf Hx).
    destruct (zget_is_Some (keys_meta f) x ltac:(lia)) as [k Hk].
    exists (Z.of_nat i), x, (ExtractUserKey (km_key k)), x, n. split_and!; [done|done|lia|lia|].
    unfold user_key_at, key_meta_at. rewrite Hf. simpl. by rewrite Hk.
  - exfalso. assert (Hz : Forall (fun s => s = 0) sizes).
    { apply Forall_lookup. intros i sz Hi. assert (Hlt : (i < length files)%nat) by (apply lookup_lt_Some in Hi; lia).
      destruct (lookup_lt_is_Some_2 files i Hlt) as [f Hf]. destruct (lookup_lt_is_Some_2 nums i) as [n Hn]; [lia|].
      destruct (lookup_lt_is_Some_2 firsts i) as [x Hx]; [by rewrite (kt_len _ _ _ Ht)|].
      assert (n = 0) as ->.
      { destruct (decide (n = 0)); [done|]. exfalso. apply Hall. apply Exists_exists. exists n.
        split; [by eapply list_elem_of_lookup_2|done]. }
      pose proof (Hsz (Z.of_nat i) x 0 f) as Hs. rewrite !zget_nat in Hs. specialize (Hs Hx Hn Hf).
      rewrite Hi in Hs. injection Hs as ->. unfold bytes_of. by rewrite Z.add_0_r, Z.sub_diag. }
    clear - Hz Hpos. induction Hz; simpl in *; subst; done.
Qed.

(** ** Level 1 *)

Definition ranges_of (L1 : list FileMetaData) : list bytes := mjoin ((fun f => [f_smallest f; f_largest f]) <$> L1).

Lemma ranges_of_length L1 : length (ranges_of L1) = (2 * length L1)%nat.
Proof.
  induction L1 as [|f L1 IH]; [done|].
  change (ranges_of (f :: L1)) with (f_smallest f :: f_largest f :: ranges_of L1). simpl. lia.
Qed.

(** Position [e] is a boundary of file [e / 2]. *)
Lemma ranges_of_lookup L1 e r :
  ranges_of L1 !z e = Some r ->
  exists f, L1 !z (e / 2) = Some f /\ r = (if e mod 2 =? 0 then f_smallest f else f_largest f).
Proof.
  revert e. induction L1 as [|f L1 IH]; intros e [H0 He]%zget_Some; [done|].
  change (ranges_of (f :: L1)) with (f_smallest f :: f_largest f :: ranges_of L1) in He.
  destruct (decide (e = 0)) as [->|]; [injection He as <-; by exists f|].
  destruct (decide (e = 1)) as [->|]; [injection He as <-; by exists f|].
  destruct (IH (e - 2)) as (g & Hg & ->).
  { apply zget_Some. split; [lia|].
    assert (Hn : Z.to_nat e = S (S (Z.to_nat (e - 2)))) by lia. rewrite Hn in He. exact He. }
  assert (Hd : e / 2 = (e - 2) / 2 + 1) by (rewrite <- Z.div_add by lia; f_equal; lia).
  assert (Hm : e mod 2 = (e - 2) mod 2) by (rewrite <- (Z_mod_plus_full (e - 2) 1 2); f_equal; lia).
  rewrite Hd, Hm. exists g. split; [|done].
  apply zget_Some in Hg as [Hg0 Hg]. apply zget_Some. split; [lia|].
  assert (Hn : Z.to_nat ((e - 2) / 2 + 1) = S (Z.to_nat ((e - 2) / 2))) by lia. rewrite Hn. exact Hg.
Qed.

Lemma user_disjoint_filter (P : FileMetaData -> Prop) `{!forall x, Decision (P x)} L1 :
  user_disjoint ucmp L1 -> user_disjoint ucmp (filter P L1).
Proof.
  intros [Hs Hf]. split; [|by apply Forall_filter].
  induction Hs as [|f L1 Hs IH Hall]; [constructor|]. apply Forall_cons in Hf as [_ Hf].
  rewrite filter_cons. destruct (decide (P f)); [|by apply IH]. constructor; [by apply IH|]. by apply Forall_filter.
Qed.

Lemma ranges_of_ok L1 : user_disjoint ucmp L1 -> len L1 < 2 ^ 31 -> ranges_ok (ranges_of L1).
Proof.
  intros [Hs Hf] Hl.
  assert (Hsm : forall i f, L1 !z i = Some f -> Compare ucmp (ExtractUserKey (f_smallest f)) (ExtractUserKey (f_largest f)) <= 0).
  { intros i f [_ H]%zget_Some. exact (Forall_lookup_1 _ _ _ _ Hf H). }
  assert (Hgap : forall i j f g, L1 !z i = Some f -> L1 !z j = Some g -> i < j ->
    Compare ucmp (ExtractUserKey (f_largest f)) (ExtractUserKey (f_smallest g)) < 0).
  { intros i j f g [Hi Hfi]%zget_Some [Hj Hgj]%zget_Some Hij.
    exact (StronglySorted_lookup_lt _ _ (Z.to_nat i) (Z.to_nat j) _ _ Hs ltac:(lia) Hfi Hgj). }
  constructor.
  - unfold zlen in *. rewrite ranges_of_length. lia.
  - unfold zlen. rewrite ranges_of_length. rewrite Nat2Z.inj_mul, Z.mul_comm. apply Z_mod_mult.
  - intros a b ra rb (f & Hfa & ->)%ranges_of_lookup (g & Hgb & ->)%ranges_of_lookup Hab.
    assert (Hd : a / 2 <= b / 2) by (apply Z.div_le_mono; lia).
    destruct (decide (a / 2 = b / 2)) as [Heq|Hne].
    + assert (g = f) as -> by congruence.
      destruct (Z.eqb_spec (a mod 2) 0), (Z.eqb_spec (b mod 2) 0); rewrite ?(cmp_refl ucmp); try lia; [by eapply Hsm|].
      pose proof (Z.div_mod a 2). pose proof (Z.div_mod b 2). pose proof (Z.mod_pos_bound a 2). lia.
    + pose proof (Hgap _ _ _ _ Hfa Hgb ltac:(lia)) as Hg.
      assert (H1 : Compare ucmp (ExtractUserKey (if a mod 2 =? 0 then f_smallest f else f_largest f)) (ExtractUserKey (f_largest f)) <= 0)
        by (destruct (a mod 2 =? 0); [by eapply Hsm|by rewrite (cmp_refl ucmp)]).
      assert (H2 : Compare ucmp (ExtractUserKey (f_smallest g)) (ExtractUserKey (if b mod 2 =? 0 then f_smallest g else f_largest g)) <= 0)
        by (destruct (b mod 2 =? 0); [by rewrite (cmp_refl ucmp)|by eapply Hsm]).
      eapply (cmp_trans (c := ucmp)); [exact H1|]. eapply (cmp_trans (c := ucmp)); [|exact H2]. lia.
  - intros a b ra rb (f & Hfa & ->)%ranges_of_lookup (g & Hgb & ->)%ranges_of_lookup Ha Hb Hab.
    rewrite Ha, Hb. simpl. apply (Hgap (a / 2) (b / 2)); [done|done|].
    pose proof (Z.div_mod a 2). pose proof (Z.div_mod b 2). lia.
Qed.

(** Level 1 of a version. *)
Record level1_ok (vs : VersionStorageInfo) (L1 : list FileMetaData) : Prop := {
  l1_files : LevelFiles vs 1 = Some L1;
  l1_sorted : level_sorted ucmp L1;
  l1_disjoint : user_disjoint ucmp L1;
  l1_len : len L1 < 2 ^ 31;
  l1_levels : L1 <> [] -> 1 < num_non_empty_levels_ vs;
}.

Lemma level1_overlap vs L1 a b :
  level1_ok vs L1 ->
  exists ov, GetOverlappingInputs ucmp vs 1 (Some a) (Some b) (-1) true = Some ov /\
    match ov with Some (inputs, _, _) => inputs | None => [] end =
    filter (fun f => meets ucmp (Some a) (Some b) f = true) L1.
Proof.
  intros []. destruct (Z.lt_ge_cases 1 (num_non_empty_levels_ vs)) as [Hlv|Hlv].
  - destruct (GetOverlappingInputs_ok ucmp vs 1 L1 (Some a) (Some b) (-1) true) as (mid & ns & -> & _);
      [lia|done|done|by left|]. by eauto.
  - assert (L1 = []) as -> by (destruct L1; [done|]; by specialize (l1_levels0 ltac:(done)); lia).
    unfold GetOverlappingInputs. destruct (Z.leb_spec (num_non_empty_levels_ vs) 1); [|lia]. by exists None.
Qed.

Lemma final_largest_ok st lg :
  pk_files st = files -> (exists k, key_meta_at files (pk_files_index st) (pk_keys_index st) = Some k) ->
  exists lg', final_largest st lg = Some lg'.
Proof.
  intros Hf [k Hk]. unfold final_largest. destruct (_ && _); [|by eauto]. rewrite Hf, Hk. simpl. by eauto.
Qed.

(** What a pick returns. *)
Definition pick_result (o : NvmCfOptions) (L1 : list FileMetaData) (kmin kmax : bytes) st (L1c : list FileMetaData) : Prop :=
  let ov := filter (fun f => meets ucmp (Some kmin) (Some kmax) f = true) L1 in
  let base := nvm_target_file_size_base o in
  (ov = [] /\ L1c = [] /\ (exists i j u, picked (pk_keys_num st) i j u) /\
   exists lg, no_L1_result (L1CompactionSizeStop (Column_compaction_no_L1_select_L0 o) base) st lg) \/
  (ov <> [] /\ exists idx lg, 0 <= idx <= len (ranges_of ov) /\ L1c = take (Z.to_nat ((idx + 1) / 2)) ov /\
     before_ranges (ranges_of ov) idx (pk_keys_num st) /\
     have_L1_result (L1CompactionSizeStop (Column_compaction_have_L1_select_L0 o) base) idx st lg).

#[local] Opaque pick_no_L1 pick_have_L1.

Lemma pick_column_ok o vs L0files L1 :
  kmi_tables ucmp files firsts -> files <> [] -> level1_ok vs L1 ->
  exists st L1c kmin kmax lg,
    pick_column ucmp o vs L0files files firsts = Some (make_item st L0files L1c (km_key kmin) lg) /\
    pk_files st = files /\ accounts (pk_keys_num st) (pk_keys_size st) (all_comption_size st) /\
    (exists i j, key_meta_at files i j = Some kmax) /\
    (forall i j u, user_key_at files i j = Some u -> Compare ucmp u (ExtractUserKey (km_key kmax)) <= 0) /\
    (forall i j u, kept (replicate (length files) 0) i j u -> Compare ucmp (ExtractUserKey (km_key kmin)) u <= 0) /\
    pick_result o L1 (km_key kmin) (km_key kmax) st L1c.
Proof.
  intros Ht Hne HL1. destruct (pick_start Ht Hne) as
    (it0 & it1 & fi & ki & kmax & kmin & H0 & Hmx & H1 & Hmn & Hv & Hcur & Hok & Hlast & Hkl & Hkm & Hmax & Hmin).
  destruct (level1_overlap vs L1 (km_key kmin) (km_key kmax) HL1) as (ov & Hov & Hovf).
  unfold pick_column. rewrite H0. simpl. rewrite Hmx. simpl. rewrite H1. simpl. rewrite Hmn. simpl.
  rewrite Hov. simpl. rewrite Hv, Hcur. simpl. rewrite Hovf. fold (start_pick it1 fi ki).
  set (L1ov := filter _ L1) in *. unfold pick_result. fold L1ov.
  destruct (Z.eqb_spec (len L1ov) 0) as [Hz%zlen_zero|Hz].
  - destruct (pick_no_L1_ok (S (sum_list (length ∘ keys_meta <$> files)))
      (L1CompactionSizeStop (Column_compaction_no_L1_select_L0 o) (nvm_target_file_size_base o))
      (start_pick it1 fi ki) Hok Hlast) as (st & lg & Hr & Hok' & Hl' & Hres & Hp); [simpl; lia|].
    rewrite Hr. simpl.
    destruct (final_largest_ok st lg) as [lg' ->]; [by destruct Hok'|destruct Hl' as (k & Hk & _); by eauto|]. simpl.
    exists st, [], kmin, kmax, lg'. split_and!; try done; [by destruct Hok'|by destruct Hok'|].
    left. split_and!; [done|done| |by eauto]. destruct Hp as [u Hu]; [by right|]. by eauto.
  - fold (ranges_of L1ov).
    assert (HR : ranges_ok (ranges_of L1ov)).
    { apply ranges_of_ok; [apply user_disjoint_filter; by destruct HL1|].
      pose proof (l1_len _ _ HL1). assert (length L1ov <= length L1)%nat by apply sublist_length, sublist_filter.
      unfold zlen in *. lia. }
    destruct (pick_have_L1_ok (S (sum_list (length ∘ keys_meta <$> files)) + length (ranges_of L1ov))
      (L1CompactionSizeStop (Column_compaction_have_L1_select_L0 o) (nvm_target_file_size_base o))
      (ranges_of L1ov) 0 (start_pick it1 fi ki) HR Hok) as (st & idx & lg & Hr & Hidx & Hf & Hk & Hacc & Hb & Hres).
    + pose proof (zlen_nonneg (ranges_of L1ov)). lia.
    + intros i j v e r Hp. by destruct (nothing_picked i j v).
    + simpl. unfold zlen. lia.
    + destruct Hlast as (k & Hk & _). by eauto.
    + simpl in Hr. rewrite Hr. simpl. destruct (final_largest_ok st lg Hf Hk) as [lg' ->]. simpl.
      exists st, (take (Z.to_nat ((idx + 1) / 2)) L1ov), kmin, kmax, lg'. split_and!; try done.
      right. split; [intros Hn; apply Hz; change (len L1ov = len (@nil FileMetaData)); by f_equal|]. exists idx, lg.
      split_and!; [exact (proj1 Hidx)|exact (proj2 Hidx)|done|done|done].
Qed.
End PickOk.

(** ** What a pick promises *)

Section Promises.
Context (ucmp : Comparator) {Laws : ComparatorLaws ucmp}.
Implicit Types (files : list FileEntry) (firsts : list Z) (c : ColumnCompactionItem).

(** The item lists the tables that give keys, newest first, each with the number and
    the bytes of its keys. *)
Definition item_lists files (nums sizes : list Z) c : Prop :=
  length (cc_keys_num c) = length (cc_files c) /\ length (cc_keys_size c) = length (cc_files c) /\
  Forall (fun n => n <> 0) (cc_keys_num c) /\
  sublist (zip (zip (cc_files c) (cc_keys_num c)) (cc_keys_size c)) (zip (zip files nums) sizes) /\
  forall f n size, (f, n, size) ∈ zip (zip files nums) sizes -> n <> 0 ->
    (f, n, size) ∈ zip (zip (cc_files c) (cc_keys_num c)) (cc_keys_size c).

Lemma zip_parts {A B C} (cs : list (A * B * C)) :
  zip (zip ((fun x => x.1.1) <$> cs) ((fun x => x.1.2) <$> cs)) ((fun x => x.2) <$> cs) = cs.
Proof. induction cs as [|[[a b] d] cs IH]; [done|]. simpl. by f_equal. Qed.

Lemma make_item_lists files st L0files L1c a b :
  pk_files st = files -> item_lists files (pk_keys_num st) (pk_keys_size st) (make_item st L0files L1c a b).
Proof.
  intros <-. unfold item_lists, make_item, chosen. simpl. rewrite zip_parts, !length_fmap. split_and!; [done|done| | |].
  - apply Forall_fmap, Forall_forall. by intros x [? _]%list_elem_of_filter.
  - apply sublist_filter.
  - intros f n size Hin Hn. by apply list_elem_of_filter.
Qed.

(** The file's largest key is the exclusive end of a range tombstone. *)
Definition largest_exclusive (f : FileMetaData) : Prop :=
  ExtractInternalKeyFooter (f_largest f) = kRangeTombstoneSentinel.

(** The user key lies outside the file. *)
Definition outside (u : bytes) (f : FileMetaData) : Prop :=
  Compare ucmp u (ExtractUserKey (f_smallest f)) < 0 \/ 0 < Compare ucmp u (ExtractUserKey (f_largest f)) \/
  (Compare ucmp u (ExtractUserKey (f_largest f)) = 0 /\ largest_exclusive f).

Lemma not_meets_outside a b u f :
  meets ucmp (Some a) (Some b) f = false -> ExtractInternalKeyFooter b <> kRangeTombstoneSentinel ->
  Compare ucmp (ExtractUserKey a) u <= 0 -> Compare ucmp u (ExtractUserKey b) <= 0 -> outside u f.
Proof.
  unfold meets, outside. intros [H|H]%andb_false_iff Hb Ha Hu; apply Z.leb_gt in H; simpl in H; unfold sstableKeyCompare in H.
  - right. destruct (Z.eqb_spec (Compare ucmp (ExtractUserKey a) (ExtractUserKey (f_largest f))) 0) as [He|Hne]; simpl in H.
    + assert (Hl : 0 <= Compare ucmp u (ExtractUserKey (f_largest f))).
      { apply (cmp_le_ge ucmp), (cmp_trans (c := ucmp) _ (ExtractUserKey a)); [apply (cmp_le_ge ucmp); lia|done]. }
      destruct (Z.eq_dec (Compare ucmp u (ExtractUserKey (f_largest f))) 0); [|left; lia]. right. split; [done|].
      unfold largest_exclusive. destruct (Z.eqb_spec (ExtractInternalKeyFooter a) kRangeTombstoneSentinel),
        (Z.eqb_spec (ExtractInternalKeyFooter (f_largest f)) kRangeTombstoneSentinel); simpl in H; first [lia|done].
    + left. apply (cmp_lt_gt ucmp). apply (cmp_lt_gt ucmp) in H. exact (cmp_lt_le_trans ucmp _ _ _ H Ha).
  - left. destruct (Z.eqb_spec (Compare ucmp (ExtractUserKey (f_smallest f)) (ExtractUserKey b)) 0) as [He|Hne]; simpl in H.
    + destruct (Z.eqb_spec (ExtractInternalKeyFooter (f_smallest f)) kRangeTombstoneSentinel),
        (Z.eqb_spec (ExtractInternalKeyFooter b) kRangeTombstoneSentinel); simpl in H; first [lia|done].
    + apply (cmp_lt_gt ucmp) in H. exact (cmp_le_lt_trans ucmp _ _ _ Hu H).
Qed.

Lemma picked_visible files firsts nums i j u :
  length firsts = length files ->
  picked files firsts nums i j u -> kept files firsts (replicate (length files) 0) i j u.
Proof.
  intros Hl (x & n & Hx & _ & Hj & Hu). exists x, 0. split_and!; [done| |lia|done].
  apply zget_range in Hx as Hr. apply zget_Some. split; [lia|]. apply lookup_replicate_2. unfold zlen in Hr. lia.
Qed.

(** The level-1 files left out hold none of the keys picked. *)
Lemma pick_result_outside files firsts o L1 kmin kmax st L1c f i j u :
  length firsts = length files ->
  ExtractInternalKeyFooter (km_key kmax) <> kRangeTombstoneSentinel ->
  (forall i j u, user_key_at files i j = Some u -> Compare ucmp u (ExtractUserKey (km_key kmax)) <= 0) ->
  (forall i j u, kept files firsts (replicate (length files) 0) i j u -> Compare ucmp (ExtractUserKey (km_key kmin)) u <= 0) ->
  pick_result ucmp files firsts o L1 (km_key kmin) (km_key kmax) st L1c ->
  f ∈ L1 -> f ∉ L1c -> picked files firsts (pk_keys_num st) i j u -> outside u f.
Proof.
  intros Hlen Hs Hmax Hmin Hres Hf Hn Hp.
  assert (Hu : Compare ucmp (ExtractUserKey (km_key kmin)) u <= 0 /\ Compare ucmp u (ExtractUserKey (km_key kmax)) <= 0).
  { split; [by apply (Hmin i j u), (picked_visible _ _ (pk_keys_num st))|]. destruct Hp as (? & ? & _ & _ & _ & Hu). by apply (Hmax i j u). }
  destruct (meets ucmp (Some (km_key kmin)) (Some (km_key kmax)) f) eqn:Hm; [|by eapply not_meets_outside; [| |apply Hu..]].
  assert (Hov : f ∈ filter (fun f => meets ucmp (Some (km_key kmin)) (Some (km_key kmax)) f = true) L1)
    by (by apply list_elem_of_filter).
  destruct Hres as [(He & _)|(_ & idx & lg & Hidx & -> & Hb & _)]; [rewrite He in Hov; by apply not_elem_of_nil in Hov|].
  left. apply list_elem_of_lookup in Hov as [p Hpos].
  assert (Hge : (idx + 1) / 2 <= Z.of_nat p).
  { destruct (Z.lt_ge_cases (Z.of_nat p) ((idx + 1) / 2)) as [Hlt|]; [|lia]. destruct Hn.
    apply (list_elem_of_lookup_2 _ p), lookup_take_Some. split; [done|lia]. }
  pose proof (Z.div_mod (idx + 1) 2 ltac:(lia)). pose proof (Z.mod_pos_bound (idx + 1) 2 ltac:(lia)).
  destruct (zget_is_Some (ranges_of (filter (fun f => meets ucmp (Some (km_key kmin)) (Some (km_key kmax)) f = true) L1)) (2 * Z.of_nat p))
    as [r Hr]; [unfold zlen; rewrite ranges_of_length; apply lookup_lt_Some in Hpos; lia|].
  destruct (Hb i j u _ r Hp Hr ltac:(lia)) as [_ Hlt].
  apply ranges_of_lookup in Hr as (g & Hg & ->). rewrite (Z.mul_comm 2), Z_mod_mult, Z.div_mul in * by lia. simpl in *.
  rewrite zget_nat in Hg. assert (g = f) as -> by congruence. by apply Hlt.
Qed.
End Promises.

(** ** Correctness of a pick *)

Section PickClaims.
Context (ucmp : Comparator) {Laws : ComparatorLaws ucmp}.
Implicit Types (files : list FileEntry) (firsts : list Z) (c : ColumnCompactionItem).

(** C36. A column pick always ends with an item, and the item is a prefix of the merged
    order of the visible keys: the counters of each table say how many of its first
    visible keys are taken and how many bytes they have (the selected size is their sum
    modulo 2^64), the item lists exactly the tables that give keys, and no key left
    behind is smaller than a key taken. *)
Theorem column_pick_prefix o vs L0files L1 files firsts :
  kmi_tables ucmp files firsts -> files <> [] -> level1_ok ucmp vs L1 ->
  exists c nums sizes, pick_column ucmp o vs L0files files firsts = Some c /\
    item_lists files nums sizes c /\ accounts ucmp files firsts nums sizes (L0select_size c).
Proof.
  intros Ht Hne HL1. destruct (pick_column_ok ucmp files firsts o vs L0files L1 Ht Hne HL1)
    as (st & L1c & kmin & kmax & lg & Hp & Hf & Hacc & _).
  exists (make_item st L0files L1c (km_key kmin) lg), (pk_keys_num st), (pk_keys_size st).
  split_and!; [done|by apply make_item_lists|done].
Qed.

(** When level 1 holds nothing, a pick ends either with every visible key or with
    at least the configured size, and then between two different user keys: all
    versions of a user key are taken together or left together. *)
Theorem column_pick_whole_keys o vs L0files files firsts :
  kmi_tables ucmp files firsts -> files <> [] -> level1_ok ucmp vs [] ->
  exists c nums sizes, pick_column ucmp o vs L0files files firsts = Some c /\
    item_lists files nums sizes c /\ L1compactionfiles c = [] /\
    (exists i j u, picked files firsts nums i j u) /\
    ((forall i j u, ~ kept files firsts nums i j u) \/
     L1CompactionSizeStop (Column_compaction_no_L1_select_L0 o) (nvm_target_file_size_base o) <= L0select_size c /\
     forall i j u i' j' v, picked files firsts nums i j u -> kept files firsts nums i' j' v -> Compare ucmp u v < 0).
Proof.
  intros Ht Hne HL1. destruct (pick_column_ok ucmp files firsts o vs L0files [] Ht Hne HL1)
    as (st & L1c & kmin & kmax & lg & Hp & Hf & Hacc & _ & _ & _ & [(_ & -> & Hsome & lg' & Hres)|(Hno & _)]); [|done].
  exists (make_item st L0files [] (km_key kmin) lg), (pk_keys_num st), (pk_keys_size st).
  split_and!; [done|by apply make_item_lists|done|done|].
  destruct Hres as [(_ & _ & Hk)|(_ & Hsz & _ & _ & Hsep)]; [by left|by right].
Qed.

(** C37. The level-1 inputs of a pick are complete when no two files of level 1 share a user
    key ([level1_ok]): a level-1 file that is left out contains none of the keys taken, so
    the compaction's output fits between the level-1 files that stay.  No key of the tables
    has the footer of a range-tombstone sentinel. *)
Theorem column_pick_level1_complete o vs L0files L1 files firsts :
  kmi_tables ucmp files firsts -> files <> [] -> level1_ok ucmp vs L1 ->
  (forall i j k, key_meta_at files i j = Some k -> ExtractInternalKeyFooter (km_key k) <> kRangeTombstoneSentinel) ->
  exists c nums sizes, pick_column ucmp o vs L0files files firsts = Some c /\
    item_lists files nums sizes c /\
    forall f i j u, f ∈ L1 -> f ∉ L1compactionfiles c -> picked files firsts nums i j u -> outside ucmp u f.
Proof.
  intros Ht Hne HL1 Hs. destruct (pick_column_ok ucmp files firsts o vs L0files L1 Ht Hne HL1)
    as (st & L1c & kmin & kmax & lg & Hp & Hf & Hacc & (i0 & j0 & Hkm) & Hmax & Hmin & Hres).
  exists (make_item st L0files L1c (km_key kmin) lg), (pk_keys_num st), (pk_keys_size st).
  split_and!; [done|by apply make_item_lists|]. intros f i j u Hf1 Hf2 Hpk.
  by apply (pick_result_outside ucmp files firsts o L1 kmin kmax st L1c f i j u (kt_len _ _ _ Ht) (Hs _ _ _ Hkm) Hmax Hmin Hres).
Qed.
End PickClaims.

(** ** Small instances *)

Definition sample_pick_options : NvmCfOptions := mkNvmOpt true [] 0 0 0 1 1 0 0 0 (6 * 1024 * 1024 + 1).

(** A newer and an older version of one user key in front of a file of level 1. *)
Definition split_key (c : Byte.byte) (seq offset : Z) : KeysMetadata := mkKM (InternalKey_make [c] seq kTypeValue) (-1) offset 26.
Definition split_newer : FileEntry := mkFE 8 1 [split_key Byte.x64 4 0] 1 7.
Definition split_older : FileEntry := mkFE 7 0 [split_key Byte.x64 2 0; split_key Byte.x66 1 26] 2 0.

(** With files in level 1 a pick may separate the versions of one user key: between
    two level-1 files the loop stops as soon as the size is reached, without looking at
    the next key.  Here the newer version goes to level 1 while the older one stays in
    level 0, where lookups look first. *)
Theorem column_pick_splits_key :
  exists c, pick_column BytewiseComparator sample_pick_options sample_storage [] [split_newer; split_older] [0; 0] = Some c /\
    cc_files c = [split_newer] /\ cc_keys_num c = [1] /\ L1compactionfiles c = [] /\
    user_key_at [split_newer; split_older] 0 0 = user_key_at [split_newer; split_older] 1 0 /\
    (GetInternalKeySeqno <$> (km_key <$> key_meta_at [split_newer; split_older] 0 0)) = Some 4 /\
    (GetInternalKeySeqno <$> (km_key <$> key_meta_at [split_newer; split_older] 1 0)) = Some 2.
Proof. eexists. split; [vm_compute; reflexivity|]. by vm_compute. Qed.

Lemma sample_level1_ok : level1_ok BytewiseComparator sample_storage sample_level.
Proof.
  constructor; [done|apply sample_level_sorted| |done|done]. split.
  - repeat (constructor; [|repeat (constructor; try (by vm_compute))]). constructor.
  - repeat (constructor; try by vm_compute).
Qed.

Lemma sample_empty_level1_ok : level1_ok BytewiseComparator (mkVS [[]; []] 1) [].
Proof.
  constructor; [done| | |done|done].
  - split; intros; exfalso; by repeat match goal with H : [] !z _ = Some _ |- _ => apply zget_range in H; unfold zlen in H; simpl in H; lia end.
  - split; constructor.
Qed.

Lemma column_pick_prefix_witness :
  exists c, pick_column BytewiseComparator sample_pick_options sample_storage [] sample_tables [0; 1] = Some c.
Proof.
  destruct (column_pick_prefix BytewiseComparator sample_pick_options sample_storage [] sample_level sample_tables [0; 1])
    as (c & nums & sizes & H & _).
  - apply sample_tables_ok.
  - done.
  - apply sample_level1_ok.
  - exists c. exact H.
Defined.

Lemma column_pick_whole_keys_witness :
  exists c, pick_column BytewiseComparator sample_pick_options (mkVS [[]; []] 1) [] sample_tables [0; 1] = Some c.
Proof.
  destruct (column_pick_whole_keys BytewiseComparator sample_pick_options (mkVS [[]; []] 1) [] sample_tables [0; 1])
    as (c & nums & sizes & H & _).
  - apply sample_tables_ok.
  - done.
  - apply sample_empty_level1_ok.
  - exists c. exact H.
Defined.

Lemma column_pick_level1_complete_witness :
  exists c, pick_column BytewiseComparator sample_pick_options sample_storage [] sample_tables [0; 1] = Some c.
Proof.
  destruct (column_pick_level1_complete BytewiseComparator sample_pick_options sample_storage [] sample_level sample_tables [0; 1])
    as (c & nums & sizes & H & _).
  - apply sample_tables_ok.
  - done.
  - apply sample_level1_ok.
  - intros i j k. unfold key_meta_at. destruct (sample_tables !z i) as [f|] eqn:Hf; [|done]. simpl. intros Hk.
    apply zget_Some in Hf as [_ Hf%list_elem_of_lookup_2], Hk as [_ Hk%list_elem_of_lookup_2].
    repeat (apply elem_of_cons in Hf as [->|Hf]; [repeat (apply elem_of_cons in Hk as [->|Hk]; [by vm_compute|]); by apply not_elem_of_nil in Hk|]).
    by apply not_elem_of_nil in Hf.
  - exists c. exact H.
Defined.
