(* ===== verification/NvmIter.v ===== *)
(** * Iterators over NVM tables (utilities/nvm_mod/column_compaction_iterator.h)

    The iterator of level-0 reads, which takes keys from the table metadata and values
    from the slot, and the two iterators of column compaction, which read key and value
    from the slot itself or from a copy of it.  A [Slice] is an address and a size: what
    it shows is read when it is used. *)

From S2P Require Import Prelude Coding Comparator DbFormat VersionEdit NvmAlloc SstableMeta L0Table Iterator NvmCf.

(** ** Slices into a table *)

Abbreviation slice := (Z * Z)%type.

Definition slice_bytes (mem : bytes) (s : slice) : option bytes := mem_read mem s.1 s.2.

(** The slices of the record at [data_addr + offset]. *)
Definition record_slices (mem : bytes) (data_addr offset : Z) : option (slice * slice) :=
  ks ← mem_read mem (data_addr + offset) 8;
  let key_size := DecodeFixed64 ks in
  let offset := wrap64 (offset + 8) in
  let key := (data_addr + offset, key_size) in
  let offset := wrap64 (offset + key_size) in
  vs ← mem_read mem (data_addr + offset) 8;
  let value_size := DecodeFixed64 vs in
  let offset := wrap64 (offset + 8) in
  Some (key, (data_addr + offset, value_size)).

(** [keys_meta[first_key_index + i]]. *)
Definition meta_at (file : FileEntry) (first_key_index i : Z) : option KeysMetadata :=
  keys_meta file !z (wrap64 (first_key_index + i)).

Record SliceIterator := mkSI {
  vKey_ : list slice;
  vValue_ : list slice;
  si_current_ : Z;
}.

Definition ColumnCompactionItemIterator_make (mem : bytes) (raw_data : Z) (file : FileEntry)
    (first_key_index keys_num_ : Z) : option SliceIterator :=
  if negb (0 <? keys_num_) then None else
  ss ← mapM (fun i => k ← meta_at file first_key_index i; record_slices mem raw_data (km_offset k))
         (seqZ 0 keys_num_);
  Some (mkSI ss.*1 ss.*2 (-1)).

Definition SI_Valid (it : SliceIterator) : bool :=
  (0 <=? si_current_ it) && (si_current_ it <? i32 (len (vKey_ it))).

Definition si_at (it : SliceIterator) (c : Z) : SliceIterator := mkSI (vKey_ it) (vValue_ it) c.

Definition SI_SeekToFirst (it : SliceIterator) : SliceIterator := si_at it 0.
Definition SI_SeekToLast (it : SliceIterator) : SliceIterator := si_at it (i32 (wrap64 (len (vKey_ it) - 1))).
Definition SI_Next (it : SliceIterator) : SliceIterator := si_at it (i32 (si_current_ it + 1)).
Definition SI_Prev (it : SliceIterator) : SliceIterator := si_at it (i32 (si_current_ it - 1)).
Definition SI_key (mem : bytes) (it : SliceIterator) : option bytes :=
  s ← vKey_ it !z si_current_ it; slice_bytes mem s.
Definition SI_value (mem : bytes) (it : SliceIterator) : option bytes :=
  s ← vValue_ it !z si_current_ it; slice_bytes mem s.

(** The binary search of [Seek], on the comparison of key [mid] with the target. *)
Fixpoint seek_binary (cmp_at : Z -> option Z) (fuel : nat) (left right : Z) : option Z :=
  if left <? right then
    match fuel with
    | O => None
    | S fuel =>
        let mid := i32 (i32 (left + right) + 1) / 2 in
        cmp ← cmp_at mid;
        if cmp <? 0 then seek_binary cmp_at fuel mid right
        else if 0 <? cmp then seek_binary cmp_at fuel left (mid - 1)
        else Some mid
    end
  else Some left.

(** The linear search after it; [size] bounds [Valid()]. *)
Fixpoint seek_linear (cmp_at : Z -> option Z) (size : Z) (fuel : nat) (current_ : Z) : option Z :=
  match fuel with
  | O => None
  | S fuel =>
      cmp ← cmp_at current_;
      if 0 <=? cmp then Some current_
      else
        let current_ := i32 (current_ + 1) in
        if (0 <=? current_) && (current_ <? size) then seek_linear cmp_at size fuel current_ else Some current_
  end.

Definition seek_position (cmp_at : Z -> option Z) (size : Z) : option Z :=
  left ← seek_binary cmp_at (Z.to_nat size) 0 (size - 1);
  seek_linear cmp_at size (S (Z.to_nat size)) left.

Definition SI_Seek (icmp : Comparator) (mem target : bytes) (it : SliceIterator) : option SliceIterator :=
  c ← seek_position (fun mid => s ← vKey_ it !z mid; k ← slice_bytes mem s; Some (Compare icmp k target))
        (i32 (len (vKey_ it)));
  Some (si_at it c).

(** [SeekForPrev] only prints a message. *)
Definition ItemIterator (icmp : Comparator) (mem : bytes) : InternalIterator SliceIterator :=
  mkIter _ SI_Valid (fun s => Some (SI_SeekToFirst s)) (fun s => Some (SI_SeekToLast s)) (SI_Seek icmp mem)
    (fun _ s => Some s) (fun s => Some (SI_Next s)) (fun s => if SI_Valid s then Some (SI_Prev s) else None)
    (SI_key mem) (SI_value mem) (fun _ => Status_OK).

(** ** The buffered iterator *)

Record ColumnCompactionWithBufferIterator := mkWB { wb_slices : SliceIterator; wb_buf_ : bytes }.

Definition ColumnCompactionWithBufferIterator_make (mem : bytes) (raw_data : Z) (file : FileEntry)
    (first_key_index keys_num_ : Z) : option ColumnCompactionWithBufferIterator :=
  k0 ← meta_at file first_key_index 0;
  let key_value_offset := km_offset k0 in
  kn ← keys_meta file !z (wrap64 (wrap64 (first_key_index + keys_num_) - 1));
  let buf_size_ := wrap64 (wrap64 (km_offset kn - key_value_offset) + km_size kn) in
  buf ← mem_read mem (raw_data + key_value_offset) buf_size_;
  ss ← mapM (fun i => k ← meta_at file first_key_index i;
                      record_slices buf 0 (wrap64 (km_offset k - key_value_offset)))
         (seqZ 0 keys_num_);
  Some (mkWB (mkSI ss.*1 ss.*2 (-1)) buf).

Definition wb_map (f : SliceIterator -> SliceIterator) (it : ColumnCompactionWithBufferIterator) :=
  mkWB (f (wb_slices it)) (wb_buf_ it).

(** [Seek] and [SeekForPrev] only print a message. *)
Definition BufferIterator : InternalIterator ColumnCompactionWithBufferIterator :=
  mkIter _ (fun s => SI_Valid (wb_slices s)) (fun s => Some (wb_map SI_SeekToFirst s))
    (fun s => Some (wb_map SI_SeekToLast s)) (fun _ s => Some s) (fun _ s => Some s)
    (fun s => Some (wb_map SI_Next s))
    (fun s => if SI_Valid (wb_slices s) then Some (wb_map SI_Prev s) else None)
    (fun s => SI_key (wb_buf_ s) (wb_slices s)) (fun s => SI_value (wb_buf_ s) (wb_slices s))
    (fun _ => Status_OK).

(** ** The iterator of level-0 reads *)

Record NVMLevel0ReadIterator := mkRI {
  ri_raw_data_ : Z;
  ri_file_ : FileEntry;
  ri_first_key_index_ : Z;
  ri_keys_num_ : Z;
  ri_current_ : Z;
}.

Definition NVMLevel0ReadIterator_make (raw_data : Z) (file : FileEntry) (first_key_index keys_num_ : Z) : option NVMLevel0ReadIterator :=
  if negb (0 <? keys_num_) then None else Some (mkRI raw_data file first_key_index keys_num_ (-1)).

Definition ri_at (it : NVMLevel0ReadIterator) (c : Z) : NVMLevel0ReadIterator :=
  mkRI (ri_raw_data_ it) (ri_file_ it) (ri_first_key_index_ it) (ri_keys_num_ it) c.

Definition RI_Valid (it : NVMLevel0ReadIterator) : bool :=
  (0 <=? ri_current_ it) && (ri_current_ it <? i32 (ri_keys_num_ it)).

Definition RI_key (it : NVMLevel0ReadIterator) : option bytes :=
  if RI_Valid it then k ← meta_at (ri_file_ it) (ri_first_key_index_ it) (ri_current_ it); Some (km_key k) else None.

Definition RI_value (mem : bytes) (it : NVMLevel0ReadIterator) : option bytes :=
  if RI_Valid it then
    k ← meta_at (ri_file_ it) (ri_first_key_index_ it) (ri_current_ it);
    '(_, s) ← record_slices mem (ri_raw_data_ it) (km_offset k);
    slice_bytes mem s
  else None.

Definition RI_Seek (icmp : Comparator) (target : bytes) (it : NVMLevel0ReadIterator) : option NVMLevel0ReadIterator :=
  c ← seek_position (fun mid => k ← meta_at (ri_file_ it) (ri_first_key_index_ it) mid;
                                Some (Compare icmp (km_key k) target))
        (i32 (ri_keys_num_ it));
  Some (ri_at it c).

(** [SeekForPrev] only prints a message. *)
Definition ReadIterator (icmp : Comparator) (mem : bytes) : InternalIterator NVMLevel0ReadIterator :=
  mkIter _ RI_Valid (fun s => Some (ri_at s 0)) (fun s => Some (ri_at s (i32 (wrap64 (ri_keys_num_ s - 1)))))
    (RI_Seek icmp) (fun _ s => Some s) (fun s => Some (ri_at s (i32 (ri_current_ s + 1))))
    (fun s => if RI_Valid s then Some (ri_at s (i32 (ri_current_ s - 1))) else None)
    RI_key (RI_value mem) (fun _ => Status_OK).

(** [AddIterators]: one iterator per file of level 0, in its order. *)
Definition AddIterators (cf : NvmCfModule) (L0files : list FileMetaData) : option (list NVMLevel0ReadIterator) :=
  mapM (fun f =>
    tmp ← FindFile (sst_meta_ cf) (GetNumber (f_fd f)) true;
    p ← tmp;
    file ← fheap (sst_meta_ cf) !! p;
    let key_num := wrap64 (keys_num file - f_first_key_index f) in
    addr ← GetIndexPtr (ptr_sst_ cf) (sstable_index file);
    NVMLevel0ReadIterator_make addr file (f_first_key_index f) key_num) L0files.

(** ** Searching *)

Section Seek.
Context (icmp : Comparator) {Laws : ComparatorLaws icmp}.
Context (recs : list (bytes * bytes)) (target : bytes) (cmp_at : Z -> option Z).
Hypothesis (Hsorted : recs_sorted icmp recs) (Hlen : len recs < 2 ^ 30).
Hypothesis (Hcmp : forall j r, recs !z j = Some r -> cmp_at j = Some (Compare icmp r.1 target)).

Lemma below_all j l r :
  recs !z l = Some r -> Compare icmp r.1 target <= 0 -> j < l ->
  forall r', recs !z j = Some r' -> Compare icmp r'.1 target < 0.
Proof using Laws Hsorted.
  intros Hl Hc Hj r' Hr'. pose proof (recs_sorted_lt icmp recs j l r' r Hsorted Hr' Hl Hj).
  by eapply (cmp_lt_le_trans icmp).
Qed.

Lemma seek_binary_ok fuel left right :
  0 <= left <= right -> right < len recs -> right - left <= Z.of_nat fuel ->
  (forall j r, j < left -> recs !z j = Some r -> Compare icmp r.1 target < 0) ->
  exists l, seek_binary cmp_at fuel left right = Some l /\ 0 <= l < len recs /\
    forall j r, j < l -> recs !z j = Some r -> Compare icmp r.1 target < 0.
Proof using Laws Hsorted Hlen Hcmp.
  revert left right. induction fuel as [|fuel IH]; intros left right Hlr Hr Hfuel Hbelow; simpl;
    (destruct (Z.ltb_spec left right); [|exists left; split_and!; [done|lia|lia|done]]); [lia|].
  rewrite !i32_id by (rewrite ?i32_id by lia; lia). set (mid := (left + right + 1) / 2).
  assert (left < mid <= right) by (unfold mid; pose proof (Z.div_mod (left + right + 1) 2 ltac:(lia));
    pose proof (Z.mod_pos_bound (left + right + 1) 2 ltac:(lia)); lia).
  destruct (zget_is_Some recs mid ltac:(lia)) as [r Hm]. rewrite (Hcmp _ _ Hm). simpl.
  destruct (Z.ltb_spec (Compare icmp r.1 target) 0); [|destruct (Z.ltb_spec 0 (Compare icmp r.1 target))].
  - apply IH; [lia|lia|lia|]. intros j r' Hj Hr'. apply (below_all j mid r); [done|lia|done|done].
  - apply IH; [lia|lia|lia|done].
  - exists mid. split_and!; [done|lia|lia|]. intros j r' Hj Hr'. apply (below_all j mid r); [done|lia|done|done].
Qed.

Lemma seek_linear_ok fuel c :
  0 <= c < len recs -> len recs - c < Z.of_nat fuel ->
  (forall j r, j < c -> recs !z j = Some r -> Compare icmp r.1 target < 0) ->
  exists p, seek_linear cmp_at (len recs) fuel c = Some p /\ first_from icmp recs target p.
Proof using Hlen Hcmp.
  revert c. induction fuel as [|fuel IH]; intros c Hc Hfuel Hbelow; [lia|]. simpl.
  destruct (zget_is_Some recs c ltac:(lia)) as [r Hm]. rewrite (Hcmp _ _ Hm). simpl.
  destruct (Z.leb_spec 0 (Compare icmp r.1 target)).
  - exists c. split; [done|]. split_and!; [lia|lia|intros j r' ? ?; by apply (Hbelow j)|]. intros r' Hr'. congruence.
  - rewrite i32_id by lia.
    assert (Hnext : forall j r', j < c + 1 -> recs !z j = Some r' -> Compare icmp r'.1 target < 0).
    { intros j r' Hj Hr'. destruct (decide (j = c)) as [->|]; [congruence|]. apply (Hbelow j); [lia|done]. }
    destruct (Z.leb_spec 0 (c + 1)); [|lia]. destruct (Z.ltb_spec (c + 1) (len recs)); simpl.
    + apply IH; [lia|lia|done].
    + exists (c + 1). split; [done|]. split_and!; [lia|lia|intros j r' ? ?; by apply (Hnext j)|].
      intros r' Hr'%zget_range. lia.
Qed.

Lemma seek_position_ok :
  recs <> [] -> exists p, seek_position cmp_at (len recs) = Some p /\ first_from icmp recs target p.
Proof using Laws Hsorted Hlen Hcmp.
  intros Hne. assert (0 < len recs) by (destruct recs; [done|]; unfold zlen; simpl; lia).
  unfold seek_position. destruct (seek_binary_ok (Z.to_nat (len recs)) 0 (len recs - 1)) as (l & -> & Hl & Hb);
    [lia|lia|lia|intros j r ? [? _]%zget_range; lia|].
  cbn [mbind option_bind]. apply seek_linear_ok; [done|lia|done].
Qed.
End Seek.

(** ** Reading the records of a slot *)

Lemma record_slices_ok mem base off k v :
  0 <= off -> off + (len k + len v + 16) < 2 ^ 64 ->
  mem_read mem (base + off) (len k + len v + 16) = Some (key_value k v) ->
  exists ks vs, record_slices mem base off = Some (ks, vs) /\ slice_bytes mem ks = Some k /\ slice_bytes mem vs = Some v.
Proof.
  intros Hoff Hlt Hr. unfold record_slices, slice_bytes.
  pose proof (zlen_nonneg k). pose proof (zlen_nonneg v). rewrite key_value_eq in Hr.
  set (F1 := EncodeFixed64 (len k)) in *. set (F2 := EncodeFixed64 (len v)) in *.
  assert (HF1 : len F1 = 8) by apply EncodeFixed64_len. assert (HF2 : len F2 = 8) by apply EncodeFixed64_len.
  rewrite <- (Z.add_0_r (base + off)), (mem_read_sub _ _ _ _ 0 8 Hr) by lia.
  rewrite (read_field _ [] F1 (k ++ F2 ++ v)) by done. simpl.
  assert (Hd : DecodeFixed64 F1 = len k) by (apply DecodeFixed64_exact; zlia). rewrite Hd.
  rewrite (wrap_id 64 (off + 8)), (wrap_id 64 (off + 8 + len k)), (wrap_id 64 (off + 8 + len k + 8)) by lia.
  replace (base + (off + 8 + len k)) with (base + off + (8 + len k)) by lia.
  rewrite (mem_read_sub _ _ _ _ (8 + len k) 8 Hr) by lia.
  rewrite (read_field _ (F1 ++ k) F2 v) by (rewrite <- ?app_assoc, ?zlen_app; (done || lia)). simpl.
  assert (Hd2 : DecodeFixed64 F2 = len v) by (apply DecodeFixed64_exact; zlia). rewrite Hd2.
  eexists _, _. split_and!; [done| |]; simpl.
  - replace (base + (off + 8)) with (base + off + 8) by lia. rewrite (mem_read_sub _ _ _ _ 8 (len k) Hr) by lia.
    by apply (read_field _ F1 k (F2 ++ v)).
  - replace (base + (off + 8 + len k + 8)) with (base + off + (8 + len k + 8)) by lia.
    rewrite (mem_read_sub _ _ _ _ (8 + len k + 8) (len v) Hr) by lia.
    apply (read_field _ (F1 ++ k ++ F2) v []); rewrite <- ?app_assoc, ?app_nil_r, ?zlen_app; (done || lia).
Qed.

(** The entry [file] describes the records [all], which lie at [addr]. *)
Record slot_table (icmp : Comparator) (mem : bytes) (addr : Z) (file : FileEntry) (all : list (bytes * bytes)) : Prop := {
  st_layout : entry_keys (keys_meta file) = layout 0 all;
  st_sorted : recs_sorted icmp all;
  st_data : mem_read mem addr (len (table_data all)) = Some (table_data all);
  st_size : len (table_data all) < 2 ^ 62;
  st_count : len all < 2 ^ 30;
}.

Section Slot.
Context (icmp : Comparator) {Laws : ComparatorLaws icmp}.
Context (mem : bytes) (addr : Z) (file : FileEntry) (all : list (bytes * bytes)).
Hypothesis (Hst : slot_table icmp mem addr file all).

Definition data_size (n : Z) : Z := len (table_data (take (Z.to_nat n) all)).

Lemma data_size_range n : 0 <= data_size n <= len (table_data all).
Proof using.
  unfold data_size. split; [apply zlen_nonneg|]. rewrite <- (take_drop (Z.to_nat n) all) at 2.
  rewrite table_data_app, zlen_app. pose proof (zlen_nonneg (table_data (drop (Z.to_nat n) all))). lia.
Qed.

Lemma data_size_next n k v : all !z n = Some (k, v) -> data_size (n + 1) = data_size n + (len k + len v + 16).
Proof using.
  intros [Hn Hk]%zget_Some. unfold data_size. replace (Z.to_nat (n + 1)) with (S (Z.to_nat n)) by lia.
  rewrite (take_S_r _ _ _ Hk), table_data_app, zlen_app, table_data_one, key_value_len. lia.
Qed.

(** Key [i] after [first]: its metadata and its record. *)
Lemma meta_at_record first i k v :
  0 <= first -> 0 <= i -> all !z (first + i) = Some (k, v) ->
  exists m, meta_at file first i = Some m /\ km_key m = k /\ km_offset m = data_size (first + i) /\
    km_size m = len k + len v + 16 /\ data_size (first + i) + (len k + len v + 16) <= len (table_data all) /\
    mem_read mem (addr + data_size (first + i)) (len k + len v + 16) = Some (key_value k v).
Proof using Hst.
  intros Hf Hi Hk. pose proof (zget_range _ _ _ Hk) as Hr. pose proof (data_size_next _ _ _ Hk) as Hnx.
  pose proof (data_size_range (first + i + 1)). pose proof (data_size_range (first + i)). destruct Hst.
  apply zget_Some in Hk as [_ Hk]. set (j := Z.to_nat (first + i)) in *.
  assert (Hj : (j < length (keys_meta file))%nat).
  { apply (f_equal length) in st_layout0. unfold entry_keys in st_layout0. rewrite length_fmap, layout_length in st_layout0.
    rewrite st_layout0. by eapply lookup_lt_Some. }
  destruct (lookup_lt_is_Some_2 _ _ Hj) as [m Hm].
  destruct (entry_keys_lookup file (0, all) j m st_layout0 Hm) as (v' & Hv' & Heq). simpl in Hv', Heq.
  rewrite Hk in Hv'. injection Hv' as -> <-. exists m. unfold meta_at. rewrite wrap_id by lia.
  split_and!; [apply zget_Some; split; [lia|done]|done|by rewrite Heq|by rewrite Heq|lia|].
  rewrite (mem_read_sub _ _ _ _ _ _ st_data0) by (pose proof (zlen_nonneg (km_key m)); pose proof (zlen_nonneg v); lia).
  by apply table_data_lookup.
Qed.
End Slot.

(** ** The slice iterators read their records *)

Record item_over (icmp : Comparator) (mem : bytes) (it : SliceIterator) (recs : list (bytes * bytes)) (p : Z) : Prop := {
  io_keys : len (vKey_ it) = len recs;
  io_slices j k v : recs !z j = Some (k, v) ->
    exists ks vs, vKey_ it !z j = Some ks /\ vValue_ it !z j = Some vs /\ slice_bytes mem ks = Some k /\ slice_bytes mem vs = Some v;
  io_sorted : recs_sorted icmp recs;
  io_count : 0 < len recs < 2 ^ 30;
  io_current : si_current_ it = p;
  io_range : -1 <= p <= len recs;
}.

Section Items.
Context (icmp : Comparator) {Laws : ComparatorLaws icmp}.

Lemma item_over_at mem it recs p c :
  item_over icmp mem it recs p -> -1 <= c <= len recs -> item_over icmp mem (si_at it c) recs c.
Proof. intros [] Hc. by constructor. Qed.

Lemma SI_Valid_ok mem it recs p :
  item_over icmp mem it recs p -> SI_Valid it = bool_decide (0 <= p < len recs).
Proof.
  intros []. unfold SI_Valid. rewrite io_keys0, io_current0, i32_id by lia.
  case_bool_decide; destruct (Z.leb_spec 0 p), (Z.ltb_spec p (len recs)); simpl; (done || lia).
Qed.

#[export] Instance item_scan_laws mem : ScanLaws icmp (ItemIterator icmp mem) (item_over icmp mem).
Proof.
  split; simpl.
  - by intros s recs p [].
  - by intros s recs p [].
  - done.
  - apply SI_Valid_ok.
  - intros s recs p k v [] Hkv. destruct (io_slices0 _ _ _ Hkv) as (ks & vs & Hk & Hv & Hkb & Hvb).
    unfold SI_key, SI_value. rewrite io_current0, Hk, Hv. done.
  - intros s recs p Hs. eexists. split; [done|]. eapply item_over_at; [done|]. destruct Hs; lia.
  - intros s recs p Hs Hp. eexists. split; [done|]. unfold SI_Next. rewrite (io_current _ _ _ _ _ Hs).
    rewrite i32_id by (destruct Hs; lia). eapply item_over_at; [done|]. lia.
Qed.

#[export] Instance item_seek_law mem : SeekLaw icmp (ItemIterator icmp mem) (item_over icmp mem).
Proof.
  split. simpl. intros s recs p target Hs. unfold SI_Seek.
  rewrite (io_keys _ _ _ _ _ Hs), i32_id by (destruct Hs; lia).
  edestruct (seek_position_ok icmp recs target (fun mid => s0 ← vKey_ s !z mid; k ← slice_bytes mem s0; Some (Compare icmp k target)))
    as (q & -> & Hq); [by destruct Hs|destruct Hs; lia| |intros ->; destruct Hs as [_ _ _ [Hc _] _ _]; unfold zlen in Hc; simpl in Hc; lia|].
  - intros j [k v] Hr. destruct (io_slices _ _ _ _ _ Hs _ _ _ Hr) as (ks & vs & -> & _ & Hkb & _). simpl. by rewrite Hkb.
  - simpl. eexists _, q. split_and!; [done| |done]. eapply item_over_at; [done|]. destruct Hq as [? _]. lia.
Qed.

#[export] Instance item_reverse_laws mem : ReverseLaws icmp (ItemIterator icmp mem) (item_over icmp mem).
Proof.
  split; simpl.
  - intros s recs p Hs. eexists. split; [done|]. unfold SI_SeekToLast. rewrite (io_keys _ _ _ _ _ Hs).
    pose proof (io_count _ _ _ _ _ Hs). rewrite wrap_id, i32_id by lia. eapply item_over_at; [done|]. lia.
  - intros s recs p Hs Hp. rewrite (SI_Valid_ok _ _ _ _ Hs), bool_decide_true by done. eexists. split; [done|].
    unfold SI_Prev. rewrite (io_current _ _ _ _ _ Hs), i32_id by (destruct Hs; lia).
    eapply item_over_at; [done|]. destruct Hs; lia.
Qed.

(** The buffered iterator reads from its own copy. *)
Definition buffer_over (it : ColumnCompactionWithBufferIterator) recs (p : Z) : Prop :=
  item_over icmp (wb_buf_ it) (wb_slices it) recs p.

#[export] Instance buffer_scan_laws : ScanLaws icmp BufferIterator buffer_over.
Proof.
  unfold buffer_over. split; simpl.
  - by intros s recs p [].
  - by intros s recs p [].
  - done.
  - intros s recs p. apply SI_Valid_ok.
  - intros s recs p k v Hs Hkv. exact (sc_key (it := ItemIterator icmp (wb_buf_ s)) _ _ _ _ _ Hs Hkv).
  - intros s recs p Hs. eexists. split; [done|].
    destruct (sc_first (it := ItemIterator icmp (wb_buf_ s)) _ _ _ Hs) as (? & [= <-] & H). exact H.
  - intros s recs p Hs Hp. eexists. split; [done|].
    destruct (sc_next (it := ItemIterator icmp (wb_buf_ s)) _ _ _ Hs Hp) as (? & [= <-] & H). exact H.
Qed.

(** Slices collected one by one. *)
Lemma slices_over mem recs (f : Z -> option (slice * slice)) ss :
  recs_sorted icmp recs -> 0 < len recs < 2 ^ 30 ->
  (forall j k v, recs !z j = Some (k, v) ->
     exists ks vs, f j = Some (ks, vs) /\ slice_bytes mem ks = Some k /\ slice_bytes mem vs = Some v) ->
  mapM f (seqZ 0 (len recs)) = Some ss -> item_over icmp mem (mkSI ss.*1 ss.*2 (-1)) recs (-1).
Proof.
  intros Hs Hc Hf Hm. apply mapM_Some in Hm.
  assert (Hl : length ss = length recs).
  { apply Forall2_length in Hm. rewrite length_seqZ in Hm. unfold zlen in *. lia. }
  split; simpl; [unfold zlen; by rewrite length_fmap, Hl| |done|done|done|lia].
  intros j k v Hj. destruct (Hf _ _ _ Hj) as (ks & vs & Hfj & Hk & Hv). exists ks, vs.
  pose proof (zget_range _ _ _ Hj) as Hr.
  assert (Hss : ss !! Z.to_nat j = Some (ks, vs)).
  { destruct (lookup_lt_is_Some_2 ss (Z.to_nat j)) as [x Hx]; [unfold zlen in *; lia|]. rewrite Hx.
    destruct (Forall2_lookup_r _ _ _ _ _ Hm Hx) as (i & Hi & Hfi). apply lookup_seqZ in Hi as [-> _].
    replace (0 + Z.of_nat (Z.to_nat j)) with j in Hfi by lia. congruence. }
  split_and!; [|..|done|done]; apply zget_Some; (split; [lia|]); rewrite list_lookup_fmap, Hss; done.
Qed.

Lemma slices_total {A} (n : nat) (f : Z -> option A) :
  (forall j, 0 <= j < Z.of_nat n -> is_Some (f j)) -> is_Some (mapM f (seqZ 0 (Z.of_nat n))).
Proof.
  intros Hf. apply mapM_is_Some, Forall_forall. intros j Hj%elem_of_seqZ. apply Hf. lia.
Qed.
End Items.

(** ** Construction *)

Section Make.
Context (icmp : Comparator) {Laws : ComparatorLaws icmp}.
Context (mem : bytes) (addr : Z) (file : FileEntry) (all : list (bytes * bytes)) (first n : Z).
Hypothesis (Hst : slot_table icmp mem addr file all) (Hfirst : 0 <= first) (Hn : 0 < n) (Hfit : first + n <= len all).

(** The [n] records from [first] on. *)
Definition item_records : list (bytes * bytes) := take (Z.to_nat n) (drop (Z.to_nat first) all).

Lemma item_records_len : len item_records = n.
Proof using Hfirst Hn Hfit. unfold item_records, zlen in *. rewrite length_take, length_drop. lia. Qed.

Lemma item_records_lookup j r : item_records !z j = Some r <-> 0 <= j < n /\ all !z (first + j) = Some r.
Proof using Hfirst Hn.
  unfold item_records. rewrite !zget_Some, lookup_take_Some, lookup_drop. split.
  - intros (? & ? & ?). replace (Z.to_nat (first + j)) with (Z.to_nat first + Z.to_nat j)%nat by lia.
    split_and!; (done || lia).
  - intros (? & ? & Hr). replace (Z.to_nat (first + j)) with (Z.to_nat first + Z.to_nat j)%nat in Hr by lia.
    split_and!; (done || lia).
Qed.

Lemma item_records_sorted : recs_sorted icmp item_records.
Proof using Hst.
  unfold item_records, recs_sorted. apply StronglySorted_take, StronglySorted_drop. by destruct Hst.
Qed.

Lemma item_count : 0 < len item_records < 2 ^ 30.
Proof using Hst Hfirst Hn Hfit. rewrite item_records_len. destruct Hst. lia. Qed.

Lemma item_slices j k v :
  item_records !z j = Some (k, v) ->
  exists m ks vs, meta_at file first j = Some m /\ record_slices mem addr (km_offset m) = Some (ks, vs) /\
    slice_bytes mem ks = Some k /\ slice_bytes mem vs = Some v.
Proof using Hst Hfirst Hn.
  intros [Hj Hk]%item_records_lookup.
  destruct (meta_at_record icmp mem addr file all Hst first j k v) as (m & Hm & _ & Ho & _ & Hsz & Hr); [lia|lia|done|].
  destruct (record_slices_ok mem addr (data_size all (first + j)) k v) as (ks & vs & Hsl & Hkb & Hvb);
    [apply data_size_range|destruct Hst; lia|done|].
  exists m, ks, vs. by rewrite Ho.
Qed.

Lemma slices_made buf f :
  (forall j k v, item_records !z j = Some (k, v) ->
     exists ks vs, f j = Some (ks, vs) /\ slice_bytes buf ks = Some k /\ slice_bytes buf vs = Some v) ->
  exists ss, mapM f (seqZ 0 n) = Some ss /\ item_over icmp buf (mkSI ss.*1 ss.*2 (-1)) item_records (-1).
Proof using Hst Hfirst Hn Hfit.
  intros Hf. destruct (slices_total (Z.to_nat n) f) as [ss Hss].
  { intros j Hj. destruct (zget_is_Some item_records j) as [[k v] Hk]; [rewrite item_records_len; lia|].
    destruct (Hf _ _ _ Hk) as (ks & vs & -> & _). by eexists. }
  rewrite Z2Nat.id in Hss by lia. exists ss. split; [done|].
  rewrite <- item_records_len in Hss. apply (slices_over icmp buf item_records f ss item_records_sorted item_count Hf Hss).
Qed.

Lemma ItemIterator_make_ok :
  exists it, ColumnCompactionItemIterator_make mem addr file first n = Some it /\ item_over icmp mem it item_records (-1).
Proof using Hst Hfirst Hn Hfit.
  unfold ColumnCompactionItemIterator_make. destruct (Z.ltb_spec 0 n); [|lia]. cbn [negb].
  set (f := fun i => k ← meta_at file first i; record_slices mem addr (km_offset k)).
  assert (Hf : forall j k v, item_records !z j = Some (k, v) ->
    exists ks vs, f j = Some (ks, vs) /\ slice_bytes mem ks = Some k /\ slice_bytes mem vs = Some v).
  { intros j k v Hj. destruct (item_slices j k v Hj) as (m & ks & vs & Hm & Hsl & Hk & Hv).
    exists ks, vs. unfold f. by rewrite Hm. }
  destruct (slices_made mem f Hf) as (ss & -> & Hss). by eexists.
Qed.

(** The copied part of the slot holds the records. *)
Lemma buffer_record j k v :
  item_records !z j = Some (k, v) ->
  exists m, meta_at file first j = Some m /\ km_key m = k /\ km_size m = len k + len v + 16 /\
    km_offset m = data_size all (first + j) /\ data_size all first <= km_offset m /\
    km_offset m + km_size m <= data_size all (first + n) /\
    mem_read mem (addr + km_offset m) (len k + len v + 16) = Some (key_value k v).
Proof using Hst Hfirst Hn Hfit.
  intros [Hj Hk]%item_records_lookup.
  destruct (meta_at_record icmp mem addr file all Hst first j k v) as (m & Hm & Hkey & Ho & Hs & Hsz & Hr); [lia|lia|done|].
  exists m. rewrite Ho, Hs. pose proof (data_size_next all _ _ _ Hk) as Hnx.
  assert (Hmono : forall a b, 0 <= a <= b -> data_size all a <= data_size all b).
  { intros a b Hab. unfold data_size. rewrite <- (take_drop (Z.to_nat a) (take (Z.to_nat b) all)), take_take, table_data_app, zlen_app.
    rewrite Nat.min_l by lia. pose proof (zlen_nonneg (table_data (drop (Z.to_nat a) (take (Z.to_nat b) all)))). lia. }
  split_and!; try done; [apply Hmono; lia|]. rewrite <- Hnx. apply Hmono. lia.
Qed.

Lemma BufferIterator_make_ok :
  exists it, ColumnCompactionWithBufferIterator_make mem addr file first n = Some it /\ buffer_over icmp it item_records (-1).
Proof using Hst Hfirst Hn Hfit.
  unfold ColumnCompactionWithBufferIterator_make.
  destruct (zget_is_Some item_records 0) as [[k0 v0] H0]; [rewrite item_records_len; lia|].
  destruct (zget_is_Some item_records (n - 1)) as [[kn vn] Hlast]; [rewrite item_records_len; lia|].
  destruct (buffer_record _ _ _ H0) as (m0 & Hm0 & _ & _ & Ho0 & _). rewrite Z.add_0_r in Ho0.
  destruct (buffer_record _ _ _ Hlast) as (mn & Hmn & _ & Hsn & Hon & Hge & Hle & _).
  pose proof (proj1 (item_records_lookup _ _) Hlast) as [_ Hkn]. pose proof (data_size_next all _ _ _ Hkn) as Hnx.
  replace (first + (n - 1) + 1) with (first + n) in Hnx by lia. pose proof (data_size_range all (first + n)).
  pose proof (data_size_range all first). pose proof (st_size _ _ _ _ _ Hst). pose proof (st_count _ _ _ _ _ Hst).
  pose proof (zlen_nonneg kn). pose proof (zlen_nonneg vn).
  rewrite Hm0. simpl. unfold meta_at in Hmn. rewrite wrap_id in Hmn by lia.
  rewrite (wrap_id 64 (first + n)), (wrap_id 64 (first + n - 1)) by lia.
  replace (first + n - 1) with (first + (n - 1)) by lia. rewrite Hmn. simpl. rewrite Ho0.
  rewrite (wrap_id 64 (km_offset mn - _)) by lia. rewrite (wrap_id 64 (_ + km_size mn)) by lia.
  set (bs := km_offset mn - data_size all first + km_size mn).
  assert (Hbs : bs = data_size all (first + n) - data_size all first) by (unfold bs; lia).
  pose proof (mem_read_Some _ _ _ _ (st_data _ _ _ _ _ Hst)) as (Haddr & _ & Hend & _).
  destruct (mem_read mem (addr + data_size all first) bs) as [buf|] eqn:Hbuf.
  2: { unfold mem_read in Hbuf. destruct (_ && _) eqn:E; [done|]. exfalso.
       rewrite !andb_false_iff, !Z.leb_gt in E. lia. }
  simpl. set (f := fun i => k ← meta_at file first i; record_slices buf 0 (wrap64 (km_offset k - data_size all first))).
  assert (Hf : forall j k v, item_records !z j = Some (k, v) ->
    exists ks vs, f j = Some (ks, vs) /\ slice_bytes buf ks = Some k /\ slice_bytes buf vs = Some v).
  { intros j k v Hj. destruct (buffer_record _ _ _ Hj) as (m & Hm & _ & Hs & Ho & Hg & Hl & Hr). unfold f. rewrite Hm. simpl.
    pose proof (zlen_nonneg k). pose proof (zlen_nonneg v). rewrite wrap_id by lia. apply record_slices_ok; [lia|lia|].
    rewrite Z.add_0_l. rewrite <- (mem_read_sub _ _ _ _ _ _ Hbuf) by lia. rewrite <- Hr. f_equal. lia. }
  destruct (slices_made buf f Hf) as (ss & -> & Hss). by eexists.
Qed.
End Make.

(** ** The read iterator *)

Section Read.
Context (icmp : Comparator) {Laws : ComparatorLaws icmp} (mem : bytes).

Record read_over (it : NVMLevel0ReadIterator) (recs : list (bytes * bytes)) (p : Z) : Prop := {
  rv_table : exists all, slot_table icmp mem (ri_raw_data_ it) (ri_file_ it) all /\
    0 <= ri_first_key_index_ it < len all /\ recs = drop (Z.to_nat (ri_first_key_index_ it)) all;
  rv_num : ri_keys_num_ it = len recs;
  rv_current : ri_current_ it = p;
  rv_range : -1 <= p <= len recs;
}.

Lemma read_over_at it recs p c : read_over it recs p -> -1 <= c <= len recs -> read_over (ri_at it c) recs c.
Proof. intros [] Hc. by constructor. Qed.

Lemma read_over_count it recs p : read_over it recs p -> 0 < len recs < 2 ^ 30 /\ recs_sorted icmp recs.
Proof.
  intros [(all & Hst & Hf & ->) _ _ _]. split.
  - destruct Hst. unfold zlen in *. rewrite length_drop. lia.
  - apply StronglySorted_drop. by destruct Hst.
Qed.

Lemma read_over_record it recs p j k v :
  read_over it recs p -> recs !z j = Some (k, v) ->
  exists m ks vs, meta_at (ri_file_ it) (ri_first_key_index_ it) j = Some m /\ km_key m = k /\
    record_slices mem (ri_raw_data_ it) (km_offset m) = Some (ks, vs) /\ slice_bytes mem vs = Some v.
Proof.
  intros [(all & Hst & Hf & ->) _ _ _] Hj. apply zget_Some in Hj as [Hj0 Hj]. rewrite lookup_drop in Hj.
  set (first := ri_first_key_index_ it) in *.
  assert (Hk : all !z (first + j) = Some (k, v)).
  { apply zget_Some. split; [lia|]. rewrite <- Hj. f_equal. lia. }
  destruct (meta_at_record icmp _ _ _ all Hst first j k v) as (m & Hm & Hkey & Ho & _ & Hsz & Hr); [lia|lia|done|].
  destruct (record_slices_ok mem (ri_raw_data_ it) (data_size all (first + j)) k v) as (ks & vs & Hsl & _ & Hvb);
    [apply data_size_range|destruct Hst; lia|done|].
  exists m, ks, vs. by rewrite Ho.
Qed.

Lemma RI_Valid_ok it recs p : read_over it recs p -> RI_Valid it = bool_decide (0 <= p < len recs).
Proof.
  intros H. pose proof (read_over_count _ _ _ H) as [? _]. destruct H. unfold RI_Valid.
  rewrite rv_num0, rv_current0, i32_id by lia.
  case_bool_decide; destruct (Z.leb_spec 0 p), (Z.ltb_spec p (len recs)); simpl; (done || lia).
Qed.

#[export] Instance read_scan_laws : ScanLaws icmp (ReadIterator icmp mem) read_over.
Proof.
  split; simpl.
  - intros s recs p H. by apply (read_over_count _ _ _ H).
  - by intros s recs p [].
  - done.
  - apply RI_Valid_ok.
  - intros s recs p k v Hs Hkv. pose proof (zget_range _ _ _ Hkv).
    destruct (read_over_record _ _ _ _ _ _ Hs Hkv) as (m & ks & vs & Hm & Hk & Hsl & Hv).
    unfold RI_key, RI_value. rewrite (RI_Valid_ok _ _ _ Hs), bool_decide_true, (rv_current _ _ _ Hs), Hm by done. simpl.
    rewrite Hk, Hsl. done.
  - intros s recs p Hs. eexists. split; [done|]. eapply read_over_at; [done|]. pose proof (zlen_nonneg recs). lia.
  - intros s recs p Hs Hp. pose proof (read_over_count _ _ _ Hs) as [? _]. eexists. split; [done|].
    rewrite (rv_current _ _ _ Hs), i32_id by lia. eapply read_over_at; [done|]. lia.
Qed.

#[export] Instance read_seek_law : SeekLaw icmp (ReadIterator icmp mem) read_over.
Proof.
  split. simpl. intros s recs p target Hs. pose proof (read_over_count _ _ _ Hs) as [Hc Hsorted]. unfold RI_Seek.
  rewrite (rv_num _ _ _ Hs), i32_id by lia.
  edestruct (seek_position_ok icmp recs target (fun mid => k ← meta_at (ri_file_ s) (ri_first_key_index_ s) mid;
      Some (Compare icmp (km_key k) target))) as (q & -> & Hq);
    [done|lia| |intros ->; unfold zlen in Hc; simpl in Hc; lia|].
  - intros j [k v] Hr. destruct (read_over_record _ _ _ _ _ _ Hs Hr) as (m & _ & _ & -> & <- & _). done.
  - simpl. eexists _, q. split_and!; [done| |done]. eapply read_over_at; [done|]. destruct Hq as [? _]. lia.
Qed.

#[export] Instance read_reverse_laws : ReverseLaws icmp (ReadIterator icmp mem) read_over.
Proof.
  split; simpl.
  - intros s recs p Hs. pose proof (read_over_count _ _ _ Hs) as [? _]. eexists. split; [done|].
    rewrite (rv_num _ _ _ Hs), wrap_id, i32_id by lia. eapply read_over_at; [done|]. lia.
  - intros s recs p Hs Hp. pose proof (read_over_count _ _ _ Hs) as [? _].
    rewrite (RI_Valid_ok _ _ _ Hs), bool_decide_true, (rv_current _ _ _ Hs), i32_id by (done || lia).
    eexists. split; [done|]. eapply read_over_at; [done|]. lia.
Qed.
End Read.

(** ** The iterators of a version's level 0 *)

Section Version.
Context (ucmp : Comparator) {Laws : ComparatorLaws ucmp}.
Implicit Types (cf : NvmCfModule) (db : list (Z * records)).

Abbreviation icmp := (InternalKeyComparator ucmp).

(** The entry of a table's number. *)
Lemma find_entry cf db n :
  nvm_ok ucmp cf db -> n ∈ db.*1 ->
  exists p fe, FindFile (sst_meta_ cf) n true = Some (Some p) /\ fheap (sst_meta_ cf) !! p = Some fe /\
    filenum fe = n /\ fe ∈ entries (sst_meta_ cf).
Proof.
  intros Hok Hn. rewrite (db_numbers ucmp cf db Hok) in Hn. apply list_elem_of_fmap in Hn as (fe0 & -> & Hfe0).
  assert (Hps : points (fheap (sst_meta_ cf)) (files_ (sst_meta_ cf)) (entries (sst_meta_ cf)))
    by (apply meta_points; by destruct Hok as [[] ]).
  unfold FindFile. destruct (FindFile_loop_spec _ (filenum fe0) _ _ Hps) as ([p|] & -> & Hr); [|by destruct (Hr fe0)].
  destruct Hr as (i & fe & Hp & Hfe & Hnum & _). destruct (Forall2_lookup_l _ _ _ _ _ Hps Hp) as (fe' & Hfe' & Hh).
  exists p, fe. split_and!; [done|congruence|done|by eapply list_elem_of_lookup_2].
Qed.

Lemma records_sorted p fe t : table_in ucmp p fe t -> recs_sorted icmp t.2.
Proof.
  intros [_ Hl Hs _ _ _ _ _]. apply StronglySorted_lookup_intro. intros i j [ka va] [kb vb] Hij Ha Hb.
  assert (Hlen : length (keys_meta fe) = length t.2) by (pose proof (keys_length fe t Hl); zlia).
  destruct (lookup_lt_is_Some_2 (keys_meta fe) i) as [ma Hma]; [rewrite Hlen; by eapply lookup_lt_Some|].
  destruct (lookup_lt_is_Some_2 (keys_meta fe) j) as [mb Hmb]; [rewrite Hlen; by eapply lookup_lt_Some|].
  destruct (entry_keys_lookup fe t i ma Hl Hma) as (va' & Ha' & _).
  destruct (entry_keys_lookup fe t j mb Hl Hmb) as (vb' & Hb' & _).
  rewrite Ha in Ha'. rewrite Hb in Hb'. injection Ha' as -> _. injection Hb' as -> _.
  exact (StronglySorted_lookup_lt _ _ i j _ _ Hs Hij Hma Hmb).
Qed.

(** The slot of an entry, with fewer than 2^30 keys. *)
Lemma entry_slot cf db fe :
  nvm_ok ucmp cf db -> fe ∈ entries (sst_meta_ cf) -> len (keys_meta fe) < 2 ^ 30 ->
  exists addr, GetIndexPtr (ptr_sst_ cf) (sstable_index fe) = Some addr /\
    slot_table icmp (raw_ (ptr_sst_ cf)) addr fe (db_find db (filenum fe)) /\
    keys_num fe = len (db_find db (filenum fe)).
Proof.
  intros Hok Hfe Hc. pose proof (db_find_entry ucmp cf db fe Hok Hfe) as Ht. pose proof (records_sorted _ _ _ Ht) as Hs.
  assert (Hsl : sstable_index fe ∈ slots (sst_meta_ cf)) by (apply elem_of_list_to_set, list_elem_of_fmap; eauto).
  destruct (pool_ptr _ _ _ (no_pool _ _ _ Hok) Hsl) as (Hp & _ & _). eexists. split; [exact Hp|].
  pose proof (keys_length fe _ (ti_layout _ _ _ _ Ht)) as Hl. simpl in Hl, Hs. split.
  - destruct Ht. simpl in *. constructor; try done. by rewrite <- Hl.
  - rewrite <- Hl. destruct (no_tables _ _ _ Hok) as [_ _ Hwf _]. rewrite Forall_forall in Hwf. by apply Hwf.
Qed.

(** One iterator per file, each before the first visible record of its table. *)
Lemma AddIterators_ok cf db L0 :
  nvm_ok ucmp cf db -> version_ok db L0 -> small_tables cf ->
  exists its, AddIterators cf L0 = Some its /\
    Forall2 (fun it f => read_over icmp (raw_ (ptr_sst_ cf)) it (visible db f) (-1)) its L0.
Proof.
  intros Hok [Hsub Hfirst] Hsm.
  assert (Hin : forall f, f ∈ L0 -> GetNumber (f_fd f) ∈ db.*1).
  { intros f Hf. apply (sublist_subseteq _ _ Hsub). by apply (list_elem_of_fmap_2 (fun f => GetNumber (f_fd f))). }
  unfold AddIterators. clear Hsub. induction L0 as [|f L0 IH]; [exists []; split; constructor|].
  apply Forall_cons in Hfirst as [Hf Hfirst]. destruct IH as (its & Hits & Hall); [done|intros; apply Hin; set_solver|].
  destruct (find_entry cf db (GetNumber (f_fd f)) Hok) as (p & fe & Hp & Hh & Hnum & Hfe); [apply Hin; set_solver|].
  destruct (entry_slot cf db fe Hok Hfe) as (addr & Ha & Hst & Hkn);
    [unfold small_tables in Hsm; rewrite Forall_forall in Hsm; by apply Hsm|].
  cbn [mapM]. rewrite Hp. simpl. rewrite Hh. simpl. rewrite Ha. simpl. rewrite Hnum in *. pose proof (st_count _ _ _ _ _ Hst).
  rewrite Hkn, wrap_id by lia. set (n := len (db_find db (GetNumber (f_fd f))) - f_first_key_index f).
  assert (NVMLevel0ReadIterator_make addr fe (f_first_key_index f) n = Some (mkRI addr fe (f_first_key_index f) n (-1))) as ->
    by (unfold NVMLevel0ReadIterator_make; destruct (Z.ltb_spec 0 n); [done|lia]).
  simpl. rewrite Hits. simpl. subst n. eexists. split; [done|]. constructor; [|done].
  unfold visible. constructor; simpl; [by eexists|unfold zlen in *; rewrite length_drop; lia|done|].
  pose proof (zlen_nonneg (drop (Z.to_nat (f_first_key_index f)) (db_find db (GetNumber (f_fd f))))). lia.
Qed.
End Version.

(** ** Both column iterators *)

Section ColumnClaims.
Context (icmp : Comparator) {Laws : ComparatorLaws icmp}.

(** The two iterators of a column compaction, the one that reads the slot in place
    and the one that first copies the range, agree: for any run of keys of a table that
    lies in its slot both are constructed without leaving the slot and yield exactly
    the records of the run, in order. *)
Theorem column_iterators_agree mem addr file all first n :
  slot_table icmp mem addr file all -> 0 <= first -> 0 < n -> first + n <= len all ->
  exists it wb, ColumnCompactionItemIterator_make mem addr file first n = Some it /\
    ColumnCompactionWithBufferIterator_make mem addr file first n = Some wb /\
    collect (ItemIterator icmp mem) (Z.to_nat n) (SI_SeekToFirst it) = Some (take (Z.to_nat n) (drop (Z.to_nat first) all)) /\
    collect BufferIterator (Z.to_nat n) (wb_map SI_SeekToFirst wb) = Some (take (Z.to_nat n) (drop (Z.to_nat first) all)).
Proof.
  intros Hst Hf Hn Hfit.
  destruct (ItemIterator_make_ok icmp mem addr file all first n Hst Hf Hn Hfit) as (it & Hit & Ho).
  destruct (BufferIterator_make_ok icmp mem addr file all first n Hst Hf Hn Hfit) as (wb & Hwb & Hob).
  destruct (sc_first (it := ItemIterator icmp mem) _ _ _ Ho) as (? & [= <-] & Ho1).
  destruct (sc_first (it := BufferIterator) _ _ _ Hob) as (? & [= <-] & Hob1).
  pose proof (item_records_len all first n Hf Hn Hfit) as Hl. exists it, wb. split_and!; [done|done|..].
  - by rewrite (collect_from _ icmp _ _ _ _ 0 Ho1) by (rewrite ?Hl; lia).
  - by rewrite (collect_from _ icmp _ _ _ _ 0 Hob1) by (rewrite ?Hl; lia).
Qed.
End ColumnClaims.

(** ** A small slot *)

Definition sample_recs : list (bytes * bytes) :=
  [(InternalKey_make [Byte.x61] 7 kTypeValue, [Byte.x31]); (InternalKey_make [Byte.x62] 6 kTypeValue, [Byte.x32])].

Definition sample_slot : FileEntry := mkFE 1 0 (layout 0 sample_recs) 2 0.

Lemma sample_slot_ok :
  slot_table (InternalKeyComparator BytewiseComparator) (table_data sample_recs) 0 sample_slot sample_recs.
Proof.
  constructor; [done| |by vm_compute|by vm_compute|by vm_compute].
  constructor; [constructor; constructor|constructor; [by vm_compute|constructor]].
Qed.

Lemma column_iterators_agree_witness :
  exists it wb, ColumnCompactionItemIterator_make (table_data sample_recs) 0 sample_slot 1 1 = Some it /\
    ColumnCompactionWithBufferIterator_make (table_data sample_recs) 0 sample_slot 1 1 = Some wb.
Proof.
  destruct (column_iterators_agree (InternalKeyComparator BytewiseComparator) (table_data sample_recs) 0 sample_slot sample_recs 1 1)
    as (it & wb & Hit & Hwb & _); [apply sample_slot_ok|lia|lia|by vm_compute|].
  exists it, wb. split; [exact Hit|exact Hwb].
Defined.

(** The read iterator does not keep the contract of SeekForPrev: on a table with a
    key at or before the target it stays where it is, here not valid, instead of moving
    to the last such key. *)
Theorem read_iterator_no_seek_for_prev :
  ~ SeekForPrevLaw (InternalKeyComparator BytewiseComparator)
      (ReadIterator (InternalKeyComparator BytewiseComparator) (table_data sample_recs))
      (read_over (InternalKeyComparator BytewiseComparator) (table_data sample_recs)).
Proof.
  intros H. set (it := mkRI 0 sample_slot 0 2 (-1)).
  assert (Ho : read_over (InternalKeyComparator BytewiseComparator) (table_data sample_recs) it sample_recs (-1)).
  { constructor; [exists sample_recs; split; [apply sample_slot_ok|by vm_compute]|done|done|by vm_compute]. }
  destruct (sl_prev _ _ _ (InternalKey_make [Byte.x63] 1 kTypeValue) Ho) as (s & q & [= <-] & Hs & _ & Hafter & _).
  assert (q = -1) as -> by (by destruct Hs).
  specialize (Hafter 0 _ eq_refl ltac:(lia)). by vm_compute in Hafter.
Qed.
