(* ===== verification/NvmCfState.v ===== *)
(** * The state of the NVM module over its life

    Every operation of the module that changes its state keeps [nvm_ok], the relation
    between the module and its list of tables: taking a slot, finishing a table,
    deleting one, and rebuilding everything from the manifest and the NVM contents. *)

From S2P Require Import Prelude Coding Comparator DbFormat VersionEdit NvmAlloc SstableMeta L0Table NvmCf.

(** [Finish] of the buffered builder on the module's store and pool. *)
Definition FinishTable `{Pmem} (icmp : Comparator) (cf : NvmCfModule) (b : L0TableBuilderWithBuffer)
    (file_ : nat) (raw : Z) : option (Status * L0TableBuilderWithBuffer * NvmCfModule) :=
  '(st, b, s, mem) ← L0TableBuilderWithBuffer_Finish icmp b (sst_meta_ cf) (raw_ (ptr_sst_ cf)) file_ raw;
  Some (st, b, cf_set s (ps_set_raw (ptr_sst_ cf) mem) cf).

#[local] Opaque SstableMetadata_AddFile.

Section State.
Context (ucmp : Comparator) {Laws : ComparatorLaws ucmp}.
Implicit Types (cf : NvmCfModule) (db : list (Z * records)) (fe old : FileEntry).

Abbreviation icmp := (InternalKeyComparator ucmp).

Lemma table_in_same p p' fe t :
  raw_ p' = raw_ p -> each_size_ p' = each_size_ p -> table_in ucmp p fe t -> table_in ucmp p' fe t.
Proof. intros Hr He []. constructor; rewrite ?Hr, ?He; done. Qed.

(** A number no table has and no hint was made for. *)
Definition fresh_number cf (n : Z) : Prop :=
  (n ∉ (filenum <$> entries (sst_meta_ cf))) /\
  forall fe, fe ∈ entries (sst_meta_ cf) -> key_point_filenum fe <> n.

Lemma table_in_empty p A n i :
  pool_ok p A -> i ∈ A -> table_in ucmp p (FileEntry_make n i) (n, []).
Proof.
  intros Hp Hi. destruct (pool_ptr p A i Hp Hi) as (_ & H0 & Hl). destruct Hp.
  constructor; simpl; try done.
  - constructor.
  - change (table_data []) with ([] : bytes). rewrite zlen_nil. apply mem_read_in_range; lia.
Qed.

Lemma AddL0TableRoom_ok cf db n :
  nvm_ok ucmp cf db -> fresh_number cf n ->
  exists r cf', AddL0TableRoom cf n = Some (r, cf') /\
    match r with
    | Some (raw, p) => exists index, (index ∉ slots (sst_meta_ cf)) /\
        raw = index * each_size_ (ptr_sst_ cf) /\ nvm_ok ucmp cf' ((n, []) :: db) /\
        fheap (sst_meta_ cf') !! p = Some (FileEntry_make n index) /\
        entries (sst_meta_ cf') = FileEntry_make n index :: entries (sst_meta_ cf) /\
        each_size_ (ptr_sst_ cf') = each_size_ (ptr_sst_ cf)
    | None => nvm_ok ucmp cf' db /\ Z.of_nat (size (slots (sst_meta_ cf))) = num_ (ptr_sst_ cf)
    end.
Proof.
  intros Hok [Hn Hkp]. pose proof Hok as [Ht Hp Hs Hdb Hh].
  destruct (pool_step_refines _ _ OpAlloc Hp I) as (p' & Hstep & Hp').
  pose proof (pool_step_frame _ _ _ _ Hstep) as (Hfn & Hfe & Hfr). simpl in *.
  unfold AddL0TableRoom. rewrite Hstep. simpl.
  destruct (least_free (slots (sst_meta_ cf)) 0 (num_ (ptr_sst_ cf))) as [k|] eqn:Hlf; simpl in *.
  - apply least_free_Some in Hlf as ([Hk0 Hkn] & Hknin & _). destruct (Z.eqb_spec k (-1)); [lia|].
    pose proof (tables_ok_AddFile (sst_meta_ cf) n k Ht Hn) as Hadd.
    destruct (SstableMetadata_AddFile (sst_meta_ cf) n k) as [p s'] eqn:Es. destruct Hadd as (Ht' & Hfp & He').
    do 2 eexists. split; [done|]. exists k. split_and!; [done|done| |exact Hfp|exact He'|exact Hfe].
    assert (Hsl : slots s' = {[k]} ∪ slots (sst_meta_ cf)) by (unfold slots; by rewrite He').
    constructor; simpl.
    + done.
    + by rewrite Hsl.
    + rewrite He', fmap_cons. constructor; [|done]. intros Hin. apply Hknin. by apply elem_of_list_to_set.
    + rewrite He'. constructor.
      * eapply table_in_empty; [exact Hp'|set_solver].
      * eapply Forall2_impl; [exact Hdb|]. intros fe t. by apply table_in_same.
    + rewrite He'. intros fe old [->|Hfe']%elem_of_cons Hold; [by intros _ j k' [_ ?]%zget_Some|].
      apply elem_of_cons in Hold as [->|Hold]; [|by apply Hh]. intros Heq. by destruct (Hkp fe Hfe').
  - do 2 eexists. split; [done|]. split; [|by eapply pool_full].
    constructor; simpl; try done. eapply Forall2_impl; [exact Hdb|]. intros fe t. by apply table_in_same.
Qed.

(** ** Deletion *)

Definition db_delete (n : Z) db : list (Z * records) := filter (fun t => t.1 <> n) db.

Lemma del_first_filter n (es : list FileEntry) :
  NoDup (filenum <$> es) -> del_first n es = filter (fun fe => filenum fe <> n) es.
Proof.
  induction es as [|fe es IH]; intros Hnd; [done|]. rewrite fmap_cons in Hnd.
  apply NoDup_cons in Hnd as [Hnin Hnd]. simpl. rewrite filter_cons.
  destruct (Z.eqb_spec (filenum fe) n) as [Heq|Hne].
  - rewrite decide_False by tauto. symmetry. apply filter_id. intros fe' Hi Heq'.
    apply Hnin. rewrite Heq, <- Heq'. apply list_elem_of_fmap. eauto.
  - rewrite decide_True by done. f_equal. by apply IH.
Qed.

Lemma slots_delete (s : SstableMetadata) (es : list FileEntry) fe :
  NoDup (filenum <$> entries s) -> NoDup (sstable_index <$> entries s) -> fe ∈ entries s ->
  es = filter (fun fe' => filenum fe' <> filenum fe) (entries s) ->
  list_to_set (sstable_index <$> es) = slots s ∖ {[sstable_index fe]}.
Proof.
  intros Hn Hi Hfe ->. apply set_eq. intros x.
  rewrite elem_of_list_to_set, elem_of_difference, elem_of_singleton. unfold slots.
  rewrite elem_of_list_to_set, !list_elem_of_fmap. split.
  - intros (fe' & -> & [Hne Hfe']%list_elem_of_filter). split; [by eauto|]. intros Heq. apply Hne. f_equal.
    by eapply (NoDup_fmap_eq sstable_index).
  - intros [(fe' & -> & Hfe') Hne]. exists fe'. split; [done|]. apply list_elem_of_filter. split; [|done].
    intros Heq. apply Hne. f_equal. by eapply (NoDup_fmap_eq filenum).
Qed.

Lemma DeleteL0file_ok cf db n :
  nvm_ok ucmp cf db ->
  exists cf', DeleteL0file cf n = Some cf' /\ nvm_ok ucmp cf' (db_delete n db).
Proof.
  intros Hok. pose proof Hok as [[Hm Hnd Hwf Hc] Hp Hs Hdb Hh].
  destruct (FindFile_loop_spec _ n _ _ (meta_points _ Hm)) as (r & Hr & Hfind).
  unfold DeleteL0file, FindFile. rewrite Hr. simpl. destruct r as [p|].
  - destruct Hfind as (i & fe & Hi & He & Hfn & _).
    destruct (Forall2_lookup_l _ _ _ _ _ (meta_points _ Hm) Hi) as (fe2 & He2 & Hhp).
    assert (fe2 = fe) as -> by congruence. rewrite Hhp. simpl.
    assert (Hfe : fe ∈ entries (sst_meta_ cf)) by (by eapply list_elem_of_lookup_2).
    destruct (pool_delete _ _ (sstable_index fe) Hp) as (p' & Hdel & Hp').
    { apply elem_of_list_to_set, list_elem_of_fmap. eauto. }
    rewrite Hdel. simpl. destruct (DeteleFile_ok _ n Hm) as (s' & -> & Hm' & He' & _). simpl.
    rewrite del_first_filter in He' by done.
    pose proof (pool_step_frame (ptr_sst_ cf) (OpDelete (sstable_index fe)) None p') as Hfr. simpl in Hfr.
    rewrite Hdel in Hfr. destruct (Hfr eq_refl) as (_ & Hes & Hraw).
    eexists. split; [done|]. constructor; simpl.
    + constructor; [done|..]; rewrite He'.
      * by apply NoDup_fmap_filter.
      * by apply Forall_filter.
      * by apply Forall_filter.
    + unfold slots at 1. rewrite He'. subst n. by rewrite (slots_delete (sst_meta_ cf) _ fe).
    + rewrite He'. by apply NoDup_fmap_filter.
    + rewrite He'. unfold db_delete.
      assert (Hdb' : Forall2 (table_in ucmp p') (entries (sst_meta_ cf)) db)
        by (eapply Forall2_impl; [exact Hdb|]; intros ? ?; by apply table_in_same).
      eapply Forall2_filter; [|exact Hdb']. intros fe' t []. by rewrite ti_number.
    + rewrite He'. intros fe' old [_ ?]%list_elem_of_filter [_ ?]%list_elem_of_filter. by apply Hh.
  - exists cf. split; [done|]. unfold db_delete. rewrite filter_id; [done|].
    intros t [i Hi]%list_elem_of_lookup. destruct (Forall2_lookup_r _ _ _ _ _ Hdb Hi) as (fe & He & []).
    rewrite <- ti_number. apply Hfind. by eapply list_elem_of_lookup_2.
Qed.

(** ** Finishing a table *)

Section Finish.
Context {P : Pmem} {PL : PmemLaws P}.

(** A write inside one slot leaves the tables of the others alone. *)
Lemma table_in_write (p : PersistentSstable) (A : gset Z) (index : Z) src mem fe t :
  pool_ok p A -> index ∈ A -> sstable_index fe ∈ A -> sstable_index fe <> index ->
  mem_write (raw_ p) (index * each_size_ p) src = Some mem -> len src <= each_size_ p ->
  table_in ucmp p fe t -> table_in ucmp (ps_set_raw p mem) fe t.
Proof.
  intros Hp Hi Hfe Hne Hw Hl []. pose proof (meta_size_bound t.2). pose proof (zlen_nonneg (table_data t.2)).
  assert (Hd : forall o n, 0 <= o -> 0 <= n -> o + n <= each_size_ p ->
    mem_read mem (sstable_index fe * each_size_ p + o) n = mem_read (raw_ p) (sstable_index fe * each_size_ p + o) n).
  { intros o n ???. eapply mem_read_write_disjoint; [exact Hw|]. destruct Hp.
    destruct (Z.lt_gt_cases (sstable_index fe) index) as [[Hlt|Hgt] _]; [done| |]; [left|right]; nia. }
  constructor; simpl; try done.
  - rewrite <- (Z.add_0_r (sstable_index fe * _)) in ti_data |- *. by rewrite Hd by lia.
  - intros Hne'. by rewrite Hd by lia; auto.
Qed.

Lemma pool_set_raw p A mem : pool_ok p A -> len mem = len (raw_ p) -> pool_ok (ps_set_raw p mem) A.
Proof. intros [] Hl. constructor; simpl; try done. by rewrite Hl. Qed.

Lemma finished_keys_sorted older ks : keys_sorted icmp ks -> keys_sorted icmp (finished_keys icmp older ks).
Proof.
  intros Hs. destruct older as [old|]; [|done]. apply StronglySorted_lookup_intro.
  intros i j a b Hij Ha Hb. simpl in Ha, Hb. rewrite list_lookup_fmap in Ha, Hb.
  destruct (ks !! i) as [ka|] eqn:Hka; simpl in Ha; [|done]. injection Ha as <-.
  destruct (ks !! j) as [kb|] eqn:Hkb; simpl in Hb; [|done]. injection Hb as <-.
  exact (StronglySorted_lookup_lt _ _ _ _ _ _ Hs Hij Hka Hkb).
Qed.

(** The finished table itself. *)
Lemma table_in_finished p older fe kvs mem :
  Forall kv_ok kvs -> records_sorted icmp kvs -> len (table_data kvs) < 2 ^ 62 ->
  len (table_data kvs) + meta_size kvs <= each_size_ p ->
  match older with Some old => len (keys_meta old) < 2 ^ 31 | None => True end ->
  mem_write (raw_ p) (sstable_index fe * each_size_ p)
    (table_data kvs ++ encode_keys_meta (finished_keys icmp older (layout 0 kvs))) = Some mem ->
  table_in ucmp (ps_set_raw p mem) (finished_entry icmp older fe (layout 0 kvs)) (filenum fe, kvs).
Proof.
  intros Hkv Hs Hl Hfit Hold Hw. pose proof (mem_read_write_same _ _ _ _ Hw) as Hr.
  rewrite zlen_app, encode_finished_len in Hr.
  pose proof (meta_size_bound kvs). pose proof (zlen_nonneg (table_data kvs)).
  constructor; simpl; try done.
  - rewrite <- (entry_keys_layout 0 kvs) at 2. unfold entry_keys. destruct older; simpl; [|done].
    rewrite <- list_fmap_compose. by apply list_fmap_ext.
  - by apply finished_keys_sorted, layout_sorted.
  - rewrite <- (Z.add_0_r (sstable_index fe * _)), (mem_read_sub _ _ _ _ _ _ Hr) by lia.
    rewrite mem_read_app_l by lia. apply mem_read_all.
  - intros _. rewrite (mem_read_sub _ _ _ _ _ _ Hr) by lia.
    rewrite <- (Z.add_0_r (len (table_data kvs))), mem_read_app_r by lia.
    rewrite <- (encode_finished_len icmp older 0 kvs). apply mem_read_all.
  - apply finished_keys_wf; [apply layout_wf; [done|lia..]|done].
Qed.

(** The hints stay sound when an unfinished table is finished. *)
Lemma hints_finished (es : list FileEntry) i fe kvs :
  NoDup (filenum <$> es) -> es !! i = Some fe -> keys_meta fe = [] ->
  (forall a b, a ∈ es -> b ∈ es -> hints_between ucmp a b) ->
  let es' := <[i := finished_entry icmp (es !! S i) fe (layout 0 kvs)]> es in
  forall a b, a ∈ es' -> b ∈ es' -> hints_between ucmp a b.
Proof.
  intros Hnd Hi Hnil Hh es' a b Ha Hb Hkp j k Hk.
  assert (Hnd' : NoDup (filenum <$> es')).
  { unfold es'. rewrite list_fmap_insert, list_insert_id; [done|]. by rewrite list_lookup_fmap, Hi. }
  assert (Hcase : forall x, x ∈ es' -> x = finished_entry icmp (es !! S i) fe (layout 0 kvs) \/ x ∈ es).
  { intros x [n Hn]%list_elem_of_lookup. unfold es' in Hn. destruct (decide (n = i)) as [->|Hne].
    - rewrite list_lookup_insert_eq in Hn by (by eapply lookup_lt_Some). left. congruence.
    - rewrite list_lookup_insert_ne in Hn by done. right. by eapply list_elem_of_lookup_2. }
  destruct (Hcase a Ha) as [->|Hae].
  - simpl in Hkp, Hk. destruct (es !! S i) as [old|] eqn:Hold; simpl in *.
    + assert (Hb' : old ∈ es').
      { apply (list_elem_of_lookup_2 _ (S i)). unfold es'. rewrite list_lookup_insert_ne by lia. done. }
      assert (b = old) as -> by (by eapply (NoDup_fmap_eq filenum es')).
      apply zget_Some in Hk as [_ Hk]. rewrite list_lookup_fmap in Hk.
      destruct (layout 0 kvs !! Z.to_nat j); simpl in Hk; [|done]. injection Hk as <-.
      apply hint_ok_sound, next_of_hint_ok.
    + apply zget_Some in Hk as [_ Hk]. pose proof (layout_next 0 kvs) as Hn. rewrite Forall_lookup in Hn.
      rewrite (Hn _ _ Hk). intros ?. lia.
  - destruct (Hcase b Hb) as [->|Hbe]; [|exact (Hh a b Hae Hbe Hkp j k Hk)]. simpl in Hkp.
    assert (Hfe : fe ∈ es) by (by eapply list_elem_of_lookup_2).
    pose proof (Hh a fe Hae Hfe Hkp j k Hk) as Hs. rewrite Hnil in Hs. intros Hn.
    destruct (Hs Hn) as [(o & Ho & _) _]. done.
Qed.

(** Replacing one table and carrying the others over. *)
Lemma Forall2_finish (p p' : PersistentSstable) (es : list FileEntry) db i fe fe' t' :
  NoDup (sstable_index <$> es) -> es !! i = Some fe ->
  (forall a t, a ∈ es -> sstable_index a <> sstable_index fe -> table_in ucmp p a t -> table_in ucmp p' a t) ->
  table_in ucmp p' fe' t' -> Forall2 (table_in ucmp p) es db ->
  Forall2 (table_in ucmp p') (<[i := fe']> es) (<[i := t']> db).
Proof.
  intros Hnd Hi Hother Hnew Hdb. pose proof (Forall2_length _ _ _ Hdb) as Hl.
  apply Forall2_same_length_lookup_2; [by rewrite !length_insert|].
  intros j a t Ha Ht. destruct (decide (j = i)) as [->|Hne].
  - pose proof (lookup_lt_Some _ _ _ Hi). rewrite list_lookup_insert_eq in Ha by lia.
    rewrite list_lookup_insert_eq in Ht by lia. congruence.
  - rewrite list_lookup_insert_ne in Ha by done. rewrite list_lookup_insert_ne in Ht by done. apply Hother.
    + by eapply list_elem_of_lookup_2.
    + intros Heq. apply Hne. eapply (NoDup_lookup (sstable_index <$> es)); [done| |].
      * rewrite list_lookup_fmap, Ha. done.
      * rewrite list_lookup_fmap, Hi, Heq. done.
    + destruct (Forall2_lookup_l _ _ _ _ _ Hdb Ha) as (t2 & Ht2 & ?). congruence.
Qed.

Lemma FinishTable_ok cf db b kvs p i n index :
  nvm_ok ucmp cf db -> entries (sst_meta_ cf) !! i = Some (FileEntry_make n index) ->
  fheap (sst_meta_ cf) !! p = Some (FileEntry_make n index) ->
  bb_ok b kvs -> bb_max_size_ b = each_size_ (ptr_sst_ cf) ->
  kvs <> [] -> Forall kv_ok kvs -> len kvs < 2 ^ 31 -> records_sorted icmp kvs ->
  len (table_data kvs) + meta_size kvs <= each_size_ (ptr_sst_ cf) ->
  exists b' cf', FinishTable icmp cf b p (index * each_size_ (ptr_sst_ cf)) = Some (Status_OK, b', cf') /\
    bb_offset_ b' = len (table_data kvs) /\ bb_keys_meta_size_ b' = meta_size kvs /\
    nvm_ok ucmp cf' (<[i := (n, kvs)]> db) /\
    exists fe', fheap (sst_meta_ cf') !! p = Some fe' /\ entries (sst_meta_ cf') !! i = Some fe' /\ filenum fe' = n.
Proof.
  intros Hok Hi Hf Hb Hmax Hne Hkv Hcnt Hs Hfit. pose proof Hok as [Ht Hp Hsl Hdb Hh].
  assert (Hin : index ∈ slots (sst_meta_ cf)).
  { apply elem_of_list_to_set, list_elem_of_fmap. exists (FileEntry_make n index). split; [done|].
    by eapply list_elem_of_lookup_2. }
  destruct (pool_ptr _ _ _ Hp Hin) as (_ & Hr0 & Hr1).
  destruct (bb_Finish_ok icmp b kvs (sst_meta_ cf) (raw_ (ptr_sst_ cf)) p (FileEntry_make n index)
    (index * each_size_ (ptr_sst_ cf))) as (i' & s' & Hi' & Ht' & Hf' & Hes & Hfin);
    try done; [by apply layout_sorted|lia|].
  assert (i' = i) as ->.
  { pose proof (to_numbers _ Ht) as Hnd. eapply (NoDup_lookup (filenum <$> entries (sst_meta_ cf)));
      [done|rewrite list_lookup_fmap, Hi'; done|rewrite list_lookup_fmap, Hi; done]. }
  rewrite Hmax in Hfin. destruct (Z.ltb_spec (each_size_ (ptr_sst_ cf)) (len (table_data kvs) + meta_size kvs)); [lia|].
  destruct Hfin as (b' & mem' & Hfin & Hoff & Hms & Hw).
  unfold FinishTable. rewrite Hfin. simpl. do 2 eexists. split_and!; [done|done|done| |].
  2: { eexists. split_and!; [exact Hf'| |done]. simpl. rewrite Hes, list_lookup_insert_eq; [done|].
       by eapply lookup_lt_Some. }
  set (fe' := finished_entry _ _ _ _) in *.
  assert (Hnum : filenum <$> entries s' = filenum <$> entries (sst_meta_ cf))
    by (rewrite Hes, list_fmap_insert, list_insert_id; [done|]; by rewrite list_lookup_fmap, Hi).
  assert (Hidx : sstable_index <$> entries s' = sstable_index <$> entries (sst_meta_ cf))
    by (rewrite Hes, list_fmap_insert, list_insert_id; [done|]; by rewrite list_lookup_fmap, Hi).
  assert (Hwl : len (table_data kvs ++ encode_keys_meta (keys_meta fe')) <= each_size_ (ptr_sst_ cf))
    by (rewrite zlen_app; unfold fe'; simpl; rewrite encode_finished_len; lia).
  constructor; simpl.
  - done.
  - unfold slots. rewrite Hidx. apply pool_set_raw; [done|]. by eapply mem_write_len.
  - by rewrite Hidx.
  - rewrite Hes. apply (Forall2_finish (ptr_sst_ cf) _ _ _ i (FileEntry_make n index)); [done|done| | |done].
    + intros fe t Hfe Hne' Hti. eapply table_in_write; try done.
      apply elem_of_list_to_set, list_elem_of_fmap. eauto.
    + apply (table_in_finished (ptr_sst_ cf) _ (FileEntry_make n index)); try done.
      * destruct Hb. lia.
      * destruct (entries (sst_meta_ cf) !! S i) as [old|] eqn:Ho; [|done].
        pose proof (to_count _ Ht) as Hc. rewrite Forall_lookup in Hc. by eapply Hc.
  - rewrite Hes. apply hints_finished; try done. by apply to_numbers.
Qed.
End Finish.

(** ** Recovery *)

(** The manifest record [f] describes the table of [fe], as the flush writes it. *)
Record describes (f : FileMetaData) fe (recs : records) : Prop := {
  ds_number : GetNumber (f_fd f) = filenum fe;
  ds_index : f_nvm_sstable_index f = sstable_index fe;
  ds_keys : f_keys_num f = keys_num fe;
  ds_point : f_key_point_filenum f = key_point_filenum fe;
  ds_raw : f_raw_file_size f = len (table_data recs);
  ds_meta : f_nvm_meta_size f = meta_size recs;
}.

(** The module [cf] holds exactly the entries [es]; its pool has the contents and the
    geometry of [p]. *)
Record holds cf (p : PersistentSstable) (es : list FileEntry) : Prop := {
  hd_tables : tables_ok (sst_meta_ cf);
  hd_entries : entries (sst_meta_ cf) = es;
  hd_pool : pool_ok (ptr_sst_ cf) (slots (sst_meta_ cf));
  hd_slots : NoDup (sstable_index <$> es);
  hd_same : same_pool p (ptr_sst_ cf);
}.

(** The key array of a table read from NVM. *)
Lemma recover_table p fe t :
  table_in ucmp p fe t -> entry_wf fe -> keys_meta fe <> [] -> each_size_ p < 2 ^ 64 ->
  exists buf, mem_read (raw_ p) (sstable_index fe * each_size_ p + len (table_data t.2)) (meta_size t.2) = Some buf /\
    recover_keys buf (Z.to_nat (keys_num fe)) 0 = Some (keys_meta fe).
Proof.
  intros [] Hwf Hne Heach. exists (encode_keys_meta (keys_meta fe)). split; [by apply ti_meta|].
  rewrite Hwf, zlen_to_nat. specialize (ti_meta Hne). apply mem_read_len in ti_meta as Hl.
  eapply (recover_keys_Encode _ _ [] []); [done|by rewrite encode_keys_meta_eq, app_nil_r|].
  rewrite Hl. pose proof (zlen_nonneg (table_data t.2)). lia.
Qed.

(** A new entry with all its fields set. *)
Lemma add_entry_ok (s : SstableMetadata) fe :
  tables_ok s -> (filenum fe ∉ (filenum <$> entries s)) -> entry_wf fe -> len (keys_meta fe) < 2 ^ 31 ->
  let '(q, s') := SstableMetadata_AddFile s (filenum fe) (sstable_index fe) in
  tables_ok (store_entry s' q fe) /\ entries (store_entry s' q fe) = fe :: entries s.
Proof.
  intros Ht Hn Hwf Hc. pose proof (tables_ok_AddFile s (filenum fe) (sstable_index fe) Ht Hn) as Hadd.
  destruct (SstableMetadata_AddFile s (filenum fe) (sstable_index fe)) as [q s'].
  destruct Hadd as ([Hm Hnd Hw Hcs] & Hq & Hes).
  destruct (store_entry_ok s' q _ fe Hm Hq) as (i & _ & Hi & Hm' & He').
  assert (i = 0%nat) as ->.
  { eapply (NoDup_lookup (filenum <$> entries s')); [done|rewrite list_lookup_fmap, Hi; done|].
    by rewrite Hes, fmap_cons. }
  rewrite Hes in He', Hw, Hcs. simpl in He'. split; [|done].
  inversion_clear Hw. inversion_clear Hcs.
  constructor; [done|..]; rewrite He'; [|by constructor|by constructor].
  rewrite fmap_cons. constructor; [done|by destruct Ht].
Qed.

Lemma RecoverFile_ok cf p es f fe t :
  holds cf p es -> table_in ucmp p fe t -> entry_wf fe -> keys_meta fe <> [] ->
  len (keys_meta fe) < 2 ^ 31 -> describes f fe t.2 ->
  (filenum fe ∉ (filenum <$> es)) -> (sstable_index fe ∉ (sstable_index <$> es)) ->
  0 <= sstable_index fe < num_ p ->
  exists cf', RecoverFile cf f = Some cf' /\ holds cf' p (fe :: es) /\ open_by_creat_ cf' = open_by_creat_ cf.
Proof.
  intros [Ht He Hp Hsl (Hpn & Hpe & Hpr)] Hti Hwf Hne Hcnt [] Hnin Hinin Hidx.
  pose proof (pool_num _ _ Hp) as Hnum. rewrite Hpn in Hnum.
  assert (Heach : each_size_ p < 2 ^ 64).
  { pose proof (pool_total _ _ Hp) as Htot. pose proof (pool_each _ _ Hp). rewrite Hpn, Hpe in *. nia. }
  destruct (FindFile_loop_spec _ (filenum fe) _ _ (meta_points _ (to_meta _ Ht))) as (r & Hr & Hfind).
  unfold RecoverFile, FindFile. rewrite ds_number0, Hr. simpl. destruct r as [q|].
  { destruct Hfind as (i & fe2 & _ & Hi & Hfn & _). destruct Hnin. rewrite <- Hfn, <- He.
    apply list_elem_of_fmap. exists fe2. split; [done|]. by eapply list_elem_of_lookup_2. }
  assert (Hns : sstable_index fe ∉ slots (sst_meta_ cf)).
  { unfold slots. rewrite elem_of_list_to_set, He. done. }
  destruct (pool_recover _ _ (sstable_index fe) Hp) as (p' & Hrec & Hp'); [lia|].
  rewrite decide_True in Hp' by (rewrite Hpn; done).
  pose proof (pool_step_frame (ptr_sst_ cf) (OpRecover (sstable_index fe)) None p') as Hfr. simpl in Hfr.
  rewrite Hrec in Hfr. destruct (Hfr eq_refl) as (Hn' & He' & Hr').
  rewrite ds_index0, Hrec. simpl.
  rewrite <- He in Hnin. pose proof (add_entry_ok (sst_meta_ cf) fe Ht Hnin Hwf Hcnt) as Hadd.
  destruct (SstableMetadata_AddFile (sst_meta_ cf) (filenum fe) (sstable_index fe)) as [q s'] eqn:Es.
  destruct Hadd as (Ht' & Hes').
  destruct (pool_ptr p' _ (sstable_index fe) Hp' ltac:(set_solver)) as (-> & _ & _). simpl.
  rewrite He', Hpe, ds_raw0, ds_meta0, ds_keys0, ds_point0, Hr', Hpr.
  destruct (recover_table p fe t Hti Hwf Hne Heach) as (buf & -> & Hk). simpl. rewrite Hk. simpl.
  replace (mkFE _ _ _ _ _) with fe by (by destruct fe).
  eexists. split; [done|]. split; [|done]. constructor; simpl; [done|by rewrite Hes', He| |by constructor|].
  - unfold slots at 1. by rewrite Hes'.
  - unfold same_pool in *. split_and!; congruence.
Qed.

(** What recovery needs of each table of the version. *)
Record recoverable (p : PersistentSstable) db (f : FileMetaData) fe : Prop := {
  rc_describes : describes f fe (db_find db (filenum fe));
  rc_table : table_in ucmp p fe (filenum fe, db_find db (filenum fe));
  rc_wf : entry_wf fe;
  rc_nonempty : keys_meta fe <> [];
  rc_count : len (keys_meta fe) < 2 ^ 31;
  rc_index : 0 <= sstable_index fe < num_ p;
}.

Lemma recover_all p db cf0 L0 es :
  holds cf0 p [] -> Forall2 (recoverable p db) L0 es ->
  NoDup (filenum <$> es) -> NoDup (sstable_index <$> es) ->
  exists cf', foldl (fun acc f => cf ← acc; RecoverFile cf f) (Some cf0) (reverse L0) = Some cf' /\
    holds cf' p es.
Proof.
  intros H0. induction 1 as [|f fe L0 es [] _ IH]; intros Hn Hi; [by exists cf0|].
  rewrite fmap_cons in Hn, Hi. apply NoDup_cons in Hn as [Hn1 Hn], Hi as [Hi1 Hi].
  destruct (IH Hn Hi) as (cf1 & Hf & Hh). rewrite reverse_cons, foldl_app, Hf. simpl.
  destruct (RecoverFile_ok cf1 p es f fe (filenum fe, db_find db (filenum fe))) as (cf2 & H2 & Hh2 & _); try done.
  exists cf2. done.
Qed.

(** The entries of a version are determined by their numbers. *)
Lemma entries_unique (all es1 es2 : list FileEntry) :
  NoDup (filenum <$> all) -> filenum <$> es1 = filenum <$> es2 ->
  (forall fe, fe ∈ es1 -> fe ∈ all) -> (forall fe, fe ∈ es2 -> fe ∈ all) -> es1 = es2.
Proof.
  intros Hnd. revert es2. induction es1 as [|a es1 IH]; intros [|b es2] Heq H1 H2; try done.
  rewrite !fmap_cons in Heq. injection Heq as Hab Heq. f_equal.
  - eapply (NoDup_fmap_eq filenum all); [done|apply H1; left|apply H2; left|done].
  - apply IH; [done|..]; intros fe Hfe; [apply H1|apply H2]; by right.
Qed.

Lemma NoDup_index_sub (all es : list FileEntry) :
  NoDup (filenum <$> all) -> NoDup (sstable_index <$> all) -> (forall fe, fe ∈ es -> fe ∈ all) ->
  NoDup (filenum <$> es) -> NoDup (sstable_index <$> es).
Proof.
  intros Hn Hi Hsub Hes. apply NoDup_alt. intros i j x Hx Hy. rewrite list_lookup_fmap in Hx, Hy.
  destruct (es !! i) as [a|] eqn:Ha; simpl in Hx; [|done]. destruct (es !! j) as [b|] eqn:Hb; simpl in Hy; [|done].
  assert (a = b) as ->.
  { eapply (NoDup_fmap_eq sstable_index all); [done|apply Hsub; by eapply list_elem_of_lookup_2..|congruence]. }
  eapply (NoDup_lookup (filenum <$> es)); [done|..]; rewrite list_lookup_fmap.
  - by rewrite Ha.
  - by rewrite Hb.
Qed.

(** The tables of a version as recovery finds them. *)
Definition saved_db db (L0 : list FileMetaData) : list (Z * records) :=
  (fun f => (GetNumber (f_fd f), db_find db (GetNumber (f_fd f)))) <$> L0.

Lemma version_recoverable cf db L0 es :
  nvm_ok ucmp cf db -> version_ok db L0 -> filenum <$> es = numbers L0 ->
  (forall fe, fe ∈ es -> fe ∈ entries (sst_meta_ cf)) ->
  Forall (fun f => exists fe, fe ∈ entries (sst_meta_ cf) /\ describes f fe (db_find db (filenum fe))) L0 ->
  Forall2 (recoverable (ptr_sst_ cf) db) L0 es.
Proof.
  intros Hok Hv Hnum Hin Hds. pose proof Hok as [[Hm Hnd Hwf Hc] Hp Hsl Hdb Hh].
  apply Forall2_same_length_lookup_2.
  { apply (f_equal length) in Hnum. unfold numbers in Hnum. by rewrite !length_fmap in Hnum. }
  intros i f fe Hf Hfe. assert (Hfei : fe ∈ entries (sst_meta_ cf)) by (apply Hin; by eapply list_elem_of_lookup_2).
  rewrite Forall_lookup in Hds. destruct (Hds i f Hf) as (fe0 & Hfe0 & Hd).
  assert (Hn : filenum fe = GetNumber (f_fd f)).
  { pose proof (f_equal (.!! i) Hnum) as Hi. unfold numbers in Hi.
    rewrite !list_lookup_fmap, Hfe, Hf in Hi. simpl in Hi. by injection Hi. }
  assert (fe0 = fe) as ->.
  { eapply (NoDup_fmap_eq filenum); [exact Hnd|done|done|]. destruct Hd. congruence. }
  rewrite Forall_forall in Hwf, Hc. pose proof (db_find_entry ucmp cf db fe Hok Hfei) as Hti.
  constructor; [done|done|by apply Hwf| |by apply Hc|].
  - intros Hnil. destruct Hti. pose proof (keys_length _ _ ti_layout) as Hl. simpl in Hl. rewrite Hnil, zlen_nil in Hl.
    destruct Hv as [_ Hv]. rewrite Forall_lookup in Hv. specialize (Hv i f Hf). rewrite <- Hn in Hv. lia.
  - apply (pool_in _ _ Hp). apply elem_of_list_to_set, list_elem_of_fmap. eauto.
Qed.

Lemma saved_db_numbers db L0 : (saved_db db L0).*1 = numbers L0.
Proof. unfold saved_db, numbers. rewrite <- list_fmap_compose. done. Qed.

Lemma saved_db_find db L0 f :
  NoDup (numbers L0) -> f ∈ L0 ->
  db_find (saved_db db L0) (GetNumber (f_fd f)) = db_find db (GetNumber (f_fd f)).
Proof.
  intros Hnd Hf. unfold db_find at 1. erewrite elem_of_list_to_map_1.
  - simpl. reflexivity.
  - by rewrite saved_db_numbers.
  - apply list_elem_of_fmap. exists f. done.
Qed.

Lemma numbers_NoDup cf db L0 : nvm_ok ucmp cf db -> version_ok db L0 -> NoDup (numbers L0).
Proof.
  intros Hok [Hsub _]. rewrite (db_numbers ucmp cf db Hok) in Hsub.
  eapply sublist_NoDup; [|exact Hsub]. apply to_numbers. by destruct Hok.
Qed.

Lemma saved_version_ok cf db L0 :
  nvm_ok ucmp cf db -> version_ok db L0 -> version_ok (saved_db db L0) L0.
Proof.
  intros Hok Hv. pose proof (numbers_NoDup cf db L0 Hok Hv) as Hnd. destruct Hv as [Hsub Hf]. split.
  - by rewrite saved_db_numbers.
  - rewrite Forall_forall in *. intros f Hin. rewrite saved_db_find by done. by apply Hf.
Qed.

(** [Get] in terms of the entries of the version. *)
Definition get_on (es : list FileEntry) (raw : bytes) (each : Z) (L0 : list FileMetaData) (u : bytes)
  : option (option bytes) :=
  r ← Get_loop ucmp (zip es (f_first_key_index <$> L0)) u (-1) (-1) 0;
  match r with
  | None => Some None
  | Some (fe, m) => v ← GetValueInFile raw (sstable_index fe * each) fe m; Some (Some v)
  end.

Lemma NvmCf_Get_on cf db L0 es u sq :
  nvm_ok ucmp cf db -> version_ok db L0 -> filenum <$> es = numbers L0 ->
  (forall fe, fe ∈ es -> fe ∈ entries (sst_meta_ cf)) ->
  NvmCf_Get ucmp cf L0 (make_LookupKey u sq) = get_on es (raw_ (ptr_sst_ cf)) (each_size_ (ptr_sst_ cf)) L0 u.
Proof.
  intros Hok Hv Hnum Hin. destruct (version_entries ucmp cf db L0 Hok Hv) as (ps & es' & Hget & Hmap & Hnum' & Hin').
  assert (es' = es) as ->.
  { eapply (entries_unique (entries (sst_meta_ cf))); [|congruence|done|done]. apply to_numbers. by destruct Hok. }
  unfold NvmCf_Get, get_on. rewrite Hget. simpl. rewrite Hmap. simpl. rewrite lookup_user_key.
  destruct (Get_loop _ _ _ _ _ _) as [[[fe m]|]|] eqn:Eg; [|done|done]. simpl. apply Get_loop_file in Eg as (i & first & Hi).
  destruct (version_lookup ucmp cf db L0 es Hok Hv Hnum Hin i fe first Hi) as (f & _ & _ & _ & Hfe & _).
  assert (Hs : sstable_index fe ∈ slots (sst_meta_ cf)) by (apply elem_of_list_to_set, list_elem_of_fmap; eauto).
  by destruct (pool_ptr _ _ _ (no_pool _ _ _ Hok) Hs) as (-> & _ & _).
Qed.

Lemma holds_nvm_ok cf cf' db L0 es :
  nvm_ok ucmp cf db -> filenum <$> es = numbers L0 -> (forall fe, fe ∈ es -> fe ∈ entries (sst_meta_ cf)) ->
  holds cf' (ptr_sst_ cf) es -> nvm_ok ucmp cf' (saved_db db L0).
Proof.
  intros Hok Hnum Hin [Ht He Hp Hsl (Hn & Hes & Hr)]. constructor; [done|done|by rewrite He| |].
  - rewrite He. apply Forall2_same_length_lookup_2.
    { apply (f_equal length) in Hnum. unfold numbers in Hnum. unfold saved_db. by rewrite !length_fmap in *. }
    intros i fe t Hfe Hti. unfold saved_db in Hti. rewrite list_lookup_fmap in Hti.
    destruct (L0 !! i) as [f|] eqn:Hf; simpl in Hti; [|done]. injection Hti as <-.
    assert (Hnf : filenum fe = GetNumber (f_fd f)).
    { pose proof (f_equal (.!! i) Hnum) as Hi. unfold numbers in Hi.
      rewrite !list_lookup_fmap, Hfe, Hf in Hi. simpl in Hi. by injection Hi. }
    rewrite <- Hnf. apply (table_in_same (ptr_sst_ cf)); [done|done|].
    apply (db_find_entry ucmp cf db); [done|]. apply Hin. by eapply list_elem_of_lookup_2.
  - rewrite He. intros fe old Hfe Hold. apply (no_hints _ _ _ Hok); by apply Hin.
Qed.

(** Recovery rebuilds the tables of the version, and its lookups. *)
Lemma recovery_ok cf db L0files cf0 :
  nvm_ok ucmp cf db -> version_ok db L0files -> L0files <> [] ->
  Forall (fun f => exists fe, fe ∈ entries (sst_meta_ cf) /\ describes f fe (db_find db (filenum fe))) L0files ->
  holds cf0 (ptr_sst_ cf) [] -> open_by_creat_ cf0 = false ->
  exists cf', RecoverFromStorageInfo cf0 L0files = Some cf' /\
    nvm_ok ucmp cf' (saved_db db L0files) /\
    forall u s, NvmCf_Get ucmp cf' L0files (make_LookupKey u s) = NvmCf_Get ucmp cf L0files (make_LookupKey u s).
Proof.
  intros Hok Hv Hne Hds H0 Hopen.
  destruct (version_entries ucmp cf db L0files Hok Hv) as (_ & es & _ & _ & Hnum & Hin).
  pose proof (version_recoverable cf db L0files es Hok Hv Hnum Hin Hds) as Hrec.
  assert (Hnd : NoDup (filenum <$> es)) by (rewrite Hnum; by eapply numbers_NoDup).
  assert (Hndi : NoDup (sstable_index <$> es)).
  { eapply (NoDup_index_sub (entries (sst_meta_ cf))); [|by destruct Hok|done|done].
    apply to_numbers. by destruct Hok. }
  destruct (recover_all _ _ cf0 L0files es H0 Hrec Hnd Hndi) as (cf' & Hf & Hh).
  exists cf'. unfold RecoverFromStorageInfo. rewrite Hopen, Hf.
  assert ((len L0files =? 0) = false) as -> by (apply Z.eqb_neq; intros Hz%zlen_zero; done).
  pose proof (holds_nvm_ok cf cf' db L0files es Hok Hnum Hin Hh) as Hok'. split_and!; [done|done|].
  intros u sq. rewrite (NvmCf_Get_on cf db L0files es) by done.
  rewrite (NvmCf_Get_on cf' (saved_db db L0files) L0files es); [| done | by eapply saved_version_ok | done |].
  - by destruct Hh as [_ _ _ _ (_ & -> & ->)].
  - destruct Hh as [_ -> _ _ _]. done.
Qed.
End State.
