(* ===== verification/FlushJob.v ===== *)
(** * Flushing a memtable to NVM level 0 (utilities/nvm_mod/nvm_flush_job.cc)

    The flush of a list of immutable memtables: the metadata of the new table, the
    table built from the compaction iterator's output, and the file added to the
    version edit.  The memtables, the merging and compaction iterators and the range
    tombstone aggregator are the source of the flush, given by what they yield. *)

From S2P Require Import Prelude Coding Comparator DbFormat VersionEdit NvmAlloc SstableMeta L0Table NvmCf NvmCfState.

(** What the iterators over the memtables yield. *)
Record flush_source := mkSource {
  fs_valid : bool;                           (** [iter->Valid()] after [SeekToFirst] *)
  fs_range_del_empty : bool;                 (** [range_del_agg->IsEmpty()] *)
  fs_entries : list (bytes * bytes * Z);     (** [c_iter]: key, value and sequence number *)
  fs_tombstones : list (bytes * bytes * Z);  (** start key, end key, sequence number *)
  fs_status : Status;                        (** [iter->status()] *)
}.

Definition fs_records (src : flush_source) : records := (fun e => (e.1.1, e.1.2)) <$> fs_entries src.

Definition file_set_size (f : FileMetaData) (size : Z) : FileMetaData :=
  file_set_bounds f
    (mkFd (packed_number_and_path_id (f_fd f)) size (smallest_seqno (f_fd f)) (largest_seqno (f_fd f)))
    (f_smallest f) (f_largest f).

(** The assignments to [meta_] after a successful [Finish]. *)
Definition file_set_nvm (f : FileMetaData) (size : Z) (fe : FileEntry) (meta_size : Z) : FileMetaData :=
  let f := file_set_size f size in
  mkFile (f_fd f) (f_smallest f) (f_largest f) (f_marked_for_compaction f) true 0
    (sstable_index fe) (keys_num fe) (key_point_filenum fe) size meta_size
    (f_compensated_file_size f) (f_num_entries f) (f_num_deletions f) (f_raw_key_size f)
    (f_raw_value_size f) (f_refs f) (f_being_compacted f) (f_init_stats_from_file f).

(** The loop over [c_iter]: the builder, the metadata and [number_entry]. *)
Fixpoint add_entries (b : L0TableBuilderWithBuffer) (meta_ : FileMetaData) (number_entry : Z)
    (es : list (bytes * bytes * Z)) : option (L0TableBuilderWithBuffer * FileMetaData * Z) :=
  match es with
  | [] => Some (b, meta_, number_entry)
  | (key, value, seq) :: es =>
      b ← L0TableBuilderWithBuffer_Add b key value;
      add_entries b (UpdateBoundaries meta_ key seq) (wrap64 (number_entry + 1)) es
  end.

(** The loop over the range tombstones. *)
Definition add_tombstones (icmp : Comparator) (meta_ : FileMetaData) (ts : list (bytes * bytes * Z))
  : FileMetaData :=
  foldl (fun m t => UpdateBoundariesForRange icmp m t.1.1 t.1.2 t.2) meta_ ts.

Section Build.
Context `{Pmem} (icmp : Comparator).

(** [buf] is the content of the buffer the builder allocates.  [None] is an access
    outside a buffer or through the null file entry left when no slot was free. *)
Definition BuildInsertNvm (cf : NvmCfModule) (meta_ : FileMetaData) (buf : bytes) (src : flush_source)
  : option (Status * FileMetaData * NvmCfModule) :=
  let meta_ := file_set_size meta_ 0 in
  '(s, meta_, cf) ←
    (if fs_valid src || negb (fs_range_del_empty src) then
       '(room, cf) ← AddL0TableRoom cf (GetNumber (f_fd meta_));
       let L0builder := L0TableBuilderWithBuffer_make (each_size_ (ptr_sst_ cf)) buf in
       '(L0builder, meta_, number_entry) ← add_entries L0builder meta_ 0 (fs_entries src);
       let meta_ := add_tombstones icmp meta_ (fs_tombstones src) in
       if number_entry =? 0 then Some (Status_OK, meta_, cf)
       else
         '(raw, file) ← room;
         '(s, L0builder, cf) ← FinishTable icmp cf L0builder file raw;
         fe ← fheap (sst_meta_ cf) !! file;
         Some (s, (if Status_ok s
                   then file_set_nvm meta_ (bb_offset_ L0builder) fe (bb_keys_meta_size_ L0builder)
                   else meta_), cf)
     else Some (Status_OK, meta_, cf));
  Some (if Status_ok (fs_status src) then s else fs_status src, meta_, cf).

(** [BuildTableInsertNVM] is the same construction for the memtables of recovery;
    without a module it is refused. *)
Definition BuildTableInsertNVM (nvm_cf_ : option NvmCfModule) (meta : FileMetaData) (buf : bytes)
    (src : flush_source) : option (Status * FileMetaData * option NvmCfModule) :=
  match nvm_cf_ with
  | None => Some (Status_InvalidArgument, meta, None)
  | Some cf => '(s, meta, cf) ← BuildInsertNvm cf meta buf src; Some (s, meta, Some cf)
  end.

(** The edit of the first memtable and the metadata of the new table.  A memtable is
    its edit and the number of the log that follows it. *)
Definition PickMemTable (mems_ : list (VersionEdit * Z)) (cf_id new_file_number : Z)
  : option (VersionEdit * FileMetaData) :=
  m ← head mems_;
  back ← last mems_;
  Some (SetColumnFamily cf_id (SetLogNumber back.2 (SetPrevLogNumber 0 m.1)),
        file_set_bounds FileMetaData_default (FileDescriptor_make new_file_number 0 0 kMaxSequenceNumber 0)
          [] []).

(** The [AddFile] call with the fields of [meta_]. *)
Definition add_flushed_file (m : FileMetaData) (edit_ : VersionEdit) : VersionEdit :=
  AddFile 0 (GetNumber (f_fd m)) (GetPathId (f_fd m)) (GetFileSize (f_fd m))
    (f_smallest m) (f_largest m) (smallest_seqno (f_fd m)) (largest_seqno (f_fd m))
    (f_marked_for_compaction m) (f_is_nvm_level0 m) (f_first_key_index m)
    (f_nvm_sstable_index m) (f_keys_num m) (f_key_point_filenum m)
    (f_raw_file_size m) (f_nvm_meta_size m) edit_.

(** [fsync] is the result of [output_file_directory_->Fsync()], [Status_OK] when the
    directory is not synced. *)
Definition WriteLevel0Table (cf : NvmCfModule) (edit_ : VersionEdit) (meta_ : FileMetaData)
    (buf : bytes) (src : flush_source) (fsync : Status)
  : option (Status * VersionEdit * FileMetaData * NvmCfModule) :=
  '(s, m, cf) ← BuildInsertNvm cf meta_ buf src;
  let s := if Status_ok s then fsync else s in
  Some (s,
        (if Status_ok s && (0 <? GetFileSize (f_fd m)) then add_flushed_file m edit_ else edit_), m, cf).
End Build.

(** ** Bounds of the new table *)

(** [m'] is [m] with other boundaries. *)
Definition same_but_bounds (m m' : FileMetaData) : Prop :=
  m' = file_set_bounds m (f_fd m') (f_smallest m') (f_largest m') /\
  packed_number_and_path_id (f_fd m') = packed_number_and_path_id (f_fd m) /\
  file_size (f_fd m') = file_size (f_fd m).

(** The key range [lo .. hi] with sequence number [seq] is within the boundaries. *)
Record in_bounds (icmp : Comparator) (f : FileMetaData) (lo hi : bytes) (seq : Z) : Prop := {
  ib_lo : Compare icmp (f_smallest f) lo <= 0;
  ib_hi : Compare icmp hi (f_largest f) <= 0;
  ib_seq : smallest_seqno (f_fd f) <= seq <= largest_seqno (f_fd f);
}.

Definition update_all (m : FileMetaData) (es : list (bytes * bytes * Z)) : FileMetaData :=
  foldl (fun m e => UpdateBoundaries m e.1.1 e.2) m es.

Lemma same_but_bounds_refl m : same_but_bounds m m.
Proof. by destruct m. Qed.

Lemma same_but_bounds_set m m0 fd a b :
  same_but_bounds m m0 -> packed_number_and_path_id fd = packed_number_and_path_id (f_fd m0) ->
  file_size fd = file_size (f_fd m0) -> same_but_bounds m (file_set_bounds m0 fd a b).
Proof.
  intros (Hm & Hp & Hs) Hp' Hs'. split_and!; simpl; [|congruence..]. by rewrite Hm.
Qed.

Lemma add_entries_eq b m n es :
  0 <= n -> n + len es < 2 ^ 64 ->
  add_entries b m n es =
    (b' ← bb_AddAll b ((fun e => (e.1.1, e.1.2)) <$> es); Some (b', update_all m es, n + len es)).
Proof.
  revert b m n. induction es as [|[[k v] sq] es IH]; intros b m n Hn Hl.
  - simpl. by rewrite zlen_nil, Z.add_0_r.
  - rewrite zlen_cons in *. pose proof (zlen_nonneg es). simpl.
    destruct (L0TableBuilderWithBuffer_Add b k v) as [b'|]; simpl; [|done].
    rewrite wrap_id by lia. rewrite IH by lia. by rewrite Z.add_assoc.
Qed.

Section Bounds.
Context (icmp : Comparator) {Laws : ComparatorLaws icmp}.

(** The compaction iterator yields keys in increasing order, none of them empty. *)
Lemma update_all_ok m es :
  f_smallest m = [] -> Forall (fun e => e.1.1 <> []) es ->
  same_but_bounds m (update_all m es) /\
  f_smallest (update_all m es) = default [] ((fun e => e.1.1) <$> head es) /\
  f_largest (update_all m es) = default (f_largest m) ((fun e => e.1.1) <$> last es) /\
  forall e, e ∈ es ->
    smallest_seqno (f_fd (update_all m es)) <= e.2 <= largest_seqno (f_fd (update_all m es)).
Proof.
  intros Hm. induction es as [|e es IH] using rev_ind; intros Hne.
  - split_and!; [apply same_but_bounds_refl|done|done|]. intros e He. inversion He.
  - apply Forall_app in Hne as [Hne He]. apply Forall_singleton in He.
    destruct (IH Hne) as (Hsame & Hsm & Hlg & Hsq). unfold update_all in *.
    rewrite foldl_app. set (m' := foldl _ m es) in *. simpl. unfold UpdateBoundaries.
    split_and!; simpl.
    + by apply same_but_bounds_set.
    + rewrite Hsm. destruct es as [|e0 es]; simpl; [done|].
      apply Forall_inv in Hne. by destruct (e0.1.1).
    + by rewrite last_snoc.
    + intros x [Hx|Hx%list_elem_of_singleton]%elem_of_app; [specialize (Hsq x Hx); lia|subst; lia].
Qed.

Lemma update_all_bounds m es :
  f_smallest m = [] -> Forall (fun e => e.1.1 <> []) es ->
  StronglySorted (fun a b => Compare icmp a.1.1 b.1.1 < 0) es ->
  forall e, e ∈ es -> in_bounds icmp (update_all m es) e.1.1 e.1.1 e.2.
Proof.
  intros Hm Hne Hs e He. destruct (update_all_ok m es Hm Hne) as (_ & Hsm & Hlg & Hsq).
  apply list_elem_of_lookup in He as [i Hi]. pose proof (lookup_lt_Some _ _ _ Hi) as Hlt.
  assert (Hle : forall a b j k, (j <= k)%nat -> es !! j = Some a -> es !! k = Some b ->
    Compare icmp a.1.1 b.1.1 <= 0).
  { intros a b j k Hjk Ha Hb. destruct (decide (j = k)) as [->|].
    - assert (a = b) as -> by congruence. by rewrite (cmp_refl icmp).
    - apply Z.lt_le_incl. assert (Hlt' : (j < k)%nat) by lia.
      exact (StronglySorted_lookup_lt _ _ _ _ _ _ Hs Hlt' Ha Hb). }
  constructor.
  - rewrite Hsm. destruct es as [|e0 es]; [done|]. by apply (Hle e0 e 0%nat i); [lia|..].
  - rewrite Hlg, last_lookup.
    destruct (es !! pred (length es)) as [el|] eqn:El; [|apply lookup_ge_None in El; lia].
    apply (Hle e el i (pred (length es))); [lia|done|done].
  - apply Hsq. by eapply list_elem_of_lookup_2.
Qed.

(** The loop over the tombstones widens the boundaries. *)
Lemma range_widens m s e sq lo hi q :
  f_smallest m <> [] -> f_largest m <> [] -> in_bounds icmp m lo hi q ->
  in_bounds icmp (UpdateBoundariesForRange icmp m s e sq) lo hi q.
Proof.
  intros Hs Hl []. unfold UpdateBoundariesForRange. constructor; simpl; [| |lia].
  - rewrite orb_lazy_alt. destruct (_ =? 0) eqn:E; [apply Z.eqb_eq, zlen_zero in E; done|].
    destruct (Z.ltb_spec (Compare icmp s (f_smallest m)) 0); [|done].
    eapply (cmp_trans (c := icmp)); [|exact ib_lo0]. lia.
  - rewrite orb_lazy_alt. destruct (_ =? 0) eqn:E; [apply Z.eqb_eq, zlen_zero in E; done|].
    destruct (Z.ltb_spec (Compare icmp (f_largest m) e) 0); [|done].
    eapply (cmp_trans (c := icmp)); [exact ib_hi0|]. lia.
Qed.

Lemma range_bounds m s e sq :
  in_bounds icmp (UpdateBoundariesForRange icmp m s e sq) s e sq.
Proof.
  constructor; simpl; [| |lia].
  - destruct (len (f_smallest m) =? 0); simpl; [by rewrite (cmp_refl icmp)|].
    destruct (Z.ltb_spec (Compare icmp s (f_smallest m)) 0); [by rewrite (cmp_refl icmp)|].
    by apply (cmp_le_ge icmp).
  - destruct (len (f_largest m) =? 0); simpl; [by rewrite (cmp_refl icmp)|].
    destruct (Z.ltb_spec (Compare icmp (f_largest m) e) 0); [by rewrite (cmp_refl icmp)|].
    by apply (cmp_le_ge icmp).
Qed.

Lemma add_tombstones_ok m ts :
  f_smallest m <> [] -> f_largest m <> [] -> Forall (fun t => t.1.1 <> [] /\ t.1.2 <> []) ts ->
  same_but_bounds m (add_tombstones icmp m ts) /\
  (forall lo hi q, in_bounds icmp m lo hi q -> in_bounds icmp (add_tombstones icmp m ts) lo hi q) /\
  (forall t, t ∈ ts -> in_bounds icmp (add_tombstones icmp m ts) t.1.1 t.1.2 t.2).
Proof.
  unfold add_tombstones. intros Hs Hl Hts. revert m Hs Hl.
  induction Hts as [|t ts [Ht1 Ht2] _ IH]; intros m Hs Hl; simpl.
  - split_and!; [apply same_but_bounds_refl|done|]. intros t Ht. inversion Ht.
  - set (m1 := UpdateBoundariesForRange icmp m t.1.1 t.1.2 t.2).
    destruct (IH m1) as (Hsame & Hold & Hnew); [by unfold m1; simpl; destruct (_ || _)..|].
    split_and!.
    + destruct Hsame as (H1 & H2 & H3). split_and!; [|done|done]. exact H1.
    + intros lo hi q Hq. apply Hold. by apply range_widens.
    + intros t' [->|Ht']%elem_of_cons; [|by apply Hnew]. apply Hold, range_bounds.
Qed.
End Bounds.

(** ** A flush *)

Section Flush.
Context (ucmp : Comparator) {Laws : ComparatorLaws ucmp} {P : Pmem} {PL : PmemLaws P}.
Implicit Types (cf : NvmCfModule) (db : list (Z * records)) (src : flush_source).

Abbreviation icmp := (InternalKeyComparator ucmp).

(** A source that has something to flush, into a module with room for it. *)
Record flushable cf (n : Z) src (buf : bytes) : Prop := {
  fl_valid : fs_valid src = true;
  fl_status : fs_status src = Status_OK;
  fl_some : fs_entries src <> [];
  fl_keys : Forall (fun e => e.1.1 <> []) (fs_entries src);
  fl_sorted : StronglySorted (fun a b => Compare icmp a.1.1 b.1.1 < 0) (fs_entries src);
  fl_tombstones : Forall (fun t => t.1.1 <> [] /\ t.1.2 <> []) (fs_tombstones src);
  fl_kv : Forall kv_ok (fs_records src);
  fl_count : len (fs_entries src) < 2 ^ 31;
  fl_fits : len (table_data (fs_records src)) + meta_size (fs_records src) <= each_size_ (ptr_sst_ cf);
  fl_buf : len buf = each_size_ (ptr_sst_ cf);
  fl_each : each_size_ (ptr_sst_ cf) < 2 ^ 62;
  fl_free : Z.of_nat (size (slots (sst_meta_ cf))) < num_ (ptr_sst_ cf);
  fl_fresh : fresh_number cf n;
}.

Lemma fs_records_sorted src :
  StronglySorted (fun a b => Compare icmp a.1.1 b.1.1 < 0) (fs_entries src) -> records_sorted icmp (fs_records src).
Proof.
  unfold fs_records, records_sorted. generalize (fs_entries src). intros es H.
  induction H as [|e es _ IH Hf]; simpl; constructor; [done|]. by apply Forall_fmap.
Qed.

(** The metadata the flush starts from. *)
Definition fresh_meta (n : Z) : FileMetaData :=
  file_set_bounds FileMetaData_default (FileDescriptor_make n 0 0 kMaxSequenceNumber 0) [] [].

Lemma fresh_meta_number n : 0 <= n < 2 ^ 62 -> GetNumber (f_fd (fresh_meta n)) = n.
Proof.
  intros Hn. unfold GetNumber, fresh_meta, FileDescriptor_make, PackFileNumberAndPathId. simpl.
  rewrite Z.lor_0_r, kFileNumberMask_ones, Z.land_ones by lia. by apply Z.mod_small.
Qed.

Lemma flush_bounds n src :
  fs_entries src <> [] -> Forall (fun e => e.1.1 <> []) (fs_entries src) ->
  StronglySorted (fun a b => Compare icmp a.1.1 b.1.1 < 0) (fs_entries src) ->
  Forall (fun t => t.1.1 <> [] /\ t.1.2 <> []) (fs_tombstones src) ->
  let m := add_tombstones icmp (update_all (fresh_meta n) (fs_entries src)) (fs_tombstones src) in
  same_but_bounds (fresh_meta n) m /\
  (forall e, e ∈ fs_entries src -> in_bounds icmp m e.1.1 e.1.1 e.2) /\
  (forall t, t ∈ fs_tombstones src -> in_bounds icmp m t.1.1 t.1.2 t.2).
Proof.
  intros Hne Hk Hs Ht m.
  destruct (update_all_ok (fresh_meta n) (fs_entries src) eq_refl Hk) as ((Hs1 & Hs2 & Hs3) & Hsm & Hlg & _).
  destruct (add_tombstones_ok icmp (update_all (fresh_meta n) (fs_entries src)) (fs_tombstones src))
    as ((Ht1 & Ht2 & Ht3) & Hold & Hnew); [| |done|].
  - rewrite Hsm. destruct (fs_entries src); [done|]. by apply Forall_inv in Hk.
  - rewrite Hlg. destruct (last (fs_entries src)) as [e|] eqn:El; [|by apply last_None in El].
    simpl. rewrite Forall_forall in Hk. apply Hk. by apply last_Some_elem_of in El.
  - split_and!; [|intros e He; apply Hold; by apply (update_all_bounds icmp)|done].
    split_and!; [|unfold m; congruence..]. unfold m. rewrite Ht1. by rewrite Hs1.
Qed.

Lemma BuildInsertNvm_ok cf db n src buf :
  nvm_ok ucmp cf db -> 0 <= n < 2 ^ 62 -> flushable cf n src buf ->
  exists m cf' fe, BuildInsertNvm icmp cf (fresh_meta n) buf src = Some (Status_OK, m, cf') /\
    nvm_ok ucmp cf' ((n, fs_records src) :: db) /\
    head (entries (sst_meta_ cf')) = Some fe /\ describes m fe (fs_records src) /\
    m = file_set_nvm (add_tombstones icmp (update_all (fresh_meta n) (fs_entries src)) (fs_tombstones src))
          (len (table_data (fs_records src))) fe (meta_size (fs_records src)).
Proof.
  intros Hok Hn []. unfold BuildInsertNvm. rewrite fl_valid0, fl_status0. simpl.
  change (file_set_size (fresh_meta n) 0) with (fresh_meta n).
  change (GetNumber _) with (GetNumber (f_fd (fresh_meta n))). rewrite fresh_meta_number by done.
  destruct (AddL0TableRoom_ok ucmp cf db n Hok fl_fresh0) as (r & cf1 & -> & Hr). simpl.
  destruct r as [[raw p]|]; [|lia].
  destruct Hr as (index & Hidx & -> & Hok1 & Hp & Hes & Heach).
  pose proof (zlen_nonneg (fs_entries src)). rewrite add_entries_eq by lia. rewrite Heach.
  change ((fun e => (e.1.1, e.1.2)) <$> fs_entries src) with (fs_records src).
  destruct (bb_AddAll_ok _ [] (fs_records src) (bb_make_ok _ _ fl_buf0 fl_each0) fl_kv0) as (b & Hadd & Hmax & Hb).
  rewrite Hadd. simpl in *. pose proof (meta_size_bound (fs_records src)).
  rewrite accepted_all in Hb by (simpl; lia). simpl in Hb.
  rewrite Z.add_0_l. destruct (Z.eqb_spec (len (fs_entries src)) 0) as [Hz%zlen_zero|_]; [done|].
  rewrite <- Heach in *.
  destruct (FinishTable_ok ucmp cf1 _ b (fs_records src) p 0 n index Hok1) as
    (b' & cf2 & Hfin & Hoff & Hms & Hok2 & fe & Hfe & Hfe0 & Hnum); try done.
  - by rewrite Hes.
  - intros Hnil. by apply fmap_nil_inv in Hnil.
  - unfold fs_records, zlen in *. by rewrite length_fmap.
  - by apply fs_records_sorted.
  - rewrite Hfin. simpl. rewrite Hfe. simpl. rewrite Hoff, Hms. do 3 eexists.
    split_and!; [done|exact Hok2|by rewrite head_lookup| |done].
    destruct (flush_bounds n src) as ((_ & Hpk & _) & _ & _); try done.
    constructor; [|done..]. rewrite Hnum. etransitivity; [|exact (fresh_meta_number n Hn)].
    unfold GetNumber. f_equal. exact Hpk.
Qed.

Lemma describes_visible n f fe recs db :
  describes f fe recs -> f_first_key_index f = 0 -> filenum fe = n ->
  visible ((n, recs) :: db) f = recs.
Proof.
  intros [] H0 Hn. unfold visible. rewrite H0. simpl. unfold db_find. simpl.
  by rewrite ds_number, Hn, lookup_insert_eq.
Qed.

Lemma db_find_other n recs db n' : n' <> n -> db_find ((n, recs) :: db) n' = db_find db n'.
Proof. intros Hne. unfold db_find. simpl. by rewrite lookup_insert_ne. Qed.

Lemma version_ok_new cf db n recs f L0 :
  nvm_ok ucmp cf db -> fresh_number cf n -> version_ok db L0 ->
  GetNumber (f_fd f) = n -> f_first_key_index f = 0 -> recs <> [] ->
  version_ok ((n, recs) :: db) (f :: L0).
Proof.
  intros Hok [Hfr _] [Hsub Hf] Hn H0 Hne. split.
  - unfold numbers in *. rewrite !fmap_cons. simpl. rewrite Hn. by apply sublist_skip.
  - constructor.
    + rewrite H0, Hn. unfold db_find. simpl. rewrite lookup_insert_eq. simpl.
      split; [done|]. destruct recs; [done|]. rewrite zlen_cons. pose proof (zlen_nonneg recs). lia.
    + rewrite Forall_forall in *. intros g Hg. rewrite db_find_other; [by apply Hf|].
      intros Heq. apply Hfr. rewrite <- (db_numbers ucmp cf db Hok), <- Heq.
      assert (Hin : GetNumber (f_fd g) ∈ numbers L0) by (apply list_elem_of_fmap; eauto).
      by eapply elem_of_sublist in Hsub.
Qed.

Lemma table_data_pos kvs : kvs <> [] -> 0 < len (table_data kvs).
Proof.
  destruct kvs as [|[k v] kvs]; [done|]. intros _. rewrite table_data_cons, zlen_app, key_value_len.
  pose proof (zlen_nonneg k). pose proof (zlen_nonneg v). pose proof (zlen_nonneg (table_data kvs)). lia.
Qed.

(** [AddFile] with the fields of a flushed file's metadata adds that metadata. *)
Lemma AddFile_flushed n m0 size fe ms e :
  0 <= n < 2 ^ 62 -> same_but_bounds (fresh_meta n) m0 ->
  let m := file_set_nvm m0 size fe ms in add_flushed_file m e = AddFileMeta 0 m e.
Proof.
  intros Hn (H0 & Hpk & _) m. unfold add_flushed_file, AddFile. f_equal. unfold GetFileSize.
  assert (u64 (packed_number_and_path_id (f_fd m))).
  { change (packed_number_and_path_id (f_fd m)) with (packed_number_and_path_id (f_fd m0)). rewrite Hpk.
    unfold fresh_meta, FileDescriptor_make, PackFileNumberAndPathId. simpl. rewrite Z.lor_0_r. zlia. }
  rewrite FileDescriptor_make_Get by done. unfold m. by rewrite H0.
Qed.

(** C8. A flush puts the memtables' records in level 0: it succeeds when the records
    fit a slot and a slot is free, the new table holds exactly the records the
    compaction iterator yields, the edit gains one level-0 file whose metadata
    describes the table, whose boundaries contain every record and every range
    tombstone, and any version with that file in front is again a version of the
    module. *)
Theorem flush_adds_table cf db mems_ cf_id n edit_ meta_ src buf :
  nvm_ok ucmp cf db -> 0 <= n < 2 ^ 62 -> flushable cf n src buf ->
  PickMemTable mems_ cf_id n = Some (edit_, meta_) ->
  exists m cf' fe,
    WriteLevel0Table icmp cf edit_ meta_ buf src Status_OK = Some (Status_OK, AddFileMeta 0 m edit_, m, cf') /\
    nvm_ok ucmp cf' ((n, fs_records src) :: db) /\
    head (entries (sst_meta_ cf')) = Some fe /\ describes m fe (fs_records src) /\
    (forall e, e ∈ fs_entries src -> in_bounds icmp m e.1.1 e.1.1 e.2) /\
    (forall t, t ∈ fs_tombstones src -> in_bounds icmp m t.1.1 t.1.2 t.2) /\
    (forall L0, version_ok db L0 ->
       version_ok ((n, fs_records src) :: db) (m :: L0) /\
       visible ((n, fs_records src) :: db) m = fs_records src).
Proof.
  intros Hok Hn Hfl Hpick. unfold PickMemTable in Hpick. inv_bind Hpick. inv_bind Hpick.
  assert (meta_ = fresh_meta n) as -> by (by injection Hpick). clear Hpick.
  destruct (BuildInsertNvm_ok cf db n src buf Hok Hn Hfl) as (m & cf' & fe & Hb & Hok' & Hhead & Hd & Hm).
  exists m, cf', fe. unfold WriteLevel0Table. rewrite Hb. simpl. pose proof Hfl as [].
  destruct (flush_bounds n src) as (Hsame & Hes & Hts); try done.
  assert (Hnb : forall lo hi q, in_bounds icmp
    (add_tombstones icmp (update_all (fresh_meta n) (fs_entries src)) (fs_tombstones src)) lo hi q ->
    in_bounds icmp m lo hi q) by (intros lo hi q []; by constructor; rewrite Hm).
  assert (Hnn : fs_records src <> []) by (intros Hnil; by apply fmap_nil_inv in Hnil).
  assert (Hfn : filenum fe = n).
  { pose proof (db_numbers ucmp _ _ Hok') as Hns. destruct (entries (sst_meta_ cf')) as [|fe' es]; [done|].
    injection Hhead as ->. simpl in Hns. by injection Hns. }
  split_and!; [|done|done|done|by auto|by auto|].
  - assert ((0 <? GetFileSize (f_fd m)) = true) as -> by (apply Z.ltb_lt; rewrite Hm; by apply table_data_pos).
    rewrite Hm, (AddFile_flushed n); done.
  - intros L0 HL0. split; [|eapply describes_visible; [done|by rewrite Hm|done]].
    eapply version_ok_new; try done; [|by rewrite Hm]. by rewrite (ds_number _ _ _ Hd).
Qed.
End Flush.

(** ** A small flush *)

Definition sample_source : flush_source :=
  let key u s t := AppendInternalKey [] (mkParsed [u] s t) in
  mkSource true true
    [(key Byte.x61 7 kTypeValue, [Byte.x31], 7); (key Byte.x62 6 kTypeDeletion, [], 6)] [] Status_OK.

Lemma sample_flushable cf buf :
  entries (sst_meta_ cf) = [] -> len buf = each_size_ (ptr_sst_ cf) ->
  256 <= each_size_ (ptr_sst_ cf) < 2 ^ 62 -> 0 < num_ (ptr_sst_ cf) ->
  flushable BytewiseComparator cf 1 sample_source buf.
Proof.
  intros He Hb [Hs1 Hs2] Hn.
  constructor; [done|done|done| | |constructor| |done| |done|done| |].
  - repeat constructor; by vm_compute.
  - constructor; [constructor; constructor|constructor; [by vm_compute|constructor]].
  - repeat constructor; by vm_compute.
  - assert (len (table_data (fs_records sample_source)) + meta_size (fs_records sample_source) <= 256)
      by (apply Z.leb_le; vm_compute; done). lia.
  - unfold slots. rewrite He. done.
  - split; rewrite He; simpl; [set_solver|]. intros fe Hfe. inversion Hfe.
Qed.

Lemma sample_module :
  exists cf, nvm_ok BytewiseComparator cf [] /\ entries (sst_meta_ cf) = [] /\
    each_size_ (ptr_sst_ cf) = 256 /\ num_ (ptr_sst_ cf) = 2.
Proof.
  destruct (@PersistentSstable_make ZeroPmem [] 256 2) as [p|] eqn:E; [|by vm_compute in E].
  destruct (pool_make_ok (P := ZeroPmem) [] 256 2 p) as (Hok & Hn & He); [lia..|done|].
  exists (mkNvmCf SstableMetadata_make p false). split_and!; [|done|done|done].
  constructor; simpl; [apply tables_ok_make|done|constructor|constructor|].
  intros fe old Hfe. inversion Hfe.
Qed.

Lemma flush_adds_table_witness :
  exists cf m cf' edit, nvm_ok BytewiseComparator cf [] /\
    @WriteLevel0Table ZeroPmem (InternalKeyComparator BytewiseComparator) cf edit (fresh_meta 1)
      (replicate 256 Byte.x00) sample_source Status_OK = Some (Status_OK, AddFileMeta 0 m edit, m, cf') /\
    nvm_ok BytewiseComparator cf' [(1, fs_records sample_source)].
Proof.
  destruct sample_module as (cf & Hok & He & Hs & Hn).
  destruct (PickMemTable [(VersionEdit_Clear, 3)] 0 1) as [[edit meta]|] eqn:Hp; [|done].
  destruct (flush_adds_table BytewiseComparator (P := ZeroPmem) cf [] [(VersionEdit_Clear, 3)] 0 1 edit meta
    sample_source (replicate 256 Byte.x00) Hok) as (m & cf' & fe & Hw & Hok' & _); [lia| |done|].
  - apply sample_flushable; [done|by rewrite Hs|rewrite Hs; lia|lia].
  - assert (meta = fresh_meta 1) as -> by (by injection Hp).
    exists cf, m, cf', edit. split_and!; [exact Hok|exact Hw|exact Hok'].
Defined.
