(* ===== verification/NvmModule.v ===== *)
(** * The life of an NVM module

    Sequences of flushes and deletions on a new module, as a refinement of a list of
    tables, and the correctness of lookups and of recovery in every state reached. *)

From S2P Require Import Prelude Coding Comparator DbFormat VersionEdit NvmAlloc SstableMeta L0Table NvmCf NvmCfState FlushJob.

Inductive nvm_op :=
  | OpFlush (n : Z) (src : flush_source) (buf : bytes)
  | OpDeleteL0 (n : Z).

Section Life.
Context (ucmp : Comparator) {Laws : ComparatorLaws ucmp} {P : Pmem} {PL : PmemLaws P}.
Implicit Types (cf : NvmCfModule) (db : list (Z * records)).

Abbreviation icmp := (InternalKeyComparator ucmp).

Definition nvm_step cf (op : nvm_op) : option NvmCfModule :=
  match op with
  | OpFlush n src buf =>
      '(s, _, cf) ← BuildInsertNvm icmp cf (fresh_meta n) buf src;
      if Status_ok s then Some cf else None
  | OpDeleteL0 n => DeleteL0file cf n
  end.

Fixpoint nvm_run cf (ops : list nvm_op) : option NvmCfModule :=
  match ops with [] => Some cf | op :: ops => cf ← nvm_step cf op; nvm_run cf ops end.

(** The specification: the tables of level 0, newest first. *)
Definition table_step db (op : nvm_op) : list (Z * records) :=
  match op with
  | OpFlush n src _ => (n, fs_records src) :: db
  | OpDeleteL0 n => db_delete n db
  end.

(** What a flush needs: a slot that is free, a number that is not in use, records that fit
    the slot and whose positions can be summed as [int]. *)
Definition legal_nvm_op cf (op : nvm_op) : Prop :=
  match op with
  | OpFlush n src buf => 0 <= n < 2 ^ 62 /\ flushable ucmp cf n src buf /\ len (fs_entries src) < 2 ^ 30
  | OpDeleteL0 _ => True
  end.

Fixpoint legal_nvm_ops cf (ops : list nvm_op) : Prop :=
  match ops with
  | [] => True
  | op :: ops => legal_nvm_op cf op /\ forall cf', nvm_step cf op = Some cf' -> legal_nvm_ops cf' ops
  end.

Lemma nvm_step_ok cf db op :
  nvm_ok ucmp cf db -> legal_nvm_op cf op ->
  exists cf', nvm_step cf op = Some cf' /\ nvm_ok ucmp cf' (table_step db op).
Proof.
  intros Hok Hop. destruct op as [n src buf|n]; simpl.
  - destruct Hop as (Hn & Hfl & _).
    destruct (BuildInsertNvm_ok ucmp cf db n src buf Hok Hn Hfl) as (m & cf' & fe & -> & Hok' & _). eauto.
  - by apply DeleteL0file_ok.
Qed.

Definition small_db db : Prop := Forall (fun t => len t.2 < 2 ^ 30) db.

Lemma small_db_step cf db op : legal_nvm_op cf op -> small_db db -> small_db (table_step db op).
Proof.
  unfold small_db. destruct op as [n src buf|n]; simpl; [intros (_ & _ & Hc) Hs|intros _ Hs; by apply Forall_filter].
  constructor; [|done]. simpl. unfold fs_records, zlen in *. by rewrite length_fmap.
Qed.

Lemma small_db_tables cf db : nvm_ok ucmp cf db -> small_db db -> small_tables cf.
Proof.
  intros [_ _ _ Hdb _] Hs. unfold small_tables. unfold small_db in Hs. induction Hdb as [|fe t es db [] _ IH]; [constructor|].
  apply Forall_cons in Hs as [Ht Hs]. constructor; [|by apply IH]. by rewrite (keys_length fe t ti_layout).
Qed.

Lemma nvm_run_ok cf db ops :
  nvm_ok ucmp cf db -> small_db db -> legal_nvm_ops cf ops ->
  exists cf', nvm_run cf ops = Some cf' /\ nvm_ok ucmp cf' (foldl table_step db ops) /\ small_tables cf'.
Proof.
  revert cf db. induction ops as [|op ops IH]; intros cf db Hok Hsm Hl; simpl; [eauto using small_db_tables|].
  destruct Hl as [Hop Hl]. destruct (nvm_step_ok cf db op Hok Hop) as (cf1 & Hs & Hok1).
  rewrite Hs. simpl. apply IH; [done|by eapply small_db_step|by apply Hl].
Qed.

Lemma nvm_empty p b : pool_ok p ∅ -> nvm_ok ucmp (mkNvmCf SstableMetadata_make p b) [].
Proof.
  intros Hp. constructor; simpl; [apply tables_ok_make|done| |constructor|].
  - constructor.
  - intros fe old Hfe. inversion Hfe.
Qed.

(** The options a pool can be made for. *)
Record options_ok (o : NvmCfOptions) : Prop := {
  oo_buffer : 0 < nvm_write_buffer_size o < 2 ^ 61;
  oo_stop : 0 <= Level0_column_compaction_stop_size o < 2 ^ 61;
  oo_num : (Level0_column_compaction_stop_size o / nvm_write_buffer_size o + 1) * 2 < 2 ^ 31;
  oo_total : (nvm_write_buffer_size o + 8388608) *
    ((Level0_column_compaction_stop_size o / nvm_write_buffer_size o + 1) * 2) < 2 ^ 64;
}.

Lemma NvmCfModule_make_ok o path ex cf :
  options_ok o -> NvmCfModule_make o path ex = Some cf ->
  nvm_ok ucmp cf [] /\ open_by_creat_ cf = negb ex /\
  each_size_ (ptr_sst_ cf) = nvm_write_buffer_size o + 8388608 /\
  num_ (ptr_sst_ cf) = (Level0_column_compaction_stop_size o / nvm_write_buffer_size o + 1) * 2 /\
  entries (sst_meta_ cf) = [].
Proof.
  intros [] H. unfold NvmCfModule_make in H. destruct (Z.eqb_spec (nvm_write_buffer_size o) 0); [lia|].
  assert (0 <= Level0_column_compaction_stop_size o / nvm_write_buffer_size o) by (apply Z.div_pos; lia).
  assert (level0_table_num o = (Level0_column_compaction_stop_size o / nvm_write_buffer_size o + 1) * 2) as Hnum.
  { unfold level0_table_num. rewrite (wrap_id _ (_ + 1)) by lia. rewrite wrap_id by lia. done. }
  rewrite Hnum in H. change (8 * 1024 * 1024) with 8388608 in H. rewrite wrap_id in H by lia.
  destruct (PersistentSstable_make _ _ _) as [p|] eqn:E; simpl in H; [|done]. injection H as <-.
  apply pool_make_ok in E as (Hp & Hn & He); [|lia..].
  simpl. split_and!; [by apply nvm_empty|done|done|done|done].
Qed.

(** C1. A point lookup in NVM level 0 finds exactly what a search of every visible
    record would: with binary search in each table and the hints carried from one table
    to the next, [Get] returns a value of the user key from the newest table of the
    version that shows the key, and reports the key absent only when no table of the
    version shows it.  No access leaves the key arrays or the pool, for tables of fewer
    than 2^30 keys, whose positions the search can add as [int]. *)
Theorem nvm_get_correct cf db L0files u s :
  nvm_ok ucmp cf db -> small_tables cf -> version_ok db L0files ->
  exists r, NvmCf_Get ucmp cf L0files (make_LookupKey u s) = Some r /\
    lookup_spec ucmp (visible db <$> L0files) u r.
Proof. apply (Get_finds ucmp). Qed.

(** C2. The module over its life: from a new module, a sequence of deletions and of flushes
    runs to the end, each flush finding a free slot, a file number that no table or hint
    uses, and a table of fewer than 2^30 sorted records that fits the slot.  The module then
    holds exactly the tables of the abstract list (flushed in front, deleted by number), and
    every lookup in every version of those tables is right. *)
Theorem nvm_life o path ex cf ops :
  options_ok o -> NvmCfModule_make o path ex = Some cf -> legal_nvm_ops cf ops ->
  let db := foldl table_step [] ops in
  exists cf', nvm_run cf ops = Some cf' /\ nvm_ok ucmp cf' db /\
    forall L0files u s, version_ok db L0files ->
      exists r, NvmCf_Get ucmp cf' L0files (make_LookupKey u s) = Some r /\
        lookup_spec ucmp (visible db <$> L0files) u r.
Proof.
  intros Ho Hm Hl db. destruct (NvmCfModule_make_ok o path ex cf Ho Hm) as (Hok & _).
  destruct (nvm_run_ok cf [] ops Hok ltac:(constructor) Hl) as (cf' & Hr & Hok' & Hsm). exists cf'. split_and!; [done|done|].
  intros L0 u sq Hv. by apply (Get_finds ucmp).
Qed.

(** C5. Recovery restores level 0: when a module reopens its pool with the contents
    the old module left, [RecoverFromStorageInfo] on the version read from the manifest
    rebuilds the tables of that version (keys, positions, hints and slots), and every
    lookup in the version answers as it did before. *)
Theorem nvm_recovery cf db L0files cf0 :
  nvm_ok ucmp cf db -> version_ok db L0files -> L0files <> [] ->
  Forall (fun f => exists fe, fe ∈ entries (sst_meta_ cf) /\ describes f fe (db_find db (filenum fe))) L0files ->
  holds cf0 (ptr_sst_ cf) [] -> open_by_creat_ cf0 = false ->
  exists cf', RecoverFromStorageInfo cf0 L0files = Some cf' /\
    nvm_ok ucmp cf' (saved_db db L0files) /\
    forall u s, NvmCf_Get ucmp cf' L0files (make_LookupKey u s) = NvmCf_Get ucmp cf L0files (make_LookupKey u s).
Proof. apply (recovery_ok ucmp). Qed.

(** C38. A deletion is not a deletion in NVM level 0: when the only record of a user
    key in the newest table is a tombstone, [Get] reports the key as found, with the
    tombstone's value, whatever the snapshot of the lookup (tables of fewer than 2^30
    keys). *)
Theorem nvm_get_returns_tombstone cf db L0files f u k v q s :
  nvm_ok ucmp cf db -> small_tables cf -> version_ok db (f :: L0files) ->
  k = AppendInternalKey [] (mkParsed u q kTypeDeletion) -> (k, v) ∈ visible db f ->
  (forall k' v', (k', v') ∈ visible db f -> Compare ucmp (ExtractUserKey k') u = 0 -> v' = v) ->
  NvmCf_Get ucmp cf (f :: L0files) (make_LookupKey u s) = Some (Some v).
Proof.
  intros Hok Hsm Hv -> Hk Honly.
  assert (Hsh : shows ucmp u (visible db f)).
  { do 2 eexists. split; [exact Hk|]. unfold AppendInternalKey, PutFixed64. simpl.
    by rewrite (ExtractUserKey_footer u), (cmp_refl ucmp). }
  destruct (Get_finds ucmp cf db (f :: L0files) u s Hok Hsm Hv) as (r & -> & Hr). f_equal.
  destruct r as [v'|]; simpl in Hr.
  - destruct Hr as (i & recs & k' & Hi & Hk' & Hc & Hno). destruct i as [|i].
    + simpl in Hi. injection Hi as <-. f_equal. by eapply Honly.
    + destruct (Hno 0%nat (visible db f)); [lia|done|done].
  - destruct (Hr (visible db f)); [left|done].
Qed.
End Life.

(** ** Small instances *)

(** A module after one flush, with the version that shows the table. *)
Lemma sample_flushed :
  let db := [(1, fs_records sample_source)] in
  exists cf m fe, nvm_ok BytewiseComparator cf db /\ small_tables cf /\ version_ok db [m] /\
    fe ∈ entries (sst_meta_ cf) /\ describes m fe (db_find db (filenum fe)) /\
    visible db m = fs_records sample_source.
Proof.
  intros db. destruct sample_module as (cf & Hok & He & Hs & Hn).
  assert (Hfl : flushable BytewiseComparator cf 1 sample_source (replicate 256 Byte.x00)).
  { apply sample_flushable; [done|by rewrite Hs|rewrite Hs; lia|lia]. }
  destruct (BuildInsertNvm_ok BytewiseComparator (P := ZeroPmem) cf [] 1 sample_source _ Hok ltac:(lia) Hfl)
    as (m & cf' & fe & _ & Hok' & Hhead & Hd & Hm).
  assert (Hfn : filenum fe = 1).
  { pose proof (db_numbers BytewiseComparator _ _ Hok') as Hns.
    destruct (entries (sst_meta_ cf')) as [|fe' es]; [done|].
    injection Hhead as ->. simpl in Hns. by injection Hns. }
  exists cf', m, fe. split_and!; [exact Hok'|by eapply small_db_tables; [exact Hok'|repeat constructor]| | |by rewrite Hfn|].
  - eapply (version_ok_new BytewiseComparator cf); [done|by destruct Hfl|split; constructor| | |done].
    + by rewrite (ds_number _ _ _ Hd).
    + by rewrite Hm.
  - destruct (entries (sst_meta_ cf')); [done|]. injection Hhead as ->. left.
  - eapply describes_visible; [done|by rewrite Hm|done].
Qed.

Lemma nvm_get_correct_witness :
  exists cf m r, NvmCf_Get BytewiseComparator cf [m] (make_LookupKey [Byte.x61] 9) = Some r /\
    lookup_spec BytewiseComparator [fs_records sample_source] [Byte.x61] r.
Proof.
  destruct sample_flushed as (cf & m & fe & Hok & Hsm & Hv & _ & _ & Hvis).
  destruct (nvm_get_correct BytewiseComparator cf _ [m] [Byte.x61] 9 Hok Hsm Hv) as (r & Hg & Hr).
  exists cf, m, r. split; [exact Hg|]. simpl in Hr. by rewrite Hvis in Hr.
Defined.

Lemma nvm_recovery_witness :
  exists cf0 cf' m, open_by_creat_ cf0 = false /\ RecoverFromStorageInfo cf0 [m] = Some cf' /\
    nvm_ok BytewiseComparator cf' (saved_db [(1, fs_records sample_source)] [m]).
Proof.
  destruct sample_flushed as (cf & m & fe & Hok & Hsm & Hv & Hin & Hd & _).
  set (cf0 := mkNvmCf SstableMetadata_make (PersistentSstable_Reset (ptr_sst_ cf)) false).
  destruct (nvm_recovery BytewiseComparator cf _ [m] cf0 Hok Hv) as (cf' & Hr & Hok' & _).
  - done.
  - constructor; [by exists fe|constructor].
  - constructor; [apply tables_ok_make|done| |constructor|done].
    eapply pool_reset. by destruct Hok.
  - done.
  - exists cf0, cf', m. split_and!; [done|exact Hr|exact Hok'].
Defined.

Lemma nvm_get_returns_tombstone_witness :
  exists cf m, NvmCf_Get BytewiseComparator cf [m] (make_LookupKey [Byte.x62] 9) = Some (Some []).
Proof.
  destruct sample_flushed as (cf & m & fe & Hok & Hsm & Hv & _ & _ & Hvis). exists cf, m.
  apply (nvm_get_returns_tombstone BytewiseComparator cf _ [] m [Byte.x62] _ [] 6 9 Hok Hsm Hv eq_refl).
  - rewrite Hvis. right. left.
  - intros k' v' Hk Hc. rewrite Hvis in Hk. apply elem_of_cons in Hk as [[= -> ->]|Hk]; [done|].
    apply list_elem_of_singleton in Hk. by injection Hk as -> ->.
Defined.

Definition sample_options : NvmCfOptions := mkNvmOpt true [] 0 0 1000 0 0 1000 2 20 0.

Lemma nvm_life_witness :
  exists cf cf' buf, @NvmCfModule_make ZeroPmem sample_options [] false = Some cf /\
    @nvm_run BytewiseComparator ZeroPmem cf [OpFlush 1 sample_source buf; OpDeleteL0 1] = Some cf' /\
    nvm_ok BytewiseComparator cf' [].
Proof.
  assert (Ho : options_ok sample_options) by (constructor; vm_compute; done).
  destruct (@NvmCfModule_make ZeroPmem sample_options [] false) as [cf|] eqn:Hm.
  2: { exfalso. revert Hm. unfold NvmCfModule_make, PersistentSstable_make, pmem_map_file, ZeroPmem.
       set (total := wrap64 (_ * _)). assert ((0 <=? total) = true) as -> by (by vm_compute).
       clearbody total. done. }
  destruct (NvmCfModule_make_ok BytewiseComparator _ _ _ _ Ho Hm) as (_ & _ & Hs & Hn & He).
  set (buf := replicate (Z.to_nat (each_size_ (ptr_sst_ cf))) Byte.x00).
  destruct (nvm_life BytewiseComparator (P := ZeroPmem) sample_options [] false cf
    [OpFlush 1 sample_source buf; OpDeleteL0 1] Ho Hm) as (cf' & Hr & Hok & _).
  - split; [|done]. split; [lia|]. split; [|done]. simpl in Hs. apply sample_flushable; [done| |lia|by rewrite Hn].
    unfold buf, zlen. rewrite length_replicate. lia.
  - exists cf, cf', buf. split_and!; [done|exact Hr|exact Hok].
Defined.
