(* ===== verification/NvmScan.v ===== *)
(** * Scanning level 0 in NVM (NvmCfModule::AddIterators with MergeIteratorBuilder)

    The iterators of a version's level-0 tables are handed to the builder of the merging
    iterator; the iterator it finishes with reads the level. *)

From S2P Require Import Prelude Coding Comparator DbFormat VersionEdit NvmAlloc SstableMeta L0Table Iterator Heap MergingIter.
From S2P Require Import NvmCf NvmIter NvmCfState FlushJob NvmModule.

(** ** The iterator a builder finishes with *)

(** The first iterator itself, or the merging iterator. *)
Definition EitherIter {A B} (a : InternalIterator A) (b : InternalIterator B) : InternalIterator (A + B) :=
  let on {C} (f : A -> C) (g : B -> C) (s : A + B) := match s with inl x => f x | inr y => g y end in
  let move (f : A -> option A) (g : B -> option B) := on (fun x => inl <$> f x) (fun y => inr <$> g y) in
  mkIter _ (on (it_Valid a) (it_Valid b)) (move (it_SeekToFirst a) (it_SeekToFirst b))
    (move (it_SeekToLast a) (it_SeekToLast b)) (fun t => move (it_Seek a t) (it_Seek b t))
    (fun t => move (it_SeekForPrev a t) (it_SeekForPrev b t)) (move (it_Next a) (it_Next b))
    (move (it_Prev a) (it_Prev b)) (on (it_key a) (it_key b)) (on (it_value a) (it_value b))
    (on (it_status a) (it_status b)).

Definition either_over {A B} (oa : A -> list (bytes * bytes) -> Z -> Prop) (ob : B -> list (bytes * bytes) -> Z -> Prop)
    (s : A + B) : list (bytes * bytes) -> Z -> Prop :=
  match s with inl x => oa x | inr y => ob y end.

Section Either.
Context {A B : Type} (icmp : Comparator) (a : InternalIterator A) (b : InternalIterator B).
Context oa ob `{!ScanLaws icmp a oa, !ScanLaws icmp b ob}.

#[export] Instance either_scan_laws : ScanLaws icmp (EitherIter a b) (either_over oa ob).
Proof.
  split; intros [x|y] recs p; simpl.
  1,2: apply sc_sorted. 1,2: apply sc_range. 1,2: apply sc_status. 1,2: apply sc_valid. 1,2: apply sc_key.
  1,2: intros (s & -> & Hs)%sc_first; by eexists.
  all: intros Ho Hp; destruct (sc_next _ _ _ Ho Hp) as (s & -> & Hs); by eexists.
Qed.

#[export] Instance either_seek_law `{!SeekLaw icmp a oa, !SeekLaw icmp b ob} : SeekLaw icmp (EitherIter a b) (either_over oa ob).
Proof.
  split. intros [x|y] recs p t Ho; simpl in *; destruct (sc_seek _ _ _ t Ho) as (s & q & -> & Hs & Hq); by eexists _, q.
Qed.
End Either.

(** [AddIterators] with the builder it is given. *)
Fixpoint add_iterators {T} (it : InternalIterator T) (its : list T) (b : MergeIteratorBuilder) : option MergeIteratorBuilder :=
  match its with [] => Some b | i :: its => b ← MB_AddIterator it i b; add_iterators it its b end.

Definition AddIteratorsTo (ucmp : Comparator) (cf : NvmCfModule) (L0files : list FileMetaData)
    (b : MergeIteratorBuilder) : option MergeIteratorBuilder :=
  its ← AddIterators cf L0files;
  add_iterators (ReadIterator (InternalKeyComparator ucmp) (raw_ (ptr_sst_ cf))) its b.

Section Builder.
Context {T : Type} (it : InternalIterator T) (icmp : Comparator) {Laws : ComparatorLaws icmp}.
Context (over : T -> list (bytes * bytes) -> Z -> Prop) `{!ScanLaws icmp it over}.

Lemma add_iterators_ok its recss cs rs b :
  unpositioned over its recss -> builder_holds b cs -> unpositioned over cs rs ->
  exists b', add_iterators it its b = Some b' /\ builder_holds b' (cs ++ its).
Proof.
  intros H. revert cs rs b. induction H as [|i recs its recss Hi _ IH]; intros cs rs b Hb Hu.
  - exists b. by rewrite app_nil_r.
  - simpl. destruct (MB_AddIterator_ok it icmp over b cs rs i recs Hb Hu Hi) as (b1 & -> & Hb1). simpl.
    destruct (IH (cs ++ [i]) (rs ++ [recs]) b1 Hb1) as (b' & -> & Hb'); [apply Forall2_app; [done|by constructor]|].
    exists b'. by rewrite <- app_assoc in Hb'.
Qed.

(** A finished builder reads the records of its iterators. *)
Lemma Finish_ok cs recss all b :
  unpositioned over cs recss -> cs <> [] -> builder_holds b cs -> recs_sorted icmp all -> all ≡ₚ mjoin recss -> len cs < kMaxSizet ->
  exists s, MB_Finish b = Some s /\ either_over over (merge_over it icmp over) s all (-1).
Proof.
  intros Hu Hne Hb Hs Hp Hl. unfold MB_Finish. destruct cs as [|c1 [|c2 cs]]; [done|..]; simpl in Hb.
  - destruct Hb as (-> & -> & _). exists (inl c1). split; [done|]. simpl. apply Forall2_cons_inv_l in Hu as (recs & rs & Hc & Hn & ->).
    apply Forall2_nil_inv_l in Hn as ->. simpl in Hp. rewrite app_nil_r in Hp. assert (all = recs) as ->; [|done].
    apply (StronglySorted_unique_strong (fun a b => Compare icmp a.1 b.1 < 0)); [|done|by eapply sc_sorted|done].
    intros x z _ _ H1 H2. apply (cmp_lt_gt icmp) in H2. lia.
  - destruct Hb as (-> & Hc & Hcur & Hst & Hd). exists (inr (merge_iter b)). split; [done|].
    exists recss, (replicate (length (c1 :: c2 :: cs)) (-1)). rewrite Hc. split_and!; [|by apply unpositioned_over|by left].
    constructor; simpl; try done. pose proof (Forall2_length _ _ _ Hu). unfold zlen in *. lia.
Qed.
End Builder.

(** ** A scan of level 0 *)

Section Scan.
Context (ucmp : Comparator) {Laws : ComparatorLaws ucmp}.
Implicit Types (cf : NvmCfModule) (db : list (Z * records)).

Abbreviation icmp := (InternalKeyComparator ucmp).

(** The iterator that the builder gives for the NVM tables [mem]. *)
Definition ScanIter (mem : bytes) : InternalIterator (NVMLevel0ReadIterator + MergingIterator NVMLevel0ReadIterator) :=
  EitherIter (ReadIterator icmp mem) (MergingIter (ReadIterator icmp mem) icmp).

(** C17. A scan of level 0 in NVM: the iterator built from a version's level-0 tables
    (one read iterator per table, merged when there are several) yields after
    SeekToFirst exactly the visible records of all tables in the order of the internal
    keys, and after Seek those at or past the target. *)
Theorem nvm_scan_correct cf db L0files all target :
  nvm_ok ucmp cf db -> version_ok db L0files -> small_tables cf -> L0files <> [] -> len L0files < kMaxSizet ->
  recs_sorted icmp all -> all ≡ₚ mjoin (visible db <$> L0files) ->
  let it := ScanIter (raw_ (ptr_sst_ cf)) in
  exists b0 b s s1 s2, MergeIteratorBuilder_make (ReadIterator icmp (raw_ (ptr_sst_ cf))) icmp false = Some b0 /\
    AddIteratorsTo ucmp cf L0files b0 = Some b /\ MB_Finish b = Some s /\
    it_SeekToFirst it s = Some s1 /\ collect it (length all) s1 = Some all /\
    it_Seek it target s1 = Some s2 /\
    collect it (length all) s2 = Some (filter (fun r => 0 <= Compare icmp r.1 target) all).
Proof.
  intros Hok Hv Hsm Hne Hl Hs Hp it. destruct (AddIterators_ok ucmp cf db L0files Hok Hv Hsm) as (its & Hits & Hall).
  assert (Hu : unpositioned (read_over icmp (raw_ (ptr_sst_ cf))) its (visible db <$> L0files)) by (by apply Forall2_fmap_r).
  assert (Hne' : its <> []) by (intros ->; apply Forall2_nil_inv_l in Hall; done).
  eexists. unfold AddIteratorsTo. rewrite Hits. cbn [mbind option_bind].
  destruct (add_iterators_ok (ReadIterator icmp (raw_ (ptr_sst_ cf))) icmp (read_over icmp (raw_ (ptr_sst_ cf))) its
    (visible db <$> L0files) [] [] (mkMB (mkMI [] None Status_OK kForward heap_empty_ None false) None false))
    as (b & Hadd & Hb); [done|done|constructor|].
  destruct (Finish_ok (ReadIterator icmp (raw_ (ptr_sst_ cf))) icmp _ its (visible db <$> L0files) all b Hu Hne' Hb Hs Hp)
    as (s & Hfin & Ho).
  { apply Forall2_length in Hall. unfold zlen in *. by rewrite Hall. }
  destruct (sc_first (it := it) _ _ _ Ho) as (s1 & Hs1 & Ho1).
  destruct (sc_seek (it := it) _ _ _ target Ho1) as (s2 & q & Hs2 & Ho2 & Hq).
  exists b, s, s1, s2. split_and!; [done|exact Hadd|done|exact Hs1| |exact Hs2|].
  - rewrite (collect_from it icmp _ (length all) s1 all 0 Ho1) by (unfold zlen; lia). done.
  - rewrite (collect_from it icmp _ (length all) s2 all q Ho2) by (destruct Hq; unfold zlen; lia).
    f_equal. by apply (drop_first_from icmp).
Qed.
End Scan.

Lemma nvm_scan_correct_witness :
  exists cf m b0 b s s1, MergeIteratorBuilder_make (ReadIterator (InternalKeyComparator BytewiseComparator) (raw_ (ptr_sst_ cf)))
      (InternalKeyComparator BytewiseComparator) false = Some b0 /\
    AddIteratorsTo BytewiseComparator cf [m] b0 = Some b /\ MB_Finish b = Some s /\
    it_SeekToFirst (ScanIter BytewiseComparator (raw_ (ptr_sst_ cf))) s = Some s1 /\
    collect (ScanIter BytewiseComparator (raw_ (ptr_sst_ cf))) 2 s1 = Some (fs_records sample_source).
Proof.
  destruct sample_flushed as (cf & m & fe & Hok & Hsm & Hv & Hin & Hd & Hvis).
  destruct (nvm_scan_correct BytewiseComparator cf _ [m] (fs_records sample_source) [] Hok Hv Hsm)
    as (b0 & b & s & s1 & s2 & Hb0 & Hadd & Hfin & H1 & Hc & _).
  - done.
  - by vm_compute.
  - constructor; [constructor; constructor|constructor; [by vm_compute|constructor]].
  - cbn [fmap list_fmap mjoin list_join]. rewrite Hvis, app_nil_r. reflexivity.
  - exists cf, m, b0, b, s, s1. split_and!; [exact Hb0|exact Hadd|exact Hfin|exact H1|exact Hc].
Defined.
