(* ===== verification/ColumnCompaction.v ===== *)
(** * A column compaction from its pick to its version edit

    [LevelCompactionBuilder::SetupColumnCompactionInputs] (db/compaction_picker.cc),
    [VersionSet::MakeColumnCompactionInputIterator] (db/version_set.cc) and the edit and
    the end of the compaction (db/compaction.cc).  The records the input iterator yields
    and the records the new version still shows are together those the old version
    showed. *)

From S2P Require Import Prelude Coding Comparator DbFormat VersionEdit VersionStorage NvmAlloc SstableMeta VersionBuilder.
From S2P Require Import KeysMerge L0Table Iterator Heap MergingIter NvmCf ColumnPick NvmIter NvmCfState FlushJob NvmModule NvmScan.

(** ** The list of tables under compaction *)

Definition DeleteColumnCompactionFile (cf : NvmCfModule) (filenumber : Z) : NvmCfModule :=
  cf_set (DeleteCompactionFile (sst_meta_ cf) filenumber) (ptr_sst_ cf) cf.

(** [column_compaction_delete_file_] are the tables the compaction used up. *)
Definition InstallColumnCompactionItem (column_compaction_delete_file_ : list Z) (cf : NvmCfModule) : NvmCfModule :=
  foldl DeleteColumnCompactionFile cf column_compaction_delete_file_.

(** ** Setting up the inputs *)

(** [CompactionInputFiles]: a level and its files. *)
Definition inputs := (Z * list FileMetaData)%type.

Section Inputs.
Context (ucmp : Comparator).

Abbreviation icmp := (InternalKeyComparator ucmp).

Definition range_of_two (s1 l1 s2 l2 : bytes) : bytes * bytes :=
  (if Compare icmp s1 s2 <? 0 then s1 else s2, if Compare icmp l1 l2 <? 0 then l2 else l1).

(** [GetRange] of one level; [None] for no files. *)
Definition GetRange (i : inputs) : option (bytes * bytes) :=
  match i.2 with
  | [] => None
  | f :: fs =>
      if i.1 =? 0 then
        Some (foldl (fun r g => (if Compare icmp (f_smallest g) r.1 <? 0 then f_smallest g else r.1,
                                 if 0 <? Compare icmp (f_largest g) r.2 then f_largest g else r.2))
                (f_smallest f, f_largest f) fs)
      else Some (f_smallest f, f_largest (List.last fs f))
  end.

Record column_inputs := mkCI {
  ci_item : ColumnCompactionItem;
  compaction_inputs_ : list inputs;
  grandparents_ : list FileMetaData;
}.

(** [SetupColumnCompactionInputs]; the inner [None] is the result [false]. *)
Definition SetupColumnCompactionInputs (o : NvmCfOptions) (cf : NvmCfModule) (vs : VersionStorageInfo) (base_level : Z)
  : option (NvmCfModule * option column_inputs) :=
  '(cf, ccitem) ← PickColumnCompaction ucmp o cf vs;
  match ccitem with
  | None => Some (cf, None)
  | Some c =>
      if existsb f_being_compacted (L1compactionfiles c) then Some (cf, None)
      else
        let output_level_inputs_ : inputs := (base_level, L1compactionfiles c) in
        let compaction_inputs := (0, L0compactionfiles c) ::
              (if bool_decide (L1compactionfiles c = []) then [] else [output_level_inputs_]) in
        '(start, limit) ← (if bool_decide (L1compactionfiles c = []) then Some (L0smallest c, L0largest c)
                           else '(start2, limit2) ← GetRange output_level_inputs_;
                                Some (range_of_two (L0smallest c) (L0largest c) start2 limit2));
        overlap ← GetOverlappingInputs ucmp vs (base_level + 1) (Some start) (Some limit) (-1) true;
        Some (cf, Some (mkCI c compaction_inputs (match overlap with Some (files, _, _) => files | None => [] end)))
  end.

(** ** The input iterator *)

(** The iterators of the item's tables. *)
Fixpoint item_iterators (cf : NvmCfModule) (files : list FileEntry) (metas : list FileMetaData) (nums : list Z)
  : option (list ColumnCompactionWithBufferIterator) :=
  match files with
  | [] => Some []
  | file :: files =>
      match metas, nums with
      | m :: metas, n :: nums =>
          addr ← GetIndexPtr (ptr_sst_ cf) (sstable_index file);
          it ← ColumnCompactionWithBufferIterator_make (raw_ (ptr_sst_ cf)) addr file (f_first_key_index m) n;
          its ← item_iterators cf files metas nums;
          Some (it :: its)
      | _, _ => None
      end
  end.

(** The children of [MakeColumnCompactionInputIterator]: the tables of level 0, then the
    iterator over the files of the output level, when there are any. *)
Definition column_input_children {T} (cf : NvmCfModule) (c : ColumnCompactionItem) (level1 : option T)
  : option (list (ColumnCompactionWithBufferIterator + T)) :=
  its ← item_iterators cf (cc_files c) (L0compactionfiles c) (cc_keys_num c);
  Some ((inl <$> its) ++ match level1 with Some t => [inr t] | None => [] end).

Definition MakeColumnCompactionInputIterator {T} (level1_it : InternalIterator T) (cf : NvmCfModule)
    (c : ColumnCompactionItem) (level1 : option T) :=
  cs ← column_input_children cf c level1;
  NewMergingIterator (EitherIter BufferIterator level1_it) icmp cs false.
End Inputs.

(** ** The version edit *)

(** One table of the item: it is deleted, and added again unless it is used up. *)
Definition delete_item_file (s : VersionEdit * list Z) (x : FileEntry * FileMetaData * Z * Z)
  : option (VersionEdit * list Z) :=
  let '(e, used) := s in
  let '(file, m, num, size) := x in
  if wrap64 (f_first_key_index m + num) =? keys_num file
  then Some (DeleteFile 0 (filenum file) e, used ++ [filenum file])
  else
    let e := DeleteFile 0 (filenum file) e in
    let file_size := wrap64 (GetFileSize (f_fd m) - size) in
    let first_key_index := wrap64 (f_first_key_index m + num) in
    k ← keys_meta file !z first_key_index;
    Some (AddFile 0 (GetNumber (f_fd m)) (GetPathId (f_fd m)) file_size (km_key k) (f_largest m)
            (smallest_seqno (f_fd m)) (largest_seqno (f_fd m)) (f_marked_for_compaction m) (f_is_nvm_level0 m)
            first_key_index (f_nvm_sstable_index m) (f_keys_num m) (f_key_point_filenum m) (f_raw_file_size m)
            (f_nvm_meta_size m) e, used).

(** The item's vectors read at the same index; [at] fails past the end of one. *)
Fixpoint item_rows (files : list FileEntry) (metas : list FileMetaData) (nums sizes : list Z)
  : option (list (FileEntry * FileMetaData * Z * Z)) :=
  match files, metas, nums, sizes with
  | [], _, _, _ => Some []
  | file :: files, m :: metas, n :: nums, size :: sizes =>
      rows ← item_rows files metas nums sizes; Some ((file, m, n, size) :: rows)
  | _, _, _, _ => None
  end.

Definition delete_inputs (skip_level0 : bool) (ins : list inputs) (e : VersionEdit) : VersionEdit :=
  foldl (fun e i => if skip_level0 && (i.1 =? 0) then e
                    else foldl (fun e f => DeleteFile i.1 (GetNumber (f_fd f)) e) e i.2) e ins.

Definition AddInputDeletions (ins : list inputs) (ccitem : option ColumnCompactionItem) (out_edit : VersionEdit)
  : option (VersionEdit * list Z) :=
  let e := delete_inputs (bool_decide (is_Some ccitem)) ins out_edit in
  match ccitem with
  | None => Some (e, [])
  | Some c =>
      rows ← item_rows (cc_files c) (L0compactionfiles c) (cc_keys_num c) (cc_keys_size c);
      fold_opt delete_item_file (e, []) rows
  end.

(** ** Gathering the tables *)

Section Gather.
Context (ucmp : Comparator) {Laws : ComparatorLaws ucmp}.
Implicit Types (cf : NvmCfModule) (db : list (Z * records)) (f : FileMetaData) (fe : FileEntry).

Abbreviation icmp := (InternalKeyComparator ucmp).

(** The list of tables under compaction is no part of what the tables are. *)
Lemma nvm_ok_compaction cf db files :
  nvm_ok ucmp cf db -> nvm_ok ucmp (cf_set (set_compaction_files (sst_meta_ cf) files) (ptr_sst_ cf) cf) db.
Proof. intros [[[] ? ? ?] ? ? ? ?]. split; [split; [split|..]|..]; assumption. Qed.

Lemma find_first_key_ok pre f rest :
  GetNumber (f_fd f) ∉ numbers pre ->
  find_first_key (pre ++ f :: rest) (GetNumber (f_fd f)) = Some (f_first_key_index f, rest).
Proof.
  induction pre as [|g pre IH]; intros Hn; simpl; [by rewrite Z.eqb_refl|].
  unfold numbers in Hn. rewrite fmap_cons in Hn. apply not_elem_of_cons in Hn as [Hg Hn].
  destruct (Z.eqb_spec (GetNumber (f_fd g)) (GetNumber (f_fd f))); [congruence|]. by apply IH.
Qed.

(** The entry of a file of the version. *)
Definition entry_of cf fe f : Prop := fe ∈ entries (sst_meta_ cf) /\ filenum fe = GetNumber (f_fd f).

Lemma gather_files_ok cf db old pre :
  nvm_ok ucmp cf db -> NoDup (numbers (pre ++ old)) -> (forall n, n ∈ numbers old -> n ∈ db.*1) ->
  exists es, gather_files (sst_meta_ cf) (numbers old) (pre ++ old) = Some (Some (es, f_first_key_index <$> old)) /\
    Forall2 (entry_of cf) es old.
Proof.
  intros Hok. revert pre. induction old as [|f old IH]; intros pre Hnd Hin; [by exists []|].
  destruct (find_entry ucmp cf db (GetNumber (f_fd f)) Hok) as (p & fe & Hf & Hp & Hn & Hfe); [apply Hin; left|].
  change (numbers (f :: old)) with (GetNumber (f_fd f) :: numbers old).
  cbn [gather_files]. rewrite Hf. cbn [mbind option_bind]. rewrite Hp. cbn [mbind option_bind]. rewrite Hn.
  unfold numbers in Hnd. rewrite fmap_app, fmap_cons in Hnd. apply NoDup_app in Hnd as (_ & Hd & Hnd2).
  rewrite (find_first_key_ok pre f old) by (intros Hx; apply (Hd _ Hx); left).
  apply NoDup_cons in Hnd2 as [Hf2 Hnd2].
  destruct (IH [] Hnd2) as (es & Hg & Hes); [intros n Hn'; apply Hin; by right|].
  change ([] ++ old) with old in Hg. rewrite Hg. simpl.
  exists (fe :: es). split; [done|]. constructor; [done|exact Hes].
Qed.

(** What the pool says of a file of the version. *)
Record file_ok cf db fe f : Prop := {
  fo_entry : entry_of cf fe f;
  fo_keys : keys_num fe = len (keys_meta fe);
  fo_len : len (keys_meta fe) = len (db_find db (GetNumber (f_fd f)));
  fo_count : len (keys_meta fe) < 2 ^ 31;
  fo_first : 0 <= f_first_key_index f < len (keys_meta fe);
}.

Lemma entries_file_ok cf db es L0 :
  nvm_ok ucmp cf db -> Forall (fun f => 0 <= f_first_key_index f < len (db_find db (GetNumber (f_fd f)))) L0 ->
  Forall2 (entry_of cf) es L0 -> Forall2 (file_ok cf db) es L0.
Proof.
  intros Hok Hfirst H. induction H as [|fe f es L0 [He Hn] _ IH]; [constructor|].
  apply Forall_cons in Hfirst as [Hf Hfirst]. constructor; [|by apply IH].
  pose proof (db_find_entry ucmp cf db fe Hok He) as Ht. pose proof (keys_length fe _ (ti_layout _ _ _ _ Ht)) as Hl.
  simpl in Hl. rewrite Hn in Hl. destruct Hok as [[_ _ Hwf Hcnt] _ _ _ _]. rewrite Forall_forall in Hwf, Hcnt.
  constructor; [done|by apply Hwf|done|by apply Hcnt|lia].
Qed.

Lemma files_kmi_tables cf db es L0 :
  nvm_ok ucmp cf db -> Forall2 (file_ok cf db) es L0 -> kmi_tables ucmp es (f_first_key_index <$> L0).
Proof.
  intros Hok H. apply (kmi_tables_intro ucmp). apply Forall2_fmap_r. eapply Forall2_impl; [exact H|].
  intros fe f [[He Hn] Hk Hl Hc Hf]. pose proof (ti_sorted _ _ _ _ (db_find_entry ucmp cf db fe Hok He)) as Hs.
  split; [done|split; [done|split; [lia|]]]. apply StronglySorted_lookup_intro. intros i j a b Hij Ha Hb.
  apply (keys_user_le ucmp (keys_meta fe) (Z.of_nat i) (Z.of_nat j)); [done|lia| |]; by rewrite zget_nat.
Qed.
End Gather.

(** ** The rows of an item *)

Abbreviation row := (FileEntry * FileMetaData * Z * Z)%type.

Definition gives (r : row) : Prop := r.1.2 <> 0.

Lemma item_rows_chosen L0 es old nums sizes :
  Forall2 (fun fe f => find_L0 L0 (filenum fe) = Some f) es old ->
  length nums = length es -> length sizes = length es ->
  let cs := filter (fun x => x.1.2 <> 0) (zip (zip es nums) sizes) in
  item_rows ((fun x => x.1.1) <$> cs) (omap (fun x => find_L0 L0 (filenum x.1.1)) cs) ((fun x => x.1.2) <$> cs)
    ((fun x => x.2) <$> cs) = Some (filter gives (zip (zip (zip es old) nums) sizes)).
Proof.
  intros H. revert nums sizes. induction H as [|fe f es old Hf _ IH]; intros [|n nums] [|size sizes] Hn Hs; try done.
  simpl in Hn, Hs. specialize (IH nums sizes ltac:(lia) ltac:(lia)). simpl in IH |- *.
  rewrite !filter_cons. unfold gives at 1. simpl. case_decide; [|exact IH].
  rewrite !fmap_cons. cbn [omap list_omap fst snd]. rewrite Hf. cbn [item_rows]. rewrite IH. done.
Qed.

(** The file of the version after the compaction. *)
Definition after_row (r : row) : option FileMetaData :=
  let '(file, m, num, size) := r in
  if num =? 0 then Some m
  else if f_first_key_index m + num =? keys_num file then None
  else
    k ← keys_meta file !z (f_first_key_index m + num);
    Some (new_file (FileDescriptor_make (GetNumber (f_fd m)) (GetPathId (f_fd m)) (wrap64 (GetFileSize (f_fd m) - size))
            (smallest_seqno (f_fd m)) (largest_seqno (f_fd m))) (km_key k) (f_largest m) (f_marked_for_compaction m)
            (f_is_nvm_level0 m) (f_first_key_index m + num) (f_nvm_sstable_index m) (f_keys_num m)
            (f_key_point_filenum m) (f_raw_file_size m) (f_nvm_meta_size m)).

Definition used_up (rows : list row) : list Z :=
  (fun r => filenum r.1.1.1) <$> filter (fun r => after_row r = None) rows.

Record row_ok (cf : NvmCfModule) (db : list (Z * records)) (r : row) : Prop := {
  rw_file : file_ok cf db r.1.1.1 r.1.1.2;
  rw_num : 0 <= r.1.2;
  rw_fit : f_first_key_index r.1.1.2 + r.1.2 <= len (keys_meta r.1.1.1);
  rw_packed : u64 (packed_number_and_path_id (f_fd r.1.1.2));
}.

Lemma delete_items_ok cf db rows e used :
  Forall (row_ok cf db) rows -> Forall gives rows ->
  exists e', fold_opt delete_item_file (e, used) rows = Some (e', used ++ used_up rows) /\
    (forall x, x ∈ ve_deleted_files e' <-> x ∈ ve_deleted_files e \/ x ∈ (fun r : row => (0, filenum r.1.1.1)) <$> rows) /\
    ve_new_files e' = ve_new_files e ++ ((0,.) <$> omap after_row rows) /\
    (StronglySorted pair_lt (ve_deleted_files e) -> StronglySorted pair_lt (ve_deleted_files e')).
Proof.
  intros Hok Hg. revert e used. induction Hok as [|r rows Hr _ IH]; intros e used.
  { exists e. unfold used_up. simpl. rewrite !app_nil_r. split_and!; [done|set_solver|done|done]. }
  apply Forall_cons in Hg as [Hg Hgs]. destruct r as [[[fe f] n] size]. destruct Hr as [[_ Hk _ Hc Hf] Hn Hfit _]. simpl in *.
  assert (Hw : wrap64 (f_first_key_index f + n) = f_first_key_index f + n) by (apply wrap_id; lia).
  unfold gives in Hg. simpl in Hg. unfold used_up. rewrite filter_cons. simpl. rewrite Hw.
  destruct (Z.eqb_spec n 0); [done|]. destruct (Z.eqb_spec (f_first_key_index f + n) (keys_num fe)) as [E|E]; simpl.
  - destruct (IH Hgs (DeleteFile 0 (filenum fe) e) (used ++ [filenum fe])) as (e' & -> & Hd & Hw' & Hs).
    exists e'. destruct e. simpl in *. split_and!; [by rewrite <- app_assoc| |done|].
    + intros x. rewrite Hd, DeletedFileSet_insert_in, elem_of_cons. tauto.
    + intros H. by apply Hs, DeletedFileSet_insert_sorted.
  - destruct (zget_is_Some (keys_meta fe) (f_first_key_index f + n)) as [k Hkk]; [lia|]. rewrite Hkk. simpl.
    edestruct (IH Hgs) as (e' & -> & Hd & Hw' & Hs). exists e'. destruct e. simpl in *.
    split_and!; [done| |rewrite Hw', <- app_assoc; done|].
    + intros x. rewrite Hd, DeletedFileSet_insert_in, elem_of_cons. tauto.
    + intros H. by apply Hs, DeletedFileSet_insert_sorted.
Qed.

(** ** Level 0 after the compaction *)

(** What the order of level 0 looks at. *)
Definition file_key (f : FileMetaData) : Z * Z * Z :=
  (largest_seqno (f_fd f), smallest_seqno (f_fd f), GetNumber (f_fd f)).

Definition key_le (a b : Z * Z * Z) : Prop :=
  b.1.1 < a.1.1 \/ b.1.1 = a.1.1 /\ (b.1.2 < a.1.2 \/ b.1.2 = a.1.2 /\ b.2 <= a.2).

Lemma level0_sorted_keys icmp (fs : list FileMetaData) :
  StronglySorted (file_le icmp 0) fs <-> StronglySorted key_le (file_key <$> fs).
Proof.
  assert (He : forall a b, file_le icmp 0 a b <-> key_le (file_key a) (file_key b)) by (intros; apply file_le_zero).
  split; intros H.
  - eapply StronglySorted_fmap; [|exact H]. intros a b. apply He.
  - apply StronglySorted_fmap_inv in H. rewrite <- (list_fmap_id fs).
    eapply StronglySorted_fmap; [|exact H]. intros a b. apply He.
Qed.

Lemma numbers_keys fs : numbers fs = snd <$> (file_key <$> fs).
Proof. unfold numbers. rewrite <- list_fmap_compose. done. Qed.

Lemma after_row_same cf db r g :
  row_ok cf db r -> after_row r = Some g ->
  file_key g = file_key r.1.1.2 /\ f_is_nvm_level0 g = f_is_nvm_level0 r.1.1.2 /\
  f_first_key_index g = f_first_key_index r.1.1.2 + r.1.2.
Proof.
  destruct r as [[[fe f] n] size]. intros [_ _ _ Hp]. simpl in *. destruct (Z.eqb_spec n 0) as [->|].
  { intros [= <-]. split_and!; [done|done|lia]. }
  destruct (_ =? keys_num fe); [done|]. destruct (keys_meta fe !z _) as [k|]; simpl; [|done]. intros [= <-]. simpl.
  split_and!; [|done|done]. pose proof (FileDescriptor_make_Get (mkFd (packed_number_and_path_id (f_fd f))
    (wrap64 (GetFileSize (f_fd f) - size)) (smallest_seqno (f_fd f)) (largest_seqno (f_fd f))) Hp) as E.
  apply (f_equal (fun d => (largest_seqno d, smallest_seqno d, GetNumber d))) in E. exact E.
Qed.

Lemma after_rows_keys cf db rows :
  Forall (row_ok cf db) rows -> sublist (file_key <$> omap after_row rows) (file_key <$> ((fun r : row => r.1.1.2) <$> rows)).
Proof.
  induction 1 as [|r rows Hr _ IH]; [constructor|]. cbn [omap list_omap]. destruct (after_row r) as [g|] eqn:E.
  - rewrite !fmap_cons. destruct (after_row_same cf db r g Hr E) as [-> _]. by constructor.
  - rewrite !fmap_cons. by constructor.
Qed.

(** Splitting the rows into those that give keys and the others. *)
Lemma after_rows_split rows :
  omap after_row rows ≡ₚ ((fun r : row => r.1.1.2) <$> filter (fun r => ~ gives r) rows) ++ omap after_row (filter gives rows).
Proof.
  induction rows as [|r rows IH]; [done|]. rewrite !filter_cons.
  destruct r as [[[fe f] n] size]. destruct (decide (gives (fe, f, n, size))) as [Hn|Hn].
  - rewrite decide_False by tauto. cbn [omap list_omap]. destruct (after_row (fe, f, n, size)); [|exact IH].
    rewrite IH. by rewrite Permutation_middle.
  - rewrite decide_True by done. unfold gives in Hn. simpl in Hn. assert (n = 0) as -> by lia.
    rewrite fmap_cons. cbn [omap list_omap].
    change (after_row (fe, f, 0, size)) with (Some f). cbn [app]. by rewrite IH.
Qed.

Abbreviation row_file := (fun r : row => r.1.1.2).

Lemma numbers_app l1 l2 : numbers (l1 ++ l2) = numbers l1 ++ numbers l2.
Proof. apply fmap_app. Qed.

Lemma in_numbers f fs : f ∈ fs -> GetNumber (f_fd f) ∈ numbers fs.
Proof. apply (list_elem_of_fmap_2 (fun f => GetNumber (f_fd f))). Qed.

(** The files of level 0 after the edit, in some order. *)
Lemma edit_level0_files cf db rows pre e :
  Forall (row_ok cf db) rows ->
  (forall k, (0, k) ∈ ve_deleted_files e <-> k ∈ numbers (row_file <$> filter gives rows)) ->
  new_in (ve_new_files e) 0 = omap after_row (filter gives rows) ->
  NoDup (numbers (pre ++ (row_file <$> rows))) ->
  edit_level e 0 (pre ++ (row_file <$> rows)) ≡ₚ pre ++ omap after_row rows.
Proof.
  intros Hok Hdel Hnew Hnd. rewrite numbers_app in Hnd. apply NoDup_app in Hnd as (_ & Hpre & Hnd).
  rewrite after_rows_split. unfold edit_level. rewrite Hnew, app_assoc. apply Permutation_app; [|done].
  unfold undeleted. rewrite filter_app. apply Permutation_app; apply reflexive_eq.
  - apply filter_id. intros f Hf Hd. apply Hdel in Hd. apply (Hpre (GetNumber (f_fd f))); [by apply in_numbers|].
    apply list_elem_of_fmap in Hd as (g & -> & Hg). apply in_numbers.
    apply list_elem_of_fmap in Hg as (r & -> & [_ Hr]%list_elem_of_filter). by apply (list_elem_of_fmap_2 row_file).
  - rewrite filter_fmap. f_equal. apply filter_ext_in. intros r Hr. rewrite Hdel. unfold numbers in *.
    rewrite <- list_fmap_compose in Hnd |- *. split.
    + intros Hn Hg. apply Hn. apply list_elem_of_fmap. exists r. split; [done|]. by apply list_elem_of_filter.
    + intros Hn (r' & E & [Hg Hr']%list_elem_of_filter)%list_elem_of_fmap. apply Hn.
      by rewrite (NoDup_fmap_eq _ rows r r' Hnd Hr Hr' E).
Qed.

(** The edit changes the tables that give keys and leaves the order as it is. *)
Lemma edit_level0_ok icmp `{!ComparatorLaws icmp} cf db rows pre e :
  Forall (row_ok cf db) rows ->
  (forall k, (0, k) ∈ ve_deleted_files e <-> k ∈ numbers (row_file <$> filter gives rows)) ->
  new_in (ve_new_files e) 0 = omap after_row (filter gives rows) ->
  NoDup (numbers (pre ++ (row_file <$> rows))) -> StronglySorted (file_le icmp 0) (pre ++ (row_file <$> rows)) ->
  sort_files icmp 0 (edit_level e 0 (pre ++ (row_file <$> rows))) = pre ++ omap after_row rows.
Proof.
  intros Hok Hdel Hnew Hnd Hs.
  assert (Hk : sublist (file_key <$> pre ++ omap after_row rows) (file_key <$> pre ++ (row_file <$> rows))).
  { rewrite !fmap_app. apply sublist_app; [done|]. by apply (after_rows_keys cf db). }
  pose proof (edit_level0_files cf db rows pre e Hok Hdel Hnew Hnd) as Hp.
  symmetry. apply sort_files_unique; [done| |by symmetry|].
  - apply level0_sorted_keys. apply level0_sorted_keys in Hs. by eapply StronglySorted_sublist.
  - rewrite Hp. change (NoDup (numbers (pre ++ omap after_row rows))). rewrite numbers_keys.
    eapply sublist_NoDup; [|by apply fmap_sublist]. by rewrite <- numbers_keys.
Qed.

(** ** Records before and after *)

Definition row_records (db : list (Z * records)) (r : row) : records :=
  item_records (db_find db (GetNumber (f_fd (row_file r)))) (f_first_key_index (row_file r)) r.1.2.

Lemma row_visible cf db r :
  row_ok cf db r ->
  visible db (row_file r) = row_records db r ++ match after_row r with Some g => visible db g | None => [] end.
Proof.
  intros Hr. pose proof Hr as [[_ Hk Hl _ Hf] Hn Hfit _]. unfold row_records, item_records.
  rewrite <- (take_drop (Z.to_nat r.1.2) (visible db (row_file r))) at 1. unfold visible at 1 2. f_equal.
  rewrite drop_drop. destruct (after_row r) as [g|] eqn:E.
  - destruct (after_row_same cf db r g Hr E) as (Hkey & _ & Hfirst). unfold visible. injection Hkey as _ _ ->.
    rewrite Hfirst. f_equal. lia.
  - apply drop_ge. destruct r as [[[fe f] n] size]. simpl in *. destruct (Z.eqb_spec n 0); [done|].
    destruct (Z.eqb_spec (f_first_key_index f + n) (keys_num fe)) as [E'|E'].
    + unfold zlen in *. lia.
    + destruct (zget_is_Some (keys_meta fe) (f_first_key_index f + n)) as [k Hkk]; [lia|]. by rewrite Hkk in E.
Qed.

Lemma rows_visible cf db rows :
  Forall (row_ok cf db) rows ->
  mjoin (visible db <$> (row_file <$> rows)) ≡ₚ mjoin (row_records db <$> rows) ++ mjoin (visible db <$> omap after_row rows).
Proof.
  induction 1 as [|r rows Hr _ IH]; [done|]. rewrite !fmap_cons. cbn [omap list_omap mjoin list_join].
  rewrite (row_visible cf db r Hr). destruct (after_row r) as [g|] eqn:E.
  - rewrite fmap_cons. cbn [mjoin list_join]. rewrite IH. rewrite <- !app_assoc. apply Permutation_app_head.
    apply Permutation_app_swap_app.
  - rewrite app_nil_r, IH. by rewrite app_assoc.
Qed.

(** Only rows that give keys have records. *)
Lemma rows_giving_records db rows :
  mjoin (row_records db <$> filter gives rows) = mjoin (row_records db <$> rows).
Proof.
  induction rows as [|r rows IH]; [done|]. rewrite filter_cons, fmap_cons. case_decide as Hg.
  - rewrite fmap_cons. cbn [mjoin list_join]. f_equal. exact IH.
  - rewrite IH. cbn [mjoin list_join]. unfold gives in Hg. unfold row_records at 2. unfold item_records.
    by replace r.1.2 with 0 by lia.
Qed.

(** What the version after the compaction shows is within the tables. *)
Lemma after_rows_version cf db rows pre :
  Forall (row_ok cf db) rows -> version_ok db (pre ++ (row_file <$> rows)) -> version_ok db (pre ++ omap after_row rows).
Proof.
  intros Hok [Hsub Hfirst]. split.
  - rewrite numbers_keys in *. etrans; [|exact Hsub]. apply fmap_sublist. rewrite !fmap_app. apply sublist_app; [done|].
    by apply (after_rows_keys cf db).
  - apply Forall_app in Hfirst as [Hpre Hold]. apply Forall_app. split; [done|]. apply Forall_forall.
    intros g (r & Hr & E)%list_elem_of_omap. rewrite Forall_forall in Hok. pose proof (Hok r Hr) as Hrow.
    destruct (after_row_same cf db r g Hrow E) as (Hkey & _ & Hf). injection Hkey as _ _ ->.
    destruct Hrow as [[_ Hk Hl _ Hfi] Hn Hfit _]. rewrite <- Hl, Hf. destruct r as [[[fe f] n] size]. simpl in *.
    destruct (Z.eqb_spec n 0); [lia|]. destruct (Z.eqb_spec (f_first_key_index f + n) (keys_num fe)); [done|]. lia.
Qed.

(** ** From the pick to the rows *)

Section Compaction.
Context (ucmp : Comparator) {Laws : ComparatorLaws ucmp}.
Implicit Types (cf : NvmCfModule) (db : list (Z * records)) (rows : list row).

Abbreviation icmp := (InternalKeyComparator ucmp).

(** A version whose level 0 holds tables of the pool and may be compacted. *)
Record column_ready cf db (vs : VersionStorageInfo) (L0 L1 L2 : list FileMetaData) : Prop := {
  cr_nvm : nvm_ok ucmp cf db;
  cr_version : version_ok db L0;
  cr_level0 : LevelFiles vs 0 = Some L0;
  cr_some : L0 <> [];
  cr_fds : Forall (fun f => u64 (packed_number_and_path_id (f_fd f))) L0;
  cr_level1 : level1_ok ucmp vs L1;
  cr_level2 : LevelFiles vs 2 = Some L2 /\ level_sorted ucmp L2;
  cr_list : len (compaction_files (sst_meta_ cf)) <= len L0;
}.

Lemma version_numbers_NoDup cf db L0 : nvm_ok ucmp cf db -> version_ok db L0 -> NoDup (numbers L0).
Proof using Type.
  intros Hok [Hsub _]. eapply sublist_NoDup; [|exact Hsub]. rewrite (db_numbers ucmp cf db Hok).
  by destruct (no_tables _ _ _ Hok).
Qed.

Lemma find_L0_ok L0 f : NoDup (numbers L0) -> f ∈ L0 -> find_L0 L0 (GetNumber (f_fd f)) = Some f.
Proof using Type.
  intros Hnd Hf. unfold find_L0. destruct (list_find _ L0) as [[i g]|] eqn:E; simpl.
  - apply list_find_Some in E as (Hg & Hn & _). f_equal. apply (NoDup_fmap_eq _ L0 g f Hnd); [|done|done].
    by eapply list_elem_of_lookup_2.
  - apply list_find_None in E. rewrite Forall_forall in E. by destruct (E f Hf).
Qed.

(** The counters of a pick, row by row. *)
Lemma accounts_rows cf db es old nums sizes all :
  Forall2 (file_ok cf db) es old -> accounts ucmp es (f_first_key_index <$> old) nums sizes all ->
  Forall (fun f => u64 (packed_number_and_path_id (f_fd f))) old ->
  Forall (row_ok cf db) (zip (zip (zip es old) nums) sizes).
Proof using Type.
  intros Hf [[Hl1 Hl2] Hrng _ _ _] Hp. apply Forall_lookup. intros i [[[fe f] n] size] Hi.
  apply lookup_zip_Some in Hi as [(H3 & Hn)%lookup_zip_Some Hs]. apply lookup_zip_Some in H3 as [He Ho]. simpl in *.
  pose proof (Forall2_lookup_lr _ _ _ _ _ _ Hf He Ho) as Hfo.
  destruct (Hrng (Z.of_nat i) (f_first_key_index f) n fe) as [H1 H2].
  - rewrite zget_nat, list_lookup_fmap, Ho. done.
  - by rewrite zget_nat.
  - by rewrite zget_nat.
  - constructor; [done|done|done|]. rewrite Forall_lookup in Hp. by eapply Hp.
Qed.

Lemma row_files es old nums sizes :
  length es = length old -> length nums = length es -> length sizes = length es ->
  row_file <$> zip (zip (zip es old) nums) sizes = old.
Proof using Type.
  intros H1 H2 H3.
  change row_file with (fun r : row => (snd ∘ fst ∘ fst) r). rewrite (list_fmap_compose fst).
  rewrite fst_zip by (rewrite !length_zip; lia). rewrite (list_fmap_compose fst), fst_zip by (rewrite length_zip; lia).
  by rewrite snd_zip by lia.
Qed.

Lemma UpdateCompactionState_same s L0 s' :
  UpdateCompactionState s L0 = Some s' -> s' = set_compaction_files s (compaction_files s').
Proof using Type.
  unfold UpdateCompactionState. intros H. destruct (if _ : bool then _ else _) as [[]|]; simpl in H; [| |done];
    injection H as <-; by destruct s.
Qed.

(** The compaction list of the pick is the tail of level 0. *)
Lemma find_L0_all cf L0 es old :
  NoDup (numbers L0) -> (forall f, f ∈ old -> f ∈ L0) -> Forall2 (entry_of cf) es old ->
  Forall2 (fun fe f => find_L0 L0 (filenum fe) = Some f) es old.
Proof using Type.
  intros Hnd Hin H. induction H as [|fe f es old [_ Hn] _ IH]; constructor.
  - rewrite Hn. apply find_L0_ok; [done|]. apply Hin. by left.
  - apply IH. intros g Hg. apply Hin. by right.
Qed.

Lemma pick_tail cf db vs L0 L1 L2 :
  column_ready cf db vs L0 L1 L2 ->
  exists s pre old, UpdateCompactionState (sst_meta_ cf) L0 = Some s /\
    s = set_compaction_files (sst_meta_ cf) (numbers old) /\ L0 = pre ++ old /\ old <> [].
Proof using Type.
  intros [_ _ _ Hsome _ _ _ Hlist]. pose proof (UpdateCompactionState_spec (sst_meta_ cf) L0) as H.
  destruct (UpdateCompactionState (sst_meta_ cf) L0) as [s|] eqn:Hs.
  - destruct H as (Hsuf & Hne & _). exists s, (take (length L0 - length (compaction_files s)) L0),
      (drop (length L0 - length (compaction_files s)) L0).
    assert (Hn : numbers (drop (length L0 - length (compaction_files s)) L0) = compaction_files s).
    { unfold numbers. rewrite fmap_drop. destruct Hsuf as [k Hk]. unfold numbers in Hk.
      assert (length L0 = length k + length (compaction_files s))%nat as ->
        by (apply (f_equal length) in Hk; by rewrite length_fmap, length_app in Hk).
      rewrite Hk. by rewrite drop_app_length' by lia. }
    split_and!; [done|rewrite Hn; by eapply UpdateCompactionState_same|by rewrite take_drop|].
    intros E. apply (Hne Hsome). by rewrite <- Hn, E.
  - destruct H as (extra & Hx & He). unfold zlen in Hlist. rewrite He, length_app in Hlist.
    unfold numbers in Hlist. rewrite length_fmap in Hlist. destruct extra; [done|]. simpl in Hlist. lia.
Qed.

(** The size a pick with level-1 files goes for. *)
Definition have_L1_stop (o : NvmCfOptions) : Z :=
  L1CompactionSizeStop (Column_compaction_have_L1_select_L0 o) (nvm_target_file_size_base o).

(** What a pick over the tables of [rows] returns. *)
Record picks (o : NvmCfOptions) (cf' : NvmCfModule) db L0 L1 (c : ColumnCompactionItem) pre rows : Prop := {
  pc_nvm : nvm_ok ucmp cf' db;
  pc_level0 : L0 = pre ++ (row_file <$> rows);
  pc_rows : Forall (row_ok cf' db) rows;
  pc_item : item_rows (cc_files c) (L0compactionfiles c) (cc_keys_num c) (cc_keys_size c) = Some (filter gives rows);
  pc_list : compaction_files (sst_meta_ cf') = numbers (row_file <$> rows);
  pc_level1 : sublist (L1compactionfiles c) L1;
  pc_gives : 0 < have_L1_stop o -> filter gives rows <> [];
}.

Lemma pick_result_level1 files firsts o L1 kmin kmax st L1c :
  pick_result ucmp files firsts o L1 kmin kmax st L1c -> sublist L1c L1.
Proof using Type.
  intros [(_ & -> & _)|(_ & idx & lg & _ & -> & _)]; [apply sublist_nil_l|].
  etrans; [apply sublist_take|apply sublist_filter].
Qed.

(** A pick with a size to reach takes a key. *)
Lemma pick_result_picked files firsts o L1 kmin kmax st L1c :
  kmi_tables ucmp files firsts -> files <> [] -> accounts ucmp files firsts (pk_keys_num st) (pk_keys_size st) (all_comption_size st) ->
  pick_result ucmp files firsts o L1 kmin kmax st L1c -> 0 < have_L1_stop o ->
  exists i j u, picked files firsts (pk_keys_num st) i j u.
Proof using Type.
  intros Ht Hne Hacc [(_ & _ & H & _)|(_ & idx & lg & _ & _ & _ & H)] Hstop; [done|]. unfold have_L1_stop in Hstop.
  destruct H as [(_ & _ & Hk)|[(Hs & _)|(_ & _ & u & Hu)]]; [|eapply accounts_some; [exact Ht|exact Hacc|lia]|by eauto].
  destruct files as [|f files]; [done|]. assert (Hf : (f :: files) !z 0 = Some f) by done.
  assert (Hx : is_Some (firsts !z 0)) by (apply zget_is_Some; pose proof (kt_len _ _ _ Ht) as E; unfold zlen; simpl in E; lia).
  destruct Hx as [x Hx]. pose proof (kt_first _ _ _ Ht _ _ _ Hf Hx) as Hr.
  destruct (ac_lens _ _ _ _ _ _ Hacc) as [Hl _]. simpl in Hl.
  destruct (zget_is_Some (pk_keys_num st) 0) as [n Hn]; [unfold zlen; lia|].
  destruct (ac_range _ _ _ _ _ _ Hacc _ _ _ _ Hx Hn Hf) as [H0 H1].
  destruct (zget_is_Some (keys_meta f) x Hr) as [k Hkk].
  assert (Hu : user_key_at (f :: files) 0 x = Some (ExtractUserKey (km_key k)))
    by (unfold user_key_at, key_meta_at; rewrite Hf; simpl; by rewrite Hkk).
  destruct (Z.eq_dec n 0) as [->|].
  - destruct (Hk 0 x (ExtractUserKey (km_key k))). exists x, 0. split_and!; [done|done|lia|done].
  - exists 0, x, (ExtractUserKey (km_key k)), x, n. split_and!; [done|done|lia|lia|done].
Qed.

Lemma picked_gives es old nums sizes firsts i j u :
  length old = length es -> length sizes = length es -> length nums = length es ->
  picked es firsts nums i j u -> filter gives (zip (zip (zip es old) nums) sizes) <> [].
Proof using Type.
  intros Ho Hs Hl (x & n & _ & Hn & Hj & _) E. apply zget_Some in Hn as [Hi Hn].
  pose proof (lookup_lt_Some _ _ _ Hn) as Hlt.
  destruct (lookup_lt_is_Some_2 es (Z.to_nat i)) as [fe He]; [lia|].
  destruct (lookup_lt_is_Some_2 old (Z.to_nat i)) as [f Hf]; [lia|].
  destruct (lookup_lt_is_Some_2 sizes (Z.to_nat i)) as [size Hsz]; [lia|].
  assert (Hin : (fe, f, n, size) ∈ filter gives (zip (zip (zip es old) nums) sizes)).
  { apply list_elem_of_filter. split; [unfold gives; simpl; lia|]. apply (list_elem_of_lookup_2 _ (Z.to_nat i)).
    rewrite !lookup_zip_with, He, Hf, Hn, Hsz. done. }
  rewrite E in Hin. by apply not_elem_of_nil in Hin.
Qed.

Lemma PickColumnCompaction_ok o cf db vs L0 L1 L2 :
  column_ready cf db vs L0 L1 L2 ->
  exists cf' c pre rows, PickColumnCompaction ucmp o cf vs = Some (cf', Some c) /\ picks o cf' db L0 L1 c pre rows /\
    rows <> [] /\ ptr_sst_ cf' = ptr_sst_ cf /\ sst_meta_ cf' = set_compaction_files (sst_meta_ cf) (compaction_files (sst_meta_ cf')).
Proof using Laws.
  intros Hr. destruct (pick_tail cf db vs L0 L1 L2 Hr) as (s & pre & old & Hs & Hset & HL0 & Hne).
  destruct Hr as [Hnvm Hver Hlv0 _ Hfds Hlv1 _ _].
  pose proof (version_numbers_NoDup cf db L0 Hnvm Hver) as Hnd.
  assert (Hok : nvm_ok ucmp (cf_set s (ptr_sst_ cf) cf) db) by (rewrite Hset; by apply nvm_ok_compaction).
  destruct (gather_files_ok ucmp (cf_set s (ptr_sst_ cf) cf) db old pre Hok) as (es & Hg & Hes).
  { by rewrite <- HL0. }
  { intros n Hn. destruct Hver as [Hsub _]. apply (sublist_subseteq _ _ Hsub). rewrite HL0, numbers_app.
    apply elem_of_app. by right. }
  assert (Hfirst : Forall (fun f => 0 <= f_first_key_index f < len (db_find db (GetNumber (f_fd f)))) old)
    by (destruct Hver as [_ H]; rewrite HL0 in H; by apply Forall_app in H as [_ H]).
  pose proof (entries_file_ok ucmp _ db es old Hok Hfirst Hes) as Hfo.
  pose proof (files_kmi_tables ucmp _ db es old Hok Hfo) as Hkt. pose proof (Forall2_length _ _ _ Hes) as Hlen.
  assert (Hnes : es <> []) by (intros ->; by apply Forall2_nil_inv_l in Hes).
  destruct (pick_column_ok ucmp es _ o vs L0 L1 Hkt Hnes Hlv1) as (st & L1c & kmin & kmax & lg & Hp & Hf & Hacc & _ & _ & _ & Hres).
  destruct (ac_lens _ _ _ _ _ _ Hacc) as [Hl1 Hl2].
  exists (cf_set s (ptr_sst_ cf) cf), (make_item st L0 L1c (km_key kmin) lg), pre,
    (zip (zip (zip es old) (pk_keys_num st)) (pk_keys_size st)).
  pose proof (row_files es old (pk_keys_num st) (pk_keys_size st) Hlen Hl1 Hl2) as Hrf.
  split_and!; [| |intros E; rewrite E in Hrf; done|done|simpl; by rewrite Hset at 1 2].
  - unfold PickColumnCompaction. rewrite Hlv0. simpl.
    rewrite Hs. simpl. assert (Hnum : compaction_files s = numbers old) by (by rewrite Hset).
    rewrite Hnum. destruct (Z.eqb_spec (len (numbers old)) 0) as [Hz%zlen_zero|_]; [by destruct old|].
    simpl in Hg. rewrite HL0 at 1. rewrite Hg. simpl. by rewrite Hp.
  - constructor; [done|by rewrite Hrf| | |by rewrite Hrf, Hset|by eapply pick_result_level1|].
    + apply (accounts_rows _ _ _ _ _ _ _ Hfo Hacc). rewrite HL0 in Hfds. by apply Forall_app in Hfds as [_ H].
    + simpl. unfold chosen. rewrite Hf. apply item_rows_chosen; [|done|done].
      eapply find_L0_all; [done| |exact Hes]. intros f H. rewrite HL0. apply elem_of_app. by right.
    + intros Hstop. destruct (pick_result_picked _ _ _ _ _ _ _ _ Hkt Hnes Hacc Hres Hstop) as (i & j & u & Hpk).
      by eapply picked_gives.
Qed.

(** ** The iterators over the picked keys *)

Lemma item_rows_inv files metas nums sizes grows :
  item_rows files metas nums sizes = Some grows -> files = (fun r : row => r.1.1.1) <$> grows /\
    take (length grows) metas = row_file <$> grows /\ take (length grows) nums = (fun r : row => r.1.2) <$> grows.
Proof using Type.
  revert metas nums sizes grows. induction files as [|fe files IH]; intros metas nums sizes grows H; simpl in H.
  { injection H as <-. done. }
  destruct metas as [|m metas], nums as [|n nums], sizes as [|size sizes]; try done.
  destruct (item_rows files metas nums sizes) as [rows|] eqn:E; simpl in H; [|done]. injection H as <-.
  destruct (IH _ _ _ _ E) as (-> & Hm & Hn). rewrite !fmap_cons. cbn [length take]. by rewrite Hm, Hn.
Qed.

Lemma item_iterators_ok cf db grows metas nums :
  nvm_ok ucmp cf db -> small_tables cf -> Forall (row_ok cf db) grows -> Forall gives grows ->
  take (length grows) metas = row_file <$> grows -> take (length grows) nums = (fun r : row => r.1.2) <$> grows ->
  exists its, item_iterators cf ((fun r : row => r.1.1.1) <$> grows) metas nums = Some its /\
    unpositioned (buffer_over icmp) its (row_records db <$> grows).
Proof using Laws.
  intros Hok Hsm Hrows Hg. revert metas nums. induction Hrows as [|r grows Hr _ IH]; intros metas nums Hm Hn.
  { exists []. split; [done|constructor]. }
  apply Forall_cons in Hg as [Hgr Hg]. cbn [fmap list_fmap length take] in Hm, Hn |- *.
  destruct metas as [|m metas], nums as [|n nums]; try done. injection Hm as -> Hm. injection Hn as -> Hn.
  destruct Hr as [[[He Hnum] Hk Hl Hc Hf] Hnn Hfit _].
  destruct (entry_slot ucmp cf db r.1.1.1 Hok He) as (addr & Ha & Hst & _);
    [unfold small_tables in Hsm; rewrite Forall_forall in Hsm; by apply Hsm|].
  unfold gives in Hgr. rewrite Hnum in Hst.
  destruct (BufferIterator_make_ok icmp (raw_ (ptr_sst_ cf)) addr r.1.1.1 _ (f_first_key_index (row_file r)) r.1.2 Hst)
    as (it & Hit & Hov); [lia|lia|lia|].
  destruct (IH Hg metas nums Hm Hn) as (its & Hits & Hu). cbn [item_iterators]. rewrite Ha. cbn [mbind option_bind].
  rewrite Hit. cbn [mbind option_bind]. rewrite Hits. eexists. split; [done|]. by constructor.
Qed.

(** ** The list of tables under compaction afterwards *)

Lemma erase_first_filter n l : NoDup l -> erase_first n l = filter (fun m => m <> n) l.
Proof using Type.
  induction 1 as [|m l Hm _ IH]; [done|]. simpl. rewrite filter_cons. destruct (Z.eqb_spec m n) as [->|Hne].
  - rewrite decide_False by tauto. symmetry. apply filter_id. intros k Hk ->. done.
  - rewrite decide_True by done. by rewrite IH.
Qed.

Lemma InstallColumnCompactionItem_ok used cf :
  NoDup (compaction_files (sst_meta_ cf)) ->
  InstallColumnCompactionItem used cf =
    cf_set (set_compaction_files (sst_meta_ cf) (filter (fun n => n ∉ used) (compaction_files (sst_meta_ cf)))) (ptr_sst_ cf) cf.
Proof using Type.
  unfold InstallColumnCompactionItem. revert cf. induction used as [|n used IH]; intros cf Hnd; simpl.
  - rewrite filter_id by (intros ? ?; apply not_elem_of_nil). by destruct cf as [[] ? ?].
  - rewrite IH; simpl; rewrite erase_first_filter by done; [|by apply NoDup_filter]. unfold cf_set, set_compaction_files. simpl.
    do 2 f_equal. rewrite list_filter_filter. apply filter_ext_in. intros m _. rewrite not_elem_of_cons. tauto.
Qed.

(** The rows that are used up are those without a file afterwards. *)
Lemma used_up_numbers cf db rows :
  Forall (row_ok cf db) rows -> NoDup (numbers (row_file <$> rows)) ->
  filter (fun n => n ∉ used_up (filter gives rows)) (numbers (row_file <$> rows)) = numbers (omap after_row rows).
Proof using Type.
  intros Hok Hnd.
  assert (Hu : forall r, r ∈ rows -> (GetNumber (f_fd (row_file r)) ∈ used_up (filter gives rows) <-> after_row r = None)).
  { intros r Hr. unfold used_up. rewrite list_elem_of_fmap. split.
    - intros (r' & E & [Ha [_ Hr']%list_elem_of_filter]%list_elem_of_filter). rewrite Forall_forall in Hok.
      pose proof (fo_entry _ _ _ _ (rw_file _ _ _ (Hok r' Hr'))) as [_ En]. rewrite En in E. unfold numbers in Hnd.
      rewrite <- list_fmap_compose in Hnd. by rewrite (NoDup_fmap_eq _ rows r r' Hnd Hr Hr' E).
    - intros Ha. exists r. rewrite Forall_forall in Hok. pose proof (fo_entry _ _ _ _ (rw_file _ _ _ (Hok r Hr))) as [_ En].
      split; [done|]. apply list_elem_of_filter. split; [done|]. apply list_elem_of_filter. split; [|done].
      intros Hz. destruct r as [[[fe f] n] size]. simpl in *. subst n. done. }
  clear Hnd. revert Hu. generalize (used_up (filter gives rows)) as used. induction Hok as [|r rows Hr _ IH]; intros used Hu; [done|].
  rewrite fmap_cons. change (numbers (?f :: ?l)) with (GetNumber (f_fd f) :: numbers l). rewrite filter_cons. cbn [omap list_omap].
  specialize (IH used ltac:(intros r' Hr'; apply Hu; by right)). pose proof (Hu r ltac:(left)) as Hur.
  destruct (after_row r) as [g|] eqn:E; case_decide as Hd.
  - change (numbers (g :: ?l)) with (GetNumber (f_fd g) :: numbers l). rewrite IH.
    destruct (after_row_same cf db r g Hr E) as (Hk & _). by injection Hk as _ _ ->.
  - by apply Hur in Hd.
  - exfalso. apply Hd. by apply Hur.
  - exact IH.
Qed.

(** ** One column compaction *)

Lemma after_row_packed cf db r g :
  row_ok cf db r -> after_row r = Some g -> u64 (packed_number_and_path_id (f_fd g)).
Proof using Type.
  destruct r as [[[fe f] n] size]. intros [_ _ _ Hp]. simpl in *. destruct (Z.eqb_spec n 0); [by intros [= <-]|].
  destruct (_ =? keys_num fe); [done|]. destruct (keys_meta fe !z _) as [k|]; simpl; [|done]. intros [= <-]. simpl.
  pose proof (f_equal packed_number_and_path_id (FileDescriptor_make_Get (f_fd f) Hp)) as E. simpl in E. by rewrite E.
Qed.

Lemma delete_inputs_ok ins e :
  (forall k, (0, k) ∈ ve_deleted_files (delete_inputs true ins e) <-> (0, k) ∈ ve_deleted_files e) /\
  ve_new_files (delete_inputs true ins e) = ve_new_files e.
Proof using Type.
  unfold delete_inputs. revert e. induction ins as [|[level files] ins IH]; intros e; [done|]. simpl.
  destruct (Z.eqb_spec level 0) as [->|Hl]; [apply IH|].
  set (e1 := foldl _ e files). destruct (IH e1) as [H1 H2].
  assert (He : (forall k, (0, k) ∈ ve_deleted_files e1 <-> (0, k) ∈ ve_deleted_files e) /\ ve_new_files e1 = ve_new_files e).
  { subst e1. clear H1 H2 IH. revert e. induction files as [|f files IH]; intros e; [done|]. simpl.
    destruct (IH (DeleteFile level (GetNumber (f_fd f)) e)) as [H1 H2]. destruct e. simpl in *. split; [|done].
    intros k. rewrite H1, DeletedFileSet_insert_in. split; [|by right]. intros [[= ? _]|?]; [by subst|done]. }
  destruct He as [He1 He2]. split; [|by etrans].
  intros k. etrans; [apply H1|apply He1].
Qed.

Lemma AddInputDeletions_ok o cf db L0 L1 c pre rows ins :
  picks o cf db L0 L1 c pre rows ->
  exists e, AddInputDeletions ins (Some c) VersionEdit_Clear = Some (e, used_up (filter gives rows)) /\
    (forall k, (0, k) ∈ ve_deleted_files e <-> k ∈ numbers (row_file <$> filter gives rows)) /\
    new_in (ve_new_files e) 0 = omap after_row (filter gives rows).
Proof using Type.
  intros [_ _ Hok Hi _ _ _]. unfold AddInputDeletions. rewrite bool_decide_true by done. rewrite Hi. simpl.
  assert (Hg : Forall (row_ok cf db) (filter gives rows)) by (by apply Forall_filter).
  destruct (delete_items_ok cf db (filter gives rows) (delete_inputs true ins VersionEdit_Clear) [] Hg) as (e & -> & Hd & Hn & _).
  { apply Forall_forall. by intros r [? _]%list_elem_of_filter. }
  destruct (delete_inputs_ok ins VersionEdit_Clear) as [H1 H2]. exists e. split_and!; [done| |].
  - intros k. rewrite Hd, H1. simpl. rewrite elem_of_nil. split.
    + intros [[]|(r & [= ->] & Hr)%list_elem_of_fmap]. rewrite Forall_forall in Hg.
      destruct (fo_entry _ _ _ _ (rw_file _ _ _ (Hg r Hr))) as [_ ->]. by apply in_numbers, (list_elem_of_fmap_2 row_file).
    + intros (f & -> & (r & -> & Hr)%list_elem_of_fmap)%list_elem_of_fmap. right. apply list_elem_of_fmap. exists r.
      split; [|done]. rewrite Forall_forall in Hg. by destruct (fo_entry _ _ _ _ (rw_file _ _ _ (Hg r Hr))) as [_ ->].
  - rewrite Hn, H2. simpl. unfold new_in. rewrite filter_id; [by rewrite <- list_fmap_compose, list_fmap_id|].
    by intros x (g & -> & _)%list_elem_of_fmap.
Qed.

Lemma level2_overlap cf db vs L0 L1 L2 a b :
  column_ready cf db vs L0 L1 L2 -> exists ov, GetOverlappingInputs ucmp vs 2 (Some a) (Some b) (-1) true = Some ov.
Proof using Laws.
  intros [_ _ _ _ _ _ [Hf Hs] _]. destruct (Z.lt_ge_cases 2 (num_non_empty_levels_ vs)) as [Hlv|Hlv].
  - destruct (GetOverlappingInputs_ok ucmp vs 2 L2 (Some a) (Some b) (-1) true) as (mid & ns & -> & _);
      [lia|done|done|by left|]. by eexists.
  - unfold GetOverlappingInputs. destruct (Z.leb_spec (num_non_empty_levels_ vs) 2); [|lia]. by eexists.
Qed.

(** The inputs are set up unless a file of level 1 is in another compaction. *)
Lemma SetupColumnCompactionInputs_ok o cf db vs L0 L1 L2 :
  column_ready cf db vs L0 L1 L2 ->
  exists cf' c pre rows r, SetupColumnCompactionInputs ucmp o cf vs 1 = Some (cf', r) /\
    PickColumnCompaction ucmp o cf vs = Some (cf', Some c) /\ picks o cf' db L0 L1 c pre rows /\
    entries (sst_meta_ cf') = entries (sst_meta_ cf) /\ ptr_sst_ cf' = ptr_sst_ cf /\
    match r with
    | None => exists f, f ∈ L1 /\ f_being_compacted f = true
    | Some ci => ci_item ci = c
    end.
Proof using Laws.
  intros Hr. destruct (PickColumnCompaction_ok o cf db vs L0 L1 L2 Hr) as (cf' & c & pre & rows & Hp & Hpc & _ & Hptr & Hm).
  assert (He : entries (sst_meta_ cf') = entries (sst_meta_ cf)) by (rewrite Hm; done).
  unfold SetupColumnCompactionInputs. rewrite Hp. simpl.
  destruct (existsb f_being_compacted (L1compactionfiles c)) eqn:Hb.
  { exists cf', c, pre, rows, None. split_and!; try done. apply existsb_exists in Hb as (f & Hin & Hf).
    exists f. split; [|done]. apply (sublist_subseteq _ _ (pc_level1 _ _ _ _ _ _ _ _ Hpc)). by apply list_elem_of_In. }
  change (1 + 1) with 2. case_bool_decide as Hl1; cbn [mbind option_bind].
  - destruct (level2_overlap cf db vs L0 L1 L2 (L0smallest c) (L0largest c) Hr) as [ov ->]. simpl. by eexists _, _, _, _, _.
  - unfold GetRange. destruct (L1compactionfiles c) as [|f fs]; [done|].
    cbn [snd fst Z.eqb mbind option_bind range_of_two].
    match goal with |- context [GetOverlappingInputs _ _ _ (Some ?a) (Some ?b)] =>
      destruct (level2_overlap cf db vs L0 L1 L2 a b Hr) as [ov ->] end. simpl. by eexists _, _, _, _, _.
Qed.

(** What stays of level 0. *)
Definition left_after (pre : list FileMetaData) rows : list FileMetaData := pre ++ omap after_row rows.

(** The edit of a compaction and the end of it, against any level 0 that has only grown
    since the pick. *)
Lemma compaction_installed o cf db L0 L1 c pre rows ins extra :
  picks o cf db L0 L1 c pre rows -> version_ok db L0 ->
  NoDup (numbers (extra ++ L0)) -> StronglySorted (file_le icmp 0) (extra ++ L0) ->
  exists e used, AddInputDeletions ins (Some c) VersionEdit_Clear = Some (e, used) /\
    sort_files icmp 0 (edit_level e 0 (extra ++ L0)) = extra ++ left_after pre rows /\
    nvm_ok ucmp (InstallColumnCompactionItem used cf) db /\
    compaction_files (sst_meta_ (InstallColumnCompactionItem used cf)) = numbers (omap after_row rows).
Proof using Laws.
  intros Hp Hv Hnd Hs. destruct (AddInputDeletions_ok o cf db L0 L1 c pre rows ins Hp) as (e & He & Hd & Hn).
  destruct Hp as [Hok HL0 Hrows _ Hlist _ _]. exists e, (used_up (filter gives rows)). split; [done|].
  rewrite HL0, app_assoc in Hnd, Hs. split.
  { rewrite HL0, app_assoc. unfold left_after. rewrite app_assoc. by apply (edit_level0_ok icmp cf db). }
  assert (Hnd' : NoDup (numbers (row_file <$> rows))) by (rewrite numbers_app in Hnd; by apply NoDup_app in Hnd as (_ & _ & ?)).
  rewrite InstallColumnCompactionItem_ok by (by rewrite Hlist). split; [by apply nvm_ok_compaction|]. simpl.
  rewrite Hlist. by apply (used_up_numbers cf db).
Qed.

Lemma left_after_visible o cf db L0 L1 c pre rows :
  picks o cf db L0 L1 c pre rows ->
  mjoin (visible db <$> L0) ≡ₚ mjoin (row_records db <$> filter gives rows) ++ mjoin (visible db <$> left_after pre rows).
Proof using Type.
  intros [_ -> Hrows _ _ _ _]. unfold left_after. rewrite !fmap_app, !join_app, rows_giving_records.
  rewrite (rows_visible cf db rows Hrows). apply Permutation_app_swap_app.
Qed.

Lemma left_after_version o cf db L0 L1 c pre rows :
  picks o cf db L0 L1 c pre rows -> version_ok db L0 -> version_ok db (left_after pre rows).
Proof using Type. intros [_ -> Hrows _ _ _ _]. by apply (after_rows_version cf). Qed.

(** The iterators made for an item read the records that leave level 0. *)
Lemma column_iterators_ok o cf db L0 L1 c pre rows :
  picks o cf db L0 L1 c pre rows -> small_tables cf ->
  exists its, item_iterators cf (cc_files c) (L0compactionfiles c) (cc_keys_num c) = Some its /\
    unpositioned (buffer_over icmp) its (row_records db <$> filter gives rows).
Proof using Laws.
  intros [Hok _ Hrows Hi _ _ _] Hsm. destruct (item_rows_inv _ _ _ _ _ Hi) as (-> & Hm & Hn).
  apply item_iterators_ok; try done; [by apply Forall_filter|]. apply Forall_forall. by intros r [? _]%list_elem_of_filter.
Qed.

(** ** The merged input *)

Section Input.
Context {T : Type} (it1 : InternalIterator T) (over1 : T -> list (bytes * bytes) -> Z -> Prop) `{!ScanLaws icmp it1 over1}.

Abbreviation child := (EitherIter BufferIterator it1).
Abbreviation child_over := (either_over (buffer_over icmp) over1).

(** What [NewMergingIterator] returns, the empty iterator apart. *)
Definition InputIter : InternalIterator (_ + MergingIterator (_ + T)) := EitherIter child (MergingIter child icmp).

(** The iterator over level 1 is unpositioned, or absent. *)
Definition level1_over (level1 : option T) (recs : list (bytes * bytes)) : Prop :=
  match level1 with Some t => over1 t recs (-1) | None => recs = [] end.

Lemma NewMergingIterator_ok cs recss all :
  unpositioned child_over cs recss -> cs <> [] -> recs_sorted icmp all -> all ≡ₚ mjoin recss -> len cs < kMaxSizet ->
  exists s, NewMergingIterator child icmp cs false = Some (Some s) /\
    either_over child_over (merge_over child icmp child_over) s all (-1).
Proof using All.
  intros Hu Hne Hs Hp Hl. destruct cs as [|c1 [|c2 cs]]; [done|..].
  - exists (inl c1). split; [done|]. apply Forall2_cons_inv_l in Hu as (recs & rs & Hc & Hn & ->).
    apply Forall2_nil_inv_l in Hn as ->. simpl in Hp. rewrite app_nil_r in Hp. assert (all = recs) as ->; [|done].
    apply (StronglySorted_unique_strong (fun a b => Compare icmp a.1 b.1 < 0)); [|done|by eapply (sc_sorted (it := child))|done].
    intros x z _ _ H1 H2. apply (cmp_lt_gt icmp) in H2. lia.
  - destruct (MergingIterator_make_ok child icmp child_over (c1 :: c2 :: cs) recss all false Hu Hs Hp Hl) as (m & Hm & Ho).
    exists (inr m). split; [|done]. unfold NewMergingIterator. by rewrite Hm.
Qed.

Lemma column_input_ok o cf db L0 L1 c pre rows level1 recs1 all :
  picks o cf db L0 L1 c pre rows -> small_tables cf -> len rows + 1 < kMaxSizet ->
  level1_over level1 recs1 -> level1 <> None \/ filter gives rows <> [] ->
  recs_sorted icmp all -> all ≡ₚ mjoin (row_records db <$> filter gives rows) ++ recs1 ->
  exists s, MakeColumnCompactionInputIterator ucmp it1 cf c level1 = Some (Some s) /\
    either_over child_over (merge_over child icmp child_over) s all (-1).
Proof using All.
  intros Hp Hsm Hl H1 Hne Hs Hall. destruct (column_iterators_ok o cf db L0 L1 c pre rows Hp Hsm) as (its & Hits & Hu).
  unfold MakeColumnCompactionInputIterator, column_input_children. rewrite Hits. cbn [mbind option_bind].
  set (cs1 := match level1 with Some t => [inr t] | None => [] end).
  set (rs1 := match level1 with Some t => [recs1] | None => [] end).
  apply (NewMergingIterator_ok _ ((row_records db <$> filter gives rows) ++ rs1)); [| |done| |].
  - apply Forall2_app.
    + apply Forall2_fmap_l. eapply Forall2_impl; [exact Hu|]. done.
    + subst cs1 rs1. destruct level1; by repeat constructor.
  - subst cs1. apply Forall2_length in Hu. rewrite length_fmap in Hu. destruct level1; [by destruct its|].
    destruct Hne as [|Hne]; [done|]. destruct its; [|done]. by destruct (filter gives rows).
  - rewrite Hall, join_app. subst rs1. destruct level1; simpl in *; [by rewrite app_nil_r|by subst].
  - apply Forall2_length in Hu. rewrite length_fmap in Hu. unfold zlen in *. rewrite length_app, length_fmap.
    assert (length (filter gives rows) <= length rows)%nat by apply sublist_length, sublist_filter.
    subst cs1. destruct level1; simpl; lia.
Qed.
End Input.
End Compaction.

(** ** Rounds of compaction *)

Section Rounds.
Context (ucmp : Comparator) {Laws : ComparatorLaws ucmp}.
Implicit Types (cf : NvmCfModule) (db : list (Z * records)) (below : list (list FileMetaData) * Z).

Abbreviation icmp := (InternalKeyComparator ucmp).

(** A column compaction from its pick to its end, with the levels [below] level 0 and
    the number of non-empty levels: the module and level 0 afterwards. *)
Definition column_round (o : NvmCfOptions) cf (L0 : list FileMetaData) below : option (NvmCfModule * list FileMetaData) :=
  '(cf, r) ← SetupColumnCompactionInputs ucmp o cf (mkVS (L0 :: below.1) below.2) 1;
  match r with
  | None => Some (cf, L0)
  | Some ci =>
      '(e, used) ← AddInputDeletions (compaction_inputs_ ci) (Some (ci_item ci)) VersionEdit_Clear;
      Some (InstallColumnCompactionItem used cf, sort_files icmp 0 (edit_level e 0 L0))
  end.

(** Rounds until level 0 is empty, at most [n]; round [n] meets the levels [levels n]. *)
Fixpoint column_rounds (o : NvmCfOptions) (levels : nat -> list (list FileMetaData) * Z) (n : nat) cf
    (L0 : list FileMetaData) : option (NvmCfModule * list FileMetaData) :=
  match n, L0 with
  | O, _ | _, [] => Some (cf, L0)
  | S n, _ => '(cf, L0) ← column_round o cf L0 (levels n); column_rounds o levels n cf L0
  end.

(** The lower levels are in order and no file of level 1 is in another compaction. *)
Definition below_ok below : Prop :=
  exists L1 L2, level1_ok ucmp (mkVS ([] :: below.1) below.2) L1 /\
    below.1 !! 1%nat = Some L2 /\ level_sorted ucmp L2 /\ Forall (fun f => f_being_compacted f = false) L1.

(** Level 0 between two rounds. *)
Record between cf db (L0 : list FileMetaData) : Prop := {
  bt_nvm : nvm_ok ucmp cf db;
  bt_version : version_ok db L0;
  bt_fds : Forall (fun f => u64 (packed_number_and_path_id (f_fd f))) L0;
  bt_list : len (compaction_files (sst_meta_ cf)) <= len L0;
  bt_sorted : StronglySorted (file_le icmp 0) L0;
}.

Definition shown db (L0 : list FileMetaData) : nat := length (mjoin (visible db <$> L0)).

Lemma between_ready cf db L0 below :
  between cf db L0 -> L0 <> [] -> below_ok below ->
  exists L1 L2, column_ready ucmp cf db (mkVS (L0 :: below.1) below.2) L0 L1 L2 /\
    Forall (fun f => f_being_compacted f = false) L1.
Proof using Type.
  intros [] Hne (L1 & L2 & Hl1 & Hl2 & Hs & Hb). exists L1, L2. split; [|done]. constructor; try done.
  by destruct Hl1 as [Hf ? ? ? ?]; constructor.
Qed.

Lemma left_after_between o cf db L0 L1 c pre rows used :
  picks ucmp o cf db L0 L1 c pre rows -> between cf db L0 ->
  nvm_ok ucmp (InstallColumnCompactionItem used cf) db ->
  compaction_files (sst_meta_ (InstallColumnCompactionItem used cf)) = numbers (omap after_row rows) ->
  between (InstallColumnCompactionItem used cf) db (left_after pre rows).
Proof using Type.
  intros Hp [_ Hv Hfd _ Hs] Hnvm Hlist. pose proof (left_after_version ucmp o cf db L0 L1 c pre rows Hp Hv) as Hv'.
  destruct Hp as [_ HL0 Hrows _ _ _ _]. constructor; [done|done| | |].
  - rewrite HL0 in Hfd. apply Forall_app in Hfd as [Hpre _]. apply Forall_app. split; [done|]. apply Forall_forall.
    intros g (r & Hr & E)%list_elem_of_omap. rewrite Forall_forall in Hrows. by apply (after_row_packed cf db r); [apply Hrows|].
  - rewrite Hlist. unfold left_after, zlen, numbers. rewrite length_fmap, length_app. lia.
  - apply level0_sorted_keys. rewrite HL0 in Hs. apply level0_sorted_keys in Hs. eapply StronglySorted_sublist; [|exact Hs].
    unfold left_after. rewrite !fmap_app. apply sublist_app; [done|]. by apply (after_rows_keys cf db).
Qed.

(** A round that has a size to reach shrinks level 0. *)
Lemma column_round_ok o cf db L0 below :
  between cf db L0 -> L0 <> [] -> below_ok below -> 0 < have_L1_stop o ->
  exists cf' L0', column_round o cf L0 below = Some (cf', L0') /\ between cf' db L0' /\ (shown db L0' < shown db L0)%nat.
Proof using Laws.
  intros Hb Hne Hbelow Hstop. destruct (between_ready cf db L0 below Hb Hne Hbelow) as (L1 & L2 & Hr & Hbusy).
  destruct (SetupColumnCompactionInputs_ok ucmp o cf db _ L0 L1 L2 Hr) as (cf' & c & pre & rows & r & Hset & Hpick & Hp & He & Hptr & Hc).
  unfold column_round. rewrite Hset. cbn [mbind option_bind]. destruct r as [ci|].
  2: { destruct Hc as (f & Hf & Hfb). rewrite Forall_forall in Hbusy. by rewrite (Hbusy f Hf) in Hfb. }
  subst c. pose proof (bt_version _ _ _ Hb) as Hv.
  destruct (compaction_installed ucmp o cf' db L0 L1 (ci_item ci) pre rows (compaction_inputs_ ci) [] Hp Hv)
    as (e & used & Hadd & Hsort & Hnvm & Hlist).
  { apply (version_numbers_NoDup ucmp cf db); [by destruct Hb|done]. }
  { by destruct Hb. }
  rewrite Hadd. cbn [mbind option_bind]. change ([] ++ ?l) with l in Hsort. rewrite Hsort.
  eexists _, _. split; [done|]. split.
  - apply (left_after_between o cf' db L0 L1 (ci_item ci)); try done. destruct Hb as [_ _ Hfd _ Hs].
    destruct Hp as [Hok HL0 _ _ Hl _ _]. constructor; [done|done|done| |done].
    rewrite Hl, HL0. unfold zlen, numbers. rewrite length_fmap, length_app. lia.
  - unfold shown. rewrite (left_after_visible ucmp o cf' db L0 L1 (ci_item ci) pre rows Hp), length_app.
    pose proof (pc_gives _ _ _ _ _ _ _ _ _ Hp Hstop) as Hg. destruct (filter gives rows) as [|r0 grows] eqn:E; [done|].
    rewrite fmap_cons. cbn [mjoin list_join]. rewrite length_app.
    assert (Hr0 : r0 ∈ filter gives rows) by (rewrite E; left). apply list_elem_of_filter in Hr0 as [Hgr Hin].
    destruct Hp as [_ _ Hrows _ _ _ _]. rewrite Forall_forall in Hrows. destruct (Hrows r0 Hin) as [[_ _ Hl _ Hf] Hn Hfit _].
    unfold gives in Hgr. assert (0 < len (row_records db r0)); [|unfold zlen in *; lia].
    unfold row_records. rewrite item_records_len; lia.
Qed.

Lemma shown_zero cf db L0 : between cf db L0 -> shown db L0 = 0%nat -> L0 = [].
Proof using Type.
  intros [_ [_ Hf] _ _ _] H. destruct L0 as [|f L0]; [done|]. apply Forall_cons in Hf as [Hf _]. unfold shown in H.
  rewrite fmap_cons in H. cbn [mjoin list_join] in H. rewrite length_app in H. unfold visible at 1 in H. rewrite length_drop in H.
  unfold zlen in Hf. lia.
Qed.

Lemma column_rounds_end o levels n cf : column_rounds o levels n cf [] = Some (cf, []).
Proof using Type. by destruct n. Qed.

Lemma column_rounds_ok o levels db n cf L0 :
  between cf db L0 -> 0 < have_L1_stop o -> (forall n, below_ok (levels n)) -> (shown db L0 <= n)%nat ->
  exists cf', column_rounds o levels n cf L0 = Some (cf', []) /\ between cf' db [].
Proof using Laws.
  intros Hb Hstop Hl. revert cf L0 Hb. induction n as [|n IH]; intros cf L0 Hb Hn.
  { exists cf. rewrite (shown_zero cf db L0 Hb) by lia. split; [done|]. by rewrite <- (shown_zero cf db L0 Hb) by lia. }
  destruct L0 as [|f L0]; [by exists cf|].
  destruct (column_round_ok o cf db (f :: L0) (levels n) Hb ltac:(done) (Hl n) Hstop) as (cf1 & L01 & Hr & Hb1 & Hlt).
  destruct (IH cf1 L01 Hb1 ltac:(lia)) as (cf' & H & Hb'). exists cf'. split; [|done].
  cbn [column_rounds]. rewrite Hr. exact H.
Qed.
End Rounds.

(** ** Correctness of a column compaction *)

Section CompactionClaims.
Context (ucmp : Comparator) {Laws : ComparatorLaws ucmp}.
Implicit Types (cf : NvmCfModule) (db : list (Z * records)).

Abbreviation icmp := (InternalKeyComparator ucmp).

(** C3. A column compaction loses no record and invents none.  Its inputs are set up
    unless a file of level 1 is in another compaction; the edit that
    [AddInputDeletions] writes turns level 0, and any level 0 that newer tables
    [extra] were added to in the meantime, into the newer tables and what is left of
    the old ones in the same order; and the records level 0 showed are exactly those
    of the iterators made for the item together with those level 0 still shows.  The
    tables in NVM stay as they are, and the list of tables under compaction becomes the
    tail of the new level 0. *)
Theorem column_compaction_partition o cf db vs L0 L1 L2 extra :
  column_ready ucmp cf db vs L0 L1 L2 -> small_tables cf ->
  NoDup (numbers (extra ++ L0)) -> StronglySorted (file_le icmp 0) (extra ++ L0) ->
  exists cf' r, SetupColumnCompactionInputs ucmp o cf vs 1 = Some (cf', r) /\
    match r with
    | None => exists f, f ∈ L1 /\ f_being_compacted f = true
    | Some ci =>
        let c := ci_item ci in
        exists its given e used L0',
          item_iterators cf' (cc_files c) (L0compactionfiles c) (cc_keys_num c) = Some its /\
          unpositioned (buffer_over icmp) its given /\
          AddInputDeletions (compaction_inputs_ ci) (Some c) VersionEdit_Clear = Some (e, used) /\
          sort_files icmp 0 (edit_level e 0 (extra ++ L0)) = extra ++ L0' /\
          mjoin (visible db <$> L0) ≡ₚ mjoin given ++ mjoin (visible db <$> L0') /\
          version_ok db L0' /\ nvm_ok ucmp (InstallColumnCompactionItem used cf') db /\
          compaction_files (sst_meta_ (InstallColumnCompactionItem used cf')) `suffix_of` numbers L0'
    end.
Proof.
  intros Hr Hsm Hnd Hs. destruct (SetupColumnCompactionInputs_ok ucmp o cf db vs L0 L1 L2 Hr)
    as (cf' & c & pre & rows & r & Hset & _ & Hp & He & _ & Hc).
  exists cf', r. split; [done|]. destruct r as [ci|]; [|done]. simpl. subst c.
  assert (Hsm' : small_tables cf') by (unfold small_tables; by rewrite He).
  destruct (column_iterators_ok ucmp o cf' db L0 L1 (ci_item ci) pre rows Hp Hsm') as (its & Hits & Hu).
  destruct Hr as [_ Hv _ _ _ _ _ _].
  destruct (compaction_installed ucmp o cf' db L0 L1 (ci_item ci) pre rows (compaction_inputs_ ci) extra Hp Hv Hnd Hs)
    as (e & used & Hadd & Hsort & Hnvm & Hlist).
  exists its, (row_records db <$> filter gives rows), e, used, (left_after pre rows).
  split_and!; [done|done|done|done|by apply (left_after_visible ucmp o cf' db L0 L1 (ci_item ci))| |done|].
  - by apply (left_after_version ucmp o cf' db L0 L1 (ci_item ci)).
  - rewrite Hlist. exists (numbers pre). apply numbers_app.
Qed.

(** C22. The input of a column compaction: its inputs are set up unless a file of level 1 is in another compaction, and then the
    iterator made over the item's tables and the files of the output level yields, from SeekToFirst on, the records that the
    edit of the compaction takes away from level 0 (those that the tables it leaves there do not show any more) merged with
    those of the output level, all of them in the order of the internal keys and each once.  The internal keys are all
    different, and the size a pick goes for is positive. *)
Theorem column_input_merged {T} (it1 : InternalIterator T) over1 `{!ScanLaws icmp it1 over1} o cf db vs L0 L1 L2 extra :
  column_ready ucmp cf db vs L0 L1 L2 -> small_tables cf -> len L0 + 1 < kMaxSizet -> 0 < have_L1_stop o ->
  NoDup (numbers (extra ++ L0)) -> StronglySorted (file_le icmp 0) (extra ++ L0) ->
  exists cf' r, SetupColumnCompactionInputs ucmp o cf vs 1 = Some (cf', r) /\
    match r with
    | None => exists f, f ∈ L1 /\ f_being_compacted f = true
    | Some ci =>
        let c := ci_item ci in
        exists e used L0' given, AddInputDeletions (compaction_inputs_ ci) (Some c) VersionEdit_Clear = Some (e, used) /\
          sort_files icmp 0 (edit_level e 0 (extra ++ L0)) = extra ++ L0' /\
          mjoin (visible db <$> L0) ≡ₚ given ++ mjoin (visible db <$> L0') /\ version_ok db L0' /\
          forall level1 recs1 all, level1_over over1 level1 recs1 -> recs_sorted icmp all -> all ≡ₚ given ++ recs1 ->
            exists s s1, MakeColumnCompactionInputIterator ucmp it1 cf' c level1 = Some (Some s) /\
              it_SeekToFirst (InputIter ucmp it1) s = Some s1 /\ collect (InputIter ucmp it1) (length all) s1 = Some all
    end.
Proof.
  intros Hr Hsm Hl Hstop Hnd Hs. destruct (SetupColumnCompactionInputs_ok ucmp o cf db vs L0 L1 L2 Hr)
    as (cf' & c & pre & rows & r & Hset & _ & Hp & He & _ & Hc).
  exists cf', r. split; [done|]. destruct r as [ci|]; [|done]. simpl. subst c.
  assert (Hsm' : small_tables cf') by (unfold small_tables; by rewrite He). destruct Hr as [_ Hv _ _ _ _ _ _].
  destruct (compaction_installed ucmp o cf' db L0 L1 (ci_item ci) pre rows (compaction_inputs_ ci) extra Hp Hv Hnd Hs)
    as (e & used & Hadd & Hsort & _ & _).
  exists e, used, (left_after pre rows), (mjoin (row_records db <$> filter gives rows)).
  split_and!; [done|done|by apply (left_after_visible ucmp o cf' db L0 L1 (ci_item ci))|by apply (left_after_version ucmp o cf' db L0 L1 (ci_item ci))|].
  intros level1 recs1 all H1 Hsd Hall.
  destruct (column_input_ok ucmp it1 over1 o cf' db L0 L1 (ci_item ci) pre rows level1 recs1 all Hp Hsm') as (s & Hmake & Ho); try done.
  { destruct Hp as [_ -> _ _ _ _ _]. unfold zlen in *. rewrite length_app, length_fmap in Hl. lia. }
  { right. by apply (pc_gives _ _ _ _ _ _ _ _ _ Hp). }
  destruct (sc_first (it := InputIter ucmp it1) _ _ _ Ho) as (s1 & Hs1 & Ho1). exists s, s1. split_and!; [done|done|].
  rewrite (collect_from (InputIter ucmp it1) icmp _ (length all) s1 all 0 Ho1) by (unfold zlen; lia). done.
Qed.

(** C15. Column compactions drain level 0.  When the size a pick goes for is positive and
    no file of level 1 is in another compaction, every round picks at least one key;
    with no flush in between, as many rounds as level 0 shows records leave it empty,
    with no table left under compaction and every table in NVM intact. *)
Theorem column_rounds_drain o levels db cf L0 :
  between ucmp cf db L0 -> 0 < have_L1_stop o -> (forall n, below_ok ucmp (levels n)) ->
  exists cf', column_rounds ucmp o levels (shown db L0) cf L0 = Some (cf', []) /\
    compaction_files (sst_meta_ cf') = [] /\ nvm_ok ucmp cf' db.
Proof.
  intros Hb Hstop Hl. destruct (column_rounds_ok ucmp o levels db (shown db L0) cf L0 Hb Hstop Hl ltac:(lia)) as (cf' & H & [Hok _ _ Hlist _]).
  exists cf'. split_and!; [done| |done]. destruct (compaction_files (sst_meta_ cf')); [done|]. unfold zlen in Hlist. simpl in Hlist. lia.
Qed.
End CompactionClaims.

(** ** Small instances *)

Definition sample_column_file : FileMetaData :=
  let key u := AppendInternalKey [] (mkParsed [u] 5 kTypeValue) in
  new_file (FileDescriptor_make 1 0 100 1 2) (key Byte.x61) (key Byte.x62) false true 0 0 2 0 0 0.

Definition sample_below : list (list FileMetaData) * Z := ([[]; []], 1).

Lemma sample_between :
  exists cf, between BytewiseComparator cf [(1, fs_records sample_source)] [sample_column_file] /\ small_tables cf.
Proof.
  destruct sample_flushed as (cf & m & fe & Hok & Hsm & _).
  exists (cf_set (set_compaction_files (sst_meta_ cf) []) (ptr_sst_ cf) cf). split.
  - constructor; [by apply nvm_ok_compaction|split| |by vm_compute|].
    + change ([1] `sublist_of` [1]). done.
    + constructor; [by vm_compute|constructor].
    + constructor; [by vm_compute|constructor].
    + repeat constructor.
  - exact Hsm.
Qed.

Lemma sample_empty_sorted : level_sorted BytewiseComparator [].
Proof. split; intros; exfalso; by repeat match goal with H : [] !z _ = Some _ |- _ => apply zget_range in H; unfold zlen in H; simpl in H; lia end. Qed.

Lemma sample_below_ok : below_ok BytewiseComparator sample_below.
Proof.
  exists [], []. split_and!; [|done|apply sample_empty_sorted|done].
  constructor; [done|apply sample_empty_sorted|split; constructor|done|done].
Qed.

Lemma column_compaction_partition_witness :
  exists cf cf' r, SetupColumnCompactionInputs BytewiseComparator sample_pick_options cf
    (mkVS [[sample_column_file]; []; []] 1) 1 = Some (cf', r).
Proof.
  destruct sample_between as (cf & Hb & Hsm). exists cf.
  destruct (between_ready BytewiseComparator cf _ _ sample_below Hb ltac:(done) sample_below_ok) as (L1 & L2 & Hr & _).
  destruct (column_compaction_partition BytewiseComparator sample_pick_options cf _ _ _ L1 L2 [] Hr Hsm) as (cf' & r & H & _).
  - repeat constructor. by apply not_elem_of_nil.
  - repeat constructor.
  - exists cf', r. exact H.
Defined.

(** Level 1 has a file with one record, whose key is behind those of level 0. *)
Definition sample_output_file : FileMetaData := sample_file 4 Byte.x63 Byte.x63.
Definition sample_output_below : list (list FileMetaData) * Z := ([[sample_output_file]; []], 2).
Definition sample_output_recs : list (bytes * bytes) := [(boundary_key Byte.x63, [Byte.x39])].

Lemma sample_output_below_ok : below_ok BytewiseComparator sample_output_below.
Proof.
  exists [sample_output_file], []. split_and!; [|done|apply sample_empty_sorted|repeat constructor].
  constructor; [done| |split; repeat constructor; by vm_compute|by vm_compute|by vm_compute].
  split; intros i; [intros f [_ Hf]%zget_Some|intros j f g [H0 Hf]%zget_Some [H1 Hg]%zget_Some Hij].
  - destruct (Z.to_nat i) as [|m]; simpl in Hf; [injection Hf as <-; by vm_compute|done].
  - destruct (Z.to_nat i) as [|m] eqn:E; simpl in Hf; [|done]. destruct (Z.to_nat j) as [|m] eqn:E'; simpl in Hg; [lia|done].
Qed.

Definition sample_first : bytes * bytes := (AppendInternalKey [] (mkParsed [Byte.x61] 7 kTypeValue), [Byte.x31]).
Definition sample_second : bytes * bytes := (AppendInternalKey [] (mkParsed [Byte.x62] 6 kTypeDeletion), []).

(** Some of the two records of level 0 and the one of level 1 have an order. *)
Lemma sample_given_sorted given rest :
  fs_records sample_source ≡ₚ given ++ rest ->
  exists all, recs_sorted (InternalKeyComparator BytewiseComparator) all /\ all ≡ₚ given ++ sample_output_recs.
Proof.
  change (fs_records sample_source) with [sample_first; sample_second]. set (a := sample_first). set (b := sample_second). intros Hp.
  assert (Hnd : NoDup (given ++ rest)) by (rewrite <- Hp; apply NoDup_cons; split; [by intros H%list_elem_of_singleton|apply NoDup_singleton]).
  assert (Hin : forall r, r ∈ given -> r = a \/ r = b).
  { intros r Hr. assert (r ∈ [a; b]) as H by (rewrite Hp; apply elem_of_app; by left). set_solver. }
  apply NoDup_app in Hnd as (Hnd & _ & _). apply Permutation_length in Hp. rewrite length_app in Hp. simpl in Hp.
  destruct given as [|x [|y [|z given]]]; [|destruct (Hin x ltac:(left)) as [->| ->]| |simpl in Hp; lia].
  - exists sample_output_recs. split; [repeat constructor|done].
  - exists (a :: sample_output_recs). split; [repeat constructor; by vm_compute|done].
  - exists (b :: sample_output_recs). split; [repeat constructor; by vm_compute|done].
  - exists (a :: b :: sample_output_recs). split; [repeat constructor; by vm_compute|].
    apply NoDup_cons in Hnd as [Hxy _]. assert (x <> y) as Hne by (intros ->; apply Hxy; left).
    destruct (Hin x ltac:(left)) as [->| ->], (Hin y ltac:(right; left)) as [->| ->]; [by destruct Hne|done|apply Permutation_swap|by destruct Hne].
Qed.

Lemma column_input_merged_witness :
  let icmp := InternalKeyComparator BytewiseComparator in
  exists cf cf' ci e used L0' given all s s1,
    SetupColumnCompactionInputs BytewiseComparator sample_pick_options cf (mkVS [[sample_column_file]; [sample_output_file]; []] 2) 1 = Some (cf', Some ci) /\
    AddInputDeletions (compaction_inputs_ ci) (Some (ci_item ci)) VersionEdit_Clear = Some (e, used) /\
    sort_files icmp 0 (edit_level e 0 [sample_column_file]) = L0' /\
    fs_records sample_source ≡ₚ given ++ mjoin (visible [(1, fs_records sample_source)] <$> L0') /\ all ≡ₚ given ++ sample_output_recs /\
    MakeColumnCompactionInputIterator BytewiseComparator (ListIter icmp) cf' (ci_item ci) (Some (sample_output_recs, -1)) = Some (Some s) /\
    it_SeekToFirst (InputIter BytewiseComparator (ListIter icmp)) s = Some s1 /\
    collect (InputIter BytewiseComparator (ListIter icmp)) (length all) s1 = Some all.
Proof.
  intros icmp. destruct sample_between as (cf & Hb & Hsm). exists cf.
  destruct (between_ready BytewiseComparator cf _ _ sample_output_below Hb ltac:(done) sample_output_below_ok) as (L1 & L2 & Hr & Hnb).
  destruct (column_input_merged BytewiseComparator (ListIter icmp) (list_over icmp) (ScanLaws0 := list_scan_laws icmp)
    sample_pick_options cf _ _ _ L1 L2 [] Hr Hsm) as (cf' & r & Hset & H).
  - by vm_compute.
  - by vm_compute.
  - repeat constructor. by apply not_elem_of_nil.
  - repeat constructor.
  - destruct r as [ci|]. 2: { exfalso. destruct H as (f & Hf & Hc). rewrite Forall_forall in Hnb. specialize (Hnb f Hf). congruence. }
    destruct H as (e & used & L0' & given & Hadd & Hsort & Hperm & _ & H).
    change (mjoin (visible _ <$> [sample_column_file])) with (fs_records sample_source) in Hperm.
    destruct (sample_given_sorted given _ Hperm) as (all & Hs & Hall).
    destruct (H (Some (sample_output_recs, -1)) sample_output_recs all) as (s & s1 & H1 & H2 & H3); [split_and!; [done|repeat constructor|lia|by vm_compute]|done|done|].
    exists cf', ci, e, used, L0', given, all, s, s1. split_and!; [exact Hset|exact Hadd|exact Hsort|exact Hperm|exact Hall|exact H1|exact H2|exact H3].
Defined.

Lemma column_rounds_drain_witness :
  exists cf cf', column_rounds BytewiseComparator sample_pick_options (fun _ => sample_below) 2 cf [sample_column_file] = Some (cf', []).
Proof.
  destruct sample_between as (cf & Hb & _). exists cf.
  destruct (column_rounds_drain BytewiseComparator sample_pick_options (fun _ => sample_below) _ cf _ Hb) as (cf' & H & _).
  - by vm_compute.
  - intros _. apply sample_below_ok.
  - exists cf'. exact H.
Defined.
